(** * binder.h: an ordered, copy-on-write associative container

    A shallow embedding of [cxx::binder<K, V>] (src/binder.h):
    - [binder_data], the storage engine: a [std::list] of key/value pairs and
      a [std::map] from keys to list iterators;
    - the [std::shared_ptr] heap with its use counts;
    - [binder], the handle, with every public member function;
    - [const_iterator].

    Objects live in an explicit store: a handle is a variable holding a
    pointer into the heap of storage instances, so that sharing between
    copies and references returned by the non-const [read] alias exactly as
    they do in the program. *)

From stdpp Require Import gmap strings list fin_maps.

Set Default Proof Using "Type*".

(** ** Exceptions

    Every failure is a [std::invalid_argument]; the failures differ by their
    message only. *)

Inductive exn : Type :=
  | invalid_argument (what : string).

Global Instance exn_eq_dec : EqDecision exn.
Proof. solve_decision. Defined.

(** "binder is empty" (EmptyContainer) *)
Definition empty_binder : exn := invalid_argument "binder is empty".
(** "binder already contains entry with given key" (DuplicateKey) *)
Definition duplicate_key : exn :=
  invalid_argument "binder already contains entry with given key".
(** "binder doesn't contain previous entry" (KeyNotFound, for an anchor) *)
Definition missing_prev : exn :=
  invalid_argument "binder doesn't contain previous entry".
(** "note doesn't exist in binder" (KeyNotFound, for a key) *)
Definition missing_note : exn :=
  invalid_argument "note doesn't exist in binder".

(** Result of a member function of the storage engine: a value, an
    exception, or undefined behaviour. *)
Inductive res (A : Type) : Type :=
  | Val (a : A)
  | Exc (e : exn)
  | Undef.
Arguments Val {A} a.
Arguments Exc {A} e.
Arguments Undef {A}.

(** Addresses: of list nodes, of storage instances, and names of handle
    variables. *)
Definition node := nat.
Definition loc := nat.
Definition var := nat.

(** A [std::list] iterator designates a node or is past-the-end. *)
Inductive list_iterator : Type :=
  | It_node (n : node)
  | It_end.

Global Instance list_iterator_eq_dec : EqDecision list_iterator.
Proof. solve_decision. Defined.

Section storage.
Context {K : Type} `{Countable K} {V : Type}.

(** ** [std::list<std::pair<K, V>>]: nodes with an address, in order *)

Definition std_list : Type := list (node * (K * V)).

Definition list_begin (c : std_list) : list_iterator :=
  match c with
  | [] => It_end
  | y :: _ => It_node y.1
  end.

(** [++it] for [it] at node [n]; [None] when [n] is not a node of [c]. *)
Fixpoint list_next (c : std_list) (n : node) : option list_iterator :=
  match c with
  | [] => None
  | y :: c' => if decide (y.1 = n) then Some (list_begin c') else list_next c' n
  end.

(** [c.insert(pos, x)]: the new node goes before [pos]. *)
Fixpoint list_insert_before (pos : list_iterator) (x : node * (K * V))
    (c : std_list) : std_list :=
  match c with
  | [] => [x]
  | y :: c' =>
      if decide (pos = It_node y.1) then x :: y :: c'
      else y :: list_insert_before pos x c'
  end.

(** [c.erase(it)] for [it] at node [n]. *)
Fixpoint list_erase (n : node) (c : std_list) : std_list :=
  match c with
  | [] => []
  | y :: c' => if decide (y.1 = n) then c' else y :: list_erase n c'
  end.

(** The pair stored in node [n]. *)
Fixpoint list_at (c : std_list) (n : node) : option (K * V) :=
  match c with
  | [] => None
  | y :: c' => if decide (y.1 = n) then Some y.2 else list_at c' n
  end.

(** Assignment through a [V&] that designates the value of node [n]. *)
Fixpoint list_write (n : node) (v : V) (c : std_list) : std_list :=
  match c with
  | [] => []
  | y :: c' =>
      if decide (y.1 = n) then (y.1, (y.2.1, v)) :: c'
      else y :: list_write n v c'
  end.

(** Copy construction of a list: equal elements in fresh nodes, allocated
    from address [base] on. *)
Definition list_copy (base : node) (c : std_list) : std_list :=
  imap (λ i y, (base + i, y.2)) c.

(** [std::map::insert] and [emplace] keep an existing entry. *)
Definition map_emplace (k : K) (n : node) (m : gmap K node) : gmap K node :=
  match m !! k with
  | Some _ => m
  | None => <[k := n]> m
  end.

(** ** [binder_data] *)

Record binder_data : Type := mk_data {
  content : std_list;
  address : gmap K node
}.

(** [binder_data()] *)
Definition data_empty : binder_data := mk_data [] ∅.

(** [binder_data(binder_data const& rhs)]: the list is copied, the index is
    rebuilt by a loop over the new list. *)
Definition index_of (c : std_list) : gmap K node :=
  foldl (λ m y, map_emplace y.2.1 y.1 m) ∅ c.

Definition data_copy (base : node) (rhs : binder_data) : binder_data :=
  let c := list_copy base (content rhs) in
  mk_data c (index_of c).

(** [insert_front]; [n] is the address of the node [push_front] allocates.
    The handler around [address.emplace] only runs when the allocation in
    the map fails, which is outside this model. *)
Definition data_insert_front (n : node) (k : K) (v : V) (d : binder_data)
    : res binder_data :=
  if decide (is_Some (address d !! k)) then Exc duplicate_key
  else Val (mk_data ((n, (k, v)) :: content d) (map_emplace k n (address d))).

Definition data_insert_after (n : node) (prev_k k : K) (v : V)
    (d : binder_data) : res binder_data :=
  if decide (is_Some (address d !! k)) then Exc duplicate_key
  else match address d !! prev_k with
       | None => Exc missing_prev
       | Some p =>
           match list_next (content d) p with
           | None => Undef
           | Some prev_iter =>
               Val (mk_data (list_insert_before prev_iter (n, (k, v)) (content d))
                            (map_emplace k n (address d)))
           end
       end.

(** [remove()] *)
Definition data_remove (d : binder_data) : res binder_data :=
  if decide (address d = ∅) then Exc empty_binder
  else match content d with
       | [] => Undef
       | y :: _ => Val (mk_data (list_erase y.1 (content d)) (delete y.2.1 (address d)))
       end.

(** An argument of type [K const&], as a member function of [binder_data]
    receives it.  The reference is bound either to an object that is no
    part of this instance (a variable or a temporary of the caller, an
    object of another instance), given by its value, or to the value
    stored in node [n] of this list, which is what the references
    returned by [read] and by [operator*] designate.  A stored [V] is read
    as a key through [view]: the identity when [K] and [V] are one type,
    which is when such a reference can be passed at all.

    The distinction matters for [remove(K const&)] only, which reads its
    argument once more after it has erased a node.  The other member
    functions read their arguments while every node that was in the list
    at the call still is, so that they are given the values. *)
Inductive key_arg : Type :=
  | Outside (k : K)
  | Inside (n : node) (view : V → K).

(** The key read through the argument when the list is [c]; [None] when
    the node it is bound to is no node of [c] any more. *)
Definition key_of (a : key_arg) (c : std_list) : option K :=
  match a with
  | Outside k => Some k
  | Inside n view => (λ kv, view kv.2) <$> list_at c n
  end.

(** [remove(K const& k)]: [address.contains(k)] and [address.find(k)]
    read [k], [content.erase(iter)] destroys the node that [iter]
    designates, and [address.erase(k)] reads [k] again. *)
Definition data_remove_key (a : key_arg) (d : binder_data) : res binder_data :=
  match key_of a (content d) with
  | None => Undef
  | Some k =>
      match address d !! k with
      | None => Exc missing_note
      | Some n =>
          match list_at (content d) n with
          | None => Undef
          | Some _ =>
              let c := list_erase n (content d) in
              match key_of a c with
              | None => Undef
              | Some k' => Val (mk_data c (delete k' (address d)))
              end
          end
      end
  end.

(** [read]: the reference returned designates the value of a node. *)
Definition data_read (k : K) (d : binder_data) : res node :=
  match address d !! k with
  | None => Exc missing_note
  | Some n => Val n
  end.

(** [read_const], with the value the returned reference designates. *)
Definition data_read_const (k : K) (d : binder_data) : res V :=
  match address d !! k with
  | None => Exc missing_note
  | Some n =>
      match list_at (content d) n with
      | Some kv => Val kv.2
      | None => Undef
      end
  end.

Definition data_size (d : binder_data) : nat := length (content d).

Definition data_cbegin (d : binder_data) : list_iterator := list_begin (content d).
Definition data_cend (d : binder_data) : list_iterator := It_end.

End storage.

Arguments std_list : clear implicits.
Arguments key_arg : clear implicits.
Arguments binder_data K {_ _} V.

(** ** The store: [std::shared_ptr] control blocks and handle variables *)

Section handle.
Context {K : Type} `{Countable K} {V : Type}.

(** What [make_shared] allocates: the object and its use count. *)
Record block : Type := mk_block {
  obj : binder_data K V;
  use_count : nat
}.

(** The two members of a [binder]. [data_ptr = None] is [nullptr]. *)
Record binder : Type := mk_binder {
  data_ptr : option loc;
  read_called : bool
}.

(** [next] is the first address never handed out yet. *)
Record world : Type := mk_world {
  heap : gmap loc block;
  vars : gmap var binder;
  next : nat
}.

Definition empty_world : world := mk_world ∅ ∅ 0.

(** A member function returns, throws, or has undefined behaviour; in the
    first two cases the program goes on in the world it leaves. *)
Inductive outcome (A : Type) : Type :=
  | Ret (w : world) (a : A)
  | Throws (w : world) (e : exn)
  | UB.
Arguments Ret {A} w a.
Arguments Throws {A} w e.
Arguments UB {A}.

Definition M (A : Type) : Type := world → outcome A.

Definition ret {A} (a : A) : M A := λ w, Ret w a.
Definition bind {A B} (m : M A) (f : A → M B) : M B :=
  λ w, match m w with
       | Ret w' a => f a w'
       | Throws w' e => Throws w' e
       | UB => UB
       end.
Definition throw {A} (e : exn) : M A := λ w, Throws w e.
Definition undefined {A} : M A := λ _, UB.

Notation "x <- m ;; f" := (bind m (λ x, f))
  (at level 100, m at next level, right associativity).
Notation "m ;; f" := (bind m (λ _, f))
  (at level 100, right associativity).

(** *** Variables and objects *)

Definition get_var (h : var) : M binder :=
  λ w, match vars w !! h with
       | Some b => Ret w b
       | None => UB
       end.

Definition set_var (h : var) (b : binder) : M unit :=
  λ w, Ret (mk_world (heap w) (<[h := b]> (vars w)) (next w)) ().

Definition del_var (h : var) : M unit :=
  λ w, Ret (mk_world (heap w) (delete h (vars w)) (next w)) ().

Definition set_data_ptr (h : var) (p : option loc) : M unit :=
  b <- get_var h ;; set_var h (mk_binder p (read_called b)).

Definition set_read_called (h : var) (f : bool) : M unit :=
  b <- get_var h ;; set_var h (mk_binder (data_ptr b) f).

(** [*p] *)
Definition deref (l : loc) : M (binder_data K V) :=
  λ w, match heap w !! l with
       | Some blk => Ret w (obj blk)
       | None => UB
       end.

Definition store (l : loc) (d : binder_data K V) : M unit :=
  λ w, match heap w !! l with
       | Some blk =>
           Ret (mk_world (<[l := mk_block d (use_count blk)]> (heap w))
                         (vars w) (next w)) ()
       | None => UB
       end.

(** Allocation of [n] consecutive addresses. *)
Definition alloc (n : nat) : M nat :=
  λ w, Ret (mk_world (heap w) (vars w) (next w + n)) (next w).

(** *** [std::shared_ptr] *)

(** [p.use_count()] *)
Definition sp_use_count (p : option loc) (w : world) : nat :=
  match p with
  | None => 0
  | Some l => from_option use_count 0 (heap w !! l)
  end.

(** Copy construction of a [shared_ptr]: one more owner. *)
Definition heap_acquire (p : option loc) (hp : gmap loc block) : gmap loc block :=
  match p with
  | None => hp
  | Some l => alter (λ blk, mk_block (obj blk) (S (use_count blk))) l hp
  end.

Definition acquire (p : option loc) (w : world) : world :=
  mk_world (heap_acquire p (heap w)) (vars w) (next w).

(** Destruction or reset of a [shared_ptr]: one owner less, and the object
    is destroyed with its last owner. *)
Definition heap_release (p : option loc) (hp : gmap loc block) : gmap loc block :=
  match p with
  | None => hp
  | Some l =>
      match hp !! l with
      | None => hp
      | Some blk =>
          if decide (use_count blk ≤ 1) then delete l hp
          else <[l := mk_block (obj blk) (use_count blk - 1)]> hp
      end
  end.

Definition release (p : option loc) (w : world) : world :=
  mk_world (heap_release p (heap w)) (vars w) (next w).

Definition sp_copy (p : option loc) : M unit := λ w, Ret (acquire p w) ().
Definition sp_release (p : option loc) : M unit := λ w, Ret (release p w) ().

(** [std::make_shared<binder_data>()] *)
Definition make_shared : M loc :=
  l <- alloc 1 ;;
  λ w, Ret (mk_world (<[l := mk_block data_empty 1]> (heap w)) (vars w) (next w)) l.

(** [std::make_shared<binder_data>( *p )] *)
Definition make_shared_copy (p : option loc) : M loc :=
  match p with
  | None => undefined
  | Some l0 =>
      d <- deref l0 ;;
      l <- alloc 1 ;;
      base <- alloc (length (content d)) ;;
      λ w, Ret (mk_world (<[l := mk_block (data_copy base d) 1]> (heap w))
                         (vars w) (next w)) l
  end.

(** A local [shared_ptr] is destroyed when an exception leaves its scope. *)
Definition unwinding {A} (p : option loc) (m : M A) : M A :=
  λ w, match m w with
       | Ret w' a => Ret w' a
       | Throws w' e => Throws (release p w') e
       | UB => UB
       end.

(** [p->f(...)] for a member function [f] of [binder_data] that changes
    the object. *)
Definition call_data (p : option loc)
    (f : binder_data K V → res (binder_data K V)) : M unit :=
  match p with
  | None => undefined
  | Some l =>
      d <- deref l ;;
      match f d with
      | Val d' => store l d'
      | Exc e => throw e
      | Undef => undefined
      end
  end.

(** The same for a member function that allocates one list node once its
    tests have passed; it is given the address [n] of that node. *)
Definition call_data_new (p : option loc)
    (f : node → binder_data K V → res (binder_data K V)) : M unit :=
  match p with
  | None => undefined
  | Some l =>
      d <- deref l ;;
      n <- (λ w, Ret w (next w)) ;;
      match f n d with
      | Val d' => alloc 1 ;; store l d'
      | Exc e => throw e
      | Undef => undefined
      end
  end.

(** [this->data_ptr = p]: copy assignment of a [shared_ptr]. *)
Definition assign_data_ptr (h : var) (p : option loc) : M unit :=
  b <- get_var h ;;
  sp_copy p ;;
  set_data_ptr h p ;;
  sp_release (data_ptr b).

(** [this->data_ptr = std::move(tmp)]: the owner [tmp] becomes [data_ptr]. *)
Definition move_into_data_ptr (h : var) (tmp : option loc) : M unit :=
  b <- get_var h ;;
  set_data_ptr h tmp ;;
  sp_release (data_ptr b).

(** *** [binder] *)

Definition get_new_unique_shared (old_ptr : option loc) (cond : bool)
    : M (option loc) :=
  match old_ptr with
  | None => l <- make_shared ;; ret (Some l)
  | Some _ =>
      if cond then sp_copy old_ptr ;; ret old_ptr
      else l <- make_shared_copy old_ptr ;; ret (Some l)
  end.

(** [binder()] for a new variable [h]. *)
Definition binder_ctor (h : var) : M unit :=
  λ w, match vars w !! h with
       | Some _ => UB
       | None => set_var h (mk_binder None false) w
       end.

(** [~binder()] *)
Definition binder_dtor (h : var) : M unit :=
  move_into_data_ptr h None ;;
  del_var h.

(** [binder(binder const& rhs)] for a new variable [h]. *)
Definition binder_copy_ctor (h rhs : var) : M unit :=
  r <- get_var rhs ;;
  binder_ctor h ;;
  tmp <- (if read_called r
          then l <- make_shared_copy (data_ptr r) ;; ret (Some l)
          else sp_copy (data_ptr r) ;; ret (data_ptr r)) ;;
  move_into_data_ptr h tmp.

(** [binder(binder&& rhs)] for a new variable [h]: the member initialisers
    move [rhs.data_ptr] and copy [rhs.read_called]; the body assigns
    [nullptr] to [rhs.data_ptr]. *)
Definition binder_move_ctor (h rhs : var) : M unit :=
  r <- get_var rhs ;;
  λ w, match vars w !! h with
       | Some _ => UB
       | None =>
           (set_data_ptr rhs None ;;
            set_var h (mk_binder (data_ptr r) (read_called r)) ;;
            move_into_data_ptr rhs None) w
       end.

(** [operator=(binder const& rhs)] *)
Definition binder_copy_assign (h rhs : var) : M unit :=
  get_var h ;;
  r <- get_var rhs ;;
  tmp <- (if bool_decide (data_ptr r = None) || negb (read_called r)
          then sp_copy (data_ptr r) ;; ret (data_ptr r)
          else l <- make_shared_copy (data_ptr r) ;; ret (Some l)) ;;
  move_into_data_ptr h tmp ;;
  set_read_called h false.

(** [operator=(binder&& rhs)] *)
Definition binder_move_assign (h rhs : var) : M unit :=
  get_var h ;;
  r <- get_var rhs ;;
  set_data_ptr rhs None ;;
  move_into_data_ptr h (data_ptr r) ;;
  r' <- get_var rhs ;;
  set_read_called h (read_called r').

Definition binder_insert_front (h : var) (k : K) (v : V) : M unit :=
  b <- get_var h ;;
  c <- (λ w, Ret w (sp_use_count (data_ptr b) w)) ;;
  new_data_ptr <- get_new_unique_shared (data_ptr b) (bool_decide (c = 1)) ;;
  unwinding new_data_ptr
    (call_data_new new_data_ptr (λ n, data_insert_front n k v)) ;;
  set_read_called h false ;;
  assign_data_ptr h new_data_ptr ;;
  sp_release new_data_ptr.

Definition binder_insert_after (h : var) (prev_k k : K) (v : V) : M unit :=
  b <- get_var h ;;
  if bool_decide (data_ptr b = None) then throw empty_binder else
  c <- (λ w, Ret w (sp_use_count (data_ptr b) w)) ;;
  new_data_ptr <- get_new_unique_shared (data_ptr b) (bool_decide (c = 1)) ;;
  unwinding new_data_ptr
    (call_data_new new_data_ptr (λ n, data_insert_after n prev_k k v)) ;;
  set_read_called h false ;;
  assign_data_ptr h new_data_ptr ;;
  sp_release new_data_ptr.

(** The tail shared by the two [remove]s: an emptied instance is let go. *)
Definition release_if_empty (new_data_ptr : option loc) : M (option loc) :=
  match new_data_ptr with
  | None => undefined
  | Some l =>
      d <- deref l ;;
      if bool_decide (data_size d = 0)
      then sp_release new_data_ptr ;; ret None
      else ret new_data_ptr
  end.

Definition binder_remove (h : var) : M unit :=
  b <- get_var h ;;
  if bool_decide (data_ptr b = None) then throw empty_binder else
  c <- (λ w, Ret w (sp_use_count (data_ptr b) w)) ;;
  new_data_ptr <- get_new_unique_shared (data_ptr b) (bool_decide (c = 1)) ;;
  unwinding new_data_ptr (call_data new_data_ptr data_remove) ;;
  new_data_ptr <- release_if_empty new_data_ptr ;;
  set_read_called h false ;;
  assign_data_ptr h new_data_ptr ;;
  sp_release new_data_ptr.

(** A [V&]: the storage instance and the node whose value it designates. *)
Definition ref : Type := loc * node.

(** An argument of type [K const&] of [binder::remove]: the reference is
    bound to an object of the caller's own (a variable, a temporary),
    given by its value, or to the value that [r] designates in a storage
    instance, read as a key through [view]. *)
Inductive key_ref : Type :=
  | KeyObj (k : K)
  | KeyAt (r : ref) (view : V → K).

(** The argument as the instance at [l] receives it.  A call on [l]
    leaves the objects of the other instances alone, so that a reference
    into one of them is read when the call starts. *)
Definition pass_key (k : key_ref) (l : loc) : M (key_arg K V) :=
  match k with
  | KeyObj k => ret (Outside k)
  | KeyAt r view =>
      if decide (r.1 = l) then ret (Inside r.2 view)
      else d <- deref r.1 ;;
           match list_at (content d) r.2 with
           | Some kv => ret (Outside (view kv.2))
           | None => undefined
           end
  end.

(** [p->remove(k)] *)
Definition call_remove_key (p : option loc) (k : key_ref) : M unit :=
  match p with
  | None => undefined
  | Some l => a <- pass_key k l ;; call_data p (data_remove_key a)
  end.

Definition binder_remove_key (h : var) (k : key_ref) : M unit :=
  b <- get_var h ;;
  if bool_decide (data_ptr b = None) then throw empty_binder else
  c <- (λ w, Ret w (sp_use_count (data_ptr b) w)) ;;
  new_data_ptr <- get_new_unique_shared (data_ptr b) (bool_decide (c = 1)) ;;
  unwinding new_data_ptr (call_remove_key new_data_ptr k) ;;
  new_data_ptr <- release_if_empty new_data_ptr ;;
  set_read_called h false ;;
  assign_data_ptr h new_data_ptr ;;
  sp_release new_data_ptr.

(** [V& read(K const&)] *)
Definition binder_read (h : var) (k : K) : M ref :=
  b <- get_var h ;;
  if bool_decide (data_ptr b = None) then throw empty_binder else
  c <- (λ w, Ret w (sp_use_count (data_ptr b) w)) ;;
  new_data_ptr <- get_new_unique_shared (data_ptr b) (bool_decide (c = 1)) ;;
  match new_data_ptr with
  | None => undefined
  | Some l =>
      res <- unwinding new_data_ptr
               (d <- deref l ;;
                match data_read k d with
                | Val n => ret (l, n)
                | Exc e => throw e
                | Undef => undefined
                end) ;;
      assign_data_ptr h new_data_ptr ;;
      set_read_called h true ;;
      sp_release new_data_ptr ;;
      ret res
  end.

(** [r = v] for a reference [r] obtained from [read]. *)
Definition write_ref (r : ref) (v : V) : M unit :=
  d <- deref r.1 ;;
  match list_at (content d) r.2 with
  | None => undefined
  | Some _ => store r.1 (mk_data (list_write r.2 v (content d)) (address d))
  end.

(** [V const& read(K const&) const] *)
Definition binder_read_const (h : var) (k : K) : M V :=
  b <- get_var h ;;
  match data_ptr b with
  | None => throw empty_binder
  | Some l =>
      d <- deref l ;;
      match data_read_const k d with
      | Val v => ret v
      | Exc e => throw e
      | Undef => undefined
      end
  end.

(** [size()] *)
Definition binder_size (h : var) : M nat :=
  b <- get_var h ;;
  match data_ptr b with
  | None => ret 0
  | Some l => d <- deref l ;; ret (data_size d)
  end.

(** [clear()] *)
Definition binder_clear (h : var) : M unit :=
  move_into_data_ptr h None ;;
  set_read_called h false.

(** ** [const_iterator] *)

Record const_iterator : Type := mk_iter {
  list_iterator_ : option list_iterator;
  obj_ptr : option loc
}.

Global Instance const_iterator_eq_dec : EqDecision const_iterator.
Proof. solve_decision. Defined.

(** [const_iterator()] *)
Definition iter_default : const_iterator := mk_iter None None.

Definition binder_cbegin (h : var) : M const_iterator :=
  b <- get_var h ;;
  match data_ptr b with
  | None => ret iter_default
  | Some l => d <- deref l ;; ret (mk_iter (Some (data_cbegin d)) (Some l))
  end.

Definition binder_cend (h : var) : M const_iterator :=
  b <- get_var h ;;
  match data_ptr b with
  | None => ret iter_default
  | Some l => d <- deref l ;; ret (mk_iter (Some (data_cend d)) (Some l))
  end.

(** [operator==] *)
Definition iter_eq (a b : const_iterator) : bool :=
  bool_decide (obj_ptr a = obj_ptr b)
  && bool_decide (list_iterator_ a = list_iterator_ b).

(** [operator*] *)
Definition iter_deref (it : const_iterator) : M V :=
  match list_iterator_ it, obj_ptr it with
  | Some (It_node n), Some l =>
      d <- deref l ;;
      match list_at (content d) n with
      | Some kv => ret kv.2
      | None => undefined
      end
  | _, _ => undefined
  end.

(** [operator++] *)
Definition iter_incr (it : const_iterator) : M const_iterator :=
  match list_iterator_ it, obj_ptr it with
  | Some (It_node n), Some l =>
      d <- deref l ;;
      match list_next (content d) n with
      | Some it' => ret (mk_iter (Some it') (obj_ptr it))
      | None => undefined
      end
  | _, _ => undefined
  end.

(** [for (it = first; it != last; ++it) out.push_back( *it )], bounded by
    [fuel] steps. *)
Fixpoint iter_collect (fuel : nat) (first last : const_iterator) : M (list V) :=
  if iter_eq first last then ret []
  else match fuel with
       | 0 => undefined
       | S fuel' =>
           v <- iter_deref first ;;
           first' <- iter_incr first ;;
           vs <- iter_collect fuel' first' last ;;
           ret (v :: vs)
       end.

End handle.

Arguments block K {_ _} V.
Arguments key_ref : clear implicits.
Arguments world K {_ _} V.
Arguments outcome K {_ _} V A.
Arguments M K {_ _} V A.
Arguments Ret {K _ _ V A} w a.
Arguments Throws {K _ _ V A} w e.
Arguments UB {K _ _ V A}.
Arguments binder_data K {_ _} V.

Notation "x <- m ;; f" := (bind m (λ x, f))
  (at level 100, m at next level, right associativity).
Notation "m ;; f" := (bind m (λ _, f))
  (at level 100, right associativity).

(** ** Programs: sequences of calls on handle variables *)

Section programs.
Context {K : Type} `{Countable K} {V : Type}.

(** The key arguments of a call are objects of the caller's own.  A
    [remove] whose argument is a reference into a storage instance is
    [binder_remove_key] with [KeyAt]; when it returns or throws it leaves
    the world that the call with the key read through the reference
    leaves. *)
Inductive call : Type :=
  | Ctor (h : var)
  | Dtor (h : var)
  | CopyCtor (h rhs : var)
  | MoveCtor (h rhs : var)
  | CopyAssign (h rhs : var)
  | MoveAssign (h rhs : var)
  | InsertFront (h : var) (k : K) (v : V)
  | InsertAfter (h : var) (prev_k k : K) (v : V)
  | Remove (h : var)
  | RemoveKey (h : var) (k : K)
  | Read (h : var) (k : K)
  | ReadConst (h : var) (k : K)
  | Clear (h : var)
  | WriteRef (r : ref) (v : V).

Definition exec (c : call) : M K V unit :=
  match c with
  | Ctor h => binder_ctor h
  | Dtor h => binder_dtor h
  | CopyCtor h rhs => binder_copy_ctor h rhs
  | MoveCtor h rhs => binder_move_ctor h rhs
  | CopyAssign h rhs => binder_copy_assign h rhs
  | MoveAssign h rhs => binder_move_assign h rhs
  | InsertFront h k v => binder_insert_front h k v
  | InsertAfter h prev_k k v => binder_insert_after h prev_k k v
  | Remove h => binder_remove h
  | RemoveKey h k => binder_remove_key h (KeyObj k)
  | Read h k => binder_read h k ;; ret ()
  | ReadConst h k => binder_read_const h k ;; ret ()
  | Clear h => binder_clear h
  | WriteRef r v => write_ref r v
  end.

(** The world a call leaves, whether it returned or threw. *)
Definition after {A} (o : outcome K V A) : option (world K V) :=
  match o with
  | Ret w _ => Some w
  | Throws w _ => Some w
  | UB => None
  end.

Definition thrown {A} (o : outcome K V A) : option exn :=
  match o with
  | Throws _ e => Some e
  | _ => None
  end.

Definition returned {A} (o : outcome K V A) : option A :=
  match o with
  | Ret _ a => Some a
  | _ => None
  end.

(** A program that catches what is thrown and goes on. *)
Fixpoint run (cs : list call) (w : world K V) : option (world K V) :=
  match cs with
  | [] => Some w
  | c :: cs' =>
      match after (exec c w) with
      | Some w' => run cs' w'
      | None => None
      end
  end.

(** The worlds a program can be in. *)
Definition reachable (w : world K V) : Prop :=
  ∃ cs, run cs empty_world = Some w.

(** The mutations of one handle by calls on it: the four modifiers, the
    non-const [read], and [MReadWrite k v], which assigns through the
    reference that [read(k)] has just returned.  An assignment through a
    reference kept from earlier is [write_ref]. *)
Inductive mutation : Type :=
  | MInsertFront (k : K) (v : V)
  | MInsertAfter (prev_k k : K) (v : V)
  | MRemove
  | MRemoveKey (k : K)
  | MRead (k : K)
  | MReadWrite (k : K) (v : V).

Definition mutate (h : var) (m : mutation) : M K V unit :=
  match m with
  | MInsertFront k v => binder_insert_front h k v
  | MInsertAfter prev_k k v => binder_insert_after h prev_k k v
  | MRemove => binder_remove h
  | MRemoveKey k => binder_remove_key h (KeyObj k)
  | MRead k => binder_read h k ;; ret ()
  | MReadWrite k v => r <- binder_read h k ;; write_ref r v
  end.

Fixpoint mutate_all (h : var) (ms : list mutation) (w : world K V)
    : option (world K V) :=
  match ms with
  | [] => Some w
  | m :: ms' =>
      match after (mutate h m w) with
      | Some w' => mutate_all h ms' w'
      | None => None
      end
  end.

(** ** Observations *)

Definition nodes (c : std_list K V) : list node := c.*1.
Definition entries (c : std_list K V) : list (K * V) := c.*2.
Definition keys (c : std_list K V) : list K := (c.*2).*1.

(** The sequence of entries a pointer gives access to. *)
Definition entries_at (w : world K V) (p : option loc) : list (K * V) :=
  match p with
  | None => []
  | Some l => from_option (λ blk, entries (content (obj blk))) [] (heap w !! l)
  end.

(** What a handle shows: its entries, in iteration order. *)
Definition observe (w : world K V) (h : var) : option (list (K * V)) :=
  (λ b, entries_at w (data_ptr b)) <$> vars w !! h.

(** The handle a call is made on. *)
Definition subject (c : call) : option var :=
  match c with
  | Ctor h | Dtor h | CopyCtor h _ | MoveCtor h _ | CopyAssign h _
  | MoveAssign h _ | InsertFront h _ _ | InsertAfter h _ _ _ | Remove h
  | RemoveKey h _ | Read h _ | ReadConst h _ | Clear h => Some h
  | WriteRef _ _ => None
  end.

Definition exc_of {A} (r : res A) : option exn :=
  match r with
  | Exc e => Some e
  | _ => None
  end.

(** What the storage engine throws when the call is delegated to the
    instance [d]; [n] is the address a new node would get. *)
Definition engine_throws (c : call) (n : node) (d : binder_data K V) : option exn :=
  match c with
  | InsertFront _ k v => exc_of (data_insert_front n k v d)
  | InsertAfter _ prev_k k v => exc_of (data_insert_after n prev_k k v d)
  | Remove _ => exc_of (data_remove d)
  | RemoveKey _ k => exc_of (data_remove_key (Outside k) d)
  | Read _ k => exc_of (data_read k d)
  | ReadConst _ k => exc_of (data_read_const k d)
  | _ => None
  end.

(** Why a call on a handle that shows [es] fails with [e]. *)
Definition failure (c : call) (es : list (K * V)) (e : exn) : Prop :=
  match c with
  | InsertFront _ k _ => e = duplicate_key ∧ k ∈ es.*1
  | InsertAfter _ prev_k k _ =>
      (e = empty_binder ∧ es = [])
      ∨ (e = duplicate_key ∧ es ≠ [] ∧ k ∈ es.*1)
      ∨ (e = missing_prev ∧ es ≠ [] ∧ (k ∉ es.*1) ∧ (prev_k ∉ es.*1))
  | Remove _ => e = empty_binder ∧ es = []
  | RemoveKey _ k | Read _ k | ReadConst _ k =>
      (e = empty_binder ∧ es = [])
      ∨ (e = missing_note ∧ es ≠ [] ∧ (k ∉ es.*1))
  | _ => False
  end.

(** [k] comes right after [prev_k]. *)
Definition right_after (prev_k k : K) (es : list (K * V)) : Prop :=
  ∃ es1 pv v es2, es = es1 ++ (prev_k, pv) :: (k, v) :: es2.

(** An insertion that is not an insertion after [prev_k]. *)
Definition elsewhere (prev_k : K) (m : mutation) : Prop :=
  match m with
  | MInsertFront _ _ => True
  | MInsertAfter a _ _ => a ≠ prev_k
  | _ => False
  end.

(** Every handle but [h] is what it was and shows what it showed. *)
Definition frame (h : var) (w w' : world K V) : Prop :=
  ∀ h', h' ≠ h → vars w' !! h' = vars w !! h' ∧ observe w' h' = observe w h'.

(** Nothing visible has changed: only addresses were used up. *)
Definition unchanged (w w' : world K V) : Prop :=
  heap w' = heap w ∧ vars w' = vars w ∧ next w ≤ next w'.

(** ** Invariants *)

(** The index mirrors the sequence. *)
Record data_wf (d : binder_data K V) : Prop := mk_data_wf {
  wf_nodes : NoDup (nodes (content d));
  wf_keys : NoDup (keys (content d));
  wf_index : ∀ k n, address d !! k = Some n ↔ ∃ v, (n, (k, v)) ∈ content d
}.

(** The number of handle variables that point to [l]. *)
Definition owners (l : loc) (vs : gmap var binder) : nat :=
  length (filter (λ hb, data_ptr hb.2 = Some l) (map_to_list vs)).

(** 1 when the handle points to [l]. *)
Definition points (l : loc) (b : binder) : nat :=
  if decide (data_ptr b = Some l) then 1 else 0.

Record block_wf (w : world K V) (l : loc) (blk : block K V) : Prop := mk_block_wf {
  wf_data : data_wf (obj blk);
  wf_nonempty : content (obj blk) ≠ [];
  wf_count : use_count blk = owners l (vars w);
  wf_loc_next : l < next w;
  wf_nodes_next : Forall (λ n, n < next w) (nodes (content (obj blk)))
}.

Record world_wf (w : world K V) : Prop := mk_world_wf {
  wf_live : ∀ h b l, vars w !! h = Some b → data_ptr b = Some l →
                     is_Some (heap w !! l);
  wf_blocks : ∀ l blk, heap w !! l = Some blk → block_wf w l blk
}.

(** The instance of a handle whose flag is set has no other owner. *)
Definition flag_inv (w : world K V) : Prop :=
  ∀ h b l, vars w !! h = Some b → read_called b = true → data_ptr b = Some l →
           ∃ blk, heap w !! l = Some blk ∧ use_count blk = 1.

(** ** Closed forms of the effects on the world *)

(** The handle [h] lets go of its instance. *)
Definition drop (h : var) (w : world K V) : world K V :=
  match vars w !! h with
  | Some b =>
      mk_world (heap (release (data_ptr b) w))
               (<[h := mk_binder None (read_called b)]> (vars w)) (next w)
  | None => w
  end.

(** The handle [h] becomes the only owner of a new instance at [l]. *)
Definition install (h : var) (l : loc) (d : binder_data K V) (f : bool)
    (nx : nat) (w : world K V) : world K V :=
  mk_world (<[l := mk_block d 1]> (heap w))
           (<[h := mk_binder (Some l) f]> (vars w)) nx.

(** The handle [h], which holds nothing, becomes one more owner of [p]. *)
Definition share (h : var) (p : option loc) (f : bool) (w : world K V)
    : world K V :=
  mk_world (heap (acquire p w)) (<[h := mk_binder p f]> (vars w)) (next w).

Definition set_flag (h : var) (f : bool) (w : world K V) : world K V :=
  match vars w !! h with
  | Some b => mk_world (heap w) (<[h := mk_binder (data_ptr b) f]> (vars w)) (next w)
  | None => w
  end.

Definition set_next (nx : nat) (w : world K V) : world K V :=
  mk_world (heap w) (vars w) nx.

Definition new_var (h : var) (w : world K V) : world K V :=
  mk_world (heap w) (<[h := mk_binder None false]> (vars w)) (next w).

(** The instance a modifier works on: the handle's own when the handle is
    its only owner, a new one otherwise. *)
Definition in_place (w : world K V) (b : binder) : bool :=
  bool_decide (sp_use_count (data_ptr b) w = 1).

Definition cow_target (w : world K V) (b : binder) : loc :=
  match data_ptr b with
  | Some l => if in_place w b then l else next w
  | None => next w
  end.

Definition cow_data (w : world K V) (b : binder) : binder_data K V :=
  match data_ptr b with
  | Some l =>
      let d := from_option obj data_empty (heap w !! l) in
      if in_place w b then d else data_copy (next w + 1) d
  | None => data_empty
  end.

(** The argument of [remove] as the instance at [l] receives it. *)
Definition key_seen (w : world K V) (l : loc) (a : key_ref K V)
    : option (key_arg K V) :=
  match a with
  | KeyObj k => Some (Outside k)
  | KeyAt r view =>
      if decide (r.1 = l) then Some (Inside r.2 view)
      else match heap w !! r.1 with
           | Some blk =>
               (λ kv, Outside (view kv.2)) <$> list_at (content (obj blk)) r.2
           | None => None
           end
  end.

Definition cow_count (w : world K V) (b : binder) : nat :=
  if in_place w b then 2 else 1.

Definition cow_next (w : world K V) (b : binder) : nat :=
  match data_ptr b with
  | Some l =>
      if in_place w b then next w
      else next w + 1 + length (content (from_option obj data_empty (heap w !! l)))
  | None => next w + 1
  end.

End programs.

(** ** The other members of [const_iterator] *)

Section iterators.
Context {K : Type} `{Countable K} {V : Type}.

(** [const_iterator(const_iterator const& rhs)] *)
Definition iter_copy (rhs : const_iterator) : const_iterator :=
  mk_iter (list_iterator_ rhs) (obj_ptr rhs).

(** [operator!=] *)
Definition iter_ne (a b : const_iterator) : bool := negb (iter_eq a b).

(** [operator->]: the address of the value in the node designated. *)
Definition iter_arrow (it : const_iterator) : M K V ref :=
  match list_iterator_ it, obj_ptr it with
  | Some (It_node n), Some l =>
      d <- deref l ;;
      match list_at (content d) n with
      | Some _ => ret (l, n)
      | None => undefined
      end
  | _, _ => undefined
  end.

(** [*p] for the [V const*] that [operator->] returns. *)
Definition read_ptr (p : ref) : M K V V :=
  d <- deref p.1 ;;
  match list_at (content d) p.2 with
  | Some kv => ret kv.2
  | None => undefined
  end.

(** [operator++(int)]: a copy is made, the iterator steps, the copy is
    returned.  The result is the copy and the new value of [*this]. *)
Definition iter_post_incr (it : const_iterator)
    : M K V (const_iterator * const_iterator) :=
  let tmp := iter_copy it in
  it' <- iter_incr it ;;
  ret (tmp, it').

(** [for (it = first; it != last; it++) out.push_back( *(it.operator->()) )],
    bounded by [fuel] steps. *)
Fixpoint iter_collect_post (fuel : nat) (first last : const_iterator)
    : M K V (list V) :=
  if iter_ne first last then
    match fuel with
    | 0 => undefined
    | S fuel' =>
        p <- iter_arrow first ;;
        v <- read_ptr p ;;
        r <- iter_post_incr first ;;
        vs <- iter_collect_post fuel' r.2 last ;;
        ret (v :: vs)
    end
  else ret [].

End iterators.

(** ** Calls in scope, owners, and live use counts *)

Section scopes.
Context {K : Type} `{Countable K} {V : Type}.

(** A call that names handles as a program can: a constructor declares a
    new variable, every other member function is called on variables that
    are alive.  Assignments through references are not calls on a
    handle. *)
Definition scoped (c : @call K V) (w : world K V) : Prop :=
  match c with
  | Ctor h => vars w !! h = None
  | CopyCtor h rhs | MoveCtor h rhs =>
      vars w !! h = None ∧ is_Some (vars w !! rhs)
  | CopyAssign h rhs | MoveAssign h rhs =>
      is_Some (vars w !! h) ∧ is_Some (vars w !! rhs)
  | Dtor h | InsertFront h _ _ | InsertAfter h _ _ _ | Remove h
  | RemoveKey h _ | Read h _ | ReadConst h _ | Clear h =>
      is_Some (vars w !! h)
  | WriteRef _ _ => False
  end.

(** The handles whose members a call may change: the one it is made on
    and, for a move, its source. *)
Definition touched (c : @call K V) : list var :=
  match c with
  | MoveCtor h rhs | MoveAssign h rhs => [h; rhs]
  | Ctor h | Dtor h | CopyCtor h _ | CopyAssign h _ | InsertFront h _ _
  | InsertAfter h _ _ _ | Remove h | RemoveKey h _ | Read h _ | ReadConst h _
  | Clear h => [h]
  | WriteRef _ _ => []
  end.

(** The member functions that ask [get_new_unique_shared] for the
    instance to work on, with the handle they are called on. *)
Definition modifier (c : @call K V) : option var :=
  match c with
  | InsertFront h _ _ | InsertAfter h _ _ _ | Remove h | RemoveKey h _
  | Read h _ => Some h
  | _ => None
  end.

(** The handle [h] points to the instance at [l]. *)
Definition owns (w : world K V) (h : var) (l : loc) : Prop :=
  ∃ b, vars w !! h = Some b ∧ data_ptr b = Some l.

(** The key read through an argument of [remove] in the world [w];
    [None] when the reference designates no value of a live instance. *)
Definition key_value (w : world K V) (a : key_ref K V) : option K :=
  match a with
  | KeyObj k => Some k
  | KeyAt r view =>
      match heap w !! r.1 with
      | Some blk => (λ kv, view kv.2) <$> list_at (content (obj blk)) r.2
      | None => None
      end
  end.

(** The argument of a [remove] on [h] is bound to the value of the very
    entry it names, in an instance that [h] alone owns: the call works in
    place and erases the node that holds the object its argument is bound
    to. *)
Definition names_itself (w : world K V) (h : var) (a : key_ref K V) : bool :=
  match a with
  | KeyObj _ => false
  | KeyAt r view =>
      match vars w !! h, heap w !! r.1 with
      | Some b, Some blk =>
          bool_decide (data_ptr b = Some r.1)
          && bool_decide (use_count blk = 1)
          && match list_at (content (obj blk)) r.2 with
             | Some kv => bool_decide (view kv.2 = kv.1)
             | None => false
             end
      | _, _ => false
      end
  end.

(** No control block is kept with a use count of zero. *)
Definition counted (w : world K V) : Prop :=
  ∀ l blk, heap w !! l = Some blk → 0 < use_count blk.

End scopes.

(** ** Tactics: running a member function on a world given in closed form *)

Ltac munfold0 :=
  unfold bind, ret, throw, undefined, unwinding, get_var, set_var, del_var,
    set_data_ptr, set_read_called, deref, store, alloc, sp_copy, sp_release,
    assign_data_ptr, move_into_data_ptr, call_data, call_data_new, acquire,
    release.

Ltac munfold := munfold0; unfold heap_acquire, heap_release.

Ltac mlookup :=
  first
    [ rewrite lookup_insert_eq | rewrite lookup_alter_eq | rewrite lookup_delete_eq
    | rewrite lookup_insert_ne by (done || lia)
    | rewrite lookup_alter_ne by (done || lia)
    | rewrite lookup_delete_ne by (done || lia)
    | rewrite decide_True by (done || lia)
    | rewrite decide_False by (done || lia)
    | rewrite bool_decide_eq_true_2 by (done || lia)
    | rewrite bool_decide_eq_false_2 by (done || lia) ].

Ltac mrun_with tac :=
  repeat (first [ progress munfold | progress simpl | mlookup | tac ]).

(** The same, with the use counts left alone. *)
Ltac mrun0_with tac :=
  repeat (first [ progress munfold0 | progress simpl | mlookup | tac ]).

Ltac mnorm :=
  repeat first
    [ rewrite insert_insert_eq | rewrite insert_alter_eq | rewrite insert_delete_eq
    | rewrite delete_insert_eq ].

(** Equality of two maps built by insertions and deletions at [l1], [l2]. *)
Ltac map_cases l1 l2 :=
  apply map_eq; let i := fresh "i" in intros i;
  destruct (decide (i = l1)) as [->|?]; [by repeat mlookup|];
  destruct (decide (i = l2)) as [->|?]; by repeat mlookup.

(** Facts about the sample worlds that evaluation does not give. *)
Create HintDb samples discriminated.

(** A hypothesis on a concrete input is a fact of [samples], or is settled
    by arithmetic or by evaluation. *)
Ltac settle :=
  first
    [ solve [auto 1 with samples nocore]
    | lia
    | simpl; lia
    | vm_compute; reflexivity
    | left; vm_compute; reflexivity
    | vm_compute; lia
    | apply (bool_decide_unpack _); vm_compute; exact I
    | simpl; apply (bool_decide_unpack _); vm_compute; exact I
    | split; settle ].

(** ** Sample worlds: keys are strings, values numbers *)

Section sample_worlds.
Local Open Scope string_scope.

(** The world a call leaves. *)
Definition go {A} (o : outcome string nat A) : world string nat :=
  default empty_world (after o).

(** A handle [0] that shows b(2), a(1). *)
Definition stocked : world string nat :=
  default empty_world
    (run [Ctor 0; InsertFront 0 "a" 1; InsertFront 0 "b" 2] empty_world).

(** The same after [binder h1(h0)]. *)
Definition stocked_copied : world string nat :=
  default empty_world (after (binder_copy_ctor 1 0 stocked)).

(** The same after a failed [insert_front] of a key that is present. *)
Definition stocked_failed : world string nat :=
  default empty_world (after (binder_insert_front 0 "a" 9 stocked)).

(** [stocked] after [h0.read("a")], and the reference returned. *)
Definition stocked_read : world string nat := go (binder_read 0 "a" stocked).
Definition stocked_ref : ref :=
  default (0, 0) (returned (binder_read 0 "a" stocked)).

(** The members of a handle and the control block of its instance. *)
Definition members (w : world string nat) (h : var) : binder :=
  default (mk_binder None false) (vars w !! h).
Definition block_at (w : world string nat) (l : loc) : block string nat :=
  default (mk_block data_empty 0) (heap w !! l).

(** [stocked_copied] after [h1.insert_front("c", 3)]. *)
Definition copied_grown : world string nat :=
  go (binder_insert_front 1 "c" 3 stocked_copied).

(** The instance of [stocked], and the iterators of its handle. *)
Definition stocked_data : binder_data string nat := obj (block_at stocked 0).
Definition stocked_first : const_iterator :=
  default iter_default (returned (binder_cbegin 0 stocked_copied)).
Definition stocked_last : const_iterator :=
  default iter_default (returned (binder_cend 0 stocked_copied)).

(** [stocked_read] after [binder h1(h0)], and after [r = 30] for the
    reference [r] that [h0.read("a")] returned. *)
Definition read_copied : world string nat :=
  go (binder_copy_ctor 1 0 stocked_read).
Definition read_written : world string nat :=
  go (write_ref stocked_ref 30 stocked_read).

(** Keys and values of one type: a handle [0] that shows x(a), a(1),
    and the reference that [*h0.cbegin()] is, to the value "a" of the
    first entry. *)
Definition paired : world string string :=
  default empty_world
    (run [Ctor 0; InsertFront 0 "a" "1"; InsertFront 0 "x" "a"] empty_world).
Definition paired_ref : ref :=
  default (0, 0) (returned ((it <- binder_cbegin 0 ;; iter_arrow it) paired)).

(** The control block at [l], for keys and values of any type. *)
Definition block_of {K} `{Countable K} {V} (w : world K V) (l : loc)
    : block K V :=
  default (mk_block data_empty 0) (heap w !! l).

(** A handle [0] just constructed. *)
Definition blank : world string nat :=
  default empty_world (run [Ctor 0] empty_world).

(** A handle [0] that shows a(1) only. *)
Definition single : world string nat :=
  default empty_world (run [Ctor 0; InsertFront 0 "a" 1] empty_world).

End sample_worlds.
(** * Properties *)

(** ** The list and its index *)

Section list_facts.
Context {K : Type} `{Countable K} {V : Type}.
Implicit Types (c : std_list K V) (n : node) (k : K) (v : V).

Lemma keys_app c1 c2 : keys (c1 ++ c2) = keys c1 ++ keys c2.
Proof. unfold keys. by rewrite !fmap_app. Qed.

Lemma nodes_app c1 c2 : nodes (c1 ++ c2) = nodes c1 ++ nodes c2.
Proof. unfold nodes. by rewrite fmap_app. Qed.

Lemma entries_app c1 c2 : entries (c1 ++ c2) = entries c1 ++ entries c2.
Proof. unfold entries. by rewrite fmap_app. Qed.

Lemma elem_of_nodes n kv c : (n, kv) ∈ c → n ∈ nodes c.
Proof. intros Hin. unfold nodes. apply list_elem_of_fmap. by exists (n, kv). Qed.

Lemma elem_of_keys n k v c : (n, (k, v)) ∈ c → k ∈ keys c.
Proof.
  intros Hin. unfold keys. apply list_elem_of_fmap. exists (k, v). split; [done|].
  apply list_elem_of_fmap. by exists (n, (k, v)).
Qed.

Lemma keys_elem_of k c : k ∈ keys c → ∃ n v, (n, (k, v)) ∈ c.
Proof.
  unfold keys. intros Hin.
  apply list_elem_of_fmap in Hin as [[k' v] [-> Hin]].
  apply list_elem_of_fmap in Hin as [[n kv] [Heq Hin]].
  simpl in Heq. subst kv. by exists n, v.
Qed.

Lemma list_at_None c n : n ∉ nodes c → list_at c n = None.
Proof.
  induction c as [|y c IH]; [done|]. simpl. intros Hn.
  apply not_elem_of_cons in Hn as [Hne Hn].
  case_decide; [congruence|]. by apply IH.
Qed.

Lemma list_at_middle c1 n kv c2 :
  n ∉ nodes c1 → list_at (c1 ++ (n, kv) :: c2) n = Some kv.
Proof.
  induction c1 as [|y c1 IH]; simpl; intros Hn.
  - by rewrite decide_True.
  - apply not_elem_of_cons in Hn as [Hne Hn].
    rewrite decide_False by congruence. by apply IH.
Qed.

Lemma list_at_elem_of c n kv : list_at c n = Some kv → (n, kv) ∈ c.
Proof.
  induction c as [|[m x] c IH]; [done|]. simpl.
  case_decide; subst.
  - intros [= ->]. apply list_elem_of_here.
  - intros Hat. apply list_elem_of_further. by apply IH.
Qed.

Lemma elem_of_list_at c n kv : NoDup (nodes c) → (n, kv) ∈ c → list_at c n = Some kv.
Proof.
  intros Hnd Hin. apply list_elem_of_split in Hin as (c1 & c2 & ->).
  apply list_at_middle. rewrite nodes_app in Hnd.
  apply NoDup_app in Hnd as (_ & Hdis & _). intros Hn.
  apply (Hdis n Hn). simpl. apply list_elem_of_here.
Qed.

Lemma list_next_middle c1 n kv c2 :
  n ∉ nodes c1 → list_next (c1 ++ (n, kv) :: c2) n = Some (list_begin c2).
Proof.
  induction c1 as [|y c1 IH]; simpl; intros Hn.
  - by rewrite decide_True.
  - apply not_elem_of_cons in Hn as [Hne Hn].
    rewrite decide_False by congruence. by apply IH.
Qed.

Lemma list_insert_before_end x c :
  list_insert_before It_end x c = c ++ [x].
Proof.
  induction c as [|y c IH]; [done|]. simpl. by rewrite IH.
Qed.

Lemma list_insert_before_middle c1 y c2 x :
  y.1 ∉ nodes c1 →
  list_insert_before (It_node y.1) x (c1 ++ y :: c2) = c1 ++ x :: y :: c2.
Proof.
  induction c1 as [|z c1 IH]; simpl; intros Hn.
  - by rewrite decide_True.
  - apply not_elem_of_cons in Hn as [Hne Hn].
    rewrite decide_False by congruence. by rewrite IH.
Qed.

(** Inserting at the position that follows node [n] puts the new node right
    after [n]. *)
Lemma list_insert_after_middle c1 n kv c2 x :
  NoDup (nodes (c1 ++ (n, kv) :: c2)) →
  list_insert_before (list_begin c2) x (c1 ++ (n, kv) :: c2)
  = c1 ++ (n, kv) :: x :: c2.
Proof.
  intros Hnd. destruct c2 as [|y c2]; simpl.
  - rewrite list_insert_before_end. by rewrite <- app_assoc.
  - replace (c1 ++ (n, kv) :: y :: c2) with ((c1 ++ [(n, kv)]) ++ y :: c2)
      by (by rewrite <- app_assoc).
    rewrite list_insert_before_middle; [by rewrite <- app_assoc|].
    rewrite nodes_app in Hnd. apply NoDup_app in Hnd as (_ & Hdis & Hnd2).
    rewrite nodes_app. intros [Hin|Hin]%elem_of_app.
    + apply (Hdis _ Hin). simpl. apply list_elem_of_further, list_elem_of_here.
    + simpl in Hin. apply list_elem_of_singleton in Hin.
      simpl in Hnd2. apply NoDup_cons in Hnd2 as [Hnot _].
      apply Hnot. rewrite <- Hin. apply list_elem_of_here.
Qed.

Lemma list_erase_middle c1 n kv c2 :
  n ∉ nodes c1 → list_erase n (c1 ++ (n, kv) :: c2) = c1 ++ c2.
Proof.
  induction c1 as [|y c1 IH]; simpl; intros Hn.
  - by rewrite decide_True.
  - apply not_elem_of_cons in Hn as [Hne Hn].
    rewrite decide_False by congruence. by rewrite IH.
Qed.

Lemma list_write_middle c1 n k v0 v c2 :
  n ∉ nodes c1 →
  list_write n v (c1 ++ (n, (k, v0)) :: c2) = c1 ++ (n, (k, v)) :: c2.
Proof.
  induction c1 as [|y c1 IH]; simpl; intros Hn.
  - by rewrite decide_True.
  - apply not_elem_of_cons in Hn as [Hne Hn].
    rewrite decide_False by congruence. by rewrite IH.
Qed.

Lemma list_write_nodes n v c : nodes (list_write n v c) = nodes c.
Proof.
  unfold nodes. induction c as [|y c IH]; [done|]. simpl.
  case_decide; csimpl; [done|]. by rewrite IH.
Qed.

Lemma list_write_keys n v c : keys (list_write n v c) = keys c.
Proof.
  unfold keys. induction c as [|y c IH]; [done|]. simpl.
  case_decide; csimpl; [done|]. by rewrite IH.
Qed.

Lemma list_write_length n v c : length (list_write n v c) = length c.
Proof.
  induction c as [|y c IH]; [done|]. simpl. case_decide; simpl; [done|].
  by rewrite IH.
Qed.

Lemma list_write_elem_of n v c m k v' :
  (m, (k, v')) ∈ list_write n v c → ∃ v0, (m, (k, v0)) ∈ c.
Proof.
  induction c as [|[m0 [k0 v0]] c IH]; [by intros ?%elem_of_nil|].
  simpl. case_decide; simpl in *.
  - intros [Heq|Hin]%elem_of_cons.
    + injection Heq as -> -> ->. exists v0. apply list_elem_of_here.
    + exists v'. by apply list_elem_of_further.
  - intros [Heq|Hin]%elem_of_cons.
    + injection Heq as -> -> ->. exists v0. apply list_elem_of_here.
    + destruct (IH Hin) as [v1 Hv1]. exists v1. by apply list_elem_of_further.
Qed.

Lemma list_write_elem_of_inv n v c m k v0 :
  (m, (k, v0)) ∈ c → ∃ v', (m, (k, v')) ∈ list_write n v c.
Proof.
  induction c as [|[m0 [k0 v1]] c IH]; [by intros ?%elem_of_nil|].
  simpl. case_decide; simpl in *.
  - intros [Heq|Hin]%elem_of_cons.
    + injection Heq as -> -> ->. exists v. apply list_elem_of_here.
    + exists v0. by apply list_elem_of_further.
  - intros [Heq|Hin]%elem_of_cons.
    + injection Heq as -> -> ->. exists v1. apply list_elem_of_here.
    + destruct (IH Hin) as [v2 Hv2]. exists v2. by apply list_elem_of_further.
Qed.

(** A copy has the same entries, in nodes [base, base + 1, ...]. *)
Lemma list_copy_entries base c : entries (list_copy base c) = entries c.
Proof.
  unfold list_copy, entries. revert base.
  induction c as [|y c IH]; intros base; [done|]. csimpl. f_equal.
  rewrite <- (IH (S base)). f_equal. apply imap_ext. intros i x _. simpl.
  f_equal. lia.
Qed.

Lemma list_copy_nodes base c : nodes (list_copy base c) = seq base (length c).
Proof.
  unfold list_copy, nodes. revert base.
  induction c as [|y c IH]; intros base; [done|]. csimpl. f_equal; [lia|].
  rewrite <- (IH (S base)). f_equal. apply imap_ext. intros i x _. simpl.
  f_equal. lia.
Qed.

Lemma list_copy_keys base c : keys (list_copy base c) = keys c.
Proof.
  pose proof (list_copy_entries base c) as E. unfold entries in E.
  unfold keys. by rewrite E.
Qed.

Lemma list_copy_length base c : length (list_copy base c) = length c.
Proof. unfold list_copy. by rewrite length_imap. Qed.

(** The loop of the copy constructor: a key already indexed keeps its
    node. *)
Lemma index_fold_lookup c (m : gmap K node) k :
  foldl (λ m y, map_emplace y.2.1 y.1 m) m c !! k
  = match m !! k with
    | Some n => Some n
    | None => fst <$> list_find (λ y, y.2.1 = k) c ≫= λ iy, Some iy.2
    end.
Proof.
  revert m. induction c as [|[n [k' v]] c IH]; intros m; simpl.
  - by destruct (m !! k).
  - rewrite IH. unfold map_emplace. simpl.
    destruct (decide (k' = k)) as [->|Hne].
    + destruct (m !! k) eqn:Hm; [by rewrite Hm|].
      by rewrite lookup_insert_eq.
    + destruct (m !! k') eqn:Hm'.
      * destruct (m !! k); [done|].
        destruct (list_find _ c) as [[i y]|]; done.
      * rewrite lookup_insert_ne by done.
        destruct (m !! k); [done|].
        destruct (list_find _ c) as [[i y]|]; done.
Qed.

Lemma index_of_spec c k n :
  NoDup (keys c) →
  index_of c !! k = Some n ↔ ∃ v, (n, (k, v)) ∈ c.
Proof.
  intros Hnd. unfold index_of. rewrite index_fold_lookup, lookup_empty.
  induction c as [|[n' [k' v']] c IH]; simpl.
  - split; [done|]. intros [v Hin]. by apply elem_of_nil in Hin.
  - unfold keys in Hnd. simpl in Hnd. apply NoDup_cons in Hnd as [Hnot Hnd].
    destruct (decide (k' = k)) as [->|Hne]; simpl.
    + split.
      * intros [= ->]. exists v'. apply list_elem_of_here.
      * intros [v [Heq|Hin]%elem_of_cons]; [congruence|].
        exfalso. apply Hnot. by eapply (elem_of_keys n k v c).
    + specialize (IH Hnd).
      destruct (list_find _ c) as [[i y]|] eqn:Hfind; simpl in *.
      * rewrite IH. split; intros [v Hin]; exists v.
        -- by apply list_elem_of_further.
        -- apply elem_of_cons in Hin as [Heq|Hin]; [congruence|done].
      * rewrite IH. split; intros [v Hin]; exists v.
        -- by apply list_elem_of_further.
        -- apply elem_of_cons in Hin as [Heq|Hin]; [congruence|done].
Qed.

End list_facts.

(** ** The storage engine keeps its invariant *)

Section data_facts.
Context {K : Type} `{Countable K} {V : Type}.
Implicit Types (d : binder_data K V) (c : std_list K V) (n : node) (k : K) (v : V).

Lemma wf_index_keys d k : data_wf d → is_Some (address d !! k) ↔ k ∈ keys (content d).
Proof.
  intros Hwf. split.
  - intros [n Hn]. apply (wf_index d Hwf) in Hn as [v Hin]. by eapply elem_of_keys.
  - intros (n & v & Hin)%keys_elem_of. exists n. apply (wf_index d Hwf). by exists v.
Qed.

Lemma wf_index_None d k : data_wf d → address d !! k = None ↔ k ∉ keys (content d).
Proof.
  intros Hwf. rewrite <- (wf_index_keys d k Hwf), eq_None_not_Some. done.
Qed.

(** An entry of a well-formed sequence splits it at a place that no other
    node and no other key shares. *)
Lemma wf_split d n k v :
  data_wf d → (n, (k, v)) ∈ content d →
  ∃ c1 c2, content d = c1 ++ (n, (k, v)) :: c2
           ∧ (n ∉ nodes c1) ∧ (n ∉ nodes c2) ∧ (k ∉ keys c1) ∧ (k ∉ keys c2).
Proof.
  intros [Hn Hk _] Hin. apply list_elem_of_split in Hin as (c1 & c2 & Heq).
  exists c1, c2. split; [done|]. rewrite Heq in Hn, Hk.
  rewrite nodes_app in Hn. rewrite keys_app in Hk.
  apply NoDup_app in Hn as (_ & Hn1 & Hn2). apply NoDup_app in Hk as (_ & Hk1 & Hk2).
  unfold nodes, keys in *. csimpl in *.
  apply NoDup_cons in Hn2 as [Hn2 _]. apply NoDup_cons in Hk2 as [Hk2 _].
  repeat split; [|done| |done].
  - intros Hc. apply (Hn1 n Hc). apply list_elem_of_here.
  - intros Hc. apply (Hk1 k Hc). apply list_elem_of_here.
Qed.

Lemma data_empty_wf : data_wf (data_empty : binder_data K V).
Proof.
  split; simpl; [apply NoDup_nil_2..|].
  intros k n. rewrite lookup_empty. split; [done|].
  intros [v Hin]. by apply elem_of_nil in Hin.
Qed.

Lemma data_copy_content base d :
  entries (content (data_copy base d)) = entries (content d)
  ∧ nodes (content (data_copy base d)) = seq base (length (content d)).
Proof. simpl. by rewrite list_copy_entries, list_copy_nodes. Qed.

Lemma data_copy_wf base d : data_wf d → data_wf (data_copy base d).
Proof.
  intros Hwf. split; simpl.
  - rewrite list_copy_nodes. apply NoDup_seq.
  - rewrite list_copy_keys. apply (wf_keys d Hwf).
  - intros k n. apply index_of_spec. rewrite list_copy_keys. apply (wf_keys d Hwf).
Qed.

Lemma map_emplace_fresh k n (m : gmap K node) :
  m !! k = None → map_emplace k n m = <[k := n]> m.
Proof. intros Hm. unfold map_emplace. by rewrite Hm. Qed.

(** A new entry, anywhere in the sequence, with the index extended. *)
Lemma insert_wf d n k v c1 c2 :
  data_wf d → content d = c1 ++ c2 →
  n ∉ nodes (content d) → k ∉ keys (content d) →
  data_wf (mk_data (c1 ++ (n, (k, v)) :: c2) (<[k := n]> (address d))).
Proof.
  intros [Hn Hk Hi] Hc Hnn Hkk. rewrite Hc in *.
  rewrite nodes_app in Hn, Hnn. rewrite keys_app in Hk, Hkk.
  apply not_elem_of_app in Hnn as [Hn1 Hn2]. apply not_elem_of_app in Hkk as [Hk1 Hk2].
  apply NoDup_app in Hn as (Hna & Hnb & Hnc). apply NoDup_app in Hk as (Hka & Hkb & Hkc).
  split; simpl.
  - rewrite nodes_app. apply NoDup_app. split; [done|]. split.
    + intros x Hx [->|Hx2]%elem_of_cons; [done|]. by apply (Hnb x).
    + unfold nodes in *. csimpl. by apply NoDup_cons.
  - rewrite keys_app. apply NoDup_app. split; [done|]. split.
    + intros x Hx [->|Hx2]%elem_of_cons; [done|]. by apply (Hkb x).
    + unfold keys in *. csimpl. by apply NoDup_cons.
  - intros k' n'. destruct (decide (k = k')) as [<-|Hne].
    + rewrite lookup_insert_eq. split.
      * intros [= <-]. exists v. apply elem_of_app. right. apply list_elem_of_here.
      * intros [v' [Hin|Hin]%elem_of_app].
        -- exfalso. apply Hk1. by eapply elem_of_keys.
        -- apply elem_of_cons in Hin as [Heq|Hin]; [congruence|].
           exfalso. apply Hk2. by eapply elem_of_keys.
    + rewrite lookup_insert_ne by done. rewrite Hi. split; intros [v' Hin]; exists v'.
      * apply elem_of_app in Hin as [Hin|Hin]; apply elem_of_app; [by left|].
        right. by apply list_elem_of_further.
      * apply elem_of_app in Hin as [Hin|Hin]; apply elem_of_app; [by left|].
        apply elem_of_cons in Hin as [Heq|Hin]; [congruence|by right].
Qed.

(** An entry taken out, with its key taken out of the index. *)
Lemma erase_wf d n k v c1 c2 :
  data_wf d → content d = c1 ++ (n, (k, v)) :: c2 →
  data_wf (mk_data (c1 ++ c2) (delete k (address d))).
Proof.
  intros Hwf Hc. pose proof Hwf as [Hn Hk Hi]. rewrite Hc in *.
  rewrite nodes_app in Hn. rewrite keys_app in Hk.
  apply NoDup_app in Hn as (Hna & Hnb & Hnc). apply NoDup_app in Hk as (Hka & Hkb & Hkc).
  unfold nodes, keys in *. csimpl in *.
  apply NoDup_cons in Hnc as [Hn2 Hnc]. apply NoDup_cons in Hkc as [Hk2 Hkc].
  split; simpl.
  - rewrite nodes_app. apply NoDup_app. split; [done|]. split; [|done].
    intros x Hx Hx2. apply (Hnb x Hx). by apply list_elem_of_further.
  - rewrite keys_app. apply NoDup_app. split; [done|]. split; [|done].
    intros x Hx Hx2. apply (Hkb x Hx). by apply list_elem_of_further.
  - intros k' n'. destruct (decide (k = k')) as [<-|Hne].
    + rewrite lookup_delete_eq. split; [done|].
      intros [v' [Hin|Hin]%elem_of_app]; exfalso.
      * apply (Hkb k); [by eapply elem_of_keys|apply list_elem_of_here].
      * apply Hk2. by eapply (elem_of_keys n' k v' c2).
    + rewrite lookup_delete_ne by done. rewrite Hi. split; intros [v' Hin]; exists v'.
      * apply elem_of_app in Hin as [Hin|Hin]; apply elem_of_app; [by left|].
        apply elem_of_cons in Hin as [Heq|Hin]; [congruence|by right].
      * apply elem_of_app in Hin as [Hin|Hin]; apply elem_of_app; [by left|].
        right. by apply list_elem_of_further.
Qed.

Lemma write_wf d n v :
  data_wf d → data_wf (mk_data (list_write n v (content d)) (address d)).
Proof.
  intros [Hn Hk Hi]. split; simpl.
  - by rewrite list_write_nodes.
  - by rewrite list_write_keys.
  - intros k' n'. rewrite Hi. split; intros [v' Hin].
    + by eapply list_write_elem_of_inv.
    + by eapply list_write_elem_of.
Qed.

(** *** What each member function does to a well-formed instance *)

Lemma data_insert_front_spec n k v d :
  data_wf d → n ∉ nodes (content d) →
  match data_insert_front n k v d with
  | Val d' => (k ∉ keys (content d))
              ∧ content d' = (n, (k, v)) :: content d ∧ data_wf d'
  | Exc e => e = duplicate_key ∧ k ∈ keys (content d)
  | Undef => False
  end.
Proof.
  intros Hwf Hn. unfold data_insert_front. case_decide as Hk.
  - split; [done|]. by apply wf_index_keys.
  - rewrite wf_index_keys in Hk by done.
    rewrite map_emplace_fresh by (by apply wf_index_None).
    split; [done|]. split; [done|].
    by apply (insert_wf d n k v [] (content d)).
Qed.

Lemma data_insert_after_spec n prev_k k v d :
  data_wf d → n ∉ nodes (content d) →
  match data_insert_after n prev_k k v d with
  | Val d' =>
      (k ∉ keys (content d))
      ∧ (∃ c1 p pv c2,
           content d = c1 ++ (p, (prev_k, pv)) :: c2
           ∧ content d' = c1 ++ (p, (prev_k, pv)) :: (n, (k, v)) :: c2)
      ∧ data_wf d'
  | Exc e =>
      (e = duplicate_key ∧ k ∈ keys (content d))
      ∨ (e = missing_prev ∧ (k ∉ keys (content d)) ∧ (prev_k ∉ keys (content d)))
  | Undef => False
  end.
Proof.
  intros Hwf Hn. unfold data_insert_after. case_decide as Hk.
  - left. split; [done|]. by apply wf_index_keys.
  - rewrite wf_index_keys in Hk by done.
    destruct (address d !! prev_k) as [p|] eqn:Hp.
    + apply (wf_index d Hwf) in Hp as [pv Hin].
      destruct (wf_split d p prev_k pv Hwf Hin) as (c1 & c2 & Hc & Hp1 & _).
      assert (list_next (content d) p = Some (list_begin c2)) as ->
        by (rewrite Hc; by apply list_next_middle).
      assert (list_insert_before (list_begin c2) (n, (k, v)) (content d)
              = c1 ++ (p, (prev_k, pv)) :: (n, (k, v)) :: c2) as ->.
      { rewrite Hc. apply list_insert_after_middle. rewrite <- Hc.
        apply (wf_nodes d Hwf). }
      rewrite map_emplace_fresh by (by apply wf_index_None).
      split; [done|]. split; [by exists c1, p, pv, c2|].
      replace (c1 ++ (p, (prev_k, pv)) :: (n, (k, v)) :: c2)
        with ((c1 ++ [(p, (prev_k, pv))]) ++ (n, (k, v)) :: c2)
        by (by rewrite <- app_assoc).
      apply insert_wf; try done. by rewrite <- app_assoc.
    + right. split; [done|]. split; [done|]. by apply wf_index_None.
Qed.

Lemma wf_address_empty d : data_wf d → address d = ∅ ↔ content d = [].
Proof.
  intros Hwf. split.
  - intros He. destruct (content d) as [|[n [k v]] c] eqn:Hc; [done|].
    assert (address d !! k = Some n) as Hk.
    { apply (wf_index d Hwf). exists v. rewrite Hc. apply list_elem_of_here. }
    by rewrite He, lookup_empty in Hk.
  - intros Hc. apply map_eq. intros k. rewrite lookup_empty.
    apply (wf_index_None d k Hwf). rewrite Hc. apply not_elem_of_nil.
Qed.

Lemma data_remove_spec d :
  data_wf d →
  match data_remove d with
  | Val d' => (∃ y, content d = y :: content d') ∧ data_wf d'
  | Exc e => e = empty_binder ∧ content d = []
  | Undef => False
  end.
Proof.
  intros Hwf. unfold data_remove. case_decide as He.
  - split; [done|]. by apply wf_address_empty.
  - rewrite wf_address_empty in He by done.
    destruct (content d) as [|[n [k v]] c] eqn:Hc; [done|]. simpl.
    rewrite decide_True by done. split; [by eexists|].
    apply (erase_wf d n k v [] c Hwf Hc).
Qed.

Lemma data_remove_key_spec k d :
  data_wf d →
  match data_remove_key (Outside k) d with
  | Val d' =>
      (∃ c1 n v c2, content d = c1 ++ (n, (k, v)) :: c2 ∧ content d' = c1 ++ c2)
      ∧ data_wf d'
  | Exc e => e = missing_note ∧ k ∉ keys (content d)
  | Undef => False
  end.
Proof.
  intros Hwf. unfold data_remove_key. simpl.
  destruct (address d !! k) as [n|] eqn:Hk.
  - apply (wf_index d Hwf) in Hk as [v Hin].
    rewrite (elem_of_list_at _ _ _ (wf_nodes d Hwf) Hin).
    destruct (wf_split d n k v Hwf Hin) as (c1 & c2 & Hc & Hn1 & _).
    assert (list_erase n (content d) = c1 ++ c2) as ->
      by (rewrite Hc; by apply list_erase_middle).
    split; [by exists c1, n, v, c2|]. by eapply erase_wf.
  - split; [done|]. by apply wf_index_None.
Qed.

(** Erasing a node leaves the other nodes where they are. *)
Lemma list_at_erase_ne (c : std_list K V) n m :
  n ≠ m → list_at (list_erase m c) n = list_at c n.
Proof.
  intros Hne. induction c as [|y c IH]; [done|]. simpl.
  destruct (decide (y.1 = m)) as [Hm|Hm].
  - rewrite decide_False; [done|]. congruence.
  - simpl. by rewrite IH.
Qed.

Lemma list_at_erase_eq (c : std_list K V) n :
  NoDup (nodes c) → list_at (list_erase n c) n = None.
Proof.
  induction c as [|y c IH]; [done|]. unfold nodes. csimpl.
  intros [Hy Hnd]%NoDup_cons. destruct (decide (y.1 = n)) as [<-|Hn].
  - by apply list_at_None.
  - simpl. rewrite decide_False by done. by apply IH.
Qed.

(** [remove(k)] with [k] bound to the value stored in node [n]: when the
    key read is the key of node [n] itself, the node is erased and the
    argument read once more; otherwise the call does what it does for
    an argument of the caller's own with the same value. *)
Lemma data_remove_key_inside n view d kv :
  data_wf d → list_at (content d) n = Some kv →
  data_remove_key (Inside n view) d
  = if decide (address d !! view kv.2 = Some n) then Undef
    else data_remove_key (Outside (view kv.2)) d.
Proof.
  intros Hwf Hat. unfold data_remove_key. simpl. rewrite Hat. simpl.
  destruct (address d !! view kv.2) as [m|] eqn:Hk.
  - destruct (decide (m = n)) as [->|Hne].
    + rewrite decide_True by done. rewrite Hat.
      by rewrite (list_at_erase_eq _ _ (wf_nodes d Hwf)).
    + rewrite decide_False by congruence.
      destruct (list_at (content d) m); [|done].
      by rewrite (list_at_erase_ne _ _ _ (not_eq_sym Hne)), Hat.
  - by rewrite decide_False.
Qed.

Lemma data_remove_key_gone n view d :
  list_at (content d) n = None → data_remove_key (Inside n view) d = Undef.
Proof. intros Hat. unfold data_remove_key. simpl. by rewrite Hat. Qed.

(** The index gives node [n] for the key that node [n] holds, and for no
    other key. *)
Lemma wf_index_at d n k kv :
  data_wf d → list_at (content d) n = Some kv →
  address d !! k = Some n ↔ k = kv.1.
Proof.
  intros Hwf Hat. split.
  - intros [v Hv]%(wf_index d Hwf).
    pose proof (elem_of_list_at _ _ _ (wf_nodes d Hwf) Hv) as Hat'.
    rewrite Hat in Hat'. by injection Hat' as ->.
  - intros ->. apply (wf_index d Hwf). exists kv.2.
    apply list_at_elem_of in Hat. by destruct kv.
Qed.

Lemma data_read_spec k d :
  data_wf d →
  match data_read k d with
  | Val n => ∃ c1 v c2, content d = c1 ++ (n, (k, v)) :: c2 ∧ n ∉ nodes c1
  | Exc e => e = missing_note ∧ k ∉ keys (content d)
  | Undef => False
  end.
Proof.
  intros Hwf. unfold data_read.
  destruct (address d !! k) as [n|] eqn:Hk.
  - apply (wf_index d Hwf) in Hk as [v Hin].
    destruct (wf_split d n k v Hwf Hin) as (c1 & c2 & Hc & Hn1 & _).
    by exists c1, v, c2.
  - split; [done|]. by apply wf_index_None.
Qed.

Lemma data_read_const_spec k d :
  data_wf d →
  match data_read_const k d with
  | Val v => (k, v) ∈ entries (content d)
  | Exc e => e = missing_note ∧ k ∉ keys (content d)
  | Undef => False
  end.
Proof.
  intros Hwf. unfold data_read_const.
  destruct (address d !! k) as [n|] eqn:Hk.
  - apply (wf_index d Hwf) in Hk as [v Hin].
    rewrite (elem_of_list_at _ _ _ (wf_nodes d Hwf) Hin). simpl.
    unfold entries. apply list_elem_of_fmap. by exists (n, (k, v)).
  - split; [done|]. by apply wf_index_None.
Qed.

(** In a sequence without duplicate keys, the value of a key is unique. *)
Lemma entries_functional c k v1 v2 :
  NoDup (keys c) → (k, v1) ∈ entries c → (k, v2) ∈ entries c → v1 = v2.
Proof.
  unfold keys, entries. generalize (c.*2). clear c. intros l.
  induction l as [|[k' v'] l IH]; [by intros _ ?%elem_of_nil|].
  csimpl. intros [Hnot Hnd]%NoDup_cons [H1|H1]%elem_of_cons [H2|H2]%elem_of_cons.
  - congruence.
  - exfalso. apply Hnot. injection H1 as -> ->.
    apply list_elem_of_fmap. by exists (k', v2).
  - exfalso. apply Hnot. injection H2 as -> ->.
    apply list_elem_of_fmap. by exists (k', v1).
  - by apply IH.
Qed.

End data_facts.

(** ** Counting the owners of an instance *)

Section owners_facts.
Context {K : Type} `{Countable K} {V : Type}.
Implicit Types (vs : gmap var binder) (b : binder) (l : loc) (h : var).

Lemma owners_empty l : owners l ∅ = 0.
Proof. unfold owners. by rewrite map_to_list_empty. Qed.

Lemma owners_insert_fresh l h b vs :
  vs !! h = None → owners l (<[h := b]> vs) = points l b + owners l vs.
Proof.
  intros Hh. unfold owners, points.
  rewrite (Permutation_length
             (filter_Permutation _ _ _ (map_to_list_insert vs h b Hh))).
  rewrite filter_cons. simpl. by case_decide.
Qed.

Lemma owners_delete l h b vs :
  vs !! h = Some b → owners l vs = points l b + owners l (delete h vs).
Proof.
  intros Hh. rewrite <- (owners_insert_fresh l h b (delete h vs))
    by apply lookup_delete_eq.
  by rewrite insert_delete_id.
Qed.

Lemma owners_insert l h b vs :
  owners l (<[h := b]> vs) = points l b + owners l (delete h vs).
Proof.
  rewrite <- insert_delete_eq. apply owners_insert_fresh, lookup_delete_eq.
Qed.

(** Replacing the handle [h] changes the count by what [h] contributes. *)
Lemma owners_replace l h b b' vs :
  vs !! h = Some b →
  owners l (<[h := b']> vs) + points l b = owners l vs + points l b'.
Proof.
  intros Hh. rewrite owners_insert, (owners_delete l h b vs Hh). lia.
Qed.

Lemma owners_new l h b vs :
  vs !! h = None → data_ptr b = None → owners l (<[h := b]> vs) = owners l vs.
Proof.
  intros Hh Hb. rewrite owners_insert_fresh by done. unfold points.
  rewrite Hb. by rewrite decide_False.
Qed.

Lemma owners_pos l h b vs :
  vs !! h = Some b → data_ptr b = Some l → 1 ≤ owners l vs.
Proof.
  intros Hh Hb. rewrite (owners_delete l h b vs Hh). unfold points.
  rewrite decide_True by done. lia.
Qed.

Lemma owners_zero l h b vs :
  owners l vs = 0 → vs !! h = Some b → data_ptr b ≠ Some l.
Proof.
  intros H0 Hh Hb. pose proof (owners_pos l h b vs Hh Hb). lia.
Qed.

(** With a count of one, the owner is the only handle on the instance. *)
Lemma owners_one l h b h' b' vs :
  owners l vs = 1 → vs !! h = Some b → data_ptr b = Some l →
  h' ≠ h → vs !! h' = Some b' → data_ptr b' ≠ Some l.
Proof.
  intros H1 Hh Hb Hne Hh'. rewrite (owners_delete l h b vs Hh) in H1.
  unfold points in H1. rewrite decide_True in H1 by done.
  apply (owners_zero l h' b' (delete h vs)); [lia|].
  by rewrite lookup_delete_ne.
Qed.

Lemma points_None l b : data_ptr b = None → points l b = 0.
Proof. intros Hb. unfold points. rewrite Hb. by rewrite decide_False. Qed.

Lemma points_eq l b : data_ptr b = Some l → points l b = 1.
Proof. intros Hb. unfold points. by rewrite decide_True. Qed.

Lemma points_ne l l' b : data_ptr b = Some l' → l ≠ l' → points l b = 0.
Proof. intros Hb Hne. unfold points. rewrite Hb. rewrite decide_False; congruence. Qed.

Lemma points_same l b b' : data_ptr b' = data_ptr b → points l b' = points l b.
Proof. intros Hb. unfold points. by rewrite Hb. Qed.

End owners_facts.

(** ** The effects on the world keep its invariant *)

Section world_facts.
Context {K : Type} `{Countable K} {V : Type}.
Implicit Types (w : world K V) (b : binder) (l : loc) (h : var)
  (blk : block K V) (d : binder_data K V).

Lemma block_wf_mono w w' l blk blk' :
  block_wf w l blk → obj blk' = obj blk → next w ≤ next w' →
  use_count blk' = owners l (vars w') → block_wf w' l blk'.
Proof.
  intros [Hd Hne Hc Hl Hn] Ho Hnx Hc'. split; rewrite ?Ho; try done; [lia|].
  eapply Forall_impl; [done|]. simpl. intros; lia.
Qed.

Lemma wf_owned w h b l :
  world_wf w → vars w !! h = Some b → data_ptr b = Some l →
  ∃ blk, heap w !! l = Some blk ∧ block_wf w l blk ∧ 1 ≤ use_count blk.
Proof.
  intros Hwf Hh Hb. destruct (wf_live w Hwf h b l Hh Hb) as [blk Hblk].
  exists blk. pose proof (wf_blocks w Hwf l blk Hblk) as Hbw.
  split; [done|]. split; [done|]. rewrite (wf_count w l blk Hbw).
  by eapply owners_pos.
Qed.

Lemma wf_heap_fresh w l : world_wf w → next w ≤ l → heap w !! l = None.
Proof.
  intros Hwf Hl. destruct (heap w !! l) as [blk|] eqn:Hblk; [|done].
  pose proof (wf_loc_next w l blk (wf_blocks w Hwf l blk Hblk)). lia.
Qed.

Lemma wf_unowned w l h b :
  world_wf w → heap w !! l = None → vars w !! h = Some b → data_ptr b ≠ Some l.
Proof.
  intros Hwf Hl Hh Hb. destruct (wf_live w Hwf h b l Hh Hb) as [blk Hblk]. congruence.
Qed.

Lemma empty_world_wf : world_wf (empty_world : world K V).
Proof. split; simpl; intros *; by rewrite lookup_empty. Qed.

Lemma drop_null w h b :
  vars w !! h = Some b → data_ptr b = None → drop h w = w.
Proof.
  intros Hh Hb. unfold drop. rewrite Hh, Hb. simpl. destruct w as [hp vs nx].
  simpl in *. f_equal. apply insert_id. rewrite Hh. f_equal.
  destruct b; simpl in *; by subst.
Qed.

Lemma drop_wf w h : world_wf w → world_wf (drop h w).
Proof.
  intros Hwf. destruct (vars w !! h) as [b|] eqn:Hh;
    [|unfold drop; by rewrite Hh].
  destruct (data_ptr b) as [l|] eqn:Hb; [|by rewrite (drop_null w h b)].
  destruct (wf_owned w h b l Hwf Hh Hb) as (blk & Hblk & Hbw & Hpos).
  unfold drop, release, heap_release. simpl. rewrite Hh, Hb, Hblk. simpl.
  assert (∀ l', l' ≠ l →
    owners l' (<[h := mk_binder None (read_called b)]> (vars w)) = owners l' (vars w))
    as Hother.
  { intros l' Hne.
    pose proof (owners_replace l' h b (mk_binder None (read_called b)) _ Hh) as Ho.
    rewrite (points_ne l' l b), points_None in Ho by done. lia. }
  assert (owners l (<[h := mk_binder None (read_called b)]> (vars w))
          = use_count blk - 1) as Hthis.
  { pose proof (owners_replace l h b (mk_binder None (read_called b)) _ Hh) as Ho.
    rewrite (points_eq l b), points_None in Ho by done.
    rewrite (wf_count w l blk Hbw). lia. }
  case_decide as Hc; split; simpl.
  - intros h' b' l' Hh' Hb'. destruct (decide (h' = h)) as [->|Hne].
    { rewrite lookup_insert_eq in Hh'. injection Hh' as <-. done. }
    rewrite lookup_insert_ne in Hh' by done.
    assert (l' ≠ l) as Hl'.
    { intros ->. eapply (owners_one l h b h' b'); try done.
      rewrite <- (wf_count w l blk Hbw). lia. }
    rewrite lookup_delete_ne by done. by eapply wf_live.
  - intros l' blk' Hl'. destruct (decide (l' = l)) as [->|Hne].
    { by rewrite lookup_delete_eq in Hl'. }
    rewrite lookup_delete_ne in Hl' by done.
    eapply block_wf_mono; [by apply wf_blocks|done|done|].
    simpl. rewrite Hother by done. by apply wf_blocks.
  - intros h' b' l' Hh' Hb'. destruct (decide (h' = h)) as [->|Hne].
    { rewrite lookup_insert_eq in Hh'. injection Hh' as <-. done. }
    rewrite lookup_insert_ne in Hh' by done.
    destruct (decide (l' = l)) as [->|Hl']; [by rewrite lookup_insert_eq|].
    rewrite lookup_insert_ne by done. by eapply wf_live.
  - intros l' blk' Hl'. destruct (decide (l' = l)) as [->|Hne].
    { rewrite lookup_insert_eq in Hl'. injection Hl' as <-.
      eapply block_wf_mono; [exact Hbw|done|done|]. simpl. by rewrite Hthis. }
    rewrite lookup_insert_ne in Hl' by done.
    eapply block_wf_mono; [by apply wf_blocks|done|done|].
    simpl. rewrite Hother by done. by apply wf_blocks.
Qed.

Lemma drop_vars w h b :
  vars w !! h = Some b →
  vars (drop h w) = <[h := mk_binder None (read_called b)]> (vars w).
Proof. intros Hh. unfold drop. by rewrite Hh. Qed.

Lemma drop_next w h : next (drop h w) = next w.
Proof. unfold drop. by destruct (vars w !! h). Qed.

(** After [drop], an instance that [h] alone owned is gone. *)
Lemma drop_heap_unique w h b l blk :
  vars w !! h = Some b → data_ptr b = Some l → heap w !! l = Some blk →
  use_count blk = 1 → heap (drop h w) = delete l (heap w).
Proof.
  intros Hh Hb Hblk Hc. unfold drop, release, heap_release. simpl. rewrite Hh, Hb, Hblk. simpl.
  by rewrite decide_True by lia.
Qed.

Lemma drop_heap_shared w h b l blk :
  vars w !! h = Some b → data_ptr b = Some l → heap w !! l = Some blk →
  1 < use_count blk →
  heap (drop h w) = <[l := mk_block (obj blk) (use_count blk - 1)]> (heap w).
Proof.
  intros Hh Hb Hblk Hc. unfold drop, release, heap_release. simpl. rewrite Hh, Hb, Hblk. simpl.
  by rewrite decide_False by lia.
Qed.

Lemma drop_heap_fresh w h l :
  heap w !! l = None → heap (drop h w) !! l = None.
Proof.
  intros Hl. unfold drop. destruct (vars w !! h) as [b|]; [|done].
  unfold release, heap_release. simpl. destruct (data_ptr b) as [l0|]; [|done].
  destruct (heap w !! l0) as [blk|] eqn:Hblk; [|done].
  assert (l ≠ l0) by congruence.
  case_decide; simpl; by rewrite ?lookup_delete_ne, ?lookup_insert_ne.
Qed.

Lemma install_wf w h b l d f nx :
  world_wf w → vars w !! h = Some b → data_ptr b = None →
  heap w !! l = None → l < nx → next w ≤ nx →
  data_wf d → content d ≠ [] → Forall (λ n, n < nx) (nodes (content d)) →
  world_wf (install h l d f nx w).
Proof.
  intros Hwf Hh Hb Hl Hlt Hnx Hd Hne Hn.
  assert (∀ l', l' ≠ l →
    owners l' (<[h := mk_binder (Some l) f]> (vars w)) = owners l' (vars w))
    as Hother.
  { intros l' Hl'.
    pose proof (owners_replace l' h b (mk_binder (Some l) f) _ Hh) as Ho.
    rewrite (points_ne l' l (mk_binder (Some l) f)), (points_None l' b) in Ho by done.
      lia. }
  assert (owners l (vars w) = 0) as Hzero.
  { destruct (owners l (vars w)) as [|n] eqn:Ho; [done|].
    unfold owners in Ho.
    destruct (filter _ (map_to_list (vars w))) as [|[h' b'] r] eqn:Hf; [done|].
    assert ((h', b') ∈ filter (λ hb, data_ptr hb.2 = Some l) (map_to_list (vars w)))
      as Hin by (rewrite Hf; apply list_elem_of_here).
    apply list_elem_of_filter in Hin as [Hp Hin].
    apply elem_of_map_to_list in Hin.
    by destruct (wf_unowned w l h' b' Hwf Hl Hin). }
  split; simpl.
  - intros h' b' l' Hh' Hb'. destruct (decide (h' = h)) as [->|Hne'].
    { rewrite lookup_insert_eq in Hh'. injection Hh' as <-. simpl in Hb'.
      injection Hb' as <-. by rewrite lookup_insert_eq. }
    rewrite lookup_insert_ne in Hh' by done.
    destruct (decide (l' = l)) as [->|Hl']; [by rewrite lookup_insert_eq|].
    rewrite lookup_insert_ne by done. by eapply wf_live.
  - intros l' blk' Hl'. destruct (decide (l' = l)) as [->|Hne'].
    { rewrite lookup_insert_eq in Hl'. injection Hl' as <-.
      split; simpl; try done.
      pose proof (owners_replace l h b (mk_binder (Some l) f) _ Hh) as Ho.
      rewrite (points_eq l (mk_binder (Some l) f)), (points_None l b) in Ho by done. lia. }
    rewrite lookup_insert_ne in Hl' by done.
    eapply block_wf_mono; [by apply wf_blocks|done|done|].
    simpl. rewrite Hother by done. by apply wf_blocks.
Qed.

Lemma share_wf w h b p f :
  world_wf w → vars w !! h = Some b → data_ptr b = None →
  (∀ l, p = Some l → is_Some (heap w !! l)) →
  world_wf (share h p f w).
Proof.
  intros Hwf Hh Hb Hp. destruct p as [l|].
  - destruct (Hp l eq_refl) as [blk Hblk].
    pose proof (wf_blocks w Hwf l blk Hblk) as Hbw.
    assert (∀ l', l' ≠ l →
      owners l' (<[h := mk_binder (Some l) f]> (vars w)) = owners l' (vars w))
      as Hother.
    { intros l' Hl'.
      pose proof (owners_replace l' h b (mk_binder (Some l) f) _ Hh) as Ho.
      rewrite (points_ne l' l (mk_binder (Some l) f)), (points_None l' b) in Ho by done.
      lia. }
    split; simpl.
    + intros h' b' l' Hh' Hb'. rewrite lookup_alter_is_Some.
      destruct (decide (h' = h)) as [->|Hne'].
      { rewrite lookup_insert_eq in Hh'. injection Hh' as <-. simpl in Hb'.
        injection Hb' as <-. by rewrite Hblk. }
      rewrite lookup_insert_ne in Hh' by done. by eapply wf_live.
    + intros l' blk' Hl'. destruct (decide (l' = l)) as [->|Hne'].
      { rewrite lookup_alter_eq, Hblk in Hl'. injection Hl' as <-.
        eapply block_wf_mono; [exact Hbw|done|done|]. simpl.
        pose proof (owners_replace l h b (mk_binder (Some l) f) _ Hh) as Ho.
        rewrite (points_eq l (mk_binder (Some l) f)), (points_None l b) in Ho by done.
        rewrite (wf_count w l blk Hbw). lia. }
      rewrite lookup_alter_ne in Hl' by done.
      eapply block_wf_mono; [by apply wf_blocks|done|done|].
      simpl. rewrite Hother by done. by apply wf_blocks.
  - split; simpl.
    + intros h' b' l' Hh' Hb'. destruct (decide (h' = h)) as [->|Hne'].
      { rewrite lookup_insert_eq in Hh'. by injection Hh' as <-. }
      rewrite lookup_insert_ne in Hh' by done. by eapply wf_live.
    + intros l' blk' Hl'.
      eapply block_wf_mono; [by apply wf_blocks|done|done|]. simpl.
      pose proof (owners_replace l' h b (mk_binder None f) _ Hh) as Ho.
      rewrite !points_None in Ho by done.
      rewrite (wf_count w l' blk' (wf_blocks w Hwf l' blk' Hl')). lia.
Qed.

(** A change of the variables that changes no pointer. *)
Lemma vars_wf w h b b' :
  world_wf w → (vars w !! h = Some b ∨ (vars w !! h = None ∧ data_ptr b = None)) →
  data_ptr b' = data_ptr b →
  world_wf (mk_world (heap w) (<[h := b']> (vars w)) (next w)).
Proof.
  intros Hwf Hh Hb.
  assert (∀ l, owners l (<[h := b']> (vars w)) = owners l (vars w)) as Hsame.
  { intros l. destruct Hh as [Hh|[Hh Hn]].
    - pose proof (owners_replace l h b b' _ Hh) as Ho.
      rewrite (points_same l b b') in Ho by done. lia.
    - apply owners_new; [done|congruence]. }
  split; simpl.
  - intros h' b'' l' Hh' Hb'. destruct (decide (h' = h)) as [->|Hne'].
    + rewrite lookup_insert_eq in Hh'. injection Hh' as <-.
      destruct Hh as [Hh|[Hh Hn]]; [|congruence].
      eapply (wf_live w Hwf h b); [done|congruence].
    + rewrite lookup_insert_ne in Hh' by done. by eapply wf_live.
  - intros l' blk' Hl'.
    eapply block_wf_mono; [by apply wf_blocks|done|done|]. simpl.
    rewrite Hsame. by apply wf_blocks.
Qed.

Lemma set_flag_wf w h f : world_wf w → world_wf (set_flag h f w).
Proof.
  intros Hwf. unfold set_flag. destruct (vars w !! h) as [b|] eqn:Hh; [|done].
  apply (vars_wf w h b); auto.
Qed.

Lemma set_next_wf w nx : world_wf w → next w ≤ nx → world_wf (set_next nx w).
Proof.
  intros Hwf Hnx. split; simpl.
  - apply (wf_live w Hwf).
  - intros l blk Hl. eapply block_wf_mono; [by apply wf_blocks|done|by simpl|].
    simpl. by apply wf_blocks.
Qed.

Lemma del_var_wf w h b :
  world_wf w → vars w !! h = Some b → data_ptr b = None →
  world_wf (mk_world (heap w) (delete h (vars w)) (next w)).
Proof.
  intros Hwf Hh Hb. split; simpl.
  - intros h' b' l' Hh' Hb'. apply lookup_delete_Some in Hh' as [_ Hh'].
    by eapply wf_live.
  - intros l' blk' Hl'.
    eapply block_wf_mono; [by apply wf_blocks|done|done|]. simpl.
    rewrite (wf_count w l' blk' (wf_blocks w Hwf l' blk' Hl')).
    rewrite (owners_delete l' h b (vars w) Hh), points_None by done. lia.
Qed.

(** Ownership moves from [rhs] to [h], which holds nothing. *)
Lemma transfer_wf w h rhs b r f :
  world_wf w → h ≠ rhs → vars w !! h = Some b → data_ptr b = None →
  vars w !! rhs = Some r →
  world_wf (mk_world (heap w)
              (<[h := mk_binder (data_ptr r) f]>
                 (<[rhs := mk_binder None (read_called r)]> (vars w)))
              (next w)).
Proof.
  intros Hwf Hne Hh Hb Hr.
  assert (∀ l, owners l (<[h := mk_binder (data_ptr r) f]>
                 (<[rhs := mk_binder None (read_called r)]> (vars w)))
               = owners l (vars w)) as Hsame.
  { intros l.
    pose proof (owners_replace l rhs r (mk_binder None (read_called r)) _ Hr) as Ho1.
    pose proof (owners_replace l h b (mk_binder (data_ptr r) f)
                  (<[rhs := mk_binder None (read_called r)]> (vars w))) as Ho2.
    rewrite lookup_insert_ne in Ho2 by done. specialize (Ho2 Hh).
    rewrite (points_None l (mk_binder None (read_called r))) in Ho1 by done.
    rewrite (points_None l b) in Ho2 by done.
    rewrite (points_same l r (mk_binder (data_ptr r) f)) in Ho2 by done. lia. }
  split; simpl.
  - intros h' b' l' Hh' Hb'. destruct (decide (h' = h)) as [->|Hne1].
    { rewrite lookup_insert_eq in Hh'. injection Hh' as <-. simpl in Hb'.
      by eapply (wf_live w Hwf rhs r). }
    rewrite lookup_insert_ne in Hh' by done.
    destruct (decide (h' = rhs)) as [->|Hne2].
    { rewrite lookup_insert_eq in Hh'. by injection Hh' as <-. }
    rewrite lookup_insert_ne in Hh' by done. by eapply wf_live.
  - intros l' blk' Hl'.
    eapply block_wf_mono; [by apply wf_blocks|done|done|]. simpl.
    rewrite Hsame. by apply wf_blocks.
Qed.

(** Assignment through a reference changes a value and nothing else. *)
Lemma write_world_wf w l blk n v :
  world_wf w → heap w !! l = Some blk →
  world_wf (mk_world
              (<[l := mk_block (mk_data (list_write n v (content (obj blk)))
                                        (address (obj blk))) (use_count blk)]> (heap w))
              (vars w) (next w)).
Proof.
  intros Hwf Hblk. pose proof (wf_blocks w Hwf l blk Hblk) as [Hd Hne Hc Hl Hn].
  split; simpl.
  - intros h' b' l' Hh' Hb'. destruct (decide (l' = l)) as [->|Hl'].
    + by rewrite lookup_insert_eq.
    + rewrite lookup_insert_ne by done. by eapply wf_live.
  - intros l' blk' Hl'. destruct (decide (l' = l)) as [->|Hne'].
    + rewrite lookup_insert_eq in Hl'. injection Hl' as <-. split; simpl.
      * by apply write_wf.
      * intros Hnil. apply Hne. apply length_zero_iff_nil.
        by rewrite <- (list_write_length n v), Hnil.
      * done.
      * done.
      * by rewrite list_write_nodes.
    + rewrite lookup_insert_ne in Hl' by done.
      eapply block_wf_mono; [by apply wf_blocks|done|done|].
      simpl. by apply wf_blocks.
Qed.

End world_facts.

(** ** Closed forms of the member functions *)

Section closed_forms.
Context {K : Type} `{Countable K} {V : Type}.
Implicit Types (w : world K V) (b : binder) (l : loc) (h : var)
  (blk : block K V) (d : binder_data K V).

Lemma alter_lookup {A} (f : A → A) (m : gmap loc A) l x :
  m !! l = Some x → alter f l m = <[l := f x]> m.
Proof.
  intros Hl. apply map_eq. intros i. destruct (decide (i = l)) as [->|Hne].
  - by rewrite lookup_alter_eq, lookup_insert_eq, Hl.
  - by rewrite lookup_alter_ne, lookup_insert_ne.
Qed.

Lemma in_place_null w b : data_ptr b = None → in_place w b = false.
Proof. intros Hb. unfold in_place. by rewrite Hb. Qed.

Lemma in_place_true w b l blk :
  data_ptr b = Some l → heap w !! l = Some blk →
  in_place w b = true → use_count blk = 1.
Proof.
  intros Hb Hblk. unfold in_place. rewrite Hb. simpl. rewrite Hblk. simpl.
  apply bool_decide_eq_true.
Qed.

Lemma in_place_false w b l blk :
  data_ptr b = Some l → heap w !! l = Some blk →
  in_place w b = false → use_count blk ≠ 1.
Proof.
  intros Hb Hblk. unfold in_place. rewrite Hb. simpl. rewrite Hblk. simpl.
  apply bool_decide_eq_false.
Qed.

(** The three situations of a modifier. *)
Inductive cow_case w h b : Prop :=
  | cow_null :
      data_ptr b = None → in_place w b = false →
      cow_target w b = next w → cow_data w b = data_empty →
      cow_count w b = 1 → cow_next w b = next w + 1 →
      heap w !! next w = None →
      cow_case w h b
  | cow_in_place l blk :
      data_ptr b = Some l → in_place w b = true →
      heap w !! l = Some blk → block_wf w l blk → use_count blk = 1 →
      cow_target w b = l → cow_data w b = obj blk →
      cow_count w b = 2 → cow_next w b = next w →
      cow_case w h b
  | cow_clone l blk :
      data_ptr b = Some l → in_place w b = false →
      heap w !! l = Some blk → block_wf w l blk → 1 < use_count blk →
      cow_target w b = next w →
      cow_data w b = data_copy (next w + 1) (obj blk) →
      cow_count w b = 1 →
      cow_next w b = next w + 1 + length (content (obj blk)) →
      heap w !! next w = None → l ≠ next w →
      cow_case w h b.

Lemma cow_cases w h b : world_wf w → vars w !! h = Some b → cow_case w h b.
Proof.
  intros Hwf Hh. destruct (data_ptr b) as [l|] eqn:Hb.
  - destruct (wf_owned w h b l Hwf Hh Hb) as (blk & Hblk & Hbw & Hpos).
    destruct (in_place w b) eqn:Hip.
    + pose proof (in_place_true w b l blk Hb Hblk Hip).
      eapply (cow_in_place w h b l blk); try done;
        unfold cow_target, cow_data, cow_count, cow_next; rewrite ?Hb, ?Hip, ?Hblk; done.
    + pose proof (in_place_false w b l blk Hb Hblk Hip).
      eapply (cow_clone w h b l blk); try done;
        unfold cow_target, cow_data, cow_count, cow_next; rewrite ?Hb, ?Hip, ?Hblk;
        try done; try lia.
      * by apply wf_heap_fresh.
      * pose proof (wf_loc_next w l blk Hbw). lia.
  - pose proof (in_place_null w b Hb) as Hip.
    apply cow_null; try done;
      unfold cow_target, cow_data, cow_count, cow_next; rewrite ?Hb, ?Hip; try done.
    by apply wf_heap_fresh.
Qed.

Lemma get_new_unique_shared_closed w h b :
  world_wf w → vars w !! h = Some b →
  get_new_unique_shared (data_ptr b) (in_place w b) w
  = Ret (mk_world (<[cow_target w b := mk_block (cow_data w b) (cow_count w b)]> (heap w))
                  (vars w) (cow_next w b))
        (Some (cow_target w b)).
Proof.
  intros Hwf Hh.
  destruct (cow_cases w h b Hwf Hh)
    as [Hb Hip Ht Hd Hcn Hnx Hfr
       |l blk Hb Hip Hblk Hbw Hc Ht Hd Hcn Hnx
       |l blk Hb Hip Hblk Hbw Hc Ht Hd Hcn Hnx Hfr Hne];
    rewrite ?Ht, ?Hd, ?Hcn, ?Hnx, ?Hb, ?Hip.
  - reflexivity.
  - unfold get_new_unique_shared. mrun_with ltac:(rewrite Hblk).
    rewrite (alter_lookup _ _ _ _ Hblk). simpl. by rewrite Hc.
  - unfold get_new_unique_shared, make_shared_copy. by mrun_with ltac:(rewrite Hblk).
Qed.

(** The end of a modifier that succeeded. *)
Lemma commit_closed w h b d' f nx2 :
  world_wf w → vars w !! h = Some b →
  (set_read_called h f ;;
   assign_data_ptr h (Some (cow_target w b)) ;;
   sp_release (Some (cow_target w b)))
    (mk_world (<[cow_target w b := mk_block d' (cow_count w b)]> (heap w))
              (vars w) nx2)
  = Ret (install h (cow_target w b) d' f nx2 (drop h w)) ().
Proof.
  intros Hwf Hh. unfold install. rewrite (drop_vars w h b Hh).
  destruct (cow_cases w h b Hwf Hh)
    as [Hb Hip Ht Hd Hcn Hnx Hfr
       |l blk Hb Hip Hblk Hbw Hc Ht Hd Hcn Hnx
       |l blk Hb Hip Hblk Hbw Hc Ht Hd Hcn Hnx Hfr Hne];
    rewrite ?Ht, ?Hd, ?Hcn, ?Hnx.
  - rewrite (drop_null w h b) by done.
    mrun_with ltac:(first [rewrite Hh | rewrite Hb | rewrite Hblk]). by mnorm.
  - rewrite (drop_heap_unique w h b l blk) by done.
    mrun_with ltac:(first [rewrite Hh | rewrite Hb | rewrite Hblk]). by mnorm.
  - rewrite (drop_heap_shared w h b l blk) by done.
    mrun_with ltac:(first [rewrite Hh | rewrite Hb | rewrite Hblk]).
    mnorm. do 2 f_equal. map_cases (next w) l.
Qed.

(** The same with the flag set after the assignment, as in [read]. *)
Lemma commit_read_closed {A} w h b d' nx2 (a : A) :
  world_wf w → vars w !! h = Some b →
  (assign_data_ptr h (Some (cow_target w b)) ;;
   set_read_called h true ;;
   sp_release (Some (cow_target w b)) ;;
   ret a)
    (mk_world (<[cow_target w b := mk_block d' (cow_count w b)]> (heap w))
              (vars w) nx2)
  = Ret (install h (cow_target w b) d' true nx2 (drop h w)) a.
Proof.
  intros Hwf Hh. unfold install. rewrite (drop_vars w h b Hh).
  destruct (cow_cases w h b Hwf Hh)
    as [Hb Hip Ht Hd Hcn Hnx Hfr
       |l blk Hb Hip Hblk Hbw Hc Ht Hd Hcn Hnx
       |l blk Hb Hip Hblk Hbw Hc Ht Hd Hcn Hnx Hfr Hne];
    rewrite ?Ht, ?Hd, ?Hcn, ?Hnx.
  - rewrite (drop_null w h b) by done.
    mrun_with ltac:(first [rewrite Hh | rewrite Hb | rewrite Hblk]). by mnorm.
  - rewrite (drop_heap_unique w h b l blk) by done.
    mrun_with ltac:(first [rewrite Hh | rewrite Hb | rewrite Hblk]). by mnorm.
  - rewrite (drop_heap_shared w h b l blk) by done.
    mrun_with ltac:(first [rewrite Hh | rewrite Hb | rewrite Hblk]).
    mnorm. do 2 f_equal. map_cases (next w) l.
Qed.

(** The end of a [remove] that emptied the instance. *)
Lemma commit_empty_closed w h b d' nx2 :
  world_wf w → vars w !! h = Some b →
  (sp_release (Some (cow_target w b)) ;;
   set_read_called h false ;;
   assign_data_ptr h None ;;
   sp_release None)
    (mk_world (<[cow_target w b := mk_block d' (cow_count w b)]> (heap w))
              (vars w) nx2)
  = Ret (set_next nx2 (set_flag h false (drop h w))) ().
Proof.
  intros Hwf Hh. unfold set_flag, set_next. rewrite (drop_vars w h b Hh).
  rewrite lookup_insert_eq. simpl.
  destruct (cow_cases w h b Hwf Hh)
    as [Hb Hip Ht Hd Hcn Hnx Hfr
       |l blk Hb Hip Hblk Hbw Hc Ht Hd Hcn Hnx
       |l blk Hb Hip Hblk Hbw Hc Ht Hd Hcn Hnx Hfr Hne];
    rewrite ?Ht, ?Hd, ?Hcn, ?Hnx.
  - rewrite (drop_null w h b) by done.
    mrun_with ltac:(first [rewrite Hh | rewrite Hb | rewrite Hblk]). mnorm.
    by rewrite delete_id.
  - rewrite (drop_heap_unique w h b l blk) by done.
    mrun_with ltac:(first [rewrite Hh | rewrite Hb | rewrite Hblk]). by mnorm.
  - rewrite (drop_heap_shared w h b l blk) by done.
    mrun_with ltac:(first [rewrite Hh | rewrite Hb | rewrite Hblk]).
    mnorm. do 2 f_equal. map_cases (next w) l.
Qed.

(** What unwinding leaves when the storage engine throws. *)
Lemma abort_closed w h b nx2 :
  world_wf w → vars w !! h = Some b →
  release (Some (cow_target w b))
    (mk_world (<[cow_target w b := mk_block (cow_data w b) (cow_count w b)]> (heap w))
              (vars w) nx2)
  = set_next nx2 w.
Proof.
  intros Hwf Hh. unfold set_next.
  destruct (cow_cases w h b Hwf Hh)
    as [Hb Hip Ht Hd Hcn Hnx Hfr
       |l blk Hb Hip Hblk Hbw Hc Ht Hd Hcn Hnx
       |l blk Hb Hip Hblk Hbw Hc Ht Hd Hcn Hnx Hfr Hne];
    rewrite ?Ht, ?Hd, ?Hcn, ?Hnx.
  - mrun_with fail. mnorm. by rewrite delete_id.
  - mrun_with fail. mnorm. f_equal. apply insert_id. rewrite Hblk. f_equal.
    destruct blk; simpl in *; by subst.
  - mrun_with fail. mnorm. by rewrite delete_id.
Qed.

Lemma bind_eq {A B} (m : M K V A) (f : A → M K V B) w :
  bind m f w = match m w with
               | Ret w' a => f a w'
               | Throws w' e => Throws w' e
               | UB => UB
               end.
Proof. done. Qed.

Lemma bind_Ret {A B} (m : M K V A) (f : A → M K V B) w w' a :
  m w = Ret w' a → bind m f w = f a w'.
Proof. intros Hm. by rewrite bind_eq, Hm. Qed.

Lemma bind_get_var {B} h (f : binder → M K V B) w b :
  vars w !! h = Some b → bind (get_var h) f w = f b w.
Proof. intros Hh. apply bind_Ret. unfold get_var. by rewrite Hh. Qed.

(** The call into the storage engine, on the instance the modifier chose. *)
Lemma call_closed l d c hp vs nx (f : binder_data K V → res (binder_data K V)) :
  unwinding (Some l) (call_data (Some l) f)
    (mk_world (<[l := mk_block d c]> hp) vs nx)
  = match f d with
    | Val d' => Ret (mk_world (<[l := mk_block d' c]> hp) vs nx) ()
    | Exc e => Throws (release (Some l) (mk_world (<[l := mk_block d c]> hp) vs nx)) e
    | Undef => UB
    end.
Proof.
  unfold unwinding, call_data. rewrite bind_eq. unfold deref. simpl.
  rewrite lookup_insert_eq. simpl. destruct (f d) as [d'|e|]; [| |done].
  - unfold store. simpl. rewrite lookup_insert_eq. simpl. by rewrite insert_insert_eq.
  - unfold throw, release, heap_release. simpl. by rewrite lookup_insert_eq.
Qed.

Lemma call_new_closed l d c hp vs nx
    (f : node → binder_data K V → res (binder_data K V)) :
  unwinding (Some l) (call_data_new (Some l) f)
    (mk_world (<[l := mk_block d c]> hp) vs nx)
  = match f nx d with
    | Val d' => Ret (mk_world (<[l := mk_block d' c]> hp) vs (nx + 1)) ()
    | Exc e => Throws (release (Some l) (mk_world (<[l := mk_block d c]> hp) vs nx)) e
    | Undef => UB
    end.
Proof.
  unfold unwinding, call_data_new. rewrite bind_eq. unfold deref. simpl.
  rewrite lookup_insert_eq. simpl. rewrite bind_eq. simpl.
  destruct (f nx d) as [d'|e|]; [| |done].
  - rewrite bind_eq. unfold alloc, store. simpl. rewrite lookup_insert_eq. simpl.
    by rewrite insert_insert_eq.
  - unfold throw, release, heap_release. simpl. by rewrite lookup_insert_eq.
Qed.

Lemma binder_insert_front_closed w h b k v :
  world_wf w → vars w !! h = Some b →
  binder_insert_front h k v w
  = match data_insert_front (cow_next w b) k v (cow_data w b) with
    | Val d' =>
        Ret (install h (cow_target w b) d' false (cow_next w b + 1) (drop h w)) ()
    | Exc e => Throws (set_next (cow_next w b) w) e
    | Undef => UB
    end.
Proof.
  intros Hwf Hh. unfold binder_insert_front.
  rewrite (bind_get_var _ _ _ _ Hh). rewrite bind_eq. cbv beta iota.
  fold (in_place w b).
  rewrite (bind_Ret _ _ _ _ _ (get_new_unique_shared_closed w h b Hwf Hh)).
  rewrite bind_eq, call_new_closed.
  destruct (data_insert_front _ k v _) as [d'|e|]; [| |done].
  - by apply commit_closed.
  - f_equal. by eapply abort_closed.
Qed.

Lemma binder_insert_after_closed w h b prev_k k v :
  world_wf w → vars w !! h = Some b →
  binder_insert_after h prev_k k v w
  = if bool_decide (data_ptr b = None) then Throws w empty_binder
    else match data_insert_after (cow_next w b) prev_k k v (cow_data w b) with
         | Val d' =>
             Ret (install h (cow_target w b) d' false (cow_next w b + 1) (drop h w)) ()
         | Exc e => Throws (set_next (cow_next w b) w) e
         | Undef => UB
         end.
Proof.
  intros Hwf Hh. unfold binder_insert_after.
  rewrite (bind_get_var _ _ _ _ Hh). case_bool_decide; [done|].
  rewrite bind_eq. cbv beta iota. fold (in_place w b).
  rewrite (bind_Ret _ _ _ _ _ (get_new_unique_shared_closed w h b Hwf Hh)).
  rewrite bind_eq, call_new_closed.
  destruct (data_insert_after _ prev_k k v _) as [d'|e|]; [| |done].
  - by apply commit_closed.
  - f_equal. by eapply abort_closed.
Qed.

(** The common end of the two [remove]s. *)
Lemma remove_end_closed w h b d' nx2 :
  world_wf w → vars w !! h = Some b →
  (new_data_ptr <- release_if_empty (Some (cow_target w b)) ;;
   set_read_called h false ;;
   assign_data_ptr h new_data_ptr ;;
   sp_release new_data_ptr)
    (mk_world (<[cow_target w b := mk_block d' (cow_count w b)]> (heap w))
              (vars w) nx2)
  = if bool_decide (data_size d' = 0)
    then Ret (set_next nx2 (set_flag h false (drop h w))) ()
    else Ret (install h (cow_target w b) d' false nx2 (drop h w)) ().
Proof.
  intros Hwf Hh. unfold release_if_empty. rewrite bind_eq.
  rewrite bind_eq. unfold deref at 1. simpl. rewrite lookup_insert_eq. simpl.
  case_bool_decide.
  - rewrite bind_eq. simpl. by apply (commit_empty_closed w h b d' nx2).
  - by apply commit_closed.
Qed.

Lemma binder_remove_closed w h b :
  world_wf w → vars w !! h = Some b →
  binder_remove h w
  = if bool_decide (data_ptr b = None) then Throws w empty_binder
    else match data_remove (cow_data w b) with
         | Val d' =>
             if bool_decide (data_size d' = 0)
             then Ret (set_next (cow_next w b) (set_flag h false (drop h w))) ()
             else Ret (install h (cow_target w b) d' false (cow_next w b) (drop h w)) ()
         | Exc e => Throws (set_next (cow_next w b) w) e
         | Undef => UB
         end.
Proof.
  intros Hwf Hh. unfold binder_remove.
  rewrite (bind_get_var _ _ _ _ Hh). case_bool_decide; [done|].
  rewrite bind_eq. cbv beta iota. fold (in_place w b).
  rewrite (bind_Ret _ _ _ _ _ (get_new_unique_shared_closed w h b Hwf Hh)).
  rewrite bind_eq, call_closed.
  destruct (data_remove _) as [d'|e|]; [| |done].
  - by apply remove_end_closed.
  - f_equal. by eapply abort_closed.
Qed.

(** The call into [binder_data::remove(K const&)]. *)
Lemma call_key_closed l d c hp vs nx (a : key_ref K V) :
  unwinding (Some l) (call_remove_key (Some l) a)
    (mk_world (<[l := mk_block d c]> hp) vs nx)
  = match key_seen (mk_world hp vs nx) l a with
    | Some a' =>
        match data_remove_key a' d with
        | Val d' => Ret (mk_world (<[l := mk_block d' c]> hp) vs nx) ()
        | Exc e =>
            Throws (release (Some l) (mk_world (<[l := mk_block d c]> hp) vs nx)) e
        | Undef => UB
        end
    | None => UB
    end.
Proof.
  pose proof (call_closed l d c hp vs nx) as Hc.
  unfold unwinding, call_remove_key in *.
  destruct a as [k|r view]; simpl.
  - rewrite bind_eq. simpl. apply Hc.
  - destruct (decide (r.1 = l)) as [Hl|Hl].
    + rewrite bind_eq. simpl. apply Hc.
    + rewrite !bind_eq. unfold deref at 1. simpl.
      rewrite lookup_insert_ne by done.
      destruct (hp !! r.1) as [blk|]; [|done]. simpl.
      destruct (list_at (content (obj blk)) r.2) as [kv|]; [|done]. simpl.
      apply Hc.
Qed.

Lemma binder_remove_key_ref_closed w h b (a : key_ref K V) :
  world_wf w → vars w !! h = Some b →
  binder_remove_key h a w
  = if bool_decide (data_ptr b = None) then Throws w empty_binder
    else match key_seen w (cow_target w b) a with
         | Some a' =>
             match data_remove_key a' (cow_data w b) with
             | Val d' =>
                 if bool_decide (data_size d' = 0)
                 then Ret (set_next (cow_next w b) (set_flag h false (drop h w))) ()
                 else Ret (install h (cow_target w b) d' false (cow_next w b)
                             (drop h w)) ()
             | Exc e => Throws (set_next (cow_next w b) w) e
             | Undef => UB
             end
         | None => UB
         end.
Proof.
  intros Hwf Hh. unfold binder_remove_key.
  rewrite (bind_get_var _ _ _ _ Hh). case_bool_decide; [done|].
  rewrite bind_eq. cbv beta iota. fold (in_place w b).
  rewrite (bind_Ret _ _ _ _ _ (get_new_unique_shared_closed w h b Hwf Hh)).
  rewrite bind_eq, call_key_closed.
  assert (key_seen (mk_world (heap w) (vars w) (cow_next w b)) (cow_target w b) a
          = key_seen w (cow_target w b) a) as -> by done.
  destruct (key_seen w (cow_target w b) a) as [a'|]; [|done].
  destruct (data_remove_key a' _) as [d'|e|]; [| |done].
  - by apply remove_end_closed.
  - f_equal. by eapply abort_closed.
Qed.

Lemma binder_remove_key_closed w h b k :
  world_wf w → vars w !! h = Some b →
  binder_remove_key h (KeyObj k) w
  = if bool_decide (data_ptr b = None) then Throws w empty_binder
    else match data_remove_key (Outside k) (cow_data w b) with
         | Val d' =>
             if bool_decide (data_size d' = 0)
             then Ret (set_next (cow_next w b) (set_flag h false (drop h w))) ()
             else Ret (install h (cow_target w b) d' false (cow_next w b) (drop h w)) ()
         | Exc e => Throws (set_next (cow_next w b) w) e
         | Undef => UB
         end.
Proof. intros Hwf Hh. by rewrite (binder_remove_key_ref_closed w h b _ Hwf Hh). Qed.

Lemma binder_read_closed w h b k :
  world_wf w → vars w !! h = Some b →
  binder_read h k w
  = if bool_decide (data_ptr b = None) then Throws w empty_binder
    else match data_read k (cow_data w b) with
         | Val n =>
             Ret (install h (cow_target w b) (cow_data w b) true (cow_next w b)
                    (drop h w))
                 (cow_target w b, n)
         | Exc e => Throws (set_next (cow_next w b) w) e
         | Undef => UB
         end.
Proof.
  intros Hwf Hh. unfold binder_read.
  rewrite (bind_get_var _ _ _ _ Hh). case_bool_decide; [done|].
  rewrite bind_eq. cbv beta iota. fold (in_place w b).
  rewrite (bind_Ret _ _ _ _ _ (get_new_unique_shared_closed w h b Hwf Hh)).
  rewrite bind_eq. unfold unwinding at 1. rewrite bind_eq. unfold deref at 1.
  simpl. rewrite lookup_insert_eq. simpl.
  destruct (data_read k _) as [n|e|]; [| |done].
  - unfold ret at 1. by apply commit_read_closed.
  - unfold throw. f_equal. by eapply abort_closed.
Qed.

Lemma binder_ctor_closed w h :
  vars w !! h = None → binder_ctor h w = Ret (new_var h w) ().
Proof. intros Hh. unfold binder_ctor. by rewrite Hh. Qed.

Lemma new_var_wf w h : world_wf w → vars w !! h = None → world_wf (new_var h w).
Proof. intros Hwf Hh. apply (vars_wf w h (mk_binder None false)); auto. Qed.

Lemma binder_clear_closed w h b :
  vars w !! h = Some b →
  binder_clear h w = Ret (set_flag h false (drop h w)) ().
Proof.
  intros Hh. unfold binder_clear, set_flag, drop. rewrite Hh. simpl.
  rewrite lookup_insert_eq. simpl.
  mrun0_with ltac:(rewrite Hh). by mnorm.
Qed.

Lemma binder_dtor_closed w h b :
  vars w !! h = Some b →
  binder_dtor h w
  = Ret (mk_world (heap (drop h w)) (delete h (vars (drop h w))) (next w)) ().
Proof.
  intros Hh. unfold binder_dtor, drop. rewrite Hh. simpl.
  mrun0_with ltac:(rewrite Hh). by rewrite !delete_insert_eq.
Qed.

(** The copy made when the source has handed out a reference. *)
Lemma make_shared_copy_closed w l blk :
  heap w !! l = Some blk →
  make_shared_copy (Some l) w
  = Ret (mk_world (<[next w := mk_block (data_copy (next w + 1) (obj blk)) 1]> (heap w))
                  (vars w) (next w + 1 + length (content (obj blk))))
        (next w).
Proof. intros Hblk. unfold make_shared_copy. by mrun_with ltac:(rewrite Hblk). Qed.

Lemma binder_copy_ctor_closed w h rhs r :
  world_wf w → vars w !! h = None → vars w !! rhs = Some r →
  binder_copy_ctor h rhs w
  = if read_called r
    then match data_ptr r with
         | None => UB
         | Some l =>
             let d := from_option obj data_empty (heap w !! l) in
             Ret (install h (next w) (data_copy (next w + 1) d) false
                    (next w + 1 + length (content d)) (new_var h w)) ()
         end
    else Ret (share h (data_ptr r) false (new_var h w)) ().
Proof.
  intros Hwf Hh Hr. assert (h ≠ rhs) as Hne by congruence.
  unfold binder_copy_ctor. rewrite (bind_get_var _ _ _ _ Hr).
  rewrite (bind_Ret _ _ _ _ _ (binder_ctor_closed w h Hh)).
  destruct (read_called r).
  - destruct (data_ptr r) as [l|] eqn:Hp; [|done].
    destruct (wf_owned w rhs r l Hwf Hr Hp) as (blk & Hblk & Hbw & Hpos).
    rewrite bind_eq, bind_eq.
    rewrite (make_shared_copy_closed (new_var h w) l blk Hblk).
    rewrite Hblk. simpl. unfold install, move_into_data_ptr.
    mrun_with fail. by mnorm.
  - unfold share, move_into_data_ptr. mrun_with fail. by mnorm.
Qed.

Lemma binder_move_ctor_closed w h rhs r :
  vars w !! h = None → vars w !! rhs = Some r →
  binder_move_ctor h rhs w
  = Ret (mk_world (heap w)
           (<[h := mk_binder (data_ptr r) (read_called r)]>
              (<[rhs := mk_binder None (read_called r)]> (vars (new_var h w))))
           (next w)) ().
Proof.
  intros Hh Hr. assert (h ≠ rhs) as Hne by congruence.
  unfold binder_move_ctor. rewrite (bind_get_var _ _ _ _ Hr). rewrite Hh.
  mrun_with ltac:(rewrite Hr). do 2 f_equal. map_cases h rhs.
Qed.

Lemma binder_copy_assign_closed w h rhs b r :
  world_wf w → h ≠ rhs → vars w !! h = Some b → vars w !! rhs = Some r →
  binder_copy_assign h rhs w
  = match data_ptr r with
    | Some l =>
        if read_called r
        then let d := from_option obj data_empty (heap w !! l) in
             Ret (install h (next w) (data_copy (next w + 1) d) false
                    (next w + 1 + length (content d)) (drop h w)) ()
        else Ret (share h (Some l) false (drop h w)) ()
    | None => Ret (set_flag h false (drop h w)) ()
    end.
Proof.
  intros Hwf Hne Hh Hr. unfold binder_copy_assign.
  rewrite (bind_get_var _ _ _ _ Hh), (bind_get_var _ _ _ _ Hr).
  destruct (data_ptr r) as [l|] eqn:Hp; simpl.
  - destruct (wf_owned w rhs r l Hwf Hr Hp) as (blk & Hblk & Hbw & Hpos).
    assert (heap w !! next w = None) as Hfr by (by apply wf_heap_fresh).
    assert (l ≠ next w) as Hln by (pose proof (wf_loc_next w l blk Hbw); lia).
    rewrite Hblk. simpl. unfold install, share, acquire. simpl.
    rewrite drop_next, (drop_vars w h b Hh).
    destruct (read_called r); simpl.
    + rewrite bind_eq, bind_eq.
      pose proof (make_shared_copy_closed w l blk Hblk) as Hmk.
      unfold make_shared_copy in Hmk. rewrite Hmk. clear Hmk.
      destruct (data_ptr b) as [l0|] eqn:Hb.
      * destruct (wf_owned w h b l0 Hwf Hh Hb) as (blk0 & Hblk0 & Hbw0 & Hpos0).
        assert (l0 ≠ next w) as Hl0 by (pose proof (wf_loc_next w l0 blk0 Hbw0); lia).
        destruct (decide (use_count blk0 ≤ 1)) as [Hc|Hc].
        -- rewrite (drop_heap_unique w h b l0 blk0) by (done || lia).
           mrun_with ltac:(first [rewrite Hh | rewrite Hb | rewrite Hblk0]).
           mnorm. do 2 f_equal. map_cases (next w) l0.
        -- rewrite (drop_heap_shared w h b l0 blk0) by (done || lia).
           mrun_with ltac:(first [rewrite Hh | rewrite Hb | rewrite Hblk0]).
           mnorm. do 2 f_equal. map_cases (next w) l0.
      * rewrite (drop_null w h b) by done.
        mrun_with ltac:(first [rewrite Hh | rewrite Hb]). by mnorm.
    + destruct (data_ptr b) as [l0|] eqn:Hb.
      * destruct (wf_owned w h b l0 Hwf Hh Hb) as (blk0 & Hblk0 & Hbw0 & Hpos0).
        destruct (decide (l0 = l)) as [->|Hl0].
        -- assert (blk0 = blk) as -> by congruence.
           assert (1 < use_count blk) as Hc.
           { rewrite (wf_count w l blk Hbw).
             rewrite (owners_delete l h b (vars w) Hh), (points_eq l b) by done.
             pose proof (owners_pos l rhs r (delete h (vars w))) as Hp'.
             rewrite lookup_delete_ne in Hp' by done. specialize (Hp' Hr Hp). lia. }
           rewrite (drop_heap_shared w h b l blk) by done.
           mrun_with ltac:(first [rewrite Hh | rewrite Hb | rewrite Hblk]).
           mnorm. do 2 f_equal. apply map_eq. intros i.
           destruct (decide (i = l)) as [->|?]; repeat mlookup; [|done].
           simpl. do 2 f_equal. lia.
        -- destruct (decide (use_count blk0 ≤ 1)) as [Hc|Hc].
           ++ rewrite (drop_heap_unique w h b l0 blk0) by (done || lia).
              mrun_with ltac:(first [rewrite Hh | rewrite Hb | rewrite Hblk0]).
              mnorm. do 2 f_equal. map_cases l l0.
           ++ rewrite (drop_heap_shared w h b l0 blk0) by (done || lia).
              mrun_with ltac:(first [rewrite Hh | rewrite Hb | rewrite Hblk0]).
              mnorm. do 2 f_equal. map_cases l l0.
      * rewrite (drop_null w h b) by done.
        mrun_with ltac:(first [rewrite Hh | rewrite Hb]). by mnorm.
  - unfold set_flag. rewrite (drop_vars w h b Hh). rewrite lookup_insert_eq. simpl.
    unfold drop. rewrite Hh.
    mrun_with ltac:(rewrite Hh). by mnorm.
Qed.

(** Assignment of a handle to itself. *)
Lemma binder_copy_assign_self_closed w h b :
  world_wf w → vars w !! h = Some b →
  binder_copy_assign h h w
  = match data_ptr b with
    | Some l =>
        if read_called b
        then let d := from_option obj data_empty (heap w !! l) in
             Ret (install h (next w) (data_copy (next w + 1) d) false
                    (next w + 1 + length (content d)) (drop h w)) ()
        else Ret (set_flag h false w) ()
    | None => Ret (set_flag h false w) ()
    end.
Proof.
  intros Hwf Hh. unfold binder_copy_assign.
  rewrite (bind_get_var _ _ _ _ Hh), (bind_get_var _ _ _ _ Hh).
  unfold set_flag. rewrite Hh.
  destruct (data_ptr b) as [l|] eqn:Hb; simpl.
  - destruct (wf_owned w h b l Hwf Hh Hb) as (blk & Hblk & Hbw & Hpos).
    assert (heap w !! next w = None) as Hfr by (by apply wf_heap_fresh).
    assert (l ≠ next w) as Hln by (pose proof (wf_loc_next w l blk Hbw); lia).
    rewrite Hblk. simpl. unfold install. rewrite (drop_vars w h b Hh).
    destruct (read_called b); simpl.
    + rewrite bind_eq, bind_eq.
      pose proof (make_shared_copy_closed w l blk Hblk) as Hmk.
      unfold make_shared_copy in Hmk. rewrite Hmk. clear Hmk.
      destruct (decide (use_count blk ≤ 1)) as [Hc|Hc].
      * rewrite (drop_heap_unique w h b l blk) by (done || lia).
        mrun_with ltac:(first [rewrite Hh | rewrite Hb | rewrite Hblk]).
        mnorm. do 2 f_equal. map_cases (next w) l.
      * rewrite (drop_heap_shared w h b l blk) by (done || lia).
        mrun_with ltac:(first [rewrite Hh | rewrite Hb | rewrite Hblk]).
        mnorm. do 2 f_equal. map_cases (next w) l.
    + mrun_with ltac:(first [rewrite Hh | rewrite Hb | rewrite Hblk]).
      mnorm. do 2 f_equal. apply insert_id. rewrite Hblk. f_equal.
      destruct blk as [o c]. simpl. f_equal. lia.
  - mrun_with ltac:(first [rewrite Hh | rewrite Hb]). by mnorm.
Qed.

Lemma binder_move_assign_closed w h rhs b r :
  h ≠ rhs → vars w !! h = Some b → vars w !! rhs = Some r →
  binder_move_assign h rhs w
  = Ret (mk_world (heap (drop h w))
           (<[h := mk_binder (data_ptr r) (read_called r)]>
              (<[rhs := mk_binder None (read_called r)]> (vars (drop h w))))
           (next w)) ().
Proof.
  intros Hne Hh Hr. unfold binder_move_assign.
  rewrite (bind_get_var _ _ _ _ Hh), (bind_get_var _ _ _ _ Hr).
  rewrite (drop_vars w h b Hh). unfold drop. rewrite Hh. simpl.
  mrun0_with ltac:(first [rewrite Hh | rewrite Hr]).
  do 2 f_equal. map_cases h rhs.
Qed.

Lemma binder_move_assign_self_closed w h b :
  vars w !! h = Some b → binder_move_assign h h w = Ret w ().
Proof.
  intros Hh. unfold binder_move_assign.
  rewrite (bind_get_var _ _ _ _ Hh), (bind_get_var _ _ _ _ Hh).
  mrun0_with ltac:(rewrite Hh). mnorm. f_equal.
  destruct w as [hp vs nx]. simpl in *. f_equal. apply insert_id.
  rewrite Hh. f_equal. by destruct b.
Qed.

Lemma write_ref_closed w r v blk :
  heap w !! r.1 = Some blk →
  write_ref r v w
  = match list_at (content (obj blk)) r.2 with
    | None => UB
    | Some _ =>
        Ret (mk_world
               (<[r.1 := mk_block (mk_data (list_write r.2 v (content (obj blk)))
                                           (address (obj blk))) (use_count blk)]>
                  (heap w))
               (vars w) (next w)) ()
    end.
Proof.
  intros Hblk. unfold write_ref. rewrite bind_eq. unfold deref. rewrite Hblk.
  destruct (list_at _ _); [|done]. unfold store. by rewrite Hblk.
Qed.

(** *** The instance a modifier works on *)

Lemma cow_data_wf w h b :
  world_wf w → vars w !! h = Some b →
  data_wf (cow_data w b)
  ∧ Forall (λ n, n < cow_next w b) (nodes (content (cow_data w b)))
  ∧ entries (content (cow_data w b)) = entries_at w (data_ptr b)
  ∧ heap (drop h w) !! cow_target w b = None
  ∧ cow_target w b < cow_next w b
  ∧ next w ≤ cow_next w b
  ∧ (data_ptr b ≠ None → content (cow_data w b) ≠ []).
Proof.
  intros Hwf Hh.
  destruct (cow_cases w h b Hwf Hh)
    as [Hb Hip Ht Hd Hcn Hnx Hfr
       |l blk Hb Hip Hblk Hbw Hc Ht Hd Hcn Hnx
       |l blk Hb Hip Hblk Hbw Hc Ht Hd Hcn Hnx Hfr Hne];
    rewrite ?Ht, ?Hd, ?Hnx, ?Hb.
  - split; [apply data_empty_wf|]. split; [apply Forall_nil_2|].
    split; [done|]. split; [by apply drop_heap_fresh|].
    split; [lia|]. split; [lia|done].
  - destruct Hbw as [Hdw Hne Hcnt Hl Hn].
    split; [done|]. split; [done|]. split; [by simpl; rewrite Hblk|].
    split; [|split; [lia|split; [lia|done]]].
    rewrite (drop_heap_unique w h b l blk) by done. apply lookup_delete_eq.
  - destruct Hbw as [Hdw Hne' Hcnt Hl Hn].
    split; [by apply data_copy_wf|]. simpl.
    split.
    { rewrite list_copy_nodes. apply Forall_forall. intros n Hin.
      apply elem_of_seq in Hin. lia. }
    split; [by rewrite list_copy_entries, Hblk|].
    split; [by apply drop_heap_fresh|]. split; [lia|]. split; [lia|].
    intros _ Hnil. apply Hne'. apply length_zero_iff_nil.
    by rewrite <- (list_copy_length (next w + 1)), Hnil.
Qed.

Lemma get_var_None {B} h (f : binder → M K V B) w :
  vars w !! h = None → bind (get_var h) f w = UB.
Proof. intros Hh. rewrite bind_eq. unfold get_var. by rewrite Hh. Qed.

End closed_forms.

(** ** What the handles show after each effect *)

Section observations.
Context {K : Type} `{Countable K} {V : Type}.
Implicit Types (w : world K V) (b : binder) (l : loc) (h : var)
  (blk : block K V) (d : binder_data K V).

Lemma observe_Some w h b :
  vars w !! h = Some b → observe w h = Some (entries_at w (data_ptr b)).
Proof. intros Hh. unfold observe. by rewrite Hh. Qed.

Lemma observe_install_self w h l d f nx :
  observe (install h l d f nx w) h = Some (entries (content d)).
Proof.
  unfold observe, install. simpl. rewrite lookup_insert_eq. simpl.
  by rewrite lookup_insert_eq.
Qed.

Lemma observe_install_other w h h' l d f nx :
  h' ≠ h → (∀ b', vars w !! h' = Some b' → data_ptr b' ≠ Some l) →
  observe (install h l d f nx w) h' = observe w h'.
Proof.
  intros Hne Hl. unfold observe, install. simpl. rewrite lookup_insert_ne by done.
  destruct (vars w !! h') as [b'|] eqn:Hh'; [|done]. simpl. f_equal.
  specialize (Hl b' eq_refl). destruct (data_ptr b') as [l'|]; [|done]. simpl.
  rewrite lookup_insert_ne; [done|congruence].
Qed.

Lemma observe_drop_self w h b :
  vars w !! h = Some b → observe (drop h w) h = Some [].
Proof.
  intros Hh. unfold observe. rewrite (drop_vars w h b Hh), lookup_insert_eq. done.
Qed.

Lemma observe_drop_other w h h' :
  world_wf w → h' ≠ h → observe (drop h w) h' = observe w h'.
Proof.
  intros Hwf Hne. destruct (vars w !! h) as [b|] eqn:Hh;
    [|unfold drop; by rewrite Hh].
  unfold observe. rewrite (drop_vars w h b Hh), lookup_insert_ne by done.
  destruct (vars w !! h') as [b'|] eqn:Hh'; [|done]. simpl. f_equal.
  destruct (data_ptr b') as [l'|] eqn:Hb'; [|done]. simpl.
  destruct (data_ptr b) as [l|] eqn:Hb; [|by rewrite (drop_null w h b)].
  destruct (wf_owned w h b l Hwf Hh Hb) as (blk & Hblk & Hbw & Hpos).
  destruct (decide (use_count blk ≤ 1)) as [Hc|Hc].
  - rewrite (drop_heap_unique w h b l blk) by (done || lia).
    rewrite lookup_delete_ne; [done|]. intros ->.
    eapply (owners_one l' h b h' b'); try done.
    rewrite <- (wf_count w l' blk Hbw). lia.
  - rewrite (drop_heap_shared w h b l blk) by (done || lia).
    destruct (decide (l' = l)) as [->|Hl].
    + by rewrite lookup_insert_eq, Hblk.
    + by rewrite lookup_insert_ne.
Qed.

Lemma observe_set_flag w h f h' : observe (set_flag h f w) h' = observe w h'.
Proof.
  unfold set_flag. destruct (vars w !! h) as [b|] eqn:Hh; [|done].
  unfold observe. simpl. destruct (decide (h' = h)) as [->|Hne].
  - by rewrite lookup_insert_eq, Hh.
  - by rewrite lookup_insert_ne.
Qed.

Lemma observe_set_next w nx h' : observe (set_next nx w) h' = observe w h'.
Proof. done. Qed.

Lemma entries_at_acquire w p p' hp vs nx :
  hp = heap_acquire p' (heap w) →
  entries_at (mk_world hp vs nx) p = entries_at w p.
Proof.
  intros ->. destruct p as [l|]; [|done]. simpl. destruct p' as [l'|]; [|done].
  simpl. destruct (decide (l = l')) as [->|Hne].
  - rewrite lookup_alter_eq. by destruct (heap w !! l').
  - by rewrite lookup_alter_ne.
Qed.

Lemma observe_share_self w h p f :
  observe (share h p f w) h = Some (entries_at w p).
Proof.
  unfold observe, share. simpl. rewrite lookup_insert_eq. simpl. f_equal.
  by apply (entries_at_acquire w p p).
Qed.

Lemma observe_share_other w h h' p f :
  h' ≠ h → observe (share h p f w) h' = observe w h'.
Proof.
  intros Hne. unfold observe, share. simpl. rewrite lookup_insert_ne by done.
  destruct (vars w !! h') as [b'|]; [|done]. simpl. f_equal.
  by apply (entries_at_acquire w _ p).
Qed.

Lemma observe_new_var_other w h h' :
  h' ≠ h → observe (new_var h w) h' = observe w h'.
Proof. intros Hne. unfold observe, new_var. simpl. by rewrite lookup_insert_ne. Qed.

(** A modifier replaces what its handle shows and nothing else. *)
Lemma observe_modified_other w h b h' d f nx :
  world_wf w → vars w !! h = Some b → h' ≠ h →
  observe (install h (cow_target w b) d f nx (drop h w)) h' = observe w h'.
Proof.
  intros Hwf Hh Hne.
  rewrite observe_install_other, observe_drop_other; try done.
  intros b' Hh'.
  apply (wf_unowned (drop h w) (cow_target w b) h' b'); [by apply drop_wf| |done].
  by apply (cow_data_wf w h b).
Qed.

Lemma modified_wf w h b d f nx :
  world_wf w → vars w !! h = Some b →
  data_wf d → content d ≠ [] → Forall (λ n, n < nx) (nodes (content d)) →
  cow_next w b ≤ nx →
  world_wf (install h (cow_target w b) d f nx (drop h w)).
Proof.
  intros Hwf Hh Hd Hne Hn Hnx.
  destruct (cow_data_wf w h b Hwf Hh) as (_ & _ & _ & Hfr & Hlt & Hle & _).
  eapply (install_wf _ h (mk_binder None (read_called b))); try done.
  - by apply drop_wf.
  - by rewrite (drop_vars w h b Hh), lookup_insert_eq.
  - lia.
  - rewrite drop_next. lia.
Qed.

Lemma emptied_wf w h nx :
  world_wf w → next w ≤ nx → world_wf (set_next nx (set_flag h false (drop h w))).
Proof.
  intros Hwf Hnx. apply set_next_wf; [by apply set_flag_wf, drop_wf|].
  unfold set_flag. destruct (vars (drop h w) !! h); simpl; by rewrite drop_next.
Qed.

Lemma modified_frame w h b d f nx :
  world_wf w → vars w !! h = Some b →
  frame h w (install h (cow_target w b) d f nx (drop h w)).
Proof.
  intros Hwf Hh h' Hne. split; [|by apply observe_modified_other].
  unfold install. simpl. rewrite (drop_vars w h b Hh).
  by rewrite !lookup_insert_ne.
Qed.

Lemma emptied_frame w h b nx :
  world_wf w → vars w !! h = Some b →
  frame h w (set_next nx (set_flag h false (drop h w))).
Proof.
  intros Hwf Hh h' Hne. split.
  - unfold set_flag. rewrite (drop_vars w h b Hh), lookup_insert_eq. simpl.
    by rewrite !lookup_insert_ne.
  - by rewrite observe_set_next, observe_set_flag, observe_drop_other.
Qed.

Lemma emptied_self w h b nx :
  vars w !! h = Some b →
  vars (set_next nx (set_flag h false (drop h w))) !! h = Some (mk_binder None false).
Proof.
  intros Hh. unfold set_flag. rewrite (drop_vars w h b Hh), lookup_insert_eq. simpl.
  by rewrite lookup_insert_eq.
Qed.

Lemma unchanged_refl w : unchanged w w.
Proof. by repeat split. Qed.

Lemma unchanged_set_next w nx : next w ≤ nx → unchanged w (set_next nx w).
Proof. by repeat split. Qed.

Lemma unchanged_wf w w' : unchanged w w' → world_wf w → world_wf w'.
Proof.
  intros (Hh & Hv & Hn) Hwf. destruct w' as [hp vs nx]. simpl in *. subst.
  by apply (set_next_wf w nx).
Qed.

Lemma unchanged_observe w w' h : unchanged w w' → observe w' h = observe w h.
Proof.
  intros (Hh & Hv & Hn). unfold observe, entries_at. by rewrite Hh, Hv.
Qed.

Lemma unchanged_frame w w' h : unchanged w w' → frame h w w'.
Proof.
  intros Hu h' _. split; [|by apply unchanged_observe].
  destruct Hu as (_ & -> & _). done.
Qed.

(** The keys a handle shows are pairwise distinct. *)
Lemma entries_at_NoDup w h b :
  world_wf w → vars w !! h = Some b → NoDup (entries_at w (data_ptr b)).*1.
Proof.
  intros Hwf Hh. destruct (data_ptr b) as [l|] eqn:Hb; [|apply NoDup_nil_2].
  destruct (wf_owned w h b l Hwf Hh Hb) as (blk & Hblk & Hbw & _).
  simpl. rewrite Hblk. simpl. apply (wf_keys _ (wf_data w l blk Hbw)).
Qed.

(** A handle that holds an instance shows at least one entry. *)
Lemma entries_at_nonempty w h b :
  world_wf w → vars w !! h = Some b →
  data_ptr b = None ↔ entries_at w (data_ptr b) = [].
Proof.
  intros Hwf Hh. destruct (data_ptr b) as [l|] eqn:Hb; [|done].
  destruct (wf_owned w h b l Hwf Hh Hb) as (blk & Hblk & Hbw & _).
  simpl. rewrite Hblk. simpl. split; [done|]. intros Hnil. exfalso.
  apply (wf_nonempty w l blk Hbw). unfold entries in Hnil.
  by apply fmap_nil_inv in Hnil.
Qed.

End observations.

(** ** What each member function does *)

Section specifications.
Context {K : Type} `{Countable K} {V : Type}.
Implicit Types (w : world K V) (b : binder) (l : loc) (h : var)
  (blk : block K V) (d : binder_data K V) (k : K) (v : V).

Lemma cow_fresh_node w h b :
  world_wf w → vars w !! h = Some b →
  cow_next w b ∉ nodes (content (cow_data w b)).
Proof.
  intros Hwf Hh Hin.
  destruct (cow_data_wf w h b Hwf Hh) as (_ & Hn & _).
  rewrite Forall_forall in Hn. specialize (Hn _ Hin). lia.
Qed.

Lemma cow_keys w h b :
  world_wf w → vars w !! h = Some b →
  keys (content (cow_data w b)) = (entries_at w (data_ptr b)).*1.
Proof.
  intros Hwf Hh. destruct (cow_data_wf w h b Hwf Hh) as (_ & _ & He & _).
  unfold keys. unfold entries in He. by rewrite He.
Qed.

Lemma binder_insert_front_spec w h b k v :
  world_wf w → vars w !! h = Some b →
  match binder_insert_front h k v w with
  | Ret w' _ =>
      (k ∉ (entries_at w (data_ptr b)).*1)
      ∧ observe w' h = Some ((k, v) :: entries_at w (data_ptr b))
      ∧ frame h w w' ∧ world_wf w'
      ∧ read_called <$> vars w' !! h = Some false
  | Throws w' e =>
      e = duplicate_key ∧ k ∈ (entries_at w (data_ptr b)).*1 ∧ unchanged w w'
  | UB => False
  end.
Proof.
  intros Hwf Hh. rewrite (binder_insert_front_closed w h b k v Hwf Hh).
  pose proof (data_insert_front_spec (cow_next w b) k v (cow_data w b)) as Hs.
  destruct (cow_data_wf w h b Hwf Hh) as (Hd & Hn & He & Hfr & Hlt & Hle & Hne).
  specialize (Hs Hd (cow_fresh_node w h b Hwf Hh)).
  rewrite (cow_keys w h b Hwf Hh) in Hs.
  destruct (data_insert_front _ k v _) as [d'|e|]; [| |done].
  - destruct Hs as (Hk & Hc & Hd'). split; [done|]. split.
    { rewrite observe_install_self, Hc. unfold entries in *. csimpl. by rewrite He. }
    split; [by apply modified_frame|]. split.
    { apply modified_wf; try done; [by rewrite Hc|rewrite Hc|lia].
      unfold nodes in *. csimpl. apply Forall_cons. split; [lia|].
      eapply Forall_impl; [done|]. simpl. intros; lia. }
    unfold install. simpl. by rewrite lookup_insert_eq.
  - destruct Hs as [-> Hk]. split; [done|]. split; [done|].
    apply unchanged_set_next. lia.
Qed.

Lemma binder_insert_after_spec w h b prev_k k v :
  world_wf w → vars w !! h = Some b →
  match binder_insert_after h prev_k k v w with
  | Ret w' _ =>
      (k ∉ (entries_at w (data_ptr b)).*1)
      ∧ (∃ es1 pv es2,
           entries_at w (data_ptr b) = es1 ++ (prev_k, pv) :: es2
           ∧ observe w' h = Some (es1 ++ (prev_k, pv) :: (k, v) :: es2))
      ∧ frame h w w' ∧ world_wf w'
      ∧ read_called <$> vars w' !! h = Some false
  | Throws w' e =>
      unchanged w w'
      ∧ ((e = empty_binder ∧ data_ptr b = None)
         ∨ (e = duplicate_key ∧ data_ptr b ≠ None
            ∧ k ∈ (entries_at w (data_ptr b)).*1)
         ∨ (e = missing_prev ∧ data_ptr b ≠ None
            ∧ (k ∉ (entries_at w (data_ptr b)).*1)
            ∧ (prev_k ∉ (entries_at w (data_ptr b)).*1)))
  | UB => False
  end.
Proof.
  intros Hwf Hh. rewrite (binder_insert_after_closed w h b prev_k k v Hwf Hh).
  case_bool_decide as Hnull.
  { split; [apply unchanged_refl|]. by left. }
  pose proof (data_insert_after_spec (cow_next w b) prev_k k v (cow_data w b)) as Hs.
  destruct (cow_data_wf w h b Hwf Hh) as (Hd & Hn & He & Hfr & Hlt & Hle & Hne).
  specialize (Hs Hd (cow_fresh_node w h b Hwf Hh)).
  rewrite (cow_keys w h b Hwf Hh) in Hs.
  destruct (data_insert_after _ prev_k k v _) as [d'|e|]; [| |done].
  - destruct Hs as (Hk & (c1 & p & pv & c2 & Hc & Hc') & Hd'). split; [done|].
    split.
    { exists (entries c1), pv, (entries c2). rewrite <- He, Hc.
      rewrite observe_install_self, Hc'. by rewrite !entries_app. }
    split; [by apply modified_frame|]. split.
    { apply modified_wf; try done; [rewrite Hc'; by destruct c1| |lia].
      rewrite Hc', nodes_app. rewrite Hc, nodes_app in Hn.
      apply Forall_app in Hn as [Hn1 Hn2]. unfold nodes in *. csimpl in *.
      apply Forall_cons in Hn2 as [Hp Hn2].
      apply Forall_app. split; [eapply Forall_impl; [done|]; simpl; intros; lia|].
      repeat (apply Forall_cons; split; [lia|]).
      eapply Forall_impl; [done|]. simpl. intros; lia. }
    unfold install. simpl. by rewrite lookup_insert_eq.
  - split; [apply unchanged_set_next; lia|]. right.
    destruct Hs as [[-> Hk]|(-> & Hk & Hp)]; [left|right]; done.
Qed.

Lemma binder_remove_spec w h b :
  world_wf w → vars w !! h = Some b →
  match binder_remove h w with
  | Ret w' _ =>
      (∃ y es, entries_at w (data_ptr b) = y :: es
               ∧ observe w' h = Some es
               ∧ (es = [] → data_ptr <$> vars w' !! h = Some None))
      ∧ frame h w w' ∧ world_wf w'
      ∧ read_called <$> vars w' !! h = Some false
  | Throws w' e => unchanged w w' ∧ e = empty_binder ∧ data_ptr b = None
  | UB => False
  end.
Proof.
  intros Hwf Hh. rewrite (binder_remove_closed w h b Hwf Hh).
  case_bool_decide as Hnull.
  { split; [apply unchanged_refl|]. done. }
  pose proof (data_remove_spec (cow_data w b)) as Hs.
  destruct (cow_data_wf w h b Hwf Hh) as (Hd & Hn & He & Hfr & Hlt & Hle & Hne).
  specialize (Hs Hd).
  destruct (data_remove _) as [d'|e|]; [| |done].
  - destruct Hs as [[y Hc] Hd'].
    assert (entries_at w (data_ptr b) = y.2 :: entries (content d')) as Hes.
    { rewrite <- He, Hc. done. }
    case_bool_decide as Hsz.
    + apply length_zero_iff_nil in Hsz. rewrite Hsz in Hes.
      split.
      { exists y.2, []. split; [done|].
        rewrite observe_set_next, observe_set_flag.
        split; [by apply (observe_drop_self w h b)|]. intros _.
        by rewrite (emptied_self w h b). }
      split; [by apply (emptied_frame w h b)|].
      split; [by apply emptied_wf|]. by rewrite (emptied_self w h b).
    + assert (content d' ≠ []) as Hne' by (by intros ?%length_zero_iff_nil).
      split.
      { exists y.2, (entries (content d')). split; [done|].
        split; [by rewrite observe_install_self|].
        intros Hnil. exfalso. apply Hne'. unfold entries in Hnil.
        by apply fmap_nil_inv in Hnil. }
      split; [by apply modified_frame|]. split.
      { apply modified_wf; try done. rewrite Hc in Hn. unfold nodes in *.
        csimpl in Hn. by apply Forall_cons in Hn as [_ Hn]. }
      unfold install. simpl. by rewrite lookup_insert_eq.
  - destruct Hs as [-> Hc]. exfalso. by apply Hne.
Qed.

Lemma binder_remove_key_spec w h b k :
  world_wf w → vars w !! h = Some b →
  match binder_remove_key h (KeyObj k) w with
  | Ret w' _ =>
      (∃ es1 v es2, entries_at w (data_ptr b) = es1 ++ (k, v) :: es2
                  ∧ observe w' h = Some (es1 ++ es2)
                  ∧ (es1 ++ es2 = [] → data_ptr <$> vars w' !! h = Some None))
      ∧ frame h w w' ∧ world_wf w'
      ∧ read_called <$> vars w' !! h = Some false
  | Throws w' e =>
      unchanged w w'
      ∧ ((e = empty_binder ∧ data_ptr b = None)
         ∨ (e = missing_note ∧ data_ptr b ≠ None
            ∧ k ∉ (entries_at w (data_ptr b)).*1))
  | UB => False
  end.
Proof.
  intros Hwf Hh. rewrite (binder_remove_key_closed w h b k Hwf Hh).
  case_bool_decide as Hnull.
  { split; [apply unchanged_refl|]. by left. }
  pose proof (data_remove_key_spec k (cow_data w b)) as Hs.
  destruct (cow_data_wf w h b Hwf Hh) as (Hd & Hn & He & Hfr & Hlt & Hle & Hne).
  specialize (Hs Hd). rewrite (cow_keys w h b Hwf Hh) in Hs.
  destruct (data_remove_key (Outside k) _) as [d'|e|]; [| |done].
  - destruct Hs as [(c1 & n & v & c2 & Hc & Hc') Hd'].
    assert (entries_at w (data_ptr b) = entries c1 ++ (k, v) :: entries c2) as Hes.
    { rewrite <- He, Hc. by rewrite entries_app. }
    assert (entries (content d') = entries c1 ++ entries c2) as Hes'.
    { by rewrite Hc', entries_app. }
    case_bool_decide as Hsz.
    + apply length_zero_iff_nil in Hsz. rewrite Hsz in Hes'.
      split.
      { exists (entries c1), v, (entries c2). split; [done|].
        rewrite observe_set_next, observe_set_flag, <- Hes'.
        split; [by apply (observe_drop_self w h b)|]. intros _.
        by rewrite (emptied_self w h b). }
      split; [by apply (emptied_frame w h b)|].
      split; [by apply emptied_wf|]. by rewrite (emptied_self w h b).
    + assert (content d' ≠ []) as Hne' by (by intros ?%length_zero_iff_nil).
      split.
      { exists (entries c1), v, (entries c2). split; [done|].
        split; [by rewrite observe_install_self, Hes'|].
        intros Hnil. exfalso. apply Hne'. rewrite <- Hes' in Hnil.
        unfold entries in Hnil. by apply fmap_nil_inv in Hnil. }
      split; [by apply modified_frame|]. split.
      { apply modified_wf; try done. rewrite Hc'. rewrite Hc in Hn.
        rewrite nodes_app in *. apply Forall_app in Hn as [Hn1 Hn2].
        unfold nodes in *. csimpl in Hn2. apply Forall_cons in Hn2 as [_ Hn2].
        by apply Forall_app. }
      unfold install. simpl. by rewrite lookup_insert_eq.
  - split; [apply unchanged_set_next; lia|]. right. by destruct Hs as [-> Hk].
Qed.

Lemma binder_read_spec w h b k :
  world_wf w → vars w !! h = Some b →
  match binder_read h k w with
  | Ret w' r =>
      (∃ blk c1 v c2,
         vars w' !! h = Some (mk_binder (Some r.1) true)
         ∧ heap w' !! r.1 = Some blk ∧ use_count blk = 1
         ∧ content (obj blk) = c1 ++ (r.2, (k, v)) :: c2 ∧ r.2 ∉ nodes c1)
      ∧ observe w' h = observe w h
      ∧ frame h w w' ∧ world_wf w'
  | Throws w' e =>
      unchanged w w'
      ∧ ((e = empty_binder ∧ data_ptr b = None)
         ∨ (e = missing_note ∧ data_ptr b ≠ None
            ∧ k ∉ (entries_at w (data_ptr b)).*1))
  | UB => False
  end.
Proof.
  intros Hwf Hh. rewrite (binder_read_closed w h b k Hwf Hh).
  case_bool_decide as Hnull.
  { split; [apply unchanged_refl|]. by left. }
  pose proof (data_read_spec k (cow_data w b)) as Hs.
  destruct (cow_data_wf w h b Hwf Hh) as (Hd & Hn & He & Hfr & Hlt & Hle & Hne).
  specialize (Hs Hd). rewrite (cow_keys w h b Hwf Hh) in Hs.
  destruct (data_read k _) as [n|e|]; [| |done].
  - destruct Hs as (c1 & v & c2 & Hc & Hn1). simpl. split.
    { exists (mk_block (cow_data w b) 1), c1, v, c2. unfold install. simpl.
      by rewrite !lookup_insert_eq. }
    split; [by rewrite observe_install_self, He, (observe_Some w h b)|].
    split; [by apply modified_frame|].
    apply modified_wf; try done. by apply Hne.
  - split; [apply unchanged_set_next; lia|]. right. by destruct Hs as [-> Hk].
Qed.

Lemma write_ref_wf w r v :
  world_wf w →
  match write_ref r v w with
  | Ret w' _ => world_wf w' ∧ vars w' = vars w
  | Throws _ _ => False
  | UB => True
  end.
Proof.
  intros Hwf. destruct (heap w !! r.1) as [blk|] eqn:Hblk.
  - rewrite (write_ref_closed w r v blk Hblk).
    destruct (list_at _ _); [|done]. split; [|done]. by apply write_world_wf.
  - unfold write_ref. rewrite bind_eq. unfold deref. by rewrite Hblk.
Qed.

(** Assignment through a reference into an instance with one owner. *)
Lemma write_ref_spec w h r v blk c1 k v0 c2 :
  world_wf w → vars w !! h = Some (mk_binder (Some r.1) true) →
  heap w !! r.1 = Some blk → use_count blk = 1 →
  content (obj blk) = c1 ++ (r.2, (k, v0)) :: c2 → r.2 ∉ nodes c1 →
  ∃ w', write_ref r v w = Ret w' ()
        ∧ observe w' h = Some (entries c1 ++ (k, v) :: entries c2)
        ∧ frame h w w' ∧ world_wf w'
        ∧ vars w' = vars w.
Proof.
  intros Hwf Hh Hblk Hc Hct Hn1. rewrite (write_ref_closed w r v blk Hblk).
  rewrite Hct, list_at_middle by done. eexists. split; [done|].
  rewrite list_write_middle by done. split.
  { unfold observe. simpl. rewrite Hh. simpl. rewrite lookup_insert_eq. simpl.
    by rewrite entries_app. }
  split.
  { intros h' Hne. split; [done|]. unfold observe. simpl.
    destruct (vars w !! h') as [b'|] eqn:Hh'; [|done]. simpl. f_equal.
    destruct (data_ptr b') as [l'|] eqn:Hb'; [|done]. simpl.
    rewrite lookup_insert_ne; [done|]. intros <-.
    eapply (owners_one r.1 h _ h' b'); try done.
    by rewrite <- (wf_count w r.1 blk (wf_blocks w Hwf r.1 blk Hblk)). }
  split; [|done].
  pose proof (write_world_wf w r.1 blk r.2 v Hwf Hblk) as Hw.
  by rewrite Hct, list_write_middle in Hw.
Qed.

Lemma read_write_spec w h b k v :
  world_wf w → vars w !! h = Some b →
  match (r <- binder_read h k ;; write_ref r v) w with
  | Ret w' _ =>
      (∃ es1 v0 es2,
         entries_at w (data_ptr b) = es1 ++ (k, v0) :: es2
         ∧ observe w' h = Some (es1 ++ (k, v) :: es2))
      ∧ frame h w w' ∧ world_wf w'
      ∧ read_called <$> vars w' !! h = Some true
  | Throws w' e =>
      unchanged w w'
      ∧ ((e = empty_binder ∧ data_ptr b = None)
         ∨ (e = missing_note ∧ data_ptr b ≠ None
            ∧ k ∉ (entries_at w (data_ptr b)).*1))
  | UB => False
  end.
Proof.
  intros Hwf Hh. rewrite bind_eq.
  pose proof (binder_read_spec w h b k Hwf Hh) as Hs.
  destruct (binder_read h k w) as [w1 r|w1 e|]; [|done|done].
  destruct Hs as ((blk & c1 & v0 & c2 & Hh1 & Hblk & Hc & Hct & Hn1) & Ho & Hf & Hwf1).
  destruct (write_ref_spec w1 h r v blk c1 k v0 c2 Hwf1 Hh1 Hblk Hc Hct Hn1)
    as (w2 & -> & Ho2 & Hf2 & Hwf2 & Hv2).
  split.
  { exists (entries c1), v0, (entries c2). split; [|done].
    rewrite (observe_Some w h b Hh) in Ho. unfold observe in Ho.
    rewrite Hh1 in Ho. simpl in Ho. rewrite Hblk in Ho. simpl in Ho.
    injection Ho as <-. rewrite Hct. by rewrite entries_app. }
  split.
  { intros h' Hne. destruct (Hf h' Hne) as [Ha Hb'].
    destruct (Hf2 h' Hne) as [Ha2 Hb2]. split; congruence. }
  split; [done|]. by rewrite Hv2, Hh1.
Qed.

(** *** Construction, copies and moves *)

Lemma clone_wf w h b d f :
  world_wf w → vars w !! h = Some b → data_ptr b = None →
  data_wf d → content d ≠ [] →
  world_wf (install h (next w) (data_copy (next w + 1) d) f
              (next w + 1 + length (content d)) w).
Proof.
  intros Hwf Hh Hb Hd Hne.
  apply (install_wf w h b); try done; try lia.
  - by apply wf_heap_fresh.
  - by apply data_copy_wf.
  - simpl. intros Hnil. apply Hne. apply length_zero_iff_nil.
    by rewrite <- (list_copy_length (next w + 1)), Hnil.
  - simpl. rewrite list_copy_nodes. apply Forall_forall. intros n Hin.
    apply elem_of_seq in Hin. lia.
Qed.

Lemma binder_copy_ctor_spec w h rhs r :
  world_wf w → vars w !! h = None → vars w !! rhs = Some r →
  match binder_copy_ctor h rhs w with
  | Ret w' _ =>
      world_wf w' ∧ frame h w w' ∧ observe w' h = observe w rhs
      ∧ ∃ b', vars w' !! h = Some b' ∧ read_called b' = false
              ∧ (read_called r = false → data_ptr b' = data_ptr r)
              ∧ (read_called r = true →
                 ∃ l, data_ptr b' = Some l ∧ heap w !! l = None)
  | Throws _ _ => False
  | UB => read_called r = true ∧ data_ptr r = None
  end.
Proof.
  intros Hwf Hh Hr. assert (h ≠ rhs) as Hne by congruence.
  rewrite (binder_copy_ctor_closed w h rhs r Hwf Hh Hr).
  pose proof (new_var_wf w h Hwf Hh) as Hwf0.
  assert (vars (new_var h w) !! h = Some (mk_binder None false)) as Hh0
    by (simpl; by rewrite lookup_insert_eq).
  destruct (read_called r) eqn:Hf.
  - destruct (data_ptr r) as [l|] eqn:Hp; [|done].
    destruct (wf_owned w rhs r l Hwf Hr Hp) as (blk & Hblk & Hbw & Hpos).
    rewrite Hblk. simpl.
    split.
    { apply (clone_wf (new_var h w) h (mk_binder None false) (obj blk)); try done;
        apply Hbw. }
    split.
    { intros h' Hne'. split; [simpl; by rewrite !lookup_insert_ne|].
      rewrite observe_install_other, observe_new_var_other; try done.
      intros b' Hh'. apply (wf_unowned (new_var h w) (next w) h' b'); try done.
      by apply wf_heap_fresh. }
    split.
    { rewrite observe_install_self. simpl. rewrite list_copy_entries.
      rewrite (observe_Some w rhs r Hr), Hp. simpl. by rewrite Hblk. }
    eexists. split; [simpl; by rewrite lookup_insert_eq|]. split; [done|].
    split; [done|]. intros _. exists (next w). split; [done|].
    by apply wf_heap_fresh.
  - split.
    { apply (share_wf (new_var h w) h (mk_binder None false)); try done.
      intros l Hl. by apply (wf_live w Hwf rhs r l). }
    split.
    { intros h' Hne'. split; [simpl; by rewrite !lookup_insert_ne|].
      by rewrite observe_share_other, observe_new_var_other. }
    split.
    { rewrite observe_share_self, (observe_Some w rhs r Hr). done. }
    eexists. split; [simpl; by rewrite lookup_insert_eq|]. by repeat split.
Qed.

Lemma binder_copy_assign_spec w h rhs b r :
  world_wf w → h ≠ rhs → vars w !! h = Some b → vars w !! rhs = Some r →
  match binder_copy_assign h rhs w with
  | Ret w' _ =>
      world_wf w' ∧ frame h w w' ∧ observe w' h = observe w rhs
      ∧ ∃ b', vars w' !! h = Some b' ∧ read_called b' = false
              ∧ (data_ptr r = None ∨ read_called r = false → data_ptr b' = data_ptr r)
              ∧ (data_ptr r ≠ None → read_called r = true →
                 ∃ l, data_ptr b' = Some l ∧ heap w !! l = None)
  | Throws _ _ => False
  | UB => False
  end.
Proof.
  intros Hwf Hne Hh Hr.
  rewrite (binder_copy_assign_closed w h rhs b r Hwf Hne Hh Hr).
  pose proof (drop_wf w h Hwf) as Hwf0.
  assert (vars (drop h w) !! h = Some (mk_binder None (read_called b))) as Hh0
    by (by rewrite (drop_vars w h b Hh), lookup_insert_eq).
  assert (vars (drop h w) !! rhs = Some r) as Hr0
    by (by rewrite (drop_vars w h b Hh), lookup_insert_ne).
  assert (observe (drop h w) rhs = observe w rhs) as Hobs
    by (by apply observe_drop_other).
  destruct (data_ptr r) as [l|] eqn:Hp.
  - destruct (wf_owned w rhs r l Hwf Hr Hp) as (blk & Hblk & Hbw & Hpos).
    destruct (wf_owned (drop h w) rhs r l Hwf0 Hr0 Hp) as (blk0 & Hblk0 & Hbw0 & _).
    assert (obj blk0 = obj blk) as Hobj.
    { rewrite (observe_Some _ rhs r Hr0), (observe_Some _ rhs r Hr), Hp in Hobs.
      simpl in Hobs. clear Hobs.
      destruct (data_ptr b) as [l0|] eqn:Hb;
        [|rewrite (drop_null w h b) in Hblk0 by done; congruence].
      destruct (wf_owned w h b l0 Hwf Hh Hb) as (blk1 & Hblk1 & Hbw1 & Hpos1).
      destruct (decide (use_count blk1 ≤ 1)) as [Hc|Hc].
      - rewrite (drop_heap_unique w h b l0 blk1) in Hblk0 by (done || lia).
        apply lookup_delete_Some in Hblk0 as [_ Hblk0]. congruence.
      - rewrite (drop_heap_shared w h b l0 blk1) in Hblk0 by (done || lia).
        destruct (decide (l = l0)) as [->|Hl].
        + rewrite lookup_insert_eq in Hblk0. injection Hblk0 as <-. simpl. congruence.
        + rewrite lookup_insert_ne in Hblk0 by done. congruence. }
    destruct (read_called r) eqn:Hf.
    + rewrite Hblk. simpl. rewrite <- Hobj.
      assert (next w = next (drop h w)) as Hnx by (by rewrite drop_next).
      rewrite Hnx.
      split; [eapply clone_wf; try done; apply Hbw0|]. split.
      { intros h' Hne'. split.
        { simpl. rewrite (drop_vars w h b Hh). by rewrite !lookup_insert_ne. }
        rewrite observe_install_other, observe_drop_other; try done.
        intros b' Hh'. apply (wf_unowned (drop h w) _ h' b'); try done.
        by apply wf_heap_fresh. }
      split.
      { rewrite observe_install_self. simpl. rewrite list_copy_entries.
        rewrite <- Hobs, (observe_Some _ rhs r Hr0), Hp. simpl. by rewrite Hblk0. }
      eexists. split; [simpl; by rewrite lookup_insert_eq|]. split; [done|].
      split; [by intros [?|?]|]. intros _ _. eexists. split; [done|].
      rewrite <- Hnx. by apply wf_heap_fresh.
    + split.
      { apply (share_wf (drop h w) h (mk_binder None (read_called b))); try done.
        intros l' [= <-]. by rewrite Hblk0. }
      split.
      { intros h' Hne'. split.
        { simpl. rewrite (drop_vars w h b Hh). by rewrite !lookup_insert_ne. }
        by rewrite observe_share_other, observe_drop_other. }
      split.
      { rewrite observe_share_self, <- Hobs, (observe_Some _ rhs r Hr0), Hp. done. }
      eexists. split; [simpl; by rewrite lookup_insert_eq|]. by repeat split.
  - split; [by apply set_flag_wf|]. split.
    { intros h' Hne'. split; [|by rewrite observe_set_flag, observe_drop_other].
      unfold set_flag. rewrite Hh0. simpl. rewrite (drop_vars w h b Hh).
      by rewrite !lookup_insert_ne. }
    split.
    { rewrite observe_set_flag, (observe_drop_self w h b Hh).
      by rewrite (observe_Some w rhs r Hr), Hp. }
    eexists. split; [unfold set_flag; rewrite Hh0; simpl; by rewrite lookup_insert_eq|].
    split; [done|]. split; [done|]. by intros [].
Qed.

Lemma binder_move_ctor_spec w h rhs r :
  world_wf w → vars w !! h = None → vars w !! rhs = Some r →
  ∃ w', binder_move_ctor h rhs w = Ret w' ()
        ∧ world_wf w'
        ∧ vars w' !! h = Some (mk_binder (data_ptr r) (read_called r))
        ∧ vars w' !! rhs = Some (mk_binder None (read_called r))
        ∧ observe w' h = observe w rhs
        ∧ observe w' rhs = Some [].
Proof.
  intros Hwf Hh Hr. assert (h ≠ rhs) as Hne by congruence.
  rewrite (binder_move_ctor_closed w h rhs r Hh Hr). eexists. split; [done|].
  split.
  { apply (transfer_wf (new_var h w) h rhs (mk_binder None false)); try done.
    - by apply new_var_wf.
    - simpl. by rewrite lookup_insert_eq.
    - simpl. by rewrite lookup_insert_ne. }
  unfold observe. simpl.
  rewrite lookup_insert_eq, lookup_insert_ne, lookup_insert_eq, Hr by done. done.
Qed.

Lemma binder_move_assign_spec w h rhs b r :
  world_wf w → h ≠ rhs → vars w !! h = Some b → vars w !! rhs = Some r →
  ∃ w', binder_move_assign h rhs w = Ret w' ()
        ∧ world_wf w'
        ∧ vars w' !! h = Some (mk_binder (data_ptr r) (read_called r))
        ∧ vars w' !! rhs = Some (mk_binder None (read_called r))
        ∧ observe w' h = observe w rhs
        ∧ observe w' rhs = Some [].
Proof.
  intros Hwf Hne Hh Hr.
  rewrite (binder_move_assign_closed w h rhs b r Hne Hh Hr). eexists.
  split; [done|].
  pose proof (drop_wf w h Hwf) as Hwf0.
  assert (vars (drop h w) !! h = Some (mk_binder None (read_called b))) as Hh0
    by (by rewrite (drop_vars w h b Hh), lookup_insert_eq).
  assert (vars (drop h w) !! rhs = Some r) as Hr0
    by (by rewrite (drop_vars w h b Hh), lookup_insert_ne).
  split.
  { pose proof (transfer_wf (drop h w) h rhs _ r (read_called r) Hwf0 Hne Hh0 eq_refl Hr0)
      as Hw.
    by rewrite drop_next in Hw. }
  pose proof (observe_drop_other w h rhs Hwf (not_eq_sym Hne)) as Hobs.
  unfold observe in *. simpl.
  rewrite lookup_insert_eq, lookup_insert_ne, lookup_insert_eq by done.
  rewrite Hr0 in Hobs. rewrite <- Hobs. done.
Qed.

End specifications.

(** ** The const member functions and the iterator *)

Section observers.
Context {K : Type} `{Countable K} {V : Type}.
Implicit Types (w : world K V) (b : binder) (l : loc) (h : var)
  (blk : block K V) (d : binder_data K V) (k : K) (v : V).

Lemma binder_size_spec w h b :
  world_wf w → vars w !! h = Some b →
  binder_size h w = Ret w (length (entries_at w (data_ptr b))).
Proof.
  intros Hwf Hh. unfold binder_size. rewrite (bind_get_var _ _ _ _ Hh).
  destruct (data_ptr b) as [l|] eqn:Hb; [|done].
  destruct (wf_owned w h b l Hwf Hh Hb) as (blk & Hblk & _).
  rewrite bind_eq. unfold deref. rewrite Hblk. simpl. rewrite Hblk. simpl.
  unfold data_size, entries. by rewrite length_fmap.
Qed.

Lemma binder_read_const_spec w h b k :
  world_wf w → vars w !! h = Some b →
  match binder_read_const h k w with
  | Ret w' v => w' = w ∧ (k, v) ∈ entries_at w (data_ptr b)
  | Throws w' e =>
      w' = w
      ∧ ((e = empty_binder ∧ data_ptr b = None)
         ∨ (e = missing_note ∧ data_ptr b ≠ None
            ∧ k ∉ (entries_at w (data_ptr b)).*1))
  | UB => False
  end.
Proof.
  intros Hwf Hh. unfold binder_read_const. rewrite (bind_get_var _ _ _ _ Hh).
  destruct (data_ptr b) as [l|] eqn:Hb; [|split; [done|by left]].
  destruct (wf_owned w h b l Hwf Hh Hb) as (blk & Hblk & Hbw & _).
  rewrite bind_eq. unfold deref. rewrite Hblk. simpl. rewrite Hblk. simpl.
  pose proof (data_read_const_spec k (obj blk) (wf_data w l blk Hbw)) as Hs.
  destruct (data_read_const k (obj blk)) as [v|e|]; [done| |done].
  destruct Hs as [-> Hk]. split; [done|]. right. done.
Qed.

Lemma iter_eq_refl (it : const_iterator) : iter_eq it it = true.
Proof. unfold iter_eq. by rewrite !bool_decide_eq_true_2. Qed.

Lemma iter_eq_node_end n p :
  iter_eq (mk_iter (Some (It_node n)) p) (mk_iter (Some It_end) p) = false.
Proof.
  unfold iter_eq. simpl. by apply andb_false_intro2.
Qed.

Lemma iter_deref_node w l blk n kv :
  heap w !! l = Some blk → list_at (content (obj blk)) n = Some kv →
  iter_deref (mk_iter (Some (It_node n)) (Some l)) w = Ret w kv.2.
Proof.
  intros Hblk Hat. unfold iter_deref. simpl. rewrite bind_eq. unfold deref.
  by rewrite Hblk, Hat.
Qed.

Lemma iter_incr_node w l blk n it' :
  heap w !! l = Some blk → list_next (content (obj blk)) n = Some it' →
  iter_incr (mk_iter (Some (It_node n)) (Some l)) w
  = Ret w (mk_iter (Some it') (Some l)).
Proof.
  intros Hblk Hnx. unfold iter_incr. simpl. rewrite bind_eq. unfold deref.
  by rewrite Hblk, Hnx.
Qed.

(** The values from an iterator at the head of a suffix of the sequence up
    to the end. *)
Lemma iter_collect_suffix w l blk c1 c2 fuel :
  heap w !! l = Some blk → content (obj blk) = c1 ++ c2 →
  NoDup (nodes (content (obj blk))) → length c2 ≤ fuel →
  iter_collect fuel (mk_iter (Some (list_begin c2)) (Some l))
                    (mk_iter (Some It_end) (Some l)) w
  = Ret w (entries c2).*2.
Proof.
  intros Hblk Hc Hnd. revert c1 c2 Hc. induction fuel as [|fuel IH];
    intros c1 c2 Hc Hlen.
  - destruct c2; [|simpl in Hlen; lia]. simpl. by rewrite iter_eq_refl.
  - destruct c2 as [|[n [k v]] c2]; [simpl; by rewrite iter_eq_refl|].
    assert (n ∉ nodes c1) as Hn1.
    { rewrite Hc, nodes_app in Hnd. apply NoDup_app in Hnd as (_ & Hd & _).
      intros Hin. apply (Hd n Hin). simpl. apply list_elem_of_here. }
    simpl. rewrite iter_eq_node_end.
    assert (list_at (content (obj blk)) n = Some (k, v)) as Hat
      by (rewrite Hc; by apply list_at_middle).
    assert (list_next (content (obj blk)) n = Some (list_begin c2)) as Hnx
      by (rewrite Hc; by apply list_next_middle).
    assert (content (obj blk) = (c1 ++ [(n, (k, v))]) ++ c2) as Hc'
      by (by rewrite Hc, <- app_assoc).
    assert (length c2 ≤ fuel) as Hlen' by (simpl in Hlen; lia).
    rewrite (bind_Ret _ _ _ _ _ (iter_deref_node w l blk n (k, v) Hblk Hat)).
    rewrite (bind_Ret _ _ _ _ _ (iter_incr_node w l blk n _ Hblk Hnx)).
    rewrite (bind_Ret _ _ _ _ _ (IH _ c2 Hc' Hlen')).
    done.
Qed.

(** Iterating from [cbegin()] to [cend()] yields the values in order. *)
Lemma iterate_spec w h b fuel :
  world_wf w → vars w !! h = Some b →
  length (entries_at w (data_ptr b)) ≤ fuel →
  (first <- binder_cbegin h ;; last <- binder_cend h ;;
   iter_collect fuel first last) w
  = Ret w (entries_at w (data_ptr b)).*2.
Proof.
  intros Hwf Hh Hlen. unfold binder_cbegin, binder_cend.
  rewrite bind_eq, (bind_get_var _ _ _ _ Hh).
  destruct (data_ptr b) as [l|] eqn:Hb.
  - destruct (wf_owned w h b l Hwf Hh Hb) as (blk & Hblk & Hbw & _).
    rewrite bind_eq. unfold deref at 1. rewrite Hblk. simpl.
    rewrite bind_eq, (bind_get_var _ _ _ _ Hh), Hb.
    rewrite bind_eq. unfold deref at 1. rewrite Hblk. simpl.
    simpl in Hlen. rewrite Hblk in Hlen. simpl in Hlen.
    unfold entries in Hlen. rewrite length_fmap in Hlen.
    unfold data_cbegin, data_cend.
    by apply (iter_collect_suffix w l blk []); [| |apply Hbw|].
  - simpl. rewrite bind_eq, (bind_get_var _ _ _ _ Hh), Hb. simpl.
    destruct fuel; simpl; rewrite ?iter_eq_refl; done.
Qed.

(** [cbegin() == cend()] exactly for a handle that shows nothing. *)
Lemma begin_end_spec w h b :
  world_wf w → vars w !! h = Some b →
  ∃ first last,
    binder_cbegin h w = Ret w first ∧ binder_cend h w = Ret w last
    ∧ (iter_eq first last = true ↔ entries_at w (data_ptr b) = []).
Proof.
  intros Hwf Hh. unfold binder_cbegin, binder_cend.
  rewrite !(bind_get_var _ _ _ _ Hh).
  destruct (data_ptr b) as [l|] eqn:Hb.
  - destruct (wf_owned w h b l Hwf Hh Hb) as (blk & Hblk & Hbw & _).
    rewrite !bind_eq. unfold deref. rewrite Hblk. simpl. rewrite Hblk. simpl.
    eexists _, _. split; [done|]. split; [done|].
    unfold data_cbegin, data_cend. simpl.
    pose proof (wf_nonempty w l blk Hbw) as Hne.
    destruct (content (obj blk)) as [|y c]; [done|]. simpl.
    by rewrite iter_eq_node_end.
  - eexists _, _. split; [done|]. split; [done|]. rewrite ?iter_eq_refl. done.
Qed.

End observers.

(** ** Every call keeps the invariant *)

Section calls.
Context {K : Type} `{Countable K} {V : Type}.
Implicit Types (w : world K V) (b : binder) (h : var) (k : K) (v : V).

Lemma nonempty_entries w h b :
  world_wf w → vars w !! h = Some b →
  data_ptr b ≠ None → entries_at w (data_ptr b) ≠ [].
Proof. intros Hwf Hh Hb He. by apply (entries_at_nonempty w h b) in He. Qed.

Lemma null_entries w h b :
  world_wf w → vars w !! h = Some b →
  data_ptr b = None → entries_at w (data_ptr b) = [].
Proof. intros Hwf Hh Hb. by apply (entries_at_nonempty w h b). Qed.

(** A call returns in a well-formed world, or throws for one of the causes
    of [failure] and changes nothing. *)
Lemma exec_spec (c : call) w :
  world_wf w →
  match exec c w with
  | Ret w' _ => world_wf w'
  | Throws w' e =>
      unchanged w w'
      ∧ ∃ h b, subject c = Some h ∧ vars w !! h = Some b
               ∧ failure c (entries_at w (data_ptr b)) e
  | UB => True
  end.
Proof.
  intros Hwf.
  destruct c as [h|h|h rhs|h rhs|h rhs|h rhs|h k v|h pk k v|h|h k|h k|h k|h|r v];
    simpl.
  - destruct (vars w !! h) as [b|] eqn:Hh.
    + unfold binder_ctor. by rewrite Hh.
    + rewrite binder_ctor_closed by done. by apply new_var_wf.
  - destruct (vars w !! h) as [b|] eqn:Hh.
    + rewrite (binder_dtor_closed w h b Hh).
      pose proof (del_var_wf (drop h w) h (mk_binder None (read_called b))
                    (drop_wf w h Hwf)) as Hd.
      rewrite drop_next in Hd. apply Hd; [|done].
      by rewrite (drop_vars w h b Hh), lookup_insert_eq.
    + unfold binder_dtor, move_into_data_ptr. rewrite bind_eq.
      by rewrite get_var_None.
  - destruct (vars w !! rhs) as [r|] eqn:Hr;
      [|unfold binder_copy_ctor; by rewrite get_var_None].
    destruct (vars w !! h) as [b|] eqn:Hh.
    + unfold binder_copy_ctor. rewrite (bind_get_var _ _ _ _ Hr), bind_eq.
      unfold binder_ctor. by rewrite Hh.
    + pose proof (binder_copy_ctor_spec w h rhs r Hwf Hh Hr) as Hs.
      destruct (binder_copy_ctor h rhs w); [|done|done]. apply Hs.
  - destruct (vars w !! rhs) as [r|] eqn:Hr;
      [|unfold binder_move_ctor; by rewrite get_var_None].
    destruct (vars w !! h) as [b|] eqn:Hh.
    + unfold binder_move_ctor. rewrite (bind_get_var _ _ _ _ Hr). by rewrite Hh.
    + destruct (binder_move_ctor_spec w h rhs r Hwf Hh Hr) as (w' & -> & Hw & _).
      done.
  - destruct (vars w !! h) as [b|] eqn:Hh;
      [|unfold binder_copy_assign; by rewrite get_var_None].
    destruct (decide (h = rhs)) as [<-|Hne].
    + rewrite (binder_copy_assign_self_closed w h b Hwf Hh).
      destruct (data_ptr b) as [l|] eqn:Hb; [|by apply set_flag_wf].
      destruct (read_called b); [|by apply set_flag_wf].
      destruct (wf_owned w h b l Hwf Hh Hb) as (blk & Hblk & Hbw & Hpos).
      rewrite Hblk. simpl.
      pose proof (clone_wf (drop h w) h (mk_binder None (read_called b)) (obj blk)
                    false (drop_wf w h Hwf)) as Hc.
      rewrite drop_next in Hc. apply Hc; try done; try apply Hbw.
      by rewrite (drop_vars w h b Hh), lookup_insert_eq.
    + destruct (vars w !! rhs) as [r|] eqn:Hr.
      * pose proof (binder_copy_assign_spec w h rhs b r Hwf Hne Hh Hr) as Hs.
        destruct (binder_copy_assign h rhs w); [|done|done]. apply Hs.
      * unfold binder_copy_assign. rewrite (bind_get_var _ _ _ _ Hh).
        by rewrite get_var_None.
  - destruct (vars w !! h) as [b|] eqn:Hh;
      [|unfold binder_move_assign; by rewrite get_var_None].
    destruct (decide (h = rhs)) as [<-|Hne].
    + by rewrite (binder_move_assign_self_closed w h b Hh).
    + destruct (vars w !! rhs) as [r|] eqn:Hr.
      * destruct (binder_move_assign_spec w h rhs b r Hwf Hne Hh Hr)
          as (w' & -> & Hw & _). done.
      * unfold binder_move_assign. rewrite (bind_get_var _ _ _ _ Hh).
        by rewrite get_var_None.
  - destruct (vars w !! h) as [b|] eqn:Hh;
      [|unfold binder_insert_front; by rewrite get_var_None].
    pose proof (binder_insert_front_spec w h b k v Hwf Hh) as Hs.
    destruct (binder_insert_front h k v w); [apply Hs| |done].
    destruct Hs as (-> & Hk & Hu). split; [done|]. by exists h, b.
  - destruct (vars w !! h) as [b|] eqn:Hh;
      [|unfold binder_insert_after; by rewrite get_var_None].
    pose proof (binder_insert_after_spec w h b pk k v Hwf Hh) as Hs.
    destruct (binder_insert_after h pk k v w); [apply Hs| |done].
    destruct Hs as (Hu & Hc). split; [done|]. exists h, b.
    split; [done|]. split; [done|]. simpl.
    destruct Hc as [[-> Hb]|[(-> & Hb & Hk)|(-> & Hb & Hk & Hp)]].
    + left. split; [done|]. by apply (null_entries w h b).
    + right. left. split; [done|]. split; [by apply (nonempty_entries w h b)|done].
    + right. right. split; [done|]. split; [by apply (nonempty_entries w h b)|done].
  - destruct (vars w !! h) as [b|] eqn:Hh;
      [|unfold binder_remove; by rewrite get_var_None].
    pose proof (binder_remove_spec w h b Hwf Hh) as Hs.
    destruct (binder_remove h w); [apply Hs| |done].
    destruct Hs as (Hu & -> & Hb). split; [done|]. exists h, b.
    split; [done|]. split; [done|]. simpl. split; [done|].
    by apply (null_entries w h b).
  - destruct (vars w !! h) as [b|] eqn:Hh;
      [|unfold binder_remove_key; by rewrite get_var_None].
    pose proof (binder_remove_key_spec w h b k Hwf Hh) as Hs.
    destruct (binder_remove_key h (KeyObj k) w); [apply Hs| |done].
    destruct Hs as (Hu & Hc). split; [done|]. exists h, b.
    split; [done|]. split; [done|]. simpl.
    destruct Hc as [[-> Hb]|(-> & Hb & Hk)].
    + left. split; [done|]. by apply (null_entries w h b).
    + right. split; [done|]. split; [by apply (nonempty_entries w h b)|done].
  - rewrite bind_eq.
    destruct (vars w !! h) as [b|] eqn:Hh;
      [|unfold binder_read; by rewrite get_var_None].
    pose proof (binder_read_spec w h b k Hwf Hh) as Hs.
    destruct (binder_read h k w); [apply Hs| |done].
    destruct Hs as (Hu & Hc). split; [done|]. exists h, b.
    split; [done|]. split; [done|]. simpl.
    destruct Hc as [[-> Hb]|(-> & Hb & Hk)].
    + left. split; [done|]. by apply (null_entries w h b).
    + right. split; [done|]. split; [by apply (nonempty_entries w h b)|done].
  - rewrite bind_eq.
    destruct (vars w !! h) as [b|] eqn:Hh;
      [|unfold binder_read_const; by rewrite get_var_None].
    pose proof (binder_read_const_spec w h b k Hwf Hh) as Hs.
    destruct (binder_read_const h k w); [by destruct Hs as [-> _]| |done].
    destruct Hs as (-> & Hc). split; [apply unchanged_refl|]. exists h, b.
    split; [done|]. split; [done|]. simpl.
    destruct Hc as [[-> Hb]|(-> & Hb & Hk)].
    + left. split; [done|]. by apply (null_entries w h b).
    + right. split; [done|]. split; [by apply (nonempty_entries w h b)|done].
  - destruct (vars w !! h) as [b|] eqn:Hh.
    + rewrite (binder_clear_closed w h b Hh). by apply set_flag_wf, drop_wf.
    + unfold binder_clear, move_into_data_ptr. rewrite bind_eq.
      by rewrite get_var_None.
  - pose proof (write_ref_wf w r v Hwf) as Hs.
    destruct (write_ref r v w); [|done|done]. apply Hs.
Qed.

Lemma exec_wf (c : call) w w' :
  world_wf w → after (exec c w) = Some w' → world_wf w'.
Proof.
  intros Hwf. pose proof (exec_spec c w Hwf) as Hs.
  destruct (exec c w) as [w1 []|w1 e|]; simpl; [| |done].
  - by intros [= <-].
  - intros [= <-]. eapply unchanged_wf; [apply Hs|done].
Qed.

End calls.

(** ** The instance of a flagged handle has one owner *)

Section flags.
Context {K : Type} `{Countable K} {V : Type}.
Implicit Types (w : world K V) (b : binder) (l : loc) (h : var)
  (blk : block K V) (d : binder_data K V) (k : K) (v : V).

Lemma frame_trans h w1 w2 w3 : frame h w1 w2 → frame h w2 w3 → frame h w1 w3.
Proof.
  intros H12 H23 h' Hne. destruct (H12 h' Hne) as [? ?].
  destruct (H23 h' Hne) as [? ?]. split; congruence.
Qed.

Lemma frame_refl h w : frame h w w.
Proof. by intros h' _. Qed.

Lemma unchanged_flag_inv w w' : unchanged w w' → flag_inv w → flag_inv w'.
Proof. intros (Hh & Hv & _) Hfi h b l. rewrite Hh, Hv. apply Hfi. Qed.

Lemma empty_flag_inv : flag_inv (empty_world : world K V).
Proof. intros h b l. simpl. by rewrite lookup_empty. Qed.

(** Two handles on one instance: neither has its flag set. *)
Lemma flag_inv_unshared w h h' b b' l :
  world_wf w → flag_inv w → h ≠ h' →
  vars w !! h = Some b → data_ptr b = Some l →
  vars w !! h' = Some b' → data_ptr b' = Some l →
  read_called b = false.
Proof.
  intros Hwf Hfi Hne Hh Hb Hh' Hb'. destruct (read_called b) eqn:Hf; [|done].
  destruct (Hfi h b l Hh Hf Hb) as (blk & Hblk & Hc). exfalso.
  eapply (owners_one l h b h' b'); try done.
  by rewrite <- (wf_count w l blk (wf_blocks w Hwf l blk Hblk)).
Qed.

Lemma drop_flag_inv w h : world_wf w → flag_inv w → flag_inv (drop h w).
Proof.
  intros Hwf Hfi. destruct (vars w !! h) as [b|] eqn:Hh;
    [|unfold drop; by rewrite Hh].
  destruct (data_ptr b) as [l|] eqn:Hb; [|by rewrite (drop_null w h b)].
  destruct (wf_owned w h b l Hwf Hh Hb) as (blk & Hblk & Hbw & Hpos).
  intros h' b' l' Hh' Hf' Hb'. rewrite (drop_vars w h b Hh) in Hh'.
  destruct (decide (h' = h)) as [->|Hne].
  { rewrite lookup_insert_eq in Hh'. injection Hh' as <-. done. }
  rewrite lookup_insert_ne in Hh' by done.
  destruct (Hfi h' b' l' Hh' Hf' Hb') as (blk' & Hblk' & Hc').
  assert (l' ≠ l) as Hl.
  { intros ->. pose proof (flag_inv_unshared w h' h b' b l Hwf Hfi Hne Hh' Hb' Hh Hb).
    congruence. }
  exists blk'. split; [|done].
  destruct (decide (use_count blk ≤ 1)) as [Hc|Hc].
  - rewrite (drop_heap_unique w h b l blk) by (done || lia).
    by rewrite lookup_delete_ne.
  - rewrite (drop_heap_shared w h b l blk) by (done || lia).
    by rewrite lookup_insert_ne.
Qed.

Lemma install_flag_inv w h l d f nx :
  flag_inv w → heap w !! l = None → flag_inv (install h l d f nx w).
Proof.
  intros Hfi Hl h' b' l' Hh' Hf' Hb'. unfold install in *. simpl in *.
  destruct (decide (h' = h)) as [->|Hne].
  - rewrite lookup_insert_eq in Hh'. injection Hh' as <-. simpl in Hb'.
    injection Hb' as <-. rewrite lookup_insert_eq. by eexists.
  - rewrite lookup_insert_ne in Hh' by done.
    destruct (Hfi h' b' l' Hh' Hf' Hb') as (blk' & Hblk' & Hc').
    exists blk'. split; [|done]. rewrite lookup_insert_ne; [done|]. congruence.
Qed.

(** Sharing the instance of a source whose flag is not set. *)
Lemma share_flag_inv w h rhs r :
  world_wf w → flag_inv w → h ≠ rhs →
  vars w !! rhs = Some r → read_called r = false →
  flag_inv (share h (data_ptr r) false w).
Proof.
  intros Hwf Hfi Hne Hr Hf h' b' l' Hh' Hf' Hb'. unfold share in *. simpl in *.
  destruct (decide (h' = h)) as [->|Hne'].
  { rewrite lookup_insert_eq in Hh'. injection Hh' as <-. done. }
  rewrite lookup_insert_ne in Hh' by done.
  destruct (Hfi h' b' l' Hh' Hf' Hb') as (blk' & Hblk' & Hc').
  exists blk'. split; [|done]. unfold heap_acquire.
  destruct (data_ptr r) as [l|] eqn:Hp; [|done].
  rewrite lookup_alter_ne; [done|]. intros ->.
  assert (h' ≠ rhs) as Hne2 by (intros ->; congruence).
  pose proof (flag_inv_unshared w h' rhs b' r l' Hwf Hfi Hne2 Hh' Hb' Hr Hp).
  congruence.
Qed.

Lemma set_flag_false_inv w h : flag_inv w → flag_inv (set_flag h false w).
Proof.
  intros Hfi. unfold set_flag. destruct (vars w !! h) as [b|] eqn:Hh; [|done].
  intros h' b' l' Hh' Hf' Hb'. simpl in *.
  destruct (decide (h' = h)) as [->|Hne].
  - rewrite lookup_insert_eq in Hh'. by injection Hh' as <-.
  - rewrite lookup_insert_ne in Hh' by done. by eapply Hfi.
Qed.

Lemma set_next_flag_inv w nx : flag_inv w → flag_inv (set_next nx w).
Proof. done. Qed.

Lemma new_var_flag_inv w h : flag_inv w → flag_inv (new_var h w).
Proof.
  intros Hfi h' b' l' Hh' Hf' Hb'. simpl in *.
  destruct (decide (h' = h)) as [->|Hne].
  - rewrite lookup_insert_eq in Hh'. by injection Hh' as <-.
  - rewrite lookup_insert_ne in Hh' by done. by eapply Hfi.
Qed.

Lemma del_var_flag_inv w h :
  flag_inv w → flag_inv (mk_world (heap w) (delete h (vars w)) (next w)).
Proof.
  intros Hfi h' b' l' Hh' Hf' Hb'. simpl in *.
  apply lookup_delete_Some in Hh' as [_ Hh']. by eapply Hfi.
Qed.

Lemma transfer_flag_inv w h rhs r :
  flag_inv w → vars w !! rhs = Some r →
  flag_inv (mk_world (heap w)
              (<[h := mk_binder (data_ptr r) (read_called r)]>
                 (<[rhs := mk_binder None (read_called r)]> (vars w)))
              (next w)).
Proof.
  intros Hfi Hr h' b' l' Hh' Hf' Hb'. simpl in *.
  destruct (decide (h' = h)) as [->|Hne].
  { rewrite lookup_insert_eq in Hh'. injection Hh' as <-. simpl in *.
    by eapply (Hfi rhs r). }
  rewrite lookup_insert_ne in Hh' by done.
  destruct (decide (h' = rhs)) as [->|Hne'].
  { rewrite lookup_insert_eq in Hh'. by injection Hh' as <-. }
  rewrite lookup_insert_ne in Hh' by done. by eapply Hfi.
Qed.

Lemma write_flag_inv w l blk d :
  flag_inv w → heap w !! l = Some blk →
  flag_inv (mk_world (<[l := mk_block d (use_count blk)]> (heap w)) (vars w) (next w)).
Proof.
  intros Hfi Hblk h' b' l' Hh' Hf' Hb'. simpl in *.
  destruct (Hfi h' b' l' Hh' Hf' Hb') as (blk' & Hblk' & Hc').
  destruct (decide (l' = l)) as [->|Hne].
  - rewrite lookup_insert_eq. eexists. split; [done|]. simpl. congruence.
  - rewrite lookup_insert_ne by done. by exists blk'.
Qed.

Lemma modified_flag_inv w h b d f nx :
  world_wf w → flag_inv w → vars w !! h = Some b →
  flag_inv (install h (cow_target w b) d f nx (drop h w)).
Proof.
  intros Hwf Hfi Hh. apply install_flag_inv; [by apply drop_flag_inv|].
  by apply (cow_data_wf w h b).
Qed.

Lemma emptied_flag_inv w h nx :
  world_wf w → flag_inv w →
  flag_inv (set_next nx (set_flag h false (drop h w))).
Proof.
  intros Hwf Hfi. by apply set_next_flag_inv, set_flag_false_inv, drop_flag_inv.
Qed.

Lemma clone_flag_inv w h d f :
  world_wf w → flag_inv w →
  flag_inv (install h (next w) (data_copy (next w + 1) d) f
              (next w + 1 + length (content d)) w).
Proof. intros Hwf Hfi. apply install_flag_inv; [done|]. by apply wf_heap_fresh. Qed.

Lemma exec_flag_inv (c : call) w w' :
  world_wf w → flag_inv w → after (exec c w) = Some w' → flag_inv w'.
Proof.
  intros Hwf Hfi.
  destruct c as [h|h|h rhs|h rhs|h rhs|h rhs|h k v|h pk k v|h|h k|h k|h k|h|r v];
    simpl.
  - destruct (vars w !! h) as [b|] eqn:Hh.
    + unfold binder_ctor. by rewrite Hh.
    + rewrite binder_ctor_closed by done. intros [= <-]. by apply new_var_flag_inv.
  - destruct (vars w !! h) as [b|] eqn:Hh.
    + rewrite (binder_dtor_closed w h b Hh). intros [= <-].
      pose proof (del_var_flag_inv (drop h w) h (drop_flag_inv w h Hwf Hfi)) as Hd.
      by rewrite drop_next in Hd.
    + unfold binder_dtor, move_into_data_ptr. rewrite bind_eq.
      by rewrite get_var_None.
  - destruct (vars w !! rhs) as [r|] eqn:Hr;
      [|unfold binder_copy_ctor; by rewrite get_var_None].
    destruct (vars w !! h) as [b|] eqn:Hh.
    { unfold binder_copy_ctor. rewrite (bind_get_var _ _ _ _ Hr), bind_eq.
      unfold binder_ctor. by rewrite Hh. }
    assert (h ≠ rhs) as Hne by congruence.
    rewrite (binder_copy_ctor_closed w h rhs r Hwf Hh Hr).
    pose proof (new_var_wf w h Hwf Hh) as Hwf0.
    pose proof (new_var_flag_inv w h Hfi) as Hfi0.
    destruct (read_called r) eqn:Hf.
    + destruct (data_ptr r) as [l|]; [|done]. simpl. intros [= <-].
      by apply (clone_flag_inv (new_var h w)).
    + simpl. intros [= <-].
      apply (share_flag_inv (new_var h w) h rhs r); try done.
      simpl. by rewrite lookup_insert_ne.
  - destruct (vars w !! rhs) as [r|] eqn:Hr;
      [|unfold binder_move_ctor; by rewrite get_var_None].
    destruct (vars w !! h) as [b|] eqn:Hh.
    { unfold binder_move_ctor. rewrite (bind_get_var _ _ _ _ Hr). by rewrite Hh. }
    assert (h ≠ rhs) as Hne by congruence.
    rewrite (binder_move_ctor_closed w h rhs r Hh Hr). simpl. intros [= <-].
    apply (transfer_flag_inv (new_var h w) h rhs r); [by apply new_var_flag_inv|].
    simpl. by rewrite lookup_insert_ne.
  - destruct (vars w !! h) as [b|] eqn:Hh;
      [|unfold binder_copy_assign; by rewrite get_var_None].
    destruct (decide (h = rhs)) as [<-|Hne].
    + rewrite (binder_copy_assign_self_closed w h b Hwf Hh).
      destruct (data_ptr b) as [l|] eqn:Hb;
        [|simpl; intros [= <-]; by apply set_flag_false_inv].
      destruct (read_called b);
        [|simpl; intros [= <-]; by apply set_flag_false_inv].
      simpl. intros [= <-].
      pose proof (clone_flag_inv (drop h w) h
                    (from_option obj data_empty (heap w !! l)) false
                    (drop_wf w h Hwf) (drop_flag_inv w h Hwf Hfi)) as Hc.
      by rewrite drop_next in Hc.
    + destruct (vars w !! rhs) as [r|] eqn:Hr.
      2:{ unfold binder_copy_assign. rewrite (bind_get_var _ _ _ _ Hh).
          by rewrite get_var_None. }
      rewrite (binder_copy_assign_closed w h rhs b r Hwf Hne Hh Hr).
      assert (vars (drop h w) !! rhs = Some r) as Hr0
        by (by rewrite (drop_vars w h b Hh), lookup_insert_ne).
      destruct (data_ptr r) as [l|] eqn:Hp.
      * destruct (read_called r) eqn:Hf; simpl; intros [= <-].
        -- pose proof (clone_flag_inv (drop h w) h
                         (from_option obj data_empty (heap w !! l)) false
                         (drop_wf w h Hwf) (drop_flag_inv w h Hwf Hfi)) as Hc.
           by rewrite drop_next in Hc.
        -- rewrite <- Hp.
           apply (share_flag_inv (drop h w) h rhs r); try done.
           ++ by apply drop_wf.
           ++ by apply drop_flag_inv.
      * simpl. intros [= <-]. by apply set_flag_false_inv, drop_flag_inv.
  - destruct (vars w !! h) as [b|] eqn:Hh;
      [|unfold binder_move_assign; by rewrite get_var_None].
    destruct (decide (h = rhs)) as [<-|Hne].
    + rewrite (binder_move_assign_self_closed w h b Hh). by intros [= <-].
    + destruct (vars w !! rhs) as [r|] eqn:Hr.
      2:{ unfold binder_move_assign. rewrite (bind_get_var _ _ _ _ Hh).
          by rewrite get_var_None. }
      rewrite (binder_move_assign_closed w h rhs b r Hne Hh Hr). simpl.
      intros [= <-].
      pose proof (transfer_flag_inv (drop h w) h rhs r (drop_flag_inv w h Hwf Hfi))
        as Ht.
      rewrite drop_next in Ht. apply Ht.
      by rewrite (drop_vars w h b Hh), lookup_insert_ne.
  - destruct (vars w !! h) as [b|] eqn:Hh;
      [|unfold binder_insert_front; by rewrite get_var_None].
    rewrite (binder_insert_front_closed w h b k v Hwf Hh).
    destruct (data_insert_front _ k v _); simpl; [| |done]; intros [= <-].
    + by apply modified_flag_inv.
    + done.
  - destruct (vars w !! h) as [b|] eqn:Hh;
      [|unfold binder_insert_after; by rewrite get_var_None].
    rewrite (binder_insert_after_closed w h b pk k v Hwf Hh).
    case_bool_decide; [simpl; by intros [= <-]|].
    destruct (data_insert_after _ pk k v _); simpl; [| |done]; intros [= <-].
    + by apply modified_flag_inv.
    + done.
  - destruct (vars w !! h) as [b|] eqn:Hh;
      [|unfold binder_remove; by rewrite get_var_None].
    rewrite (binder_remove_closed w h b Hwf Hh).
    case_bool_decide; [simpl; by intros [= <-]|].
    destruct (data_remove _); simpl; [| |done].
    + case_bool_decide; simpl; intros [= <-].
      * by apply emptied_flag_inv.
      * by apply modified_flag_inv.
    + by intros [= <-].
  - destruct (vars w !! h) as [b|] eqn:Hh;
      [|unfold binder_remove_key; by rewrite get_var_None].
    rewrite (binder_remove_key_closed w h b k Hwf Hh).
    case_bool_decide; [simpl; by intros [= <-]|].
    destruct (data_remove_key (Outside k) _); simpl; [| |done].
    + case_bool_decide; simpl; intros [= <-].
      * by apply emptied_flag_inv.
      * by apply modified_flag_inv.
    + by intros [= <-].
  - rewrite bind_eq.
    destruct (vars w !! h) as [b|] eqn:Hh;
      [|unfold binder_read; by rewrite get_var_None].
    rewrite (binder_read_closed w h b k Hwf Hh).
    case_bool_decide; [simpl; by intros [= <-]|].
    destruct (data_read k _); simpl; [| |done]; intros [= <-].
    + by apply modified_flag_inv.
    + done.
  - rewrite bind_eq.
    destruct (vars w !! h) as [b|] eqn:Hh;
      [|unfold binder_read_const; by rewrite get_var_None].
    pose proof (binder_read_const_spec w h b k Hwf Hh) as Hs.
    destruct (binder_read_const h k w); simpl; [| |done].
    + destruct Hs as [-> _]. by intros [= <-].
    + destruct Hs as [-> _]. by intros [= <-].
  - destruct (vars w !! h) as [b|] eqn:Hh.
    + rewrite (binder_clear_closed w h b Hh). simpl. intros [= <-].
      by apply set_flag_false_inv, drop_flag_inv.
    + unfold binder_clear, move_into_data_ptr. rewrite bind_eq.
      by rewrite get_var_None.
  - destruct (heap w !! r.1) as [blk|] eqn:Hblk.
    + rewrite (write_ref_closed w r v blk Hblk).
      destruct (list_at _ _); [|done]. simpl. intros [= <-].
      by apply write_flag_inv.
    + unfold write_ref. rewrite bind_eq. unfold deref. by rewrite Hblk.
Qed.

(** Assignment through a reference into the instance of a handle whose
    flag is set changes what that handle shows and nothing else. *)
Lemma fresh_write_spec w h b l n v :
  world_wf w → flag_inv w →
  vars w !! h = Some b → read_called b = true → data_ptr b = Some l →
  match write_ref (l, n) v w with
  | Ret w' _ =>
      frame h w w' ∧ world_wf w' ∧ flag_inv w' ∧ vars w' = vars w
  | Throws _ _ => False
  | UB => True
  end.
Proof.
  intros Hwf Hfi Hh Hf Hb. destruct (Hfi h b l Hh Hf Hb) as (blk & Hblk & Hc).
  rewrite (write_ref_closed w (l, n) v blk Hblk). simpl.
  destruct (list_at _ _); [|done]. split; [|split; [|split]].
  - intros h' Hne. split; [done|]. unfold observe. simpl.
    destruct (vars w !! h') as [b'|] eqn:Hh'; [|done]. simpl. f_equal.
    destruct (data_ptr b') as [l'|] eqn:Hb'; [|done]. simpl.
    rewrite lookup_insert_ne; [done|]. intros <-.
    eapply (owners_one l h b h' b'); try done.
    by rewrite <- (wf_count w l blk (wf_blocks w Hwf l blk Hblk)).
  - by apply write_world_wf.
  - by apply write_flag_inv.
  - done.
Qed.

(** Every mutation of [h] by a call returns or throws, and leaves the
    other handles alone. *)
Lemma mutate_spec w h b m :
  world_wf w → flag_inv w → vars w !! h = Some b →
  match mutate h m w with
  | Ret w' _ | Throws w' _ =>
      frame h w w' ∧ world_wf w' ∧ flag_inv w' ∧ is_Some (vars w' !! h)
  | UB => False
  end.
Proof.
  intros Hwf Hfi Hh.
  assert (∀ w', unchanged w w' →
    frame h w w' ∧ world_wf w' ∧ flag_inv w' ∧ is_Some (vars w' !! h)) as Hsame.
  { intros w' Hu. split; [by apply unchanged_frame|].
    split; [by eapply unchanged_wf|]. split; [by eapply unchanged_flag_inv|].
    destruct Hu as (_ & -> & _). by rewrite Hh. }
  destruct m as [k v|prev_k k v| |k|k|k v]; simpl.
  - pose proof (binder_insert_front_spec w h b k v Hwf Hh) as Hs.
    pose proof (exec_flag_inv (InsertFront h k v) w) as Hi. simpl in Hi.
    destruct (binder_insert_front h k v w) as [w' []|w' e|]; [| |done].
    + destruct Hs as (_ & _ & Hf & Hw & Hfl). split; [done|]. split; [done|].
      split; [by apply Hi|]. by destruct (vars w' !! h).
    + apply Hsame, Hs.
  - pose proof (binder_insert_after_spec w h b prev_k k v Hwf Hh) as Hs.
    pose proof (exec_flag_inv (InsertAfter h prev_k k v) w) as Hi. simpl in Hi.
    destruct (binder_insert_after h prev_k k v w) as [w' []|w' e|]; [| |done].
    + destruct Hs as (_ & _ & Hf & Hw & Hfl). split; [done|]. split; [done|].
      split; [by apply Hi|]. by destruct (vars w' !! h).
    + apply Hsame, Hs.
  - pose proof (binder_remove_spec w h b Hwf Hh) as Hs.
    pose proof (exec_flag_inv (Remove h) w) as Hi. simpl in Hi.
    destruct (binder_remove h w) as [w' []|w' e|]; [| |done].
    + destruct Hs as (_ & Hf & Hw & Hfl). split; [done|]. split; [done|].
      split; [by apply Hi|]. by destruct (vars w' !! h).
    + apply Hsame, Hs.
  - pose proof (binder_remove_key_spec w h b k Hwf Hh) as Hs.
    pose proof (exec_flag_inv (RemoveKey h k) w) as Hi. simpl in Hi.
    destruct (binder_remove_key h (KeyObj k) w) as [w' []|w' e|]; [| |done].
    + destruct Hs as (_ & Hf & Hw & Hfl). split; [done|]. split; [done|].
      split; [by apply Hi|]. by destruct (vars w' !! h).
    + apply Hsame, Hs.
  - rewrite bind_eq. pose proof (binder_read_spec w h b k Hwf Hh) as Hs.
    pose proof (exec_flag_inv (Read h k) w) as Hi. simpl in Hi.
    rewrite bind_eq in Hi.
    destruct (binder_read h k w) as [w' r|w' e|]; [| |done].
    + destruct Hs as ((blk & c1 & v & c2 & Hh' & _) & _ & Hf & Hw).
      split; [done|]. split; [done|]. split; [by apply Hi|]. by rewrite Hh'.
    + apply Hsame, Hs.
  - rewrite bind_eq. pose proof (binder_read_spec w h b k Hwf Hh) as Hs.
    pose proof (exec_flag_inv (Read h k) w) as Hi. simpl in Hi.
    rewrite bind_eq in Hi.
    destruct (binder_read h k w) as [w1 r|w1 e|]; [| |done].
    + destruct Hs as ((blk & c1 & v0 & c2 & Hh1 & Hblk & Hc & Hct & Hn1)
                      & _ & Hf & Hw1).
      specialize (Hi w1 Hwf Hfi eq_refl).
      destruct (write_ref_spec w1 h r v blk c1 k v0 c2 Hw1 Hh1 Hblk Hc Hct Hn1)
        as (w2 & Hwr & _ & Hf2 & Hw2 & Hv2).
      pose proof (exec_flag_inv (WriteRef r v) w1 w2 Hw1 Hi) as Hi2. simpl in Hi2.
      rewrite Hwr in Hi2 |- *.
      split; [by eapply frame_trans|]. split; [done|]. split; [by apply Hi2|].
      by rewrite Hv2, Hh1.
    + apply Hsame, Hs.
Qed.

End flags.

(** ** Every reachable world is well-formed *)

Section reachability.
Context {K : Type} `{Countable K} {V : Type}.
Implicit Types (w : world K V) (b : binder) (h : var).

Lemma run_wf (cs : list call) w w' :
  world_wf w → run cs w = Some w' → world_wf w'.
Proof.
  revert w. induction cs as [|c cs IH]; intros w Hwf; simpl.
  - by intros [= <-].
  - destruct (after (exec c w)) as [w1|] eqn:Hc; [|done].
    apply IH. by apply (exec_wf c w w1).
Qed.

Lemma reachable_wf w : reachable w → world_wf w.
Proof. intros [cs Hcs]. eapply run_wf; [apply empty_world_wf|done]. Qed.

Lemma run_flag_inv (cs : list call) w w' :
  world_wf w → flag_inv w → run cs w = Some w' → flag_inv w'.
Proof.
  revert w. induction cs as [|c cs IH]; intros w Hwf Hfi; simpl.
  - by intros [= <-].
  - destruct (after (exec c w)) as [w1|] eqn:Hc; [|done].
    apply IH; [by apply (exec_wf c w w1)|by apply (exec_flag_inv c w w1)].
Qed.

Lemma reachable_flag_inv w : reachable w → flag_inv w.
Proof.
  intros [cs Hcs].
  eapply run_flag_inv; [apply empty_world_wf|apply empty_flag_inv|done].
Qed.

Lemma observe_inv w h es :
  observe w h = Some es →
  ∃ b, vars w !! h = Some b ∧ entries_at w (data_ptr b) = es.
Proof.
  unfold observe. destruct (vars w !! h) as [b|]; [|done].
  intros [= <-]. by exists b.
Qed.

(** A sequence of mutations of [h] by calls runs to its end and leaves
    the other handles alone. *)
Lemma mutate_all_spec (ms : list mutation) w h :
  world_wf w → flag_inv w → is_Some (vars w !! h) →
  ∃ w', mutate_all h ms w = Some w' ∧ frame h w w'.
Proof.
  revert w. induction ms as [|m ms IH]; intros w Hwf Hfi [b Hh]; simpl.
  - exists w. split; [done|]. apply frame_refl.
  - pose proof (mutate_spec w h b m Hwf Hfi Hh) as Hs.
    destruct (mutate h m w) as [w1 []|w1 e|]; simpl; [| |done].
    + destruct Hs as (Hf & Hw & Hi & Hv).
      destruct (IH w1 Hw Hi Hv) as (w' & Hm & Hf').
      exists w'. split; [done|]. by eapply frame_trans.
    + destruct Hs as (Hf & Hw & Hi & Hv).
      destruct (IH w1 Hw Hi Hv) as (w' & Hm & Hf').
      exists w'. split; [done|]. by eapply frame_trans.
Qed.

End reachability.

(** ** [remove] with a key passed by reference *)

Section key_references.
Context {K : Type} `{Countable K} {V : Type}.
Implicit Types (w : world K V) (b : binder) (l : loc) (h : var)
  (blk : block K V) (a : key_ref K V) (k : K).

Lemma names_itself_owner w h r view :
  names_itself w h (KeyAt r view) = true →
  ∃ b blk kv, vars w !! h = Some b ∧ data_ptr b = Some r.1
              ∧ heap w !! r.1 = Some blk ∧ use_count blk = 1
              ∧ list_at (content (obj blk)) r.2 = Some kv ∧ view kv.2 = kv.1.
Proof.
  unfold names_itself. destruct (vars w !! h) as [b|] eqn:Hh; [|done].
  destruct (heap w !! r.1) as [blk|] eqn:Hblk; [|done].
  destruct (list_at (content (obj blk)) r.2) as [kv|] eqn:Hat;
    [|by rewrite andb_false_r].
  intros [[Hp Hc]%andb_true_iff Hk]%andb_true_iff.
  apply bool_decide_eq_true in Hp, Hc, Hk. exists b, blk, kv.
  repeat (split; [done|]). done.
Qed.

(** [remove(k)] with [k] bound to an object that is alive: when the
    object is the value of the very entry that [k] names and the handle
    works in place, the call reads [k] after the node is gone; in every
    other case it does what it does for an object of the caller's own
    with the same value. *)
Lemma remove_key_by_ref w h b a k :
  world_wf w → vars w !! h = Some b → key_value w a = Some k →
  binder_remove_key h a w
  = if names_itself w h a then UB else binder_remove_key h (KeyObj k) w.
Proof.
  intros Hwf Hh Hk. destruct a as [k'|r view].
  { simpl in *. by injection Hk as ->. }
  simpl in Hk. destruct (heap w !! r.1) as [blk|] eqn:Hblk; [|done].
  destruct (list_at (content (obj blk)) r.2) as [kv|] eqn:Hat; [|done].
  simpl in Hk. injection Hk as <-.
  rewrite (binder_remove_key_ref_closed w h b _ Hwf Hh).
  rewrite (binder_remove_key_closed w h b _ Hwf Hh).
  unfold names_itself. rewrite Hh, Hblk, Hat.
  destruct (cow_cases w h b Hwf Hh)
    as [Hb Hip Ht Hd Hcn Hnx Hfr
       |l blk0 Hb Hip Hblk0 Hbw Hc Ht Hd Hcn Hnx
       |l blk0 Hb Hip Hblk0 Hbw Hc Ht Hd Hcn Hnx Hfr Hne].
  - rewrite Hb. rewrite bool_decide_eq_true_2 by done. done.
  - rewrite bool_decide_eq_false_2 by (by rewrite Hb).
    rewrite Ht, Hd, Hb. unfold key_seen.
    destruct (decide (r.1 = l)) as [Hl|Hl].
    + rewrite Hl in Hblk. rewrite Hblk0 in Hblk. injection Hblk as ->.
      rewrite (bool_decide_eq_true_2 (Some l = Some r.1)) by (by rewrite Hl).
      rewrite (bool_decide_eq_true_2 (use_count blk = 1)) by done.
      rewrite (data_remove_key_inside _ _ _ kv (wf_data w l blk Hbw) Hat).
      simpl. pose proof (wf_index_at (obj blk) r.2 (view kv.2) kv
                           (wf_data w l blk Hbw) Hat) as Hix.
      destruct (decide (address (obj blk) !! view kv.2 = Some r.2)) as [Hy|Hn].
      * by rewrite bool_decide_eq_true_2 by (by apply Hix).
      * rewrite bool_decide_eq_false_2; [done|]. intros Hv. by apply Hn, Hix.
    + rewrite (bool_decide_eq_false_2 (Some l = Some r.1)) by congruence.
      by rewrite Hblk, Hat.
  - rewrite bool_decide_eq_false_2 by (by rewrite Hb).
    rewrite Ht, Hd, Hb. unfold key_seen.
    rewrite decide_False
      by (intros Hl; rewrite Hl in Hblk; unfold loc in *; by rewrite Hfr in Hblk).
    rewrite Hblk, Hat. simpl.
    destruct (decide (l = r.1)) as [Hl|Hl].
    + rewrite Hl, Hblk in Hblk0. injection Hblk0 as <-.
      rewrite (bool_decide_eq_false_2 (use_count blk = 1)) by lia.
      by rewrite andb_false_r.
    + by rewrite (bool_decide_eq_false_2 (Some l = Some r.1)) by congruence.
Qed.

(** A handle without storage throws before it looks at the argument. *)
Lemma remove_key_null w h b a :
  world_wf w → vars w !! h = Some b → data_ptr b = None →
  binder_remove_key h a w = Throws w empty_binder.
Proof.
  intros Hwf Hh Hb. rewrite (binder_remove_key_ref_closed w h b a Hwf Hh).
  by rewrite bool_decide_eq_true_2.
Qed.

End key_references.

(** * The properties of the container *)

Section container.
Context {K : Type} `{Countable K} {V : Type}.
Implicit Types (w : world K V) (b : binder) (h : var) (k : K) (v : V)
  (es : list (K * V)).

(** ** Helpers on sequences of entries *)

(** With distinct keys, a key has one place in the sequence. *)
Lemma split_unique es (a a' c c' : list (K * V)) k v v' :
  NoDup es.*1 → es = a ++ (k, v) :: c → es = a' ++ (k, v') :: c' →
  a = a' ∧ v = v' ∧ c = c'.
Proof.
  intros Hnd Ha. subst es. revert a'.
  induction a as [|x a IH]; intros a' Heq.
  - destruct a' as [|x' a'].
    + simpl in Heq. injection Heq as <- <-. done.
    + simpl in Heq. injection Heq as <- Heq. exfalso.
      csimpl in Hnd. apply NoDup_cons in Hnd as [Hnot _]. apply Hnot.
      rewrite Heq, fmap_app. apply elem_of_app. right. csimpl.
      apply list_elem_of_here.
  - destruct a' as [|x' a'].
    + simpl in Heq. injection Heq as -> Heq. exfalso.
      csimpl in Hnd. apply NoDup_cons in Hnd as [Hnot _]. apply Hnot.
      rewrite fmap_app. apply elem_of_app. right. csimpl.
      apply list_elem_of_here.
    + simpl in Heq. injection Heq as <- Heq.
      csimpl in Hnd. apply NoDup_cons in Hnd as [_ Hnd].
      destruct (IH Hnd a' Heq) as (-> & -> & ->). done.
Qed.

(** An entry inserted after [a] does not separate [p] from its
    successor when [a] is not [p]. *)
Lemma insert_keeps_adjacent (x1 x2 y1 y2 : list (K * V)) (a n p q : K * V) :
  a ≠ p → x1 ++ a :: x2 = y1 ++ p :: q :: y2 →
  ∃ z1 z2, x1 ++ a :: n :: x2 = z1 ++ p :: q :: z2.
Proof.
  intros Hne. revert y1. induction x1 as [|x x1 IH]; intros y1 Heq.
  - destruct y1 as [|y y1]; simpl in Heq.
    + injection Heq as -> _. done.
    + injection Heq as -> ->. by exists (y :: n :: y1), y2.
  - destruct y1 as [|y y1]; simpl in Heq.
    + injection Heq as -> Heq. destruct x1 as [|x' x1]; simpl in Heq.
      * injection Heq as -> ->. by exists [], (n :: y2).
      * injection Heq as -> <-. by exists [], (x1 ++ a :: n :: x2).
    + injection Heq as -> Heq. destruct (IH y1 Heq) as (z1 & z2 & Hz).
      exists (y :: z1), z2. simpl. by rewrite Hz.
Qed.

Lemma observe_entries w h b :
  vars w !! h = Some b → observe w h = Some (entries_at w (data_ptr b)).
Proof. apply observe_Some. Qed.

(** An insertion elsewhere keeps [k] right after [prev_k]. *)
Lemma right_after_kept w h b prev_k k m :
  world_wf w → vars w !! h = Some b →
  right_after prev_k k (entries_at w (data_ptr b)) → elsewhere prev_k m →
  match mutate h m w with
  | Ret w' _ | Throws w' _ =>
      world_wf w'
      ∧ ∃ b', vars w' !! h = Some b'
              ∧ right_after prev_k k (entries_at w' (data_ptr b'))
  | UB => False
  end.
Proof.
  intros Hwf Hh Hra Hm.
  assert (∀ w', unchanged w w' →
    world_wf w' ∧ ∃ b', vars w' !! h = Some b'
                        ∧ right_after prev_k k (entries_at w' (data_ptr b')))
    as Hsame.
  { intros w' Hu. split; [by eapply unchanged_wf|]. exists b.
    pose proof (unchanged_observe w w' h Hu) as Ho.
    destruct Hu as (Hhp & Hv & _). rewrite Hv. split; [done|].
    unfold entries_at. by rewrite Hhp. }
  destruct m as [k' v'|a k' v'| | | |]; simpl in *; try done.
  - pose proof (binder_insert_front_spec w h b k' v' Hwf Hh) as Hs.
    destruct (binder_insert_front h k' v' w) as [w' []|w' e|]; [| |done].
    + destruct Hs as (_ & Ho & _ & Hw & _). split; [done|].
      destruct (observe_inv w' h _ Ho) as (b' & Hh' & He'). exists b'.
      split; [done|]. rewrite He'.
      destruct Hra as (es1 & pv & v & es2 & ->).
      by exists ((k', v') :: es1), pv, v, es2.
    + apply Hsame, Hs.
  - pose proof (binder_insert_after_spec w h b a k' v' Hwf Hh) as Hs.
    destruct (binder_insert_after h a k' v' w) as [w' []|w' e|]; [| |done].
    + destruct Hs as (_ & (x1 & av & x2 & Hes & Ho) & _ & Hw & _). split; [done|].
      destruct (observe_inv w' h _ Ho) as (b' & Hh' & He'). exists b'.
      split; [done|]. rewrite He'.
      destruct Hra as (es1 & pv & v & es2 & Hes').
      destruct (insert_keeps_adjacent x1 x2 es1 es2 (a, av) (k', v')
                  (prev_k, pv) (k, v)) as (z1 & z2 & Hz).
      * congruence.
      * congruence.
      * by exists z1, pv, v, z2.
    + apply Hsame, Hs.
Qed.

Lemma right_after_kept_all (ms : list mutation) w h b prev_k k :
  world_wf w → vars w !! h = Some b →
  right_after prev_k k (entries_at w (data_ptr b)) →
  Forall (elsewhere prev_k) ms →
  ∃ w' es', mutate_all h ms w = Some w' ∧ observe w' h = Some es'
            ∧ right_after prev_k k es'.
Proof.
  revert w b. induction ms as [|m ms IH]; intros w b Hwf Hh Hra Hms; simpl.
  - exists w, (entries_at w (data_ptr b)). by rewrite (observe_entries w h b).
  - apply Forall_cons in Hms as [Hm Hms].
    pose proof (right_after_kept w h b prev_k k m Hwf Hh Hra Hm) as Hs.
    destruct (mutate h m w) as [w1 []|w1 e|]; simpl; [| |done].
    + destruct Hs as (Hw & b' & Hh' & Hra'). by apply (IH w1 b').
    + destruct Hs as (Hw & b' & Hh' & Hra'). by apply (IH w1 b').
Qed.

(** A copy exists next to its source, in a well-formed world, and shows
    what the source shows. *)
Lemma copy_spec w w1 (a b : var) :
  world_wf w → a ≠ b →
  after (binder_copy_ctor b a w) = Some w1
  ∨ after (binder_copy_assign b a w) = Some w1 →
  world_wf w1 ∧ is_Some (vars w1 !! a) ∧ is_Some (vars w1 !! b)
  ∧ observe w1 b = observe w1 a.
Proof.
  intros Hwf Hne [Hc|Hc].
  - destruct (vars w !! a) as [r|] eqn:Ha;
      [|unfold binder_copy_ctor in Hc; by rewrite get_var_None in Hc].
    destruct (vars w !! b) as [b0|] eqn:Hb.
    { unfold binder_copy_ctor in Hc. rewrite (bind_get_var _ _ _ _ Ha), bind_eq in Hc.
      unfold binder_ctor in Hc. by rewrite Hb in Hc. }
    pose proof (binder_copy_ctor_spec w b a r Hwf Hb Ha) as Hs.
    destruct (binder_copy_ctor b a w) as [w' []|w' e|]; [|done|done].
    injection Hc as ->. destruct Hs as (Hw & Hf & Ho & b' & Hb' & _).
    destruct (Hf a Hne) as [Hva Hoa].
    split; [done|]. split; [by rewrite Hva, Ha|]. split; [by rewrite Hb'|].
    congruence.
  - destruct (vars w !! b) as [b0|] eqn:Hb;
      [|unfold binder_copy_assign in Hc; by rewrite get_var_None in Hc].
    destruct (vars w !! a) as [r|] eqn:Ha.
    2:{ unfold binder_copy_assign in Hc. rewrite (bind_get_var _ _ _ _ Hb) in Hc.
        by rewrite get_var_None in Hc. }
    pose proof (binder_copy_assign_spec w b a b0 r Hwf (not_eq_sym Hne) Hb Ha) as Hs.
    destruct (binder_copy_assign b a w) as [w' []|w' e|]; [|done|done].
    injection Hc as ->. destruct Hs as (Hw & Hf & Ho & b' & Hb' & _).
    destruct (Hf a Hne) as [Hva Hoa].
    split; [done|]. split; [by rewrite Hva, Ha|]. split; [by rewrite Hb'|].
    congruence.
Qed.

(** Copies are independent under calls: a copy [b] of [a], made by copy
    construction or by copy assignment, shows what [a] shows, and every
    sequence of mutations of one of the two by calls (insert_front,
    insert_after, the two removes, the non-const read, and an assignment
    through the reference a non-const read has just returned) runs to its
    end and leaves what the other one shows, whether the copy shared or
    cloned the storage. *)
Lemma copies_are_independent w w1 (a b : var) :
  reachable w → a ≠ b →
  after (binder_copy_ctor b a w) = Some w1
  ∨ after (binder_copy_assign b a w) = Some w1 →
  observe w1 b = observe w1 a
  ∧ (∀ ms, ∃ w2, mutate_all b ms w1 = Some w2 ∧ observe w2 a = observe w1 a)
  ∧ (∀ ms, ∃ w2, mutate_all a ms w1 = Some w2 ∧ observe w2 b = observe w1 b).
Proof.
  intros Hr Hne Hc.
  destruct (copy_spec w w1 a b (reachable_wf w Hr) Hne Hc) as (Hw & Ha & Hb & Ho).
  assert (flag_inv w1) as Hi.
  { pose proof (reachable_wf w Hr) as Hwf. pose proof (reachable_flag_inv w Hr) as Hfi.
    destruct Hc as [Hc|Hc].
    - by apply (exec_flag_inv (CopyCtor b a) w w1).
    - by apply (exec_flag_inv (CopyAssign b a) w w1). }
  split; [done|]. split.
  - intros ms. destruct (mutate_all_spec ms w1 b Hw Hi Hb) as (w2 & Hm & Hf).
    exists w2. split; [done|]. by apply (Hf a).
  - intros ms. destruct (mutate_all_spec ms w1 a Hw Hi Ha) as (w2 & Hm & Hf).
    exists w2. split; [done|]. apply (Hf b). congruence.
Qed.

(** The storage engine throws, on a well-formed instance, what [failure]
    names. *)
Lemma failure_engine (c : call) (d : binder_data K V) n e :
  data_wf d → content d ≠ [] → failure c (entries (content d)) e →
  engine_throws c n d = Some e.
Proof.
  intros Hd Hne Hf.
  assert (∀ k, k ∈ (entries (content d)).*1 → is_Some (address d !! k)) as Hin
    by (intros k Hk; by apply wf_index_keys).
  assert (∀ k, k ∉ (entries (content d)).*1 → address d !! k = None) as Hout
    by (intros k Hk; by apply wf_index_None).
  assert (entries (content d) ≠ []) as Hne'
    by (unfold entries; by intros ?%fmap_nil_inv).
  destruct c; simpl in *; try done.
  - destruct Hf as [-> Hk]. unfold data_insert_front.
    by rewrite decide_True by auto.
  - destruct Hf as [[_ ?]|[(-> & _ & Hk)|(-> & _ & Hk & Hp)]]; [done| |].
    + unfold data_insert_after. by rewrite decide_True by auto.
    + unfold data_insert_after. rewrite decide_False.
      * by rewrite (Hout _ Hp).
      * rewrite (Hout _ Hk). by intros [? ?].
  - by destruct Hf as [_ ?].
  - destruct Hf as [[_ ?]|(-> & _ & Hk)]; [done|].
    unfold data_remove_key. simpl. by rewrite (Hout _ Hk).
  - destruct Hf as [[_ ?]|(-> & _ & Hk)]; [done|].
    unfold data_read. by rewrite (Hout _ Hk).
  - destruct Hf as [[_ ?]|(-> & _ & Hk)]; [done|].
    unfold data_read_const. by rewrite (Hout _ Hk).
Qed.

(** C3: a call that fails (a duplicate key, a missing key or anchor, an
    operation that needs an entry on an empty container) throws for one of
    the causes of [failure]; the exception is the one the storage engine
    throws on the handle's instance whenever the handle has one; and the
    failed call leaves the heap, the use counts and every handle as they
    were, so that every handle shows the same size, order and values as
    before, whether or not a clone was made on the way. *)
Theorem failed_call_changes_nothing w w' (c : call) (e : exn) :
  reachable w → exec c w = Throws w' e →
  heap w' = heap w ∧ vars w' = vars w
  ∧ (∀ h, observe w' h = observe w h)
  ∧ ∃ h es,
      subject c = Some h ∧ observe w h = Some es ∧ failure c es e
      ∧ (es = [] → e = empty_binder)
      ∧ (es ≠ [] →
         ∃ b l blk, vars w !! h = Some b ∧ data_ptr b = Some l
                    ∧ heap w !! l = Some blk
                    ∧ ∀ n, engine_throws c n (obj blk) = Some e).
Proof.
  intros Hr Hc. pose proof (reachable_wf w Hr) as Hwf.
  pose proof (exec_spec c w Hwf) as Hs. rewrite Hc in Hs.
  destruct Hs as (Hu & h & b & Hsub & Hh & Hf).
  split; [apply Hu|]. split; [apply Hu|].
  split; [intros h'; by apply unchanged_observe|].
  exists h, (entries_at w (data_ptr b)).
  split; [done|]. split; [by apply observe_entries|]. split; [done|]. split.
  - intros He. rewrite He in Hf. clear -Hf.
    destruct c; simpl in Hf; try done.
    + destruct Hf as [_ Hk]. by apply elem_of_nil in Hk.
    + by destruct Hf as [[-> _]|[(_ & ? & _)|(_ & ? & _)]].
    + by destruct Hf as [-> _].
    + by destruct Hf as [[-> _]|(_ & ? & _)].
    + by destruct Hf as [[-> _]|(_ & ? & _)].
    + by destruct Hf as [[-> _]|(_ & ? & _)].
  - intros Hne. destruct (data_ptr b) as [l|] eqn:Hb; [|done].
    destruct (wf_owned w h b l Hwf Hh Hb) as (blk & Hblk & Hbw & _).
    exists b, l, blk. split; [done|]. split; [done|]. split; [done|].
    intros n. apply failure_engine; [apply Hbw..|].
    simpl in Hf. by rewrite Hblk in Hf.
Qed.

(** C5: whenever the anchor is present and the key is absent,
    [insert_after] succeeds, the new entry comes right after the anchor,
    the other entries keep their relative order, and this holds in every
    state earlier calls can have produced; later insertions elsewhere
    (at the front, or after another anchor), whether they succeed or
    fail, leave the new key right after the anchor. *)
Theorem insert_after_placement w h (prev_k k : K) v es :
  reachable w → observe w h = Some es → prev_k ∈ es.*1 → k ∉ es.*1 →
  ∃ w' es1 pv es2,
    binder_insert_after h prev_k k v w = Ret w' ()
    ∧ es = es1 ++ (prev_k, pv) :: es2
    ∧ observe w' h = Some (es1 ++ (prev_k, pv) :: (k, v) :: es2)
    ∧ ∀ ms : list mutation,
        Forall (elsewhere prev_k) ms →
        ∃ w'' es', mutate_all h ms w' = Some w'' ∧ observe w'' h = Some es'
                   ∧ right_after prev_k k es'.
Proof.
  intros Hr Ho Hp Hk. pose proof (reachable_wf w Hr) as Hwf.
  destruct (observe_inv w h es Ho) as (b & Hh & He).
  pose proof (binder_insert_after_spec w h b prev_k k v Hwf Hh) as Hs.
  rewrite He in Hs.
  destruct (binder_insert_after h prev_k k v w) as [w' []|w' e|]; [| |done].
  - destruct Hs as (_ & (es1 & pv & es2 & Hes & Ho') & _ & Hw' & _).
    exists w', es1, pv, es2. split; [done|]. split; [done|]. split; [done|].
    intros ms Hms. destruct (observe_inv w' h _ Ho') as (b' & Hh' & He').
    apply (right_after_kept_all ms w' h b'); try done.
    rewrite He'. by exists es1, pv, v, es2.
  - exfalso. destruct Hs as (_ & [[_ Hb]|[(_ & _ & Hk')|(_ & _ & _ & Hp')]]).
    + rewrite Hb in He. simpl in He. subst es. by apply elem_of_nil in Hp.
    + done.
    + done.
Qed.

(** In every state that public operations can produce, a handle holds a
    storage instance exactly when it has at least one entry, and a new
    handle is empty.  Removing the only entry lets go of the instance and
    leaves a handle whose [size()] is 0 and whose [cbegin()] equals
    [cend()]: [remove()] always does so, and [remove(k)] does so unless
    its argument is bound to the value of that very entry while the
    handle is the only owner of the instance, in which case it reads the
    argument after the node is gone. *)
Lemma instance_iff_nonempty w h b :
  reachable w → vars w !! h = Some b →
  let emptied w' :=
    vars w' !! h = Some (mk_binder None false)
    ∧ binder_size h w' = Ret w' 0
    ∧ ∃ first last,
        binder_cbegin h w' = Ret w' first
        ∧ binder_cend h w' = Ret w' last
        ∧ iter_eq first last = true in
  (∃ n, binder_size h w = Ret w n ∧ (is_Some (data_ptr b) ↔ 0 < n))
  ∧ (∀ h', vars w !! h' = None →
       ∃ w', binder_ctor h' w = Ret w' ()
             ∧ vars w' !! h' = Some (mk_binder None false)
             ∧ binder_size h' w' = Ret w' 0)
  ∧ (∀ k v, observe w h = Some [(k, v)] →
     (∃ w', binder_remove h w = Ret w' () ∧ emptied w')
     ∧ ∀ a : key_ref K V, key_value w a = Some k →
         if names_itself w h a then binder_remove_key h a w = UB
         else ∃ w', binder_remove_key h a w = Ret w' () ∧ emptied w').
Proof.
  intros Hr Hh emptied. pose proof (reachable_wf w Hr) as Hwf.
  pose proof (binder_size_spec w h b Hwf Hh) as Hsz.
  pose proof (entries_at_nonempty w h b Hwf Hh) as Hemp.
  split; [|split].
  - eexists. split; [done|]. split.
    + intros [l Hl]. destruct (entries_at w (data_ptr b)); simpl; [|lia].
      destruct Hemp as [_ Hemp]. rewrite Hemp in Hl; done.
    + intros Hlen. destruct (data_ptr b); [done|].
      destruct Hemp as [Hemp _]. rewrite Hemp in Hlen by done. simpl in Hlen. lia.
  - intros h' Hh'. rewrite binder_ctor_closed by done. eexists. split; [done|].
    assert (vars (new_var h' w) !! h' = Some (mk_binder None false)) as Hv
      by (simpl; by rewrite lookup_insert_eq).
    split; [done|].
    by rewrite (binder_size_spec _ h' _ (new_var_wf w h' Hwf Hh') Hv).
  - intros k v Ho. rewrite (observe_entries w h b Hh) in Ho. injection Ho as He.
    assert (∀ w', world_wf w' → observe w' h = Some [] →
                  (data_ptr <$> vars w' !! h = Some None) →
                  (read_called <$> vars w' !! h = Some false) → emptied w')
      as Hend.
    { intros w' Hw' Ho' Hp' Hf'. unfold emptied.
      destruct (vars w' !! h) as [[p f]|] eqn:Hh'; [|done].
      simpl in Hp', Hf'. injection Hp' as ->. injection Hf' as ->.
      split; [done|]. split; [by rewrite (binder_size_spec w' h _ Hw' Hh')|].
      destruct (begin_end_spec w' h _ Hw' Hh') as (first & last & Hb & He' & Heq).
      exists first, last. split; [done|]. split; [done|]. by apply Heq. }
    split.
    + pose proof (binder_remove_spec w h b Hwf Hh) as Hs.
      destruct (binder_remove h w) as [w' []|w' e|]; [| |done].
      * exists w'. split; [done|].
        destruct Hs as ((y & es' & Hes & Ho' & Hnil) & _ & Hw' & Hf').
        rewrite He in Hes. injection Hes as _ <-. apply Hend; auto.
      * destruct Hs as (_ & _ & Hb). apply Hemp in Hb. by rewrite Hb in He.
    + intros a Ha. rewrite (remove_key_by_ref w h b a k Hwf Hh Ha).
      destruct (names_itself w h a); [done|].
      pose proof (binder_remove_key_spec w h b k Hwf Hh) as Hs.
      destruct (binder_remove_key h (KeyObj k) w) as [w' []|w' e|]; [| |done].
      * exists w'. split; [done|].
        destruct Hs as ((es1 & v' & es2 & Hes & Ho' & Hnil) & _ & Hw' & Hf').
        rewrite He in Hes.
        assert (es1 = [] ∧ es2 = []) as [-> ->].
        { destruct es1 as [|y es1]; simpl in Hes.
          - by injection Hes as _ <-.
          - injection Hes as _ Hes. by destruct es1. }
        apply Hend; auto.
      * exfalso. destruct Hs as (_ & [[_ Hb]|(_ & _ & Hk)]).
        -- apply Hemp in Hb. by rewrite Hb in He.
        -- apply Hk. rewrite He. csimpl. apply list_elem_of_here.
Qed.

(** C7 (as amended): [insert_after] on an empty handle fails with "binder
    is empty", the error of the other operations on an empty handle, from
    a test of its own made before any lookup; on a handle with entries it
    fails with DuplicateKey when the new key is present, otherwise with
    KeyNotFound for the anchor when the anchor is absent, and otherwise it
    succeeds. *)
Theorem insert_after_failures w h (prev_k k : K) v es :
  reachable w → observe w h = Some es →
  after (binder_insert_after h prev_k k v w) ≠ None
  ∧ thrown (binder_insert_after h prev_k k v w)
    = match es with
      | [] => Some empty_binder
      | _ :: _ =>
          if decide (k ∈ es.*1) then Some duplicate_key
          else if decide (prev_k ∈ es.*1) then None
          else Some missing_prev
      end.
Proof.
  intros Hr Ho. pose proof (reachable_wf w Hr) as Hwf.
  destruct (observe_inv w h es Ho) as (b & Hh & He).
  pose proof (binder_insert_after_spec w h b prev_k k v Hwf Hh) as Hs.
  pose proof (entries_at_nonempty w h b Hwf Hh) as Hemp.
  rewrite He in Hs, Hemp.
  destruct (binder_insert_after h prev_k k v w) as [w' []|w' e|]; [| |done].
  - split; [done|]. simpl.
    destruct Hs as (Hk & (es1 & pv & es2 & Hes & _) & _).
    destruct es as [|y es']; [by destruct es1|].
    rewrite decide_False by done. rewrite decide_True; [done|].
    rewrite Hes, fmap_app. apply elem_of_app. right. csimpl.
    apply list_elem_of_here.
  - split; [done|]. simpl.
    destruct Hs as (_ & [[-> Hb]|[(-> & Hb & Hk)|(-> & Hb & Hk & Hp)]]).
    + apply Hemp in Hb. by rewrite Hb.
    + destruct es as [|y es']; [exfalso; apply Hb; by apply Hemp|].
      by rewrite decide_True.
    + destruct es as [|y es']; [exfalso; apply Hb; by apply Hemp|].
      by rewrite !decide_False.
Qed.

(** For a key that is absent, inserting it (at the front, or after an
    anchor that is present) succeeds, and removing it by key right after
    restores the sequence the handle showed, hence its size and its
    iteration order, whatever object that is alive the argument of
    [remove] is bound to, with one exception: bound to the value of the
    new entry itself (a value equal to its key), [remove] reads its
    argument after the node is gone.  An object of the caller's own is
    never the exception. *)
Lemma insert_remove_round_trip w h k v es :
  reachable w → observe w h = Some es → k ∉ es.*1 →
  let back w1 :=
    ∀ a : key_ref K V, key_value w1 a = Some k →
      if names_itself w1 h a then binder_remove_key h a w1 = UB
      else ∃ w2, binder_remove_key h a w1 = Ret w2 ()
                 ∧ observe w2 h = Some es
                 ∧ binder_size h w2 = Ret w2 (length es) in
  (∃ w1, binder_insert_front h k v w = Ret w1 () ∧ back w1)
  ∧ (∀ prev_k, prev_k ∈ es.*1 →
     ∃ w1, binder_insert_after h prev_k k v w = Ret w1 () ∧ back w1).
Proof.
  intros Hr Ho Hk back. pose proof (reachable_wf w Hr) as Hwf.
  destruct (observe_inv w h es Ho) as (b & Hh & He).
  assert (∀ w1 (c1 c2 : list (K * V)),
    world_wf w1 → observe w1 h = Some (c1 ++ (k, v) :: c2) → es = c1 ++ c2 →
    back w1) as Hback.
  { intros w1 c1 c2 Hw1 Ho1 Hes a Ha.
    destruct (observe_inv w1 h _ Ho1) as (b1 & Hh1 & He1).
    rewrite (remove_key_by_ref w1 h b1 a k Hw1 Hh1 Ha).
    destruct (names_itself w1 h a); [done|].
    pose proof (binder_remove_key_spec w1 h b1 k Hw1 Hh1) as Hs.
    pose proof (entries_at_NoDup w1 h b1 Hw1 Hh1) as Hnd.
    rewrite He1 in Hs, Hnd.
    destruct (binder_remove_key h (KeyObj k) w1) as [w2 []|w2 e|]; [| |done].
    - destruct Hs as ((es1 & v' & es2 & Hsp & Ho2 & _) & _ & Hw2 & _).
      destruct (split_unique _ c1 es1 c2 es2 k v v' Hnd eq_refl Hsp) as (<- & _ & <-).
      exists w2. split; [done|]. rewrite <- Hes in Ho2. split; [done|].
      destruct (observe_inv w2 h _ Ho2) as (b2 & Hh2 & He2).
      by rewrite (binder_size_spec w2 h b2 Hw2 Hh2), He2.
    - exfalso. destruct Hs as (_ & [[_ Hb]|(_ & _ & Hk')]).
      + rewrite Hb in He1. simpl in He1. by destruct c1.
      + apply Hk'. rewrite fmap_app. apply elem_of_app. right. csimpl.
        apply list_elem_of_here. }
  split.
  - pose proof (binder_insert_front_spec w h b k v Hwf Hh) as Hs. rewrite He in Hs.
    destruct (binder_insert_front h k v w) as [w1 []|w1 e|]; [| |done].
    + destruct Hs as (_ & Ho1 & _ & Hw1 & _).
      exists w1. split; [done|]. by apply (Hback w1 [] es).
    + by destruct Hs as (_ & ? & _).
  - intros prev_k Hp.
    pose proof (binder_insert_after_spec w h b prev_k k v Hwf Hh) as Hs.
    rewrite He in Hs.
    destruct (binder_insert_after h prev_k k v w) as [w1 []|w1 e|]; [| |done].
    + destruct Hs as (_ & (es1 & pv & es2 & Hes & Ho1) & _ & Hw1 & _).
      exists w1. split; [done|].
      apply (Hback w1 (es1 ++ [(prev_k, pv)]) es2 Hw1).
      * by rewrite <- app_assoc.
      * by rewrite <- app_assoc.
    + exfalso. destruct Hs as (_ & [[_ Hb]|[(_ & _ & Hk')|(_ & _ & _ & Hp')]]).
      * rewrite Hb in He. simpl in He. subst es. by apply elem_of_nil in Hp.
      * done.
      * done.
Qed.

(** C10: when [insert_after] is called on a handle with entries, with a
    new key that is present and an anchor that is absent, DuplicateKey is
    what is thrown: the storage engine tests the new key first, and throws
    for a key that is indexed whatever the anchor. *)
Theorem duplicate_key_reported_first w h (prev_k k : K) v es :
  reachable w → observe w h = Some es → es ≠ [] →
  k ∈ es.*1 → prev_k ∉ es.*1 →
  thrown (binder_insert_after h prev_k k v w) = Some duplicate_key
  ∧ ∀ (d : binder_data K V) n,
      is_Some (address d !! k) →
      data_insert_after n prev_k k v d = Exc duplicate_key.
Proof.
  intros Hr Ho Hne Hk Hp. split.
  - pose proof (reachable_wf w Hr) as Hwf.
    destruct (observe_inv w h es Ho) as (b & Hh & He).
    pose proof (binder_insert_after_spec w h b prev_k k v Hwf Hh) as Hs.
    rewrite He in Hs.
    destruct (binder_insert_after h prev_k k v w) as [w' []|w' e|]; [| |done].
    + by destruct Hs as (Hk' & _).
    + simpl. destruct Hs as (_ & [[_ Hb]|[(-> & _)|(_ & _ & Hk' & _)]]);
        [|done|done].
      rewrite Hb in He. simpl in He. by subst es.
  - intros d n Hd. unfold data_insert_after. by rewrite decide_True.
Qed.

End container.

(** * The container on concrete inputs: keys are strings, values numbers *)

Section examples.
Local Open Scope string_scope.


(** C2: after [h0.read], moving from [h0] leaves [h0] without storage and
    with its flag still set; the copy constructor then dereferences the
    null pointer, while copy assignment from the same handle, which tests
    the pointer first, yields an empty handle. *)
Theorem copy_of_moved_from_handle :
  ∃ w w' : world string nat,
    run [Ctor 0; InsertFront 0 "k" 1; Read 0 "k"; MoveCtor 1 0] empty_world
    = Some w
    ∧ vars w !! 0 = Some (mk_binder None true)
    ∧ binder_copy_ctor 2 0 w = UB
    ∧ binder_copy_assign 1 0 w = Ret w' ()
    ∧ vars w' !! 1 = Some (mk_binder None false).
Proof.
  set (w := default empty_world
              (run [Ctor 0; InsertFront 0 "k" 1; Read 0 "k"; MoveCtor 1 0]
                 empty_world) : world string nat).
  exists w, (go (binder_copy_assign 1 0 w)).
  repeat (split; [vm_compute; reflexivity|]). vm_compute. reflexivity.
Qed.

Lemma failed_call_changes_nothing_witness :
  reachable stocked
  ∧ exec (InsertFront 0 "a" 9) stocked = Throws stocked_failed duplicate_key
  ∧ heap stocked_failed = heap stocked ∧ vars stocked_failed = vars stocked
  ∧ (∀ h, observe stocked_failed h = observe stocked h)
  ∧ ∃ h es,
      subject (InsertFront 0 "a" 9 : call) = Some h
      ∧ observe stocked h = Some es
      ∧ failure (InsertFront 0 "a" 9) es duplicate_key
      ∧ (es = [] → duplicate_key = empty_binder)
      ∧ (es ≠ [] →
         ∃ b l blk, vars stocked !! h = Some b ∧ data_ptr b = Some l
                    ∧ heap stocked !! l = Some blk
                    ∧ ∀ n, engine_throws (InsertFront 0 "a" 9) n (obj blk)
                           = Some duplicate_key).
Proof.
  assert (reachable stocked) as Hr
    by (exists [Ctor 0; InsertFront 0 "a" 1; InsertFront 0 "b" 2];
        vm_compute; reflexivity).
  assert (exec (InsertFront 0 "a" 9) stocked = Throws stocked_failed duplicate_key)
    as Hc by (vm_compute; reflexivity).
  split; [exact Hr|]. split; [exact Hc|].
  exact (failed_call_changes_nothing stocked stocked_failed
           (InsertFront 0 "a" 9) duplicate_key Hr Hc).
Defined.

(** C4: the scenario of the specification, from an empty handle [0]; the
    copy is made once by the copy constructor (handle [1]) and once by
    copy assignment (handle [2]). *)
Theorem concrete_scenario :
  ∃ (w3 w4 w5 w6 w7 w8 w9 : world string nat) (r : ref),
    run [Ctor 0; InsertFront 0 "b" 2; InsertFront 0 "a" 1;
         InsertAfter 0 "a" "c" 3] empty_world = Some w3
    ∧ observe w3 0 = Some [("a", 1); ("c", 3); ("b", 2)]
    ∧ (first <- binder_cbegin 0 ;; last <- binder_cend 0 ;;
       iter_collect 3 first last) w3 = Ret w3 [1; 3; 2]
    ∧ binder_read_const 0 "c" w3 = Ret w3 3
    ∧ binder_remove_key 0 (KeyObj "a") w3 = Ret w4 ()
    ∧ observe w4 0 = Some [("c", 3); ("b", 2)]
    ∧ (first <- binder_cbegin 0 ;; last <- binder_cend 0 ;;
       iter_collect 2 first last) w4 = Ret w4 [3; 2]
    ∧ binder_size 0 w4 = Ret w4 2
    ∧ binder_copy_ctor 1 0 w4 = Ret w5 ()
    ∧ binder_read 1 "c" w5 = Ret w6 r
    ∧ write_ref r 30 w6 = Ret w7 ()
    ∧ binder_read_const 1 "c" w7 = Ret w7 30
    ∧ binder_read_const 0 "c" w7 = Ret w7 3
    ∧ run [Ctor 2; CopyAssign 2 0] w4 = Some w8
    ∧ mutate 2 (MReadWrite "c" 30) w8 = Ret w9 ()
    ∧ binder_read_const 2 "c" w9 = Ret w9 30
    ∧ binder_read_const 0 "c" w9 = Ret w9 3.
Proof.
  set (w3 := default empty_world
               (run [Ctor 0; InsertFront 0 "b" 2; InsertFront 0 "a" 1;
                     InsertAfter 0 "a" "c" 3] empty_world) : world string nat).
  set (w4 := go (binder_remove_key 0 (KeyObj "a") w3)).
  set (w5 := go (binder_copy_ctor 1 0 w4)).
  set (w6 := go (binder_read 1 "c" w5)).
  set (r := default (0, 0) (returned (binder_read 1 "c" w5))).
  set (w7 := go (write_ref r 30 w6)).
  set (w8 := default empty_world (run [Ctor 2; CopyAssign 2 0] w4)).
  set (w9 := go (mutate 2 (MReadWrite "c" 30) w8)).
  exists w3, w4, w5, w6, w7, w8, w9, r.
  repeat (split; [vm_compute; reflexivity|]). vm_compute. reflexivity.
Qed.

Lemma insert_after_placement_witness :
  reachable stocked ∧ observe stocked 0 = Some [("b", 2); ("a", 1)]
  ∧ "b" ∈ [("b", 2); ("a", 1)].*1 ∧ ("c" ∉ [("b", 2); ("a", 1)].*1)
  ∧ ∃ w' es1 pv es2,
      binder_insert_after 0 "b" "c" 3 stocked = Ret w' ()
      ∧ [("b", 2); ("a", 1)] = (es1 ++ ("b", pv) :: es2)%list
      ∧ observe w' 0 = Some (es1 ++ ("b", pv) :: ("c", 3) :: es2)%list
      ∧ ∀ ms : list mutation,
          Forall (elsewhere "b") ms →
          ∃ w'' es', mutate_all 0 ms w' = Some w'' ∧ observe w'' 0 = Some es'
                     ∧ right_after "b" "c" es'.
Proof.
  assert (reachable stocked) as Hr
    by (exists [Ctor 0; InsertFront 0 "a" 1; InsertFront 0 "b" 2];
        vm_compute; reflexivity).
  assert (observe stocked 0 = Some [("b", 2); ("a", 1)]) as Ho
    by (vm_compute; reflexivity).
  assert ("b" ∈ [("b", 2); ("a", 1)].*1) as Hp
    by (apply (bool_decide_unpack _); vm_compute; exact I).
  assert ("c" ∉ [("b", 2); ("a", 1)].*1) as Hk
    by (apply (bool_decide_unpack _); vm_compute; exact I).
  split; [exact Hr|]. split; [exact Ho|]. split; [exact Hp|]. split; [exact Hk|].
  exact (insert_after_placement stocked 0 "b" "c" 3 _ Hr Ho Hp Hk).
Defined.

(** C6: keys and values are strings and the handle [h0] has one entry,
    whose value equals its key.  [h0.remove(h0.read("x"))] passes as key
    the reference that [read] returns: the handle works in place, the
    storage engine erases the node, and then reads the key, which was in
    that node, to erase it from the index.  The handle does not reach the
    empty state.  With the key in an object of the caller's own, and with
    [remove()], it does. *)
Theorem last_entry_named_by_its_value :
  ∃ (w w1 w2 w3 : world string string) (r : ref),
    run [Ctor 0; InsertFront 0 "x" "x"] empty_world = Some w
    ∧ binder_size 0 w = Ret w 1
    ∧ binder_read 0 "x" w = Ret w1 r
    ∧ read_ptr r w1 = Ret w1 "x"
    ∧ key_value w1 (KeyAt r (λ v, v)) = Some "x"
    ∧ binder_remove_key 0 (KeyAt r (λ v, v)) w1 = UB
    ∧ data_remove_key (Inside r.2 (λ v, v)) (obj (block_of w1 r.1)) = Undef
    ∧ binder_remove_key 0 (KeyObj "x") w1 = Ret w2 ()
    ∧ vars w2 !! 0 = Some (mk_binder None false)
    ∧ binder_size 0 w2 = Ret w2 0
    ∧ binder_remove 0 w1 = Ret w3 ()
    ∧ vars w3 !! 0 = Some (mk_binder None false)
    ∧ binder_size 0 w3 = Ret w3 0.
Proof.
  set (w := default empty_world
              (run [Ctor 0; InsertFront 0 "x" "x"] empty_world)
            : world string string).
  set (w1 := default empty_world (after (binder_read 0 "x" w))).
  set (r := default (0, 0) (returned (binder_read 0 "x" w))).
  set (w2 := default empty_world (after (binder_remove_key 0 (KeyObj "x") w1))).
  set (w3 := default empty_world (after (binder_remove 0 w1))).
  exists w, w1, w2, w3, r.
  repeat (split; [vm_compute; reflexivity|]). vm_compute. reflexivity.
Qed.

(** C7, as stated, fails: on an empty handle [insert_after] does not reach
    the anchor lookup; it throws "binder is empty", which is neither of the
    two errors the claim allows and is what [remove] throws there. *)
Lemma insert_after_on_empty_handle :
  ∃ w : world string nat,
    run [Ctor 0] empty_world = Some w
    ∧ observe w 0 = Some []
    ∧ binder_insert_after 0 "p" "k" 1 w = Throws w empty_binder
    ∧ empty_binder ≠ missing_prev ∧ empty_binder ≠ duplicate_key
    ∧ binder_remove 0 w = Throws w empty_binder.
Proof.
  exists (default empty_world (run [Ctor 0] empty_world)).
  split; [vm_compute; reflexivity|]. split; [vm_compute; reflexivity|].
  split; [vm_compute; reflexivity|]. split; [done|]. split; [done|].
  vm_compute. reflexivity.
Qed.

Lemma insert_after_failures_witness :
  reachable stocked ∧ observe stocked 0 = Some [("b", 2); ("a", 1)]
  ∧ after (binder_insert_after 0 "x" "c" 3 stocked) ≠ None
  ∧ thrown (binder_insert_after 0 "x" "c" 3 stocked)
    = (if decide ("c" ∈ [("b", 2); ("a", 1)].*1) then Some duplicate_key
       else if decide ("x" ∈ [("b", 2); ("a", 1)].*1) then None
       else Some missing_prev).
Proof.
  assert (reachable stocked) as Hr
    by (exists [Ctor 0; InsertFront 0 "a" 1; InsertFront 0 "b" 2];
        vm_compute; reflexivity).
  assert (observe stocked 0 = Some [("b", 2); ("a", 1)]) as Ho
    by (vm_compute; reflexivity).
  split; [exact Hr|]. split; [exact Ho|].
  exact (insert_after_failures stocked 0 "x" "c" 3 _ Hr Ho).
Defined.

(** C8: after [h0.read], the moved-from [h0] has no storage but its flag
    is still set, after move construction and after move assignment. *)
Theorem moved_from_keeps_flag :
  ∃ w w1 w2 w3 : world string nat,
    run [Ctor 0; InsertFront 0 "k" 1; Read 0 "k"] empty_world = Some w
    ∧ read_called <$> vars w !! 0 = Some true
    ∧ binder_move_ctor 1 0 w = Ret w1 ()
    ∧ vars w1 !! 0 = Some (mk_binder None true)
    ∧ binder_size 0 w1 = Ret w1 0
    ∧ run [Ctor 1] w = Some w2
    ∧ binder_move_assign 1 0 w2 = Ret w3 ()
    ∧ vars w3 !! 0 = Some (mk_binder None true)
    ∧ binder_size 0 w3 = Ret w3 0.
Proof.
  set (w := default empty_world
              (run [Ctor 0; InsertFront 0 "k" 1; Read 0 "k"] empty_world)
            : world string nat).
  set (w2 := default empty_world (run [Ctor 1] w)).
  exists w, (go (binder_move_ctor 1 0 w)), w2, (go (binder_move_assign 1 0 w2)).
  repeat (split; [vm_compute; reflexivity|]). vm_compute. reflexivity.
Qed.

(** C9: keys and values are strings; the handle [h0] shows a(1), and
    "x" is inserted at the front with the value "x".
    [h0.remove( *h0.cbegin() )] names the key just inserted by the
    reference to the first value ([operator*] returns the reference to
    the object whose address [operator->] returns): the storage engine
    erases the new node and then reads the key from it, so that the state
    before the insertion is not restored.  With the key in an object of
    the caller's own it is.  [remove()] erases from the index first and
    the node afterwards. *)
Theorem round_trip_by_own_value :
  ∃ (w w1 w2 w3 : world string string) (it : const_iterator) (p : ref),
    run [Ctor 0; InsertFront 0 "a" "1"] empty_world = Some w
    ∧ observe w 0 = Some [("a", "1")]
    ∧ binder_insert_front 0 "x" "x" w = Ret w1 ()
    ∧ observe w1 0 = Some [("x", "x"); ("a", "1")]
    ∧ binder_cbegin 0 w1 = Ret w1 it
    ∧ iter_deref it w1 = Ret w1 "x"
    ∧ iter_arrow it w1 = Ret w1 p
    ∧ key_value w1 (KeyAt p (λ v, v)) = Some "x"
    ∧ binder_remove_key 0 (KeyAt p (λ v, v)) w1 = UB
    ∧ binder_remove_key 0 (KeyObj "x") w1 = Ret w2 ()
    ∧ observe w2 0 = Some [("a", "1")]
    ∧ binder_size 0 w2 = Ret w2 1
    ∧ binder_remove 0 w1 = Ret w3 ()
    ∧ observe w3 0 = Some [("a", "1")].
Proof.
  set (w := default empty_world
              (run [Ctor 0; InsertFront 0 "a" "1"] empty_world)
            : world string string).
  set (w1 := default empty_world (after (binder_insert_front 0 "x" "x" w))).
  set (it := default iter_default (returned (binder_cbegin 0 w1))).
  set (p := default (0, 0) (returned (iter_arrow it w1))).
  set (w2 := default empty_world (after (binder_remove_key 0 (KeyObj "x") w1))).
  set (w3 := default empty_world (after (binder_remove 0 w1))).
  exists w, w1, w2, w3, it, p.
  repeat (split; [vm_compute; reflexivity|]). vm_compute. reflexivity.
Qed.

Lemma duplicate_key_reported_first_witness :
  reachable stocked ∧ observe stocked 0 = Some [("b", 2); ("a", 1)]
  ∧ [("b", 2); ("a", 1)] ≠ []
  ∧ "a" ∈ [("b", 2); ("a", 1)].*1 ∧ ("x" ∉ [("b", 2); ("a", 1)].*1)
  ∧ thrown (binder_insert_after 0 "x" "a" 5 stocked) = Some duplicate_key
  ∧ ∀ (d : binder_data string nat) n,
      is_Some (address d !! "a") →
      data_insert_after n "x" "a" 5 d = Exc duplicate_key.
Proof.
  assert (reachable stocked) as Hr
    by (exists [Ctor 0; InsertFront 0 "a" 1; InsertFront 0 "b" 2];
        vm_compute; reflexivity).
  assert (observe stocked 0 = Some [("b", 2); ("a", 1)]) as Ho
    by (vm_compute; reflexivity).
  assert ([("b", 2); ("a", 1)] ≠ ([] : list (string * nat))) as Hne by discriminate.
  assert ("a" ∈ [("b", 2); ("a", 1)].*1) as Hk
    by (apply (bool_decide_unpack _); vm_compute; exact I).
  assert ("x" ∉ [("b", 2); ("a", 1)].*1) as Hp
    by (apply (bool_decide_unpack _); vm_compute; exact I).
  split; [exact Hr|]. split; [exact Ho|]. split; [exact Hne|].
  split; [exact Hk|]. split; [exact Hp|].
  exact (duplicate_key_reported_first stocked 0 "x" "a" 5 _ Hr Ho Hne Hk Hp).
Defined.

End examples.

(** * Further properties: the sequence a handle shows *)

Section sequence.
Context {K : Type} `{Countable K} {V : Type}.
Implicit Types (w : world K V) (b : binder) (h : var) (k : K) (v : V)
  (es : list (K * V)).

(** With distinct keys, a key has one value. *)
Lemma assoc_functional es k v1 v2 :
  NoDup es.*1 → (k, v1) ∈ es → (k, v2) ∈ es → v1 = v2.
Proof.
  induction es as [|[k' v'] es IH]; [by intros _ ?%elem_of_nil|].
  csimpl. intros [Hnot Hnd]%NoDup_cons [H1|H1]%elem_of_cons [H2|H2]%elem_of_cons.
  - congruence.
  - exfalso. apply Hnot. injection H1 as -> ->.
    apply list_elem_of_fmap. by exists (k', v2).
  - exfalso. apply Hnot. injection H2 as -> ->.
    apply list_elem_of_fmap. by exists (k', v1).
  - by apply IH.
Qed.

Lemma observe_NoDup w h es : world_wf w → observe w h = Some es → NoDup es.*1.
Proof.
  intros Hwf (b & Hh & <-)%observe_inv. by apply (entries_at_NoDup w h b).
Qed.

Lemma observe_nil_null w h b :
  world_wf w → vars w !! h = Some b → observe w h = Some [] → data_ptr b = None.
Proof.
  intros Hwf Hh Ho. rewrite (observe_Some w h b Hh) in Ho. injection Ho as Ho.
  by apply (entries_at_nonempty w h b).
Qed.

Lemma size_value w h es :
  world_wf w → observe w h = Some es → binder_size h w = Ret w (length es).
Proof.
  intros Hwf (b & Hh & <-)%observe_inv. by apply binder_size_spec.
Qed.

Lemma read_const_value w h es k v :
  world_wf w → observe w h = Some es → (k, v) ∈ es →
  binder_read_const h k w = Ret w v.
Proof.
  intros Hwf Ho Hin. pose proof (observe_NoDup w h es Hwf Ho) as Hnd.
  apply observe_inv in Ho as (b & Hh & <-).
  pose proof (binder_read_const_spec w h b k Hwf Hh) as Hs.
  destruct (binder_read_const h k w) as [w' v'|w' e|]; [| |done].
  - destruct Hs as [-> Hin']. f_equal. by eapply assoc_functional.
  - exfalso. destruct Hs as (_ & [[_ Hb]|(_ & _ & Hk)]).
    + rewrite (null_entries w h b Hwf Hh Hb) in Hin. by apply elem_of_nil in Hin.
    + apply Hk. apply list_elem_of_fmap. by exists (k, v).
Qed.

Lemma read_const_fails w h es k :
  world_wf w → observe w h = Some es → k ∉ es.*1 →
  binder_read_const h k w
  = Throws w (match es with [] => empty_binder | _ :: _ => missing_note end).
Proof.
  intros Hwf (b & Hh & <-)%observe_inv Hk.
  pose proof (binder_read_const_spec w h b k Hwf Hh) as Hs.
  destruct (binder_read_const h k w) as [w' v'|w' e|]; [| |done].
  - exfalso. destruct Hs as [_ Hin]. apply Hk. apply list_elem_of_fmap.
    by exists (k, v').
  - destruct Hs as (-> & [[-> Hb]|(-> & Hb & _)]).
    + by rewrite (null_entries w h b Hwf Hh Hb).
    + pose proof (nonempty_entries w h b Hwf Hh Hb).
      by destruct (entries_at w (data_ptr b)).
Qed.

(** X1: [insert_front] of a key that is absent returns; the new entry is
    the first of the sequence and the others follow in their order, the
    size grows by one, a const [read] of the key gives the value, and
    the other handles show what they showed. *)
Theorem insert_front_prepends w h k v es :
  reachable w → observe w h = Some es → k ∉ es.*1 →
  ∃ w', binder_insert_front h k v w = Ret w' ()
        ∧ observe w' h = Some ((k, v) :: es)
        ∧ binder_size h w' = Ret w' (S (length es))
        ∧ binder_read_const h k w' = Ret w' v
        ∧ (∀ k' v', (k', v') ∈ es → binder_read_const h k' w' = Ret w' v')
        ∧ (∀ h', h' ≠ h → observe w' h' = observe w h').
Proof.
  intros Hr Ho Hk. pose proof (reachable_wf w Hr) as Hwf.
  apply observe_inv in Ho as (b & Hh & <-).
  pose proof (binder_insert_front_spec w h b k v Hwf Hh) as Hs.
  destruct (binder_insert_front h k v w) as [w' []|w' e|]; [| |done].
  - destruct Hs as (_ & Ho' & Hfr & Hwf' & _). exists w'.
    split; [done|]. split; [done|].
    split; [by apply (size_value w' h _ Hwf' Ho')|].
    split; [apply (read_const_value w' h _ k v Hwf' Ho'), list_elem_of_here|].
    split; [|intros h' Hne; by apply Hfr].
    intros k' v' Hin.
    by apply (read_const_value w' h _ k' v' Hwf' Ho'), list_elem_of_further.
  - by destruct Hs as (_ & Hin & _).
Qed.

(** X2: [remove()] on a handle with entries returns and takes away the
    first entry, and that one only; a const [read] of its key then fails,
    with "binder is empty" when nothing is left; the other handles show
    what they showed. *)
Theorem remove_takes_first w h (y : K * V) es :
  reachable w → observe w h = Some (y :: es) →
  ∃ w', binder_remove h w = Ret w' ()
        ∧ observe w' h = Some es
        ∧ binder_size h w' = Ret w' (length es)
        ∧ binder_read_const h y.1 w'
          = Throws w' (match es with [] => empty_binder | _ :: _ => missing_note end)
        ∧ (∀ k' v', (k', v') ∈ es → binder_read_const h k' w' = Ret w' v')
        ∧ (∀ h', h' ≠ h → observe w' h' = observe w h').
Proof.
  intros Hr Ho. pose proof (reachable_wf w Hr) as Hwf.
  pose proof (observe_NoDup w h _ Hwf Ho) as Hnd.
  apply observe_inv in Ho as (b & Hh & He).
  pose proof (binder_remove_spec w h b Hwf Hh) as Hs.
  destruct (binder_remove h w) as [w' []|w' e|]; [| |done].
  - destruct Hs as ((y' & es' & He' & Ho' & _) & Hfr & Hwf' & _).
    rewrite He in He'. injection He' as <- <-. exists w'.
    split; [done|]. split; [done|].
    split; [by apply (size_value w' h _ Hwf' Ho')|].
    split; [|split; [|intros h' Hne; by apply Hfr]].
    + apply (read_const_fails w' h es y.1 Hwf' Ho').
      csimpl in Hnd. by apply NoDup_cons in Hnd as [Hnot _].
    + intros k' v' Hin. by apply (read_const_value w' h es k' v' Hwf' Ho').
  - exfalso. destruct Hs as (_ & _ & Hb).
    by rewrite (null_entries w h b Hwf Hh Hb) in He.
Qed.

(** X3: [remove(k)] of a key that is present, whatever object that is
    alive the argument [k] is bound to.  When it is bound to the value of
    the very entry it names and the handle is the only owner of its
    instance, the call is undefined: the storage engine erases the node
    and then reads [k], which was in it.  In every other case the call
    returns and takes away the entry of that key, and that one only; the
    entries before and after it keep their order and their values, a
    const [read] of the key then fails, and the other handles show what
    they showed. *)
Theorem remove_key_takes_entry w h k v es1 es2 (a : key_ref K V) :
  reachable w → observe w h = Some (es1 ++ (k, v) :: es2) →
  key_value w a = Some k →
  if names_itself w h a then binder_remove_key h a w = UB
  else
    ∃ w', binder_remove_key h a w = Ret w' ()
          ∧ observe w' h = Some (es1 ++ es2)
          ∧ binder_size h w' = Ret w' (length es1 + length es2)
          ∧ binder_read_const h k w'
            = Throws w' (match es1 ++ es2 with
                         | [] => empty_binder
                         | _ :: _ => missing_note
                         end)
          ∧ (∀ k' v', (k', v') ∈ es1 ++ es2 →
                      binder_read_const h k' w' = Ret w' v')
          ∧ (∀ h', h' ≠ h → observe w' h' = observe w h').
Proof.
  intros Hr Ho Ha. pose proof (reachable_wf w Hr) as Hwf.
  pose proof (observe_NoDup w h _ Hwf Ho) as Hnd.
  apply observe_inv in Ho as (b & Hh & He).
  rewrite (remove_key_by_ref w h b a k Hwf Hh Ha).
  destruct (names_itself w h a); [done|].
  pose proof (binder_remove_key_spec w h b k Hwf Hh) as Hs.
  destruct (binder_remove_key h (KeyObj k) w) as [w' []|w' e|]; [| |done].
  - destruct Hs as ((a1 & v0 & a2 & He' & Ho' & _) & Hfr & Hwf' & _).
    rewrite He in He'.
    destruct (split_unique _ a1 es1 a2 es2 k v0 v Hnd He' eq_refl)
      as (-> & -> & ->).
    exists w'. split; [done|]. split; [done|].
    split; [by rewrite (size_value w' h _ Hwf' Ho'), length_app|].
    split; [|split; [|intros h' Hne; by apply Hfr]].
    + apply (read_const_fails w' h _ k Hwf' Ho').
      rewrite fmap_app in Hnd. csimpl in Hnd.
      apply NoDup_app in Hnd as (_ & Hd & Hnd2).
      apply NoDup_cons in Hnd2 as [Hnot _].
      rewrite fmap_app. intros [Hin|Hin]%elem_of_app; [|done].
      apply (Hd k Hin), list_elem_of_here.
    + intros k' v' Hin. by apply (read_const_value w' h _ k' v' Hwf' Ho').
  - exfalso. destruct Hs as (_ & [[_ Hb]|(_ & _ & Hk)]).
    + rewrite (null_entries w h b Hwf Hh Hb) in He. by destruct es1.
    + apply Hk. rewrite He, fmap_app. apply elem_of_app. right.
      csimpl. apply list_elem_of_here.
Qed.

(** X4: the const [read] never changes the world; it throws "binder is
    empty" on a handle without entries, "note doesn't exist in binder"
    for a key that is absent among entries, and otherwise returns the
    value the sequence pairs with the key. *)
Theorem read_const_looks_up w h k es :
  reachable w → observe w h = Some es →
  (es = [] → binder_read_const h k w = Throws w empty_binder)
  ∧ (es ≠ [] → k ∉ es.*1 → binder_read_const h k w = Throws w missing_note)
  ∧ (∀ v, (k, v) ∈ es → binder_read_const h k w = Ret w v)
  ∧ (∀ w' v, binder_read_const h k w = Ret w' v → w' = w ∧ (k, v) ∈ es).
Proof.
  intros Hr Ho. pose proof (reachable_wf w Hr) as Hwf.
  pose proof (observe_NoDup w h es Hwf Ho) as Hnd.
  apply observe_inv in Ho as (b & Hh & <-).
  pose proof (binder_read_const_spec w h b k Hwf Hh) as Hs.
  destruct (binder_read_const h k w) as [w' v'|w' e|]; [| |done].
  - destruct Hs as [-> Hin]. split; [|split; [|split]].
    + intros He. rewrite He in Hin. by apply elem_of_nil in Hin.
    + intros _ Hk. exfalso. apply Hk. apply list_elem_of_fmap. by exists (k, v').
    + intros v Hv. f_equal. by eapply assoc_functional.
    + by intros w2 v2 [= <- <-].
  - destruct Hs as (-> & [[-> Hb]|(-> & Hb & Hk)]);
      (split; [|split; [|split]]); try done.
    + intros Hne. exfalso. apply Hne. by apply (null_entries w h b).
    + intros v Hin. rewrite (null_entries w h b Hwf Hh Hb) in Hin.
      by apply elem_of_nil in Hin.
    + intros He. exfalso. by apply (nonempty_entries w h b Hwf Hh Hb).
    + intros v Hin. exfalso. apply Hk. apply list_elem_of_fmap. by exists (k, v).
Qed.

(** X5: [insert_front] of a key that is absent, followed by [remove()],
    gives back what the handle showed: the entry taken away is the one
    just put in.  A handle that showed nothing is without instance
    again. *)
Theorem insert_front_then_remove w h k v es :
  reachable w → observe w h = Some es → k ∉ es.*1 →
  ∃ w1 w2, binder_insert_front h k v w = Ret w1 ()
           ∧ binder_remove h w1 = Ret w2 ()
           ∧ observe w2 h = Some es
           ∧ binder_size h w2 = Ret w2 (length es)
           ∧ (es = [] → data_ptr <$> vars w2 !! h = Some None)
           ∧ (∀ h', h' ≠ h → observe w2 h' = observe w h').
Proof.
  intros Hr Ho Hk. pose proof (reachable_wf w Hr) as Hwf.
  apply observe_inv in Ho as (b & Hh & <-).
  pose proof (binder_insert_front_spec w h b k v Hwf Hh) as Hs.
  destruct (binder_insert_front h k v w) as [w1 []|w1 e|]; [| |done].
  2:{ by destruct Hs as (_ & Hin & _). }
  destruct Hs as (_ & Ho1 & Hfr1 & Hwf1 & _).
  destruct (observe_inv w1 h _ Ho1) as (b1 & Hh1 & He1).
  pose proof (binder_remove_spec w1 h b1 Hwf1 Hh1) as Hs.
  destruct (binder_remove h w1) as [w2 []|w2 e|] eqn:Hrm; [| |done].
  - destruct Hs as ((y & es' & He' & Ho2 & Hnull) & Hfr2 & Hwf2 & _).
    rewrite He1 in He'. injection He' as <- <-.
    exists w1, w2. split; [done|]. split; [done|]. split; [done|].
    split; [by apply size_value|]. split; [done|].
    intros h' Hne. destruct (Hfr1 h' Hne) as [_ H1].
    destruct (Hfr2 h' Hne) as [_ H2]. congruence.
  - exfalso. destruct Hs as (_ & _ & Hb).
    by rewrite (null_entries w1 h b1 Hwf1 Hh1 Hb) in He1.
Qed.

(** X28: on a handle that shows nothing, [remove()], [remove(k)], the
    two [read]s and [insert_after] throw "binder is empty" at once: the
    world they leave is the world they found, down to the addresses, and
    [insert_front] is the one modifier that returns.  [remove(k)] throws
    before it reads [k], whatever [k] is bound to. *)
Theorem empty_handle_throws w h :
  reachable w → observe w h = Some [] →
  binder_remove h w = Throws w empty_binder
  ∧ (∀ a : key_ref K V, binder_remove_key h a w = Throws w empty_binder)
  ∧ (∀ k, binder_read h k w = Throws w empty_binder
          ∧ binder_read_const h k w = Throws w empty_binder)
  ∧ (∀ prev_k k v, binder_insert_after h prev_k k v w = Throws w empty_binder)
  ∧ (∀ k v, ∃ w', binder_insert_front h k v w = Ret w' ()
                  ∧ observe w' h = Some [(k, v)]).
Proof.
  intros Hr Ho. pose proof (reachable_wf w Hr) as Hwf.
  destruct (observe_inv w h [] Ho) as (b & Hh & _).
  pose proof (observe_nil_null w h b Hwf Hh Ho) as Hb.
  split; [|split; [|split; [|split]]].
  - rewrite (binder_remove_closed w h b Hwf Hh).
    by rewrite bool_decide_eq_true_2.
  - intros a. by apply (remove_key_null w h b).
  - intros k. split.
    + rewrite (binder_read_closed w h b k Hwf Hh).
      by rewrite bool_decide_eq_true_2.
    + by apply (read_const_fails w h [] k Hwf Ho), not_elem_of_nil.
  - intros pk k v. rewrite (binder_insert_after_closed w h b pk k v Hwf Hh).
    by rewrite bool_decide_eq_true_2.
  - intros k v. pose proof (binder_insert_front_spec w h b k v Hwf Hh) as Hs.
    rewrite (null_entries w h b Hwf Hh Hb) in Hs.
    destruct (binder_insert_front h k v w) as [w' []|w' e|]; [| |done].
    + exists w'. split; [done|]. apply Hs.
    + destruct Hs as (_ & Hin & _). by apply elem_of_nil in Hin.
Qed.

End sequence.

(** * Further properties: traversals and references *)

Section access.
Context {K : Type} `{Countable K} {V : Type}.
Implicit Types (w : world K V) (b : binder) (h : var) (l : loc) (k : K) (v : V)
  (es : list (K * V)) (blk : block K V).

(** X6: a traversal from [cbegin()] to [cend()] with [operator==],
    [operator*] and the prefix [operator++] visits the values of the
    entries in their order, as many as [size()] says, and leaves the world
    as it was; the two iterators are equal exactly when the handle shows
    nothing. *)
Theorem traversal_yields_values w h es fuel :
  reachable w → observe w h = Some es → length es ≤ fuel →
  (first <- binder_cbegin h ;; last <- binder_cend h ;;
   iter_collect fuel first last) w = Ret w es.*2
  ∧ binder_size h w = Ret w (length es.*2)
  ∧ ∃ first last,
      binder_cbegin h w = Ret w first ∧ binder_cend h w = Ret w last
      ∧ (iter_eq first last = true ↔ es = []).
Proof.
  intros Hr Ho Hf. pose proof (reachable_wf w Hr) as Hwf.
  pose proof (size_value w h es Hwf Ho) as Hsz.
  apply observe_inv in Ho as (b & Hh & <-).
  split; [by apply (iterate_spec w h b fuel)|].
  split; [by rewrite length_fmap|].
  apply (begin_end_spec w h b Hwf Hh).
Qed.

(** [it->] designates the value that [*it] gives. *)
Lemma arrow_is_star (it : const_iterator) w :
  (p <- iter_arrow it ;; read_ptr p) w = iter_deref it w.
Proof.
  unfold iter_arrow, iter_deref, read_ptr, bind, deref, ret, undefined.
  destruct (list_iterator_ it) as [[n|]|]; [|done|done].
  destruct (obj_ptr it) as [l|]; [|done].
  destruct (heap w !! l) as [blk|] eqn:Hblk; [|done].
  destruct (list_at (content (obj blk)) n) as [kv|] eqn:Hat; [|done].
  simpl. by rewrite Hblk, Hat.
Qed.


(** The loop written with [!=], [->] and the postfix [++] is the loop
    written with [==], [*] and the prefix [++]. *)
Lemma iter_collect_post_eq fuel (first last : const_iterator) w :
  iter_collect_post fuel first last w = iter_collect fuel first last w.
Proof.
  revert first w. induction fuel as [|fuel IH]; intros first w; simpl;
    unfold iter_ne; destruct (iter_eq first last); simpl; try done.
  pose proof (arrow_is_star first w) as Ha. rewrite bind_eq in Ha.
  rewrite !bind_eq. rewrite <- Ha.
  destruct (iter_arrow first w) as [w1 p|w1 e|]; [|done|done].
  rewrite bind_eq.
  destruct (read_ptr p w1) as [w2 v|w2 e|]; [|done|done].
  unfold iter_post_incr. rewrite !bind_eq.
  destruct (iter_incr first w2) as [w3 it'|w3 e|]; [|done|done].
  unfold ret at 1. simpl. rewrite !bind_eq. by rewrite IH.
Qed.

(** X7: the traversal written with [operator!=], [operator->] and the
    postfix [operator++] visits the same values, in the same order, and
    leaves the world as it was; [operator->] designates the value that
    [operator*] returns. *)
Theorem postfix_traversal w h es fuel :
  reachable w → observe w h = Some es → length es ≤ fuel →
  (first <- binder_cbegin h ;; last <- binder_cend h ;;
   iter_collect_post fuel first last) w = Ret w es.*2
  ∧ ∀ it : const_iterator, (p <- iter_arrow it ;; read_ptr p) w = iter_deref it w.
Proof.
  intros Hr Ho Hf. pose proof (reachable_wf w Hr) as Hwf.
  apply observe_inv in Ho as (b & Hh & <-).
  split; [|intros it; apply arrow_is_star].
  pose proof (iterate_spec w h b fuel Hwf Hh Hf) as Hs.
  rewrite !bind_eq in Hs. rewrite !bind_eq.
  destruct (binder_cbegin h w) as [w1 first|w1 e|]; [|done|done].
  rewrite bind_eq in Hs. rewrite bind_eq.
  destruct (binder_cend h w1) as [w2 last|w2 e|]; [|done|done].
  by rewrite iter_collect_post_eq.
Qed.

(** A handle whose flag is set and that owns its instance alone: letting
    the instance go and taking it back changes nothing. *)
Lemma reinstall w h l blk :
  vars w !! h = Some (mk_binder (Some l) true) →
  heap w !! l = Some blk → use_count blk = 1 →
  install h l (obj blk) true (next w) (drop h w) = w.
Proof.
  intros Hh Hblk Hc. unfold install.
  rewrite (drop_heap_unique w h _ l blk Hh eq_refl Hblk Hc).
  rewrite (drop_vars w h _ Hh). destruct w as [hp vs nx]. simpl in *.
  f_equal.
  - rewrite insert_delete_eq. apply insert_id. rewrite Hblk. f_equal.
    destruct blk as [d c]. simpl in *. by subst.
  - rewrite insert_insert_eq. by apply insert_id.
Qed.

(** X8: the non-const [read] of a key that is present returns a
    reference and changes nothing that any handle shows; the handle is
    then the only owner of its instance and its flag is set.  An
    assignment through the reference replaces the value of that key and
    of no other, in place, and no other handle shows the change. *)
Theorem read_then_write w h k v v0 es1 es2 :
  reachable w → observe w h = Some (es1 ++ (k, v0) :: es2) →
  ∃ w1 r w2,
    binder_read h k w = Ret w1 r
    ∧ observe w1 h = Some (es1 ++ (k, v0) :: es2)
    ∧ vars w1 !! h = Some (mk_binder (Some r.1) true)
    ∧ sp_use_count (Some r.1) w1 = 1
    ∧ write_ref r v w1 = Ret w2 ()
    ∧ observe w2 h = Some (es1 ++ (k, v) :: es2)
    ∧ binder_read_const h k w2 = Ret w2 v
    ∧ (∀ h', h' ≠ h →
         observe w1 h' = observe w h' ∧ observe w2 h' = observe w h').
Proof.
  intros Hr Ho. pose proof (reachable_wf w Hr) as Hwf.
  pose proof (observe_NoDup w h _ Hwf Ho) as Hnd.
  destruct (observe_inv w h _ Ho) as (b & Hh & He).
  pose proof (binder_read_spec w h b k Hwf Hh) as Hs.
  destruct (binder_read h k w) as [w1 r|w1 e|]; [| |done].
  - destruct Hs as ((blk & c1 & v1 & c2 & Hh1 & Hblk & Hc & Hcont & Hn)
                    & Ho1 & Hfr1 & Hwf1).
    rewrite Ho in Ho1.
    assert (entries c1 ++ (k, v1) :: entries c2 = es1 ++ (k, v0) :: es2) as Hsame.
    { rewrite (observe_Some w1 h _ Hh1) in Ho1. injection Ho1 as <-.
      simpl. rewrite Hblk. simpl. by rewrite Hcont, entries_app. }
    destruct (split_unique _ (entries c1) es1 (entries c2) es2 k v1 v0 Hnd
                (eq_sym Hsame) eq_refl) as (He1 & -> & He2).
    destruct (write_ref_spec w1 h r v blk c1 k v0 c2 Hwf1 Hh1 Hblk Hc Hcont Hn)
      as (w2 & Hw & Ho2 & Hfr2 & Hwf2 & _).
    rewrite He1, He2 in Ho2.
    exists w1, r, w2. split; [done|]. split; [done|]. split; [done|].
    split; [simpl; by rewrite Hblk|]. split; [done|]. split; [done|].
    split.
    + apply (read_const_value w2 h _ k v Hwf2 Ho2).
      apply elem_of_app. right. apply list_elem_of_here.
    + intros h' Hne. destruct (Hfr1 h' Hne) as [_ H1].
      destruct (Hfr2 h' Hne) as [_ H2]. split; congruence.
  - exfalso. destruct Hs as (_ & [[_ Hb]|(_ & _ & Hk)]).
    + rewrite (null_entries w h b Hwf Hh Hb) in He. by destruct es1.
    + apply Hk. rewrite He, fmap_app. apply elem_of_app. right.
      csimpl. apply list_elem_of_here.
Qed.

(** X9: a second non-const [read] of the same key, right after the first,
    returns the same reference and changes nothing: no instance is made,
    and the reference returned first stays good. *)
Theorem read_again w h k w1 (r : ref) :
  reachable w → binder_read h k w = Ret w1 r →
  binder_read h k w1 = Ret w1 r
  ∧ ∀ k' w2 (r' : ref), binder_read h k' w1 = Ret w2 r' → w2 = w1 ∧ r'.1 = r.1.
Proof.
  intros Hr Hread. pose proof (reachable_wf w Hr) as Hwf.
  destruct (vars w !! h) as [b|] eqn:Hh;
    [|unfold binder_read in Hread; by rewrite get_var_None in Hread].
  pose proof (binder_read_spec w h b k Hwf Hh) as Hs. rewrite Hread in Hs.
  destruct Hs as ((blk & c1 & v1 & c2 & Hh1 & Hblk & Hc & Hcont & Hn)
                  & _ & _ & Hwf1).
  pose proof (wf_blocks w1 Hwf1 r.1 blk Hblk) as Hbw.
  assert (cow_target w1 (mk_binder (Some r.1) true) = r.1
          ∧ cow_data w1 (mk_binder (Some r.1) true) = obj blk
          ∧ cow_next w1 (mk_binder (Some r.1) true) = next w1) as (Ht & Hd & Hx).
  { unfold cow_target, cow_data, cow_next, in_place. simpl. rewrite Hblk. simpl.
    by rewrite bool_decide_eq_true_2. }
  assert (∀ k', binder_read h k' w1
                = match data_read k' (obj blk) with
                  | Val n => Ret w1 (r.1, n)
                  | Exc e => Throws (set_next (next w1) w1) e
                  | Undef => UB
                  end) as Hclosed.
  { intros k'. rewrite (binder_read_closed w1 h _ k' Hwf1 Hh1). simpl.
    rewrite Ht, Hd, Hx. destruct (data_read k' (obj blk)); [|done|done].
    by rewrite (reinstall w1 h r.1 blk Hh1 Hblk Hc). }
  split.
  - rewrite Hclosed. unfold data_read.
    assert (address (obj blk) !! k = Some r.2) as ->.
    { apply (wf_index _ (wf_data w1 r.1 blk Hbw)). exists v1. rewrite Hcont.
      apply elem_of_app. right. apply list_elem_of_here. }
    by destruct r.
  - intros k' w2 r'. rewrite Hclosed.
    destruct (data_read k' (obj blk)); [|done|done]. by intros [= <- <-].
Qed.

End access.

(** * Further properties: the lifetime of storage instances *)

Section use_counts.
Context {K : Type} `{Countable K} {V : Type}.
Implicit Types (w : world K V) (b : binder) (l : loc) (h : var)
  (blk : block K V) (d : binder_data K V) (k : K) (v : V).

Lemma counted_heap w w' : heap w' = heap w → counted w → counted w'.
Proof. intros Hh Hc l blk. rewrite Hh. apply Hc. Qed.

Lemma empty_counted : counted (empty_world : world K V).
Proof. intros l blk. simpl. by rewrite lookup_empty. Qed.

Lemma set_flag_heap w h f : heap (set_flag h f w) = heap w.
Proof. unfold set_flag. by destruct (vars w !! h). Qed.

Lemma drop_counted w h : world_wf w → counted w → counted (drop h w).
Proof.
  intros Hwf Hc. destruct (vars w !! h) as [b|] eqn:Hh;
    [|unfold drop; by rewrite Hh].
  destruct (data_ptr b) as [l|] eqn:Hb; [|by rewrite (drop_null w h b)].
  destruct (wf_owned w h b l Hwf Hh Hb) as (blk & Hblk & _ & Hpos).
  intros l' blk'. destruct (decide (use_count blk ≤ 1)) as [Hu|Hu].
  - rewrite (drop_heap_unique w h b l blk) by (done || lia).
    intros [_ Hl]%lookup_delete_Some. by apply (Hc l').
  - rewrite (drop_heap_shared w h b l blk) by (done || lia).
    intros [[<- <-]|[_ Hl]]%lookup_insert_Some; [simpl; lia|by apply (Hc l')].
Qed.

Lemma install_counted w h l d f nx : counted w → counted (install h l d f nx w).
Proof.
  intros Hc l' blk'. unfold install. simpl.
  intros [[<- <-]|[_ Hl]]%lookup_insert_Some; [simpl; lia|by apply (Hc l')].
Qed.

Lemma share_counted w h p f : counted w → counted (share h p f w).
Proof.
  intros Hc l' blk'. unfold share, acquire, heap_acquire. simpl.
  destruct p as [l|]; [|apply Hc].
  destruct (decide (l' = l)) as [->|Hne].
  - rewrite lookup_alter_eq. destruct (heap w !! l) as [blk|]; [|done].
    simpl. intros [= <-]. simpl. lia.
  - rewrite lookup_alter_ne by done. apply Hc.
Qed.

Lemma write_counted w l blk d :
  counted w → heap w !! l = Some blk →
  counted (mk_world (<[l := mk_block d (use_count blk)]> (heap w)) (vars w) (next w)).
Proof.
  intros Hc Hblk l' blk'. simpl.
  intros [[<- <-]|[_ Hl]]%lookup_insert_Some; [simpl; by apply (Hc l)|by apply (Hc l')].
Qed.

Lemma modified_counted w h b d f nx :
  world_wf w → counted w → counted (install h (cow_target w b) d f nx (drop h w)).
Proof. intros Hwf Hc. by apply install_counted, drop_counted. Qed.

Lemma emptied_counted w h nx :
  world_wf w → counted w → counted (set_next nx (set_flag h false (drop h w))).
Proof.
  intros Hwf Hc. apply (counted_heap (drop h w)); [|by apply drop_counted].
  simpl. apply set_flag_heap.
Qed.

(** Every call keeps the use counts of the live instances positive. *)
Lemma exec_counted (c : call) w w' :
  world_wf w → counted w → after (exec c w) = Some w' → counted w'.
Proof.
  intros Hwf Hc.
  destruct c as [h|h|h rhs|h rhs|h rhs|h rhs|h k v|h pk k v|h|h k|h k|h k|h|r v];
    simpl.
  - destruct (vars w !! h) as [b|] eqn:Hh.
    + unfold binder_ctor. by rewrite Hh.
    + rewrite binder_ctor_closed by done. intros [= <-].
      by apply (counted_heap w).
  - destruct (vars w !! h) as [b|] eqn:Hh.
    + rewrite (binder_dtor_closed w h b Hh). intros [= <-].
      by apply (counted_heap (drop h w)), drop_counted.
    + unfold binder_dtor, move_into_data_ptr. rewrite bind_eq.
      by rewrite get_var_None.
  - destruct (vars w !! rhs) as [r|] eqn:Hr;
      [|unfold binder_copy_ctor; by rewrite get_var_None].
    destruct (vars w !! h) as [b|] eqn:Hh.
    { unfold binder_copy_ctor. rewrite (bind_get_var _ _ _ _ Hr), bind_eq.
      unfold binder_ctor. by rewrite Hh. }
    rewrite (binder_copy_ctor_closed w h rhs r Hwf Hh Hr).
    assert (counted (new_var h w)) as Hc0 by (by apply (counted_heap w)).
    destruct (read_called r).
    + destruct (data_ptr r) as [l|]; [|done]. simpl. intros [= <-].
      by apply install_counted.
    + simpl. intros [= <-]. by apply share_counted.
  - destruct (vars w !! rhs) as [r|] eqn:Hr;
      [|unfold binder_move_ctor; by rewrite get_var_None].
    destruct (vars w !! h) as [b|] eqn:Hh.
    { unfold binder_move_ctor. rewrite (bind_get_var _ _ _ _ Hr). by rewrite Hh. }
    rewrite (binder_move_ctor_closed w h rhs r Hh Hr). simpl. intros [= <-].
    by apply (counted_heap w).
  - destruct (vars w !! h) as [b|] eqn:Hh;
      [|unfold binder_copy_assign; by rewrite get_var_None].
    destruct (decide (h = rhs)) as [<-|Hne].
    + rewrite (binder_copy_assign_self_closed w h b Hwf Hh).
      destruct (data_ptr b) as [l|];
        [|simpl; intros [= <-]; apply (counted_heap w); [apply set_flag_heap|done]].
      destruct (read_called b);
        [|simpl; intros [= <-]; apply (counted_heap w); [apply set_flag_heap|done]].
      simpl. intros [= <-]. by apply install_counted, drop_counted.
    + destruct (vars w !! rhs) as [r|] eqn:Hr.
      2:{ unfold binder_copy_assign. rewrite (bind_get_var _ _ _ _ Hh).
          by rewrite get_var_None. }
      rewrite (binder_copy_assign_closed w h rhs b r Hwf Hne Hh Hr).
      destruct (data_ptr r) as [l|].
      * destruct (read_called r); simpl; intros [= <-].
        -- by apply install_counted, drop_counted.
        -- by apply share_counted, drop_counted.
      * simpl. intros [= <-].
        apply (counted_heap (drop h w)); [apply set_flag_heap|].
        by apply drop_counted.
  - destruct (vars w !! h) as [b|] eqn:Hh;
      [|unfold binder_move_assign; by rewrite get_var_None].
    destruct (decide (h = rhs)) as [<-|Hne].
    + rewrite (binder_move_assign_self_closed w h b Hh). by intros [= <-].
    + destruct (vars w !! rhs) as [r|] eqn:Hr.
      2:{ unfold binder_move_assign. rewrite (bind_get_var _ _ _ _ Hh).
          by rewrite get_var_None. }
      rewrite (binder_move_assign_closed w h rhs b r Hne Hh Hr). simpl.
      intros [= <-]. by apply (counted_heap (drop h w)), drop_counted.
  - destruct (vars w !! h) as [b|] eqn:Hh;
      [|unfold binder_insert_front; by rewrite get_var_None].
    rewrite (binder_insert_front_closed w h b k v Hwf Hh).
    destruct (data_insert_front _ k v _); simpl; [| |done]; intros [= <-].
    + by apply modified_counted.
    + done.
  - destruct (vars w !! h) as [b|] eqn:Hh;
      [|unfold binder_insert_after; by rewrite get_var_None].
    rewrite (binder_insert_after_closed w h b pk k v Hwf Hh).
    case_bool_decide; [simpl; by intros [= <-]|].
    destruct (data_insert_after _ pk k v _); simpl; [| |done]; intros [= <-].
    + by apply modified_counted.
    + done.
  - destruct (vars w !! h) as [b|] eqn:Hh;
      [|unfold binder_remove; by rewrite get_var_None].
    rewrite (binder_remove_closed w h b Hwf Hh).
    case_bool_decide; [simpl; by intros [= <-]|].
    destruct (data_remove _); simpl; [| |done].
    + case_bool_decide; simpl; intros [= <-].
      * by apply emptied_counted.
      * by apply modified_counted.
    + by intros [= <-].
  - destruct (vars w !! h) as [b|] eqn:Hh;
      [|unfold binder_remove_key; by rewrite get_var_None].
    rewrite (binder_remove_key_closed w h b k Hwf Hh).
    case_bool_decide; [simpl; by intros [= <-]|].
    destruct (data_remove_key (Outside k) _); simpl; [| |done].
    + case_bool_decide; simpl; intros [= <-].
      * by apply emptied_counted.
      * by apply modified_counted.
    + by intros [= <-].
  - rewrite bind_eq.
    destruct (vars w !! h) as [b|] eqn:Hh;
      [|unfold binder_read; by rewrite get_var_None].
    rewrite (binder_read_closed w h b k Hwf Hh).
    case_bool_decide; [simpl; by intros [= <-]|].
    destruct (data_read k _); simpl; [| |done]; intros [= <-].
    + by apply modified_counted.
    + done.
  - rewrite bind_eq.
    destruct (vars w !! h) as [b|] eqn:Hh;
      [|unfold binder_read_const; by rewrite get_var_None].
    pose proof (binder_read_const_spec w h b k Hwf Hh) as Hs.
    destruct (binder_read_const h k w); simpl; [| |done].
    + destruct Hs as [-> _]. by intros [= <-].
    + destruct Hs as [-> _]. by intros [= <-].
  - destruct (vars w !! h) as [b|] eqn:Hh.
    + rewrite (binder_clear_closed w h b Hh). simpl. intros [= <-].
      apply (counted_heap (drop h w)); [apply set_flag_heap|].
      by apply drop_counted.
    + unfold binder_clear, move_into_data_ptr. rewrite bind_eq.
      by rewrite get_var_None.
  - destruct (heap w !! r.1) as [blk|] eqn:Hblk.
    + rewrite (write_ref_closed w r v blk Hblk).
      destruct (list_at _ _); [|done]. simpl. intros [= <-].
      by apply write_counted.
    + unfold write_ref. rewrite bind_eq. unfold deref. by rewrite Hblk.
Qed.

Lemma run_counted (cs : list call) w w' :
  world_wf w → counted w → run cs w = Some w' → counted w'.
Proof.
  revert w. induction cs as [|c cs IH]; intros w Hwf Hc; simpl.
  - by intros [= <-].
  - destruct (after (exec c w)) as [w1|] eqn:Hw1; [|done].
    apply IH; [by eapply exec_wf|by eapply exec_counted].
Qed.

Lemma reachable_counted w : reachable w → counted w.
Proof.
  intros [cs Hcs].
  eapply run_counted; [apply empty_world_wf|apply empty_counted|done].
Qed.

(** An instance that is counted has an owner. *)
Lemma owners_pos_inv l (vs : gmap var binder) :
  0 < owners l vs → ∃ h b, vs !! h = Some b ∧ data_ptr b = Some l.
Proof.
  unfold owners. intros Hlen.
  destruct (filter (λ hb : var * binder, data_ptr hb.2 = Some l) (map_to_list vs))
    as [|[h b] rest] eqn:Hf; [simpl in Hlen; lia|].
  assert ((h, b) ∈ filter (λ hb : var * binder, data_ptr hb.2 = Some l)
                     (map_to_list vs)) as Hin
    by (rewrite Hf; apply list_elem_of_here).
  apply list_elem_of_filter in Hin as [Hp Hin]. apply elem_of_map_to_list in Hin.
  by exists h, b.
Qed.

Lemma live_iff_owned w l :
  world_wf w → counted w → is_Some (heap w !! l) ↔ ∃ h, owns w h l.
Proof.
  intros Hwf Hc. split.
  - intros [blk Hblk]. pose proof (Hc l blk Hblk) as Hpos.
    rewrite (wf_count w l blk (wf_blocks w Hwf l blk Hblk)) in Hpos.
    destruct (owners_pos_inv l (vars w) Hpos) as (h & b & Hh & Hb).
    exists h, b. done.
  - intros (h & b & Hh & Hb). by apply (wf_live w Hwf h b l).
Qed.

(** X10: in every state that calls can produce, the live storage
    instances are exactly those that some handle points to; the use count
    of each is the number of handles that point to it, which is not zero,
    and each holds an entry.  When no handle is left, no instance is. *)
Theorem instances_are_owned w l :
  reachable w →
  (is_Some (heap w !! l) ↔ ∃ h, owns w h l)
  ∧ (∀ blk, heap w !! l = Some blk →
       use_count blk = owners l (vars w) ∧ 0 < use_count blk
       ∧ content (obj blk) ≠ [])
  ∧ (vars w = ∅ → heap w = ∅).
Proof.
  intros Hr. pose proof (reachable_wf w Hr) as Hwf.
  pose proof (reachable_counted w Hr) as Hc.
  split; [by apply live_iff_owned|]. split.
  - intros blk Hblk. pose proof (wf_blocks w Hwf l blk Hblk) as Hbw.
    split; [apply Hbw|]. split; [by apply (Hc l)|apply Hbw].
  - intros Hv. apply map_eq. intros l'. rewrite lookup_empty.
    destruct (heap w !! l') as [blk|] eqn:Hblk; [|done]. exfalso.
    pose proof (Hc l' blk Hblk) as Hpos.
    rewrite (wf_count w l' blk (wf_blocks w Hwf l' blk Hblk)), Hv in Hpos.
    rewrite owners_empty in Hpos. lia.
Qed.

(** X11: in every state that calls can produce, a handle whose flag is
    set and that has an instance is the only owner of that instance: the
    references that its non-const [read] returned reach no other
    handle. *)
Theorem flagged_handles_do_not_share w h b l :
  reachable w → vars w !! h = Some b → read_called b = true →
  data_ptr b = Some l →
  sp_use_count (Some l) w = 1
  ∧ (∀ h', h' ≠ h → ¬ owns w h' l)
  ∧ (∀ h' es, h' ≠ h → observe w h' = Some es →
              ∀ n v w', write_ref (l, n) v w = Ret w' () →
                        observe w' h' = Some es).
Proof.
  intros Hr Hh Hf Hb. pose proof (reachable_wf w Hr) as Hwf.
  pose proof (reachable_flag_inv w Hr) as Hfi.
  destruct (Hfi h b l Hh Hf Hb) as (blk & Hblk & Hc).
  split; [simpl; by rewrite Hblk|]. split.
  - intros h' Hne (b' & Hh' & Hb').
    apply (owners_one l h b h' b' (vars w)); try done.
    by rewrite <- (wf_count w l blk (wf_blocks w Hwf l blk Hblk)).
  - intros h' es Hne Ho n v w' Hw.
    pose proof (fresh_write_spec w h b l n v Hwf Hfi Hh Hf Hb) as Hs.
    rewrite Hw in Hs. destruct Hs as (Hfr & _).
    destruct (Hfr h' Hne) as [_ Ho']. congruence.
Qed.

End use_counts.

(** * Further properties: constructing, assigning and destroying handles *)

Section handles.
Context {K : Type} `{Countable K} {V : Type}.
Implicit Types (w : world K V) (b r : binder) (l : loc) (h rhs : var)
  (blk : block K V) (d : binder_data K V) (k : K) (v : V)
  (es : list (K * V)).

(** What a handle shows depends on its members and on the heap only. *)
Lemma observe_same w w' h h' :
  heap w' = heap w → vars w' !! h' = vars w !! h → observe w' h' = observe w h.
Proof.
  intros Hhp Hv. unfold observe. rewrite Hv. destruct (vars w !! h) as [b|]; [|done].
  simpl. f_equal. unfold entries_at. by rewrite Hhp.
Qed.

Lemma cleared_frame w h b :
  world_wf w → vars w !! h = Some b → frame h w (set_flag h false (drop h w)).
Proof.
  intros Hwf Hh h' Hne. split.
  - unfold set_flag. rewrite (drop_vars w h b Hh), lookup_insert_eq. simpl.
    by rewrite !lookup_insert_ne.
  - by rewrite observe_set_flag, observe_drop_other.
Qed.

Lemma destroyed_frame w h b h' :
  world_wf w → vars w !! h = Some b → h' ≠ h →
  let w' := mk_world (heap (drop h w)) (delete h (vars (drop h w))) (next w) in
  vars w' !! h' = vars w !! h' ∧ observe w' h' = observe w h'.
Proof.
  intros Hwf Hh Hne. simpl.
  assert (delete h (vars (drop h w)) !! h' = vars w !! h') as Hv.
  { rewrite lookup_delete_ne by done.
    by rewrite (drop_vars w h b Hh), lookup_insert_ne. }
  split; [done|]. rewrite <- (observe_drop_other w h h' Hwf Hne).
  apply observe_same; [done|]. simpl. by rewrite lookup_delete_ne.
Qed.

(** A new instance for [h], at the first free address. *)
Lemma cloned_frame w h b d f nx :
  world_wf w → vars w !! h = Some b →
  frame h w (install h (next w) d f nx (drop h w)).
Proof.
  intros Hwf Hh h' Hne.
  assert (vars (drop h w) !! h' = vars w !! h') as Hv
    by (by rewrite (drop_vars w h b Hh), lookup_insert_ne).
  split; [unfold install; simpl; by rewrite lookup_insert_ne|].
  rewrite <- (observe_drop_other w h h' Hwf Hne).
  apply observe_install_other; [done|]. intros b' Hb'.
  apply (wf_unowned (drop h w) (next w) h' b'); [by apply drop_wf| |done].
  apply wf_heap_fresh; [by apply drop_wf|]. by rewrite drop_next.
Qed.

Lemma moved_frame w hp (vs : gmap var binder) h rhs b1 b2 h' :
  h' ≠ h → h' ≠ rhs → heap w = hp → vs !! h' = vars w !! h' →
  let w' := mk_world hp (<[h := b1]> (<[rhs := b2]> vs)) (next w) in
  vars w' !! h' = vars w !! h' ∧ observe w' h' = observe w h'.
Proof.
  intros Hne1 Hne2 Hhp Hv. simpl.
  assert ((<[h := b1]> (<[rhs := b2]> vs)) !! h' = vars w !! h') as Hv'
    by (by rewrite !lookup_insert_ne).
  split; [done|]. by apply observe_same.
Qed.

(** The handles that own an instance once [h] has let go of its own. *)
Lemma owners_without w w' h l :
  (∀ h', h' ≠ h → vars w' !! h' = vars w !! h') →
  (∀ b, vars w' !! h = Some b → data_ptr b = None) →
  (∃ h', owns w' h' l) ↔ ∃ h', h' ≠ h ∧ owns w h' l.
Proof.
  intros Hfr Hnull. split.
  - intros (h' & b' & Hh' & Hb'). destruct (decide (h' = h)) as [->|Hne].
    + rewrite (Hnull b' Hh') in Hb'. done.
    + exists h'. split; [done|]. exists b'. by rewrite <- Hfr.
  - intros (h' & Hne & b' & Hh' & Hb'). exists h', b'. by rewrite Hfr.
Qed.

(** A call in scope returns or throws, and then leaves alone the handles
    it does not touch; or it is the copy construction from a moved-from
    handle whose flag is set. *)
Lemma exec_scoped (c : call) w :
  world_wf w → scoped c w →
  match exec c w with
  | Ret w' _ | Throws w' _ =>
      ∀ h', h' ∉ touched c →
            vars w' !! h' = vars w !! h' ∧ observe w' h' = observe w h'
  | UB => ∃ h rhs, c = CopyCtor h rhs ∧ vars w !! rhs = Some (mk_binder None true)
  end.
Proof.
  intros Hwf Hsc.
  assert (∀ h w', frame h w w' →
            ∀ h', h' ∉ [h] →
                  vars w' !! h' = vars w !! h' ∧ observe w' h' = observe w h')
    as Hone.
  { intros h w' Hfr h' Hn. apply Hfr. intros ->. apply Hn, list_elem_of_here. }
  destruct c as [h|h|h rhs|h rhs|h rhs|h rhs|h k v|h pk k v|h|h k|h k|h k|h|rf v];
    simpl in Hsc; simpl exec; simpl touched.
  - rewrite binder_ctor_closed by done. apply Hone. intros h' Hne.
    split; [simpl; by rewrite lookup_insert_ne|by apply observe_new_var_other].
  - destruct Hsc as [b Hh]. rewrite (binder_dtor_closed w h b Hh).
    intros h' Hn. apply (destroyed_frame w h b h' Hwf Hh).
    intros ->. apply Hn, list_elem_of_here.
  - destruct Hsc as [Hh [r Hr]].
    pose proof (binder_copy_ctor_spec w h rhs r Hwf Hh Hr) as Hs.
    destruct (binder_copy_ctor h rhs w) as [w' []|w' e|]; [|done|].
    + apply Hone, Hs.
    + exists h, rhs. split; [done|]. rewrite Hr. destruct r as [p f].
      simpl in Hs. by destruct Hs as [-> ->].
  - destruct Hsc as [Hh [r Hr]].
    rewrite (binder_move_ctor_closed w h rhs r Hh Hr).
    intros h' Hn. apply (moved_frame w); try done.
    + intros ->. apply Hn, list_elem_of_here.
    + intros ->. apply Hn, list_elem_of_further, list_elem_of_here.
    + simpl. rewrite lookup_insert_ne; [done|].
      intros ->. apply Hn, list_elem_of_here.
  - destruct Hsc as [[b Hh] [r Hr]]. destruct (decide (h = rhs)) as [<-|Hne].
    + rewrite (binder_copy_assign_self_closed w h b Hwf Hh).
      assert (frame h w (set_flag h false w)) as Hfl.
      { intros h' Hne. split; [|apply observe_set_flag].
        unfold set_flag. rewrite Hh. simpl. by rewrite lookup_insert_ne. }
      destruct (data_ptr b) as [l|]; [|by apply Hone].
      destruct (read_called b); [|by apply Hone].
      cbv zeta. exact (Hone h _ (cloned_frame w h b _ false _ Hwf Hh)).
    + pose proof (binder_copy_assign_spec w h rhs b r Hwf Hne Hh Hr) as Hs.
      destruct (binder_copy_assign h rhs w) as [w' []|w' e|]; [|done|done].
      apply Hone, Hs.
  - destruct Hsc as [[b Hh] [r Hr]]. destruct (decide (h = rhs)) as [<-|Hne].
    + by rewrite (binder_move_assign_self_closed w h b Hh).
    + rewrite (binder_move_assign_closed w h rhs b r Hne Hh Hr).
      intros h' Hn.
      assert (h' ≠ h) as Hne1 by (intros ->; apply Hn, list_elem_of_here).
      assert (h' ≠ rhs) as Hne2
        by (intros ->; apply Hn, list_elem_of_further, list_elem_of_here).
      destruct (moved_frame (drop h w) (heap (drop h w)) (vars (drop h w)) h rhs
                  (mk_binder (data_ptr r) (read_called r))
                  (mk_binder None (read_called r)) h' Hne1 Hne2 eq_refl eq_refl)
        as [Hv Ho].
      rewrite drop_next in Hv, Ho. rewrite Hv, Ho.
      split; [by rewrite (drop_vars w h b Hh), lookup_insert_ne|].
      by apply observe_drop_other.
  - destruct Hsc as [b Hh].
    pose proof (binder_insert_front_spec w h b k v Hwf Hh) as Hs.
    destruct (binder_insert_front h k v w) as [w' []|w' e|]; [| |done].
    + apply Hone, Hs.
    + apply Hone, unchanged_frame, Hs.
  - destruct Hsc as [b Hh].
    pose proof (binder_insert_after_spec w h b pk k v Hwf Hh) as Hs.
    destruct (binder_insert_after h pk k v w) as [w' []|w' e|]; [| |done].
    + apply Hone, Hs.
    + apply Hone, unchanged_frame, Hs.
  - destruct Hsc as [b Hh].
    pose proof (binder_remove_spec w h b Hwf Hh) as Hs.
    destruct (binder_remove h w) as [w' []|w' e|]; [| |done].
    + apply Hone, Hs.
    + apply Hone, unchanged_frame, Hs.
  - destruct Hsc as [b Hh].
    pose proof (binder_remove_key_spec w h b k Hwf Hh) as Hs.
    destruct (binder_remove_key h (KeyObj k) w) as [w' []|w' e|]; [| |done].
    + apply Hone, Hs.
    + apply Hone, unchanged_frame, Hs.
  - destruct Hsc as [b Hh]. rewrite bind_eq.
    pose proof (binder_read_spec w h b k Hwf Hh) as Hs.
    destruct (binder_read h k w) as [w' rf|w' e|]; [| |done].
    + unfold ret. apply Hone, Hs.
    + apply Hone, unchanged_frame, Hs.
  - destruct Hsc as [b Hh]. rewrite bind_eq.
    pose proof (binder_read_const_spec w h b k Hwf Hh) as Hs.
    destruct (binder_read_const h k w) as [w' v|w' e|]; [| |done].
    + destruct Hs as [-> _]. unfold ret. by intros h' _.
    + destruct Hs as [-> _]. by intros h' _.
  - destruct Hsc as [b Hh]. rewrite (binder_clear_closed w h b Hh).
    apply Hone. by apply (cleared_frame w h b).
  - done.
Qed.

Lemma run_snoc (cs : list call) (c : call) w :
  run (cs ++ [c]) w
  = match run cs w with
    | Some w1 => after (exec c w1)
    | None => None
    end.
Proof.
  revert w. induction cs as [|c0 cs IH]; intros w; simpl.
  - by destruct (after (exec c w)).
  - destruct (after (exec c0 w)) as [w1|]; [apply IH|done].
Qed.

Lemma reachable_step (c : call) w w' :
  reachable w → after (exec c w) = Some w' → reachable w'.
Proof.
  intros [cs Hcs] Hc. exists (cs ++ [c]). by rewrite run_snoc, Hcs.
Qed.

(** X12: a member function called on handles that are alive (a
    constructor: for a new variable) returns or throws, with two
    exceptions.  One is copy construction from a moved-from handle whose
    flag is still set, which dereferences the null pointer.  The other is
    [remove(k)] with [k] bound to the value of the very entry it names
    while the handle is the only owner of its instance, which reads [k]
    after the node that held it is erased.  With [k] bound to any other
    object that is alive, [remove(k)] returns or throws, and leaves a
    state that calls with arguments of the caller's own produce. *)
Theorem calls_are_safe w (c : call) :
  reachable w → scoped c w →
  (exec c w = UB
   ↔ ∃ h rhs, c = CopyCtor h rhs ∧ vars w !! rhs = Some (mk_binder None true))
  ∧ (∀ h (a : key_ref K V),
       is_Some (vars w !! h) → is_Some (key_value w a) →
       (binder_remove_key h a w = UB ↔ names_itself w h a = true)
       ∧ ∀ w', after (binder_remove_key h a w) = Some w' → reachable w').
Proof.
  intros Hr Hsc. pose proof (reachable_wf w Hr) as Hwf. split; [split|].
  - intros Hub. pose proof (exec_scoped c w Hwf Hsc) as Hs.
    by rewrite Hub in Hs.
  - intros (h & rhs & -> & Hrhs). simpl in *. destruct Hsc as [Hh _].
    by rewrite (binder_copy_ctor_closed w h rhs _ Hwf Hh Hrhs).
  - intros h a [b Hh] [k Hk].
    rewrite (remove_key_by_ref w h b a k Hwf Hh Hk).
    pose proof (exec_scoped (RemoveKey h k) w Hwf) as Hs. simpl in Hs.
    destruct (names_itself w h a).
    + split; [done|]. by intros w'.
    + split.
      * split; [|done]. intros Hub. rewrite Hub in Hs.
        destruct Hs as (? & ? & ? & _); [by rewrite Hh|done].
      * intros w' Hw'. by apply (reachable_step (RemoveKey h k) w).
Qed.

(** X13: a call on one handle changes neither the members of another
    handle nor what that one shows; a move touches two handles, its
    target and its source, and every other call one. *)
Theorem calls_leave_other_handles w (c : call) w' h' :
  reachable w → scoped c w → after (exec c w) = Some w' → h' ∉ touched c →
  vars w' !! h' = vars w !! h' ∧ observe w' h' = observe w h'
  ∧ ∀ es, observe w h' = Some es → binder_size h' w' = Ret w' (length es).
Proof.
  intros Hr Hsc Hw' Hn. pose proof (reachable_wf w Hr) as Hwf.
  pose proof (exec_wf c w w' Hwf Hw') as Hwf'.
  pose proof (exec_scoped c w Hwf Hsc) as Hs.
  assert (vars w' !! h' = vars w !! h' ∧ observe w' h' = observe w h') as [Hv Ho].
  { destruct (exec c w) as [w1 []|w1 e|]; simpl in Hw'; [| |done];
      injection Hw' as ->; by apply Hs. }
  split; [done|]. split; [done|]. intros es Hes.
  apply (size_value w' h' es Hwf'). by rewrite Ho.
Qed.

(** X14: [clear()] returns; the handle then shows nothing, its size is
    0 and its flag is clear; the other handles show what they showed; the
    instance the handle pointed to lives on exactly when another handle
    points to it. *)
Theorem clear_empties w h es :
  reachable w → observe w h = Some es →
  ∃ w', binder_clear h w = Ret w' ()
        ∧ vars w' !! h = Some (mk_binder None false)
        ∧ observe w' h = Some []
        ∧ binder_size h w' = Ret w' 0
        ∧ (∀ h', h' ≠ h → observe w' h' = observe w h')
        ∧ (∀ l, is_Some (heap w' !! l) ↔ ∃ h', h' ≠ h ∧ owns w h' l).
Proof.
  intros Hr Ho. pose proof (reachable_wf w Hr) as Hwf.
  pose proof (reachable_counted w Hr) as Hc.
  apply observe_inv in Ho as (b & Hh & _).
  pose proof (binder_clear_closed w h b Hh) as Hcl.
  set (w' := set_flag h false (drop h w)) in *. exists w'.
  assert (after (exec (Clear h) w) = Some w') as Hw' by (simpl; by rewrite Hcl).
  pose proof (exec_wf _ w w' Hwf Hw') as Hwf'.
  pose proof (exec_counted _ w w' Hwf Hc Hw') as Hc'.
  pose proof (cleared_frame w h b Hwf Hh) as Hfr. fold w' in Hfr.
  assert (vars w' !! h = Some (mk_binder None false)) as Hh'.
  { unfold w', set_flag. rewrite (drop_vars w h b Hh), lookup_insert_eq. simpl.
    by rewrite lookup_insert_eq. }
  assert (observe w' h = Some []) as Ho' by (by rewrite (observe_Some w' h _ Hh')).
  split; [done|]. split; [done|]. split; [done|].
  split; [apply (size_value w' h [] Hwf' Ho')|].
  split; [intros h' Hne; by apply Hfr|].
  intros l. rewrite (live_iff_owned w' l Hwf' Hc').
  apply owners_without; [intros h' Hne; by apply Hfr|].
  intros b'. rewrite Hh'. by intros [= <-].
Qed.

(** X15: the destructor returns; the variable is gone, the other handles
    show what they showed, and the live instances are those that the
    other handles point to: the instance of the destroyed handle is
    destroyed with its last owner, and not before. *)
Theorem destructor_releases w h es :
  reachable w → observe w h = Some es →
  ∃ w', binder_dtor h w = Ret w' ()
        ∧ vars w' = delete h (vars w)
        ∧ (∀ h', h' ≠ h → observe w' h' = observe w h')
        ∧ (∀ l, is_Some (heap w' !! l) ↔ ∃ h', h' ≠ h ∧ owns w h' l).
Proof.
  intros Hr Ho. pose proof (reachable_wf w Hr) as Hwf.
  pose proof (reachable_counted w Hr) as Hc.
  apply observe_inv in Ho as (b & Hh & _).
  pose proof (binder_dtor_closed w h b Hh) as Hcl.
  set (w' := mk_world (heap (drop h w)) (delete h (vars (drop h w))) (next w)) in *.
  exists w'.
  assert (after (exec (Dtor h) w) = Some w') as Hw' by (simpl; by rewrite Hcl).
  pose proof (exec_wf _ w w' Hwf Hw') as Hwf'.
  pose proof (exec_counted _ w w' Hwf Hc Hw') as Hc'.
  split; [done|].
  split; [unfold w'; simpl; by rewrite (drop_vars w h b Hh), delete_insert_eq|].
  split; [intros h' Hne; by apply (destroyed_frame w h b h' Hwf Hh Hne)|].
  intros l. rewrite (live_iff_owned w' l Hwf' Hc').
  apply owners_without.
  - intros h' Hne. by apply (destroyed_frame w h b h' Hwf Hh Hne).
  - intros b'. unfold w'. simpl. by rewrite lookup_delete_eq.
Qed.

(** X16: the move constructor returns; the new handle shows what the
    source showed and points to the instance the source pointed to, the
    source shows nothing, and the heap is as it was: no instance is
    copied, made or destroyed. *)
Theorem move_ctor_transfers w h rhs es :
  reachable w → vars w !! h = None → observe w rhs = Some es →
  ∃ w', binder_move_ctor h rhs w = Ret w' ()
        ∧ observe w' h = Some es ∧ observe w' rhs = Some []
        ∧ heap w' = heap w ∧ next w' = next w
        ∧ data_ptr <$> vars w' !! h = data_ptr <$> vars w !! rhs
        ∧ binder_size rhs w' = Ret w' 0
        ∧ (∀ h', h' ≠ h → h' ≠ rhs → observe w' h' = observe w h').
Proof.
  intros Hr Hh Ho. pose proof (reachable_wf w Hr) as Hwf.
  destruct (observe_inv w rhs es Ho) as (r & Hrhs & He).
  assert (h ≠ rhs) as Hne by congruence.
  pose proof (binder_move_ctor_closed w h rhs r Hh Hrhs) as Hcl.
  destruct (binder_move_ctor_spec w h rhs r Hwf Hh Hrhs)
    as (w' & Hm & Hwf' & Hvh & Hvr & Hoh & Hor).
  exists w'. split; [done|]. split; [congruence|]. split; [done|].
  rewrite Hm in Hcl. injection Hcl as Hw'.
  split; [by rewrite Hw'|]. split; [by rewrite Hw'|].
  split; [by rewrite Hvh, Hrhs|].
  split; [apply (size_value w' rhs [] Hwf' Hor)|].
  intros h' Hne1 Hne2. rewrite Hw'.
  apply (moved_frame w); try done. simpl. by rewrite lookup_insert_ne.
Qed.

(** X17: move assignment from another handle returns; the target shows
    what the source showed and points to the instance the source pointed
    to, the source shows nothing, no address is used up, and the live
    instances are those that the handles other than the target pointed
    to: the instance the target had is destroyed with its last owner. *)
Theorem move_assign_transfers w h rhs es0 es :
  reachable w → h ≠ rhs → observe w h = Some es0 → observe w rhs = Some es →
  ∃ w', binder_move_assign h rhs w = Ret w' ()
        ∧ observe w' h = Some es ∧ observe w' rhs = Some []
        ∧ next w' = next w
        ∧ data_ptr <$> vars w' !! h = data_ptr <$> vars w !! rhs
        ∧ (∀ h', h' ≠ h → h' ≠ rhs → observe w' h' = observe w h')
        ∧ (∀ l, is_Some (heap w' !! l) ↔ ∃ h', h' ≠ h ∧ owns w h' l).
Proof.
  intros Hr Hne Ho0 Ho. pose proof (reachable_wf w Hr) as Hwf.
  pose proof (reachable_counted w Hr) as Hc.
  destruct (observe_inv w h es0 Ho0) as (b & Hh & _).
  destruct (observe_inv w rhs es Ho) as (r & Hrhs & He).
  pose proof (binder_move_assign_closed w h rhs b r Hne Hh Hrhs) as Hcl.
  destruct (binder_move_assign_spec w h rhs b r Hwf Hne Hh Hrhs)
    as (w' & Hm & Hwf' & Hvh & Hvr & Hoh & Hor).
  assert (after (exec (MoveAssign h rhs) w) = Some w') as Hw'
    by (simpl; by rewrite Hm).
  pose proof (exec_counted _ w w' Hwf Hc Hw') as Hc'.
  pose proof (exec_scoped (MoveAssign h rhs) w Hwf) as Hfr. simpl in Hfr.
  rewrite Hm in Hfr.
  assert (∀ h', h' ≠ h → h' ≠ rhs →
                vars w' !! h' = vars w !! h' ∧ observe w' h' = observe w h')
    as Hother.
  { intros h' Hn1 Hn2. apply Hfr; [split; by eexists|].
    intros [->|[->|?%elem_of_nil]%elem_of_cons]%elem_of_cons; done. }
  exists w'. split; [done|]. split; [congruence|]. split; [done|].
  rewrite Hm in Hcl. injection Hcl as Hweq.
  split; [by rewrite Hweq|]. split; [by rewrite Hvh, Hrhs|].
  split; [intros h' Hn1 Hn2; by apply Hother|].
  intros l. rewrite (live_iff_owned w' l Hwf' Hc'). split.
  - intros (h' & b' & Hh' & Hb'). destruct (decide (h' = h)) as [->|Hn1].
    + exists rhs. split; [done|]. exists r. split; [done|].
      rewrite Hvh in Hh'. by injection Hh' as <-.
    + destruct (decide (h' = rhs)) as [->|Hn2].
      * rewrite Hvr in Hh'. by injection Hh' as <-.
      * exists h'. split; [done|]. exists b'.
        by rewrite <- (proj1 (Hother h' Hn1 Hn2)).
  - intros (h' & Hn1 & b' & Hh' & Hb'). destruct (decide (h' = rhs)) as [->|Hn2].
    + exists h. eexists. split; [done|]. simpl. congruence.
    + exists h', b'. by rewrite (proj1 (Hother h' Hn1 Hn2)).
Qed.

(** X18: assigning a handle to itself keeps what every handle shows.
    Move assignment to itself changes nothing at all; copy assignment to
    itself clears the flag and, when the flag was clear already, leaves
    the heap as it was. *)
Theorem self_assignment w h es :
  reachable w → observe w h = Some es →
  binder_move_assign h h w = Ret w ()
  ∧ ∃ w', binder_copy_assign h h w = Ret w' ()
          ∧ (∀ h', observe w' h' = observe w h')
          ∧ read_called <$> vars w' !! h = Some false
          ∧ (read_called <$> vars w !! h = Some false → heap w' = heap w).
Proof.
  intros Hr Ho. pose proof (reachable_wf w Hr) as Hwf.
  destruct (observe_inv w h es Ho) as (b & Hh & He).
  split; [by apply (binder_move_assign_self_closed w h b)|].
  rewrite (binder_copy_assign_self_closed w h b Hwf Hh).
  assert (∃ w', Ret (K := K) (V := V) (set_flag h false w) () = Ret w' ()
                ∧ (∀ h', observe w' h' = observe w h')
                ∧ read_called <$> vars w' !! h = Some false
                ∧ (read_called <$> vars w !! h = Some false → heap w' = heap w))
    as Hflag.
  { eexists. split; [done|]. split; [intros h'; apply observe_set_flag|].
    split; [|intros _; apply set_flag_heap].
    unfold set_flag. rewrite Hh. simpl. by rewrite lookup_insert_eq. }
  destruct (data_ptr b) as [l|] eqn:Hb; [|done].
  destruct (read_called b) eqn:Hf; [|done].
  destruct (wf_owned w h b l Hwf Hh Hb) as (blk & Hblk & Hbw & _).
  rewrite Hblk. cbv zeta. simpl from_option. eexists. split; [done|].
  split; [|split].
  - intros h'. destruct (decide (h' = h)) as [->|Hne].
    + rewrite observe_install_self, Ho. f_equal.
      rewrite (proj1 (data_copy_content _ _)). rewrite <- He. simpl.
      by rewrite Hblk.
    + by apply (cloned_frame w h b).
  - unfold install. simpl. by rewrite lookup_insert_eq.
  - rewrite Hh. simpl. congruence.
Qed.

(** X19: a copy, made by the copy constructor or by copy assignment
    from another handle, shows what the source shows and has its flag
    clear, and the source is as it was.  When the source has no instance
    or its flag is clear, the copy points where the source points and no
    address is used up; when the source has an instance and its flag is
    set, the copy is the only owner of a new instance. *)
Theorem copy_shares_or_clones w w' h rhs r :
  reachable w → h ≠ rhs → vars w !! rhs = Some r →
  after (binder_copy_ctor h rhs w) = Some w'
  ∨ after (binder_copy_assign h rhs w) = Some w' →
  observe w' h = observe w rhs ∧ observe w' rhs = observe w rhs
  ∧ vars w' !! rhs = Some r
  ∧ ∃ b', vars w' !! h = Some b' ∧ read_called b' = false
          ∧ (data_ptr r = None ∨ read_called r = false →
             data_ptr b' = data_ptr r ∧ next w' = next w)
          ∧ (data_ptr r ≠ None → read_called r = true →
             data_ptr b' = Some (next w) ∧ heap w !! next w = None
             ∧ sp_use_count (Some (next w)) w' = 1).
Proof.
  intros Hr Hne Hrhs Hc. pose proof (reachable_wf w Hr) as Hwf.
  assert (heap w !! next w = None) as Hfresh by (by apply wf_heap_fresh).
  destruct Hc as [Hc|Hc].
  - destruct (vars w !! h) as [b|] eqn:Hh.
    { unfold binder_copy_ctor in Hc.
      rewrite (bind_get_var _ _ _ _ Hrhs), bind_eq in Hc.
      unfold binder_ctor in Hc. by rewrite Hh in Hc. }
    pose proof (binder_copy_ctor_spec w h rhs r Hwf Hh Hrhs) as Hs.
    rewrite (binder_copy_ctor_closed w h rhs r Hwf Hh Hrhs) in Hs, Hc.
    destruct (read_called r) eqn:Hf.
    + destruct (data_ptr r) as [l|] eqn:Hp; [|done]. simpl in Hc.
      injection Hc as <-. cbv zeta in Hs.
      destruct Hs as (_ & Hfr & Ho & b' & Hb' & Hf' & _).
      destruct (Hfr rhs (not_eq_sym Hne)) as [Hvr Hor].
      split; [done|]. split; [done|]. split; [congruence|].
      exists b'. split; [done|]. split; [done|].
      split; [by intros [?|?]|]. intros _ _.
      unfold install in Hb'. simpl in Hb'. rewrite lookup_insert_eq in Hb'.
      injection Hb' as <-. split; [done|]. split; [done|].
      simpl. by rewrite lookup_insert_eq.
    + simpl in Hc. injection Hc as <-.
      destruct Hs as (_ & Hfr & Ho & b' & Hb' & Hf' & Hsh & _).
      destruct (Hfr rhs (not_eq_sym Hne)) as [Hvr Hor].
      split; [done|]. split; [done|]. split; [congruence|].
      exists b'. split; [done|]. split; [done|].
      split; [intros _; split; [by apply Hsh|done]|]. by intros _ ?.
  - destruct (vars w !! h) as [b|] eqn:Hh;
      [|unfold binder_copy_assign in Hc; by rewrite get_var_None in Hc].
    pose proof (binder_copy_assign_spec w h rhs b r Hwf Hne Hh Hrhs) as Hs.
    rewrite (binder_copy_assign_closed w h rhs b r Hwf Hne Hh Hrhs) in Hs, Hc.
    destruct (data_ptr r) as [l|] eqn:Hp.
    + destruct (read_called r) eqn:Hf.
      * cbv zeta in Hs, Hc. simpl in Hc. injection Hc as <-.
        destruct Hs as (_ & Hfr & Ho & b' & Hb' & Hf' & _).
        destruct (Hfr rhs (not_eq_sym Hne)) as [Hvr Hor].
        split; [done|]. split; [done|]. split; [congruence|].
        exists b'. split; [done|]. split; [done|].
        split; [by intros [?|?]|]. intros _ _.
        unfold install in Hb'. simpl in Hb'. rewrite lookup_insert_eq in Hb'.
        injection Hb' as <-. split; [done|]. split; [done|].
        simpl. by rewrite lookup_insert_eq.
      * simpl in Hc. injection Hc as <-.
        destruct Hs as (_ & Hfr & Ho & b' & Hb' & Hf' & Hsh & _).
        destruct (Hfr rhs (not_eq_sym Hne)) as [Hvr Hor].
        split; [done|]. split; [done|]. split; [congruence|].
        exists b'. split; [done|]. split; [done|].
        split; [|by intros _ ?]. intros _.
        split; [apply Hsh; by right|]. simpl. apply drop_next.
    + simpl in Hc. injection Hc as <-.
      destruct Hs as (_ & Hfr & Ho & b' & Hb' & Hf' & Hsh & _).
      destruct (Hfr rhs (not_eq_sym Hne)) as [Hvr Hor].
      split; [done|]. split; [done|]. split; [congruence|].
      exists b'. split; [done|]. split; [done|].
      split; [|by intros ?]. intros _.
      split; [apply Hsh; by left|]. simpl. unfold set_flag.
      destruct (vars (drop h w) !! h); simpl; apply drop_next.
Qed.

(** X20: the member functions declared [noexcept], called on a handle
    that is alive (the constructors: for a new variable), return: they
    neither throw nor run into undefined behaviour, and [size()],
    [cbegin()] and [cend()] leave the world as it was. *)
Theorem noexcept_members_return w h :
  reachable w → is_Some (vars w !! h) →
  (∃ n, binder_size h w = Ret w n)
  ∧ (∃ it, binder_cbegin h w = Ret w it)
  ∧ (∃ it, binder_cend h w = Ret w it)
  ∧ (∃ w', binder_clear h w = Ret w' ())
  ∧ (∃ w', binder_dtor h w = Ret w' ())
  ∧ (∀ rhs, is_Some (vars w !! rhs) → ∃ w', binder_move_assign h rhs w = Ret w' ())
  ∧ (∀ h', vars w !! h' = None →
           (∃ w', binder_ctor h' w = Ret w' ())
           ∧ (∃ w', binder_move_ctor h' h w = Ret w' ())).
Proof.
  intros Hr [b Hh]. pose proof (reachable_wf w Hr) as Hwf.
  split; [eexists; by apply (binder_size_spec w h b)|].
  destruct (begin_end_spec w h b Hwf Hh) as (first & last & Hb & He & _).
  split; [by exists first|]. split; [by exists last|].
  split; [eexists; by apply (binder_clear_closed w h b)|].
  split; [eexists; by apply (binder_dtor_closed w h b)|].
  split.
  - intros rhs [r Hrhs]. destruct (decide (h = rhs)) as [<-|Hne].
    + eexists. by apply (binder_move_assign_self_closed w h b).
    + eexists. by apply (binder_move_assign_closed w h rhs b r).
  - intros h' Hh'. split; eexists.
    + by apply binder_ctor_closed.
    + by apply (binder_move_ctor_closed w h' h b).
Qed.

(** X21: a copy outlives its source: once the source of a copy
    construction is destroyed, the copy shows the entries that the
    source showed, and a const [read] through it finds each of them. *)
Theorem copy_outlives_source w (a c : var) es w1 :
  reachable w → observe w a = Some es → binder_copy_ctor c a w = Ret w1 () →
  ∃ w2, binder_dtor a w1 = Ret w2 ()
        ∧ vars w2 !! a = None
        ∧ observe w2 c = Some es
        ∧ binder_size c w2 = Ret w2 (length es)
        ∧ (∀ k v, (k, v) ∈ es → binder_read_const c k w2 = Ret w2 v).
Proof.
  intros Hr Ho Hcp. pose proof (reachable_wf w Hr) as Hwf.
  assert (after (exec (CopyCtor c a) w) = Some w1) as Hw1
    by (simpl; by rewrite Hcp).
  pose proof (exec_wf _ w w1 Hwf Hw1) as Hwf1.
  destruct (observe_inv w a es Ho) as (r & Ha & _).
  destruct (vars w !! c) as [b0|] eqn:Hc.
  { unfold binder_copy_ctor in Hcp.
    rewrite (bind_get_var _ _ _ _ Ha), bind_eq in Hcp.
    unfold binder_ctor in Hcp. by rewrite Hc in Hcp. }
  assert (c ≠ a) as Hne by congruence.
  pose proof (binder_copy_ctor_spec w c a r Hwf Hc Ha) as Hs.
  rewrite Hcp in Hs. destruct Hs as (_ & Hfr & Hoc & _).
  destruct (Hfr a (not_eq_sym Hne)) as [Hva _]. rewrite Ha in Hva.
  pose proof (binder_dtor_closed w1 a r Hva) as Hcl.
  set (w2 := mk_world (heap (drop a w1)) (delete a (vars (drop a w1))) (next w1))
    in *.
  assert (after (exec (Dtor a) w1) = Some w2) as Hw2 by (simpl; by rewrite Hcl).
  pose proof (exec_wf _ w1 w2 Hwf1 Hw2) as Hwf2.
  destruct (destroyed_frame w1 a r c Hwf1 Hva Hne) as [_ Hoc2]. fold w2 in Hoc2.
  assert (observe w2 c = Some es) as Ho2 by congruence.
  exists w2. split; [done|].
  split; [unfold w2; simpl; apply lookup_delete_eq|]. split; [done|].
  split; [by apply size_value|].
  intros k v Hin. by apply (read_const_value w2 c es).
Qed.

(** X22: the exchange of two handles by three moves, as [std::swap]
    does it ([binder tmp(std::move(a)); a = std::move(b);
    b = std::move(tmp);] and the destruction of [tmp]), exchanges what
    the two handles show and their members, and leaves the heap as it
    was: no instance is copied or destroyed. *)
Theorem swap_by_moves w (a c tmp : var) ea ec :
  reachable w → a ≠ c → vars w !! tmp = None →
  observe w a = Some ea → observe w c = Some ec →
  ∃ w', run [MoveCtor tmp a; MoveAssign a c; MoveAssign c tmp; Dtor tmp] w
        = Some w'
        ∧ observe w' a = Some ec ∧ observe w' c = Some ea
        ∧ data_ptr <$> vars w' !! a = data_ptr <$> vars w !! c
        ∧ data_ptr <$> vars w' !! c = data_ptr <$> vars w !! a
        ∧ vars w' !! tmp = None
        ∧ heap w' = heap w
        ∧ (∀ h', h' ≠ a → h' ≠ c → vars w' !! h' = vars w !! h').
Proof.
  intros Hr Hne Htmp Hoa Hoc.
  destruct (observe_inv w a ea Hoa) as (ra & Ha & Hea).
  destruct (observe_inv w c ec Hoc) as (rc & Hc & Hec).
  assert (tmp ≠ a) as Hta by congruence. assert (tmp ≠ c) as Htc by congruence.
  (* binder tmp(std::move(a)) *)
  pose proof (binder_move_ctor_closed w tmp a ra Htmp Ha) as H1.
  set (w1 := mk_world (heap w)
               (<[tmp := mk_binder (data_ptr ra) (read_called ra)]>
                  (<[a := mk_binder None (read_called ra)]> (vars (new_var tmp w))))
               (next w)) in *.
  assert (vars w1 !! a = Some (mk_binder None (read_called ra))) as Ha1
    by (unfold w1; simpl; by rewrite lookup_insert_ne, lookup_insert_eq).
  assert (vars w1 !! c = Some rc) as Hc1
    by (unfold w1; simpl; by rewrite !lookup_insert_ne).
  (* a = std::move(c) *)
  pose proof (binder_move_assign_closed w1 a c _ rc Hne Ha1 Hc1) as H2.
  rewrite (drop_null w1 a _ Ha1 eq_refl) in H2.
  set (w2 := mk_world (heap w1)
               (<[a := mk_binder (data_ptr rc) (read_called rc)]>
                  (<[c := mk_binder None (read_called rc)]> (vars w1)))
               (next w1)) in *.
  assert (vars w2 !! c = Some (mk_binder None (read_called rc))) as Hc2
    by (unfold w2; simpl; by rewrite lookup_insert_ne, lookup_insert_eq).
  assert (vars w2 !! tmp = Some (mk_binder (data_ptr ra) (read_called ra))) as Ht2.
  { unfold w2, w1. simpl. rewrite !(lookup_insert_ne _ a), !(lookup_insert_ne _ c) by done.
    by rewrite lookup_insert_eq. }
  (* c = std::move(tmp) *)
  pose proof (binder_move_assign_closed w2 c tmp _ _ (not_eq_sym Htc) Hc2 Ht2) as H3.
  rewrite (drop_null w2 c _ Hc2 eq_refl) in H3. simpl data_ptr in H3.
  simpl read_called in H3.
  set (w3 := mk_world (heap w2)
               (<[c := mk_binder (data_ptr ra) (read_called ra)]>
                  (<[tmp := mk_binder None (read_called ra)]> (vars w2)))
               (next w2)) in *.
  assert (vars w3 !! tmp = Some (mk_binder None (read_called ra))) as Ht3
    by (unfold w3; simpl; by rewrite lookup_insert_ne, lookup_insert_eq).
  (* ~tmp *)
  pose proof (binder_dtor_closed w3 tmp _ Ht3) as H4.
  rewrite (drop_null w3 tmp _ Ht3 eq_refl) in H4.
  set (w4 := mk_world (heap w3) (delete tmp (vars w3)) (next w3)) in *.
  assert (run [MoveCtor tmp a; MoveAssign a c; MoveAssign c tmp; Dtor tmp] w
          = Some w4) as Hrun.
  { simpl. rewrite H1. simpl. rewrite H2. simpl. rewrite H3. simpl.
    by rewrite H4. }
  exists w4.
  assert (vars w4 !! a = Some (mk_binder (data_ptr rc) (read_called rc))) as Ha4.
  { unfold w4, w3, w2. simpl. rewrite lookup_delete_ne by done.
    rewrite !(lookup_insert_ne _ c), !(lookup_insert_ne _ tmp) by done.
    by rewrite lookup_insert_eq. }
  assert (vars w4 !! c = Some (mk_binder (data_ptr ra) (read_called ra))) as Hc4.
  { unfold w4, w3. simpl. rewrite lookup_delete_ne by done.
    by rewrite lookup_insert_eq. }
  split; [done|].
  split; [rewrite (observe_Some w4 a _ Ha4); simpl; by rewrite <- Hec|].
  split; [rewrite (observe_Some w4 c _ Hc4); simpl; by rewrite <- Hea|].
  split; [by rewrite Ha4, Hc|]. split; [by rewrite Hc4, Ha|].
  split; [unfold w4; simpl; apply lookup_delete_eq|]. split; [done|].
  intros h' Hn1 Hn2. unfold w4, w3, w2, w1. simpl.
  destruct (decide (h' = tmp)) as [->|Hn3].
  - by rewrite lookup_delete_eq, Htmp.
  - rewrite lookup_delete_ne by done. by rewrite !lookup_insert_ne.
Qed.

End handles.

(** * Further properties: the storage engine *)

Section engine.
Context {K : Type} `{Countable K} {V : Type}.
Implicit Types (w : world K V) (b : binder) (l : loc) (h : var)
  (blk : block K V) (d : binder_data K V) (n : node) (k : K) (v : V).

Lemma entries_length (c : std_list K V) : length (entries c) = length c.
Proof. unfold entries. by rewrite length_fmap. Qed.

(** X23: the member functions of [binder_data] that change it keep the
    index in step with the list: from an instance whose index mirrors its
    list, each of them either throws and changes nothing, or yields an
    instance whose index mirrors its list again; none of them follows an
    iterator that does not designate a node.  For [remove(k)] this holds
    when [k] is bound to an object that is no part of the instance.  When
    [k] is bound to the value stored in a node of the list, the call is
    undefined exactly when that node is the one it erases, that is, when
    the value is the key of its own entry; otherwise it does what it does
    for an object outside with the same value. *)
Theorem engine_keeps_index d n :
  data_wf d → n ∉ nodes (content d) →
  (∀ k v, match data_insert_front n k v d with
          | Val d' => data_wf d'
                      ∧ entries (content d') = (k, v) :: entries (content d)
          | Exc e => e = duplicate_key ∧ k ∈ keys (content d)
          | Undef => False
          end)
  ∧ (∀ prev_k k v, match data_insert_after n prev_k k v d with
                   | Val d' => data_wf d' ∧ data_size d' = S (data_size d)
                               ∧ prev_k ∈ keys (content d)
                               ∧ (k ∉ keys (content d))
                   | Exc e => (e = duplicate_key ∧ k ∈ keys (content d))
                              ∨ (e = missing_prev ∧ prev_k ∉ keys (content d))
                   | Undef => False
                   end)
  ∧ match data_remove d with
    | Val d' => data_wf d' ∧ ∃ y, entries (content d) = y :: entries (content d')
    | Exc e => e = empty_binder ∧ content d = []
    | Undef => False
    end
  ∧ (∀ k, match data_remove_key (Outside k) d with
          | Val d' => data_wf d' ∧ k ∈ keys (content d)
                      ∧ (k ∉ keys (content d'))
                      ∧ data_size d = S (data_size d')
          | Exc e => e = missing_note ∧ k ∉ keys (content d)
          | Undef => False
          end)
  ∧ (∀ m (view : V → K),
       data_remove_key (Inside m view) d
       = match list_at (content d) m with
         | Some kv =>
             if decide (view kv.2 = kv.1) then Undef
             else data_remove_key (Outside (view kv.2)) d
         | None => Undef
         end).
Proof.
  intros Hwf Hn. split; [|split; [|split; [|split]]].
  - intros k v. pose proof (data_insert_front_spec n k v d Hwf Hn) as Hs.
    destruct (data_insert_front n k v d) as [d'|e|]; [|done|done].
    destruct Hs as (_ & Hc & Hwf'). split; [done|]. by rewrite Hc.
  - intros pk k v. pose proof (data_insert_after_spec n pk k v d Hwf Hn) as Hs.
    destruct (data_insert_after n pk k v d) as [d'|e|]; [| |done].
    + destruct Hs as (Hk & (c1 & p & pv & c2 & Hc & Hc') & Hwf').
      split; [done|]. split; [|split; [|done]].
      * unfold data_size. rewrite Hc, Hc', !length_app. simpl. lia.
      * rewrite Hc, keys_app. apply elem_of_app. right. unfold keys. csimpl.
        apply list_elem_of_here.
    + destruct Hs as [[-> Hk]|(-> & _ & Hp)]; [by left|by right].
  - pose proof (data_remove_spec d Hwf) as Hs.
    destruct (data_remove d) as [d'|e|]; [|done|done].
    destruct Hs as ([y Hc] & Hwf'). split; [done|]. exists y.2.
    by rewrite Hc.
  - intros k. pose proof (data_remove_key_spec k d Hwf) as Hs.
    destruct (data_remove_key (Outside k) d) as [d'|e|]; [|done|done].
    destruct Hs as ((c1 & m & v & c2 & Hc & Hc') & Hwf').
    pose proof (wf_keys d Hwf) as Hnd. rewrite Hc, keys_app in Hnd.
    apply NoDup_app in Hnd as (_ & Hdis & Hnd2). unfold keys in Hnd2, Hdis.
    csimpl in Hnd2. csimpl in Hdis. apply NoDup_cons in Hnd2 as [Hnot _].
    split; [done|]. split; [|split].
    + rewrite Hc, keys_app. apply elem_of_app. right. unfold keys. csimpl.
      apply list_elem_of_here.
    + rewrite Hc', keys_app. intros [Hin|Hin]%elem_of_app; [|done].
      apply (Hdis k Hin), list_elem_of_here.
    + unfold data_size. rewrite Hc, Hc', !length_app. simpl. lia.
  - intros m view. destruct (list_at (content d) m) as [kv|] eqn:Hat;
      [|by apply data_remove_key_gone].
    rewrite (data_remove_key_inside m view d kv Hwf Hat).
    pose proof (wf_index_at d m (view kv.2) kv Hwf Hat) as Hix.
    destruct (decide (address d !! view kv.2 = Some m)) as [Hy|Hy].
    + rewrite decide_True; [done|]. by apply Hix.
    + rewrite decide_False; [done|]. intros Hv. by apply Hy, Hix.
Qed.

(** X24: the copy constructor of [binder_data] yields an instance with
    the same entries in the same order, whose index mirrors its own list:
    every lookup gives what it gives in the original, and a reference
    obtained from the copy designates a node of the copy, none of the
    original. *)
Theorem clone_is_faithful d base :
  data_wf d →
  data_wf (data_copy base d)
  ∧ entries (content (data_copy base d)) = entries (content d)
  ∧ data_size (data_copy base d) = data_size d
  ∧ (∀ k, data_read_const k (data_copy base d) = data_read_const k d)
  ∧ (∀ k, match data_read k (data_copy base d) with
          | Val n => (base ≤ n < base + data_size d)
                     ∧ (Forall (λ m, m < base) (nodes (content d)) →
                        n ∉ nodes (content d))
          | Exc e => data_read k d = Exc e
          | Undef => False
          end).
Proof.
  intros Hwf. pose proof (data_copy_wf base d Hwf) as Hwf'.
  destruct (data_copy_content base d) as [He Hn].
  split; [done|]. split; [done|].
  split; [unfold data_size; by rewrite <- !entries_length, He|]. split.
  - intros k. pose proof (data_read_const_spec k d Hwf) as Hs.
    pose proof (data_read_const_spec k _ Hwf') as Hs'. rewrite He in Hs'.
    destruct (data_read_const k (data_copy base d)) as [v'|e'|]; [| |done];
      destruct (data_read_const k d) as [v|e|]; try done.
    + f_equal. by apply (entries_functional (content d) k v' v (wf_keys d Hwf)).
    + exfalso. destruct Hs as [_ Hk]. apply Hk. unfold keys, entries in *.
      apply list_elem_of_fmap. by exists (k, v').
    + exfalso. destruct Hs' as [_ Hk]. apply Hk. unfold keys, entries in *.
      rewrite He. apply list_elem_of_fmap. by exists (k, v).
    + destruct Hs as [-> _]. by destruct Hs' as [-> _].
  - intros k. pose proof (data_read_spec k _ Hwf') as Hs'.
    destruct (data_read k (data_copy base d)) as [n|e|] eqn:Hrd; [| |done].
    + destruct Hs' as (c1 & v & c2 & Hc & _).
      assert (n ∈ nodes (content (data_copy base d))) as Hin.
      { rewrite Hc, nodes_app. apply elem_of_app. right. unfold nodes. csimpl.
        apply list_elem_of_here. }
      rewrite Hn in Hin. apply elem_of_seq in Hin. unfold data_size.
      split; [lia|]. intros Hall Hnin.
      rewrite Forall_forall in Hall. specialize (Hall n Hnin). lia.
    + destruct Hs' as [-> Hk]. unfold data_read.
      assert (address d !! k = None) as ->; [|done].
      apply (wf_index_None d k Hwf). unfold keys, entries in *.
      by rewrite <- He.
Qed.

(** X25: in every state that calls can produce, the index of a live
    instance mirrors its list: the keys are distinct, the index holds
    exactly the keys of the list, and the iterator it holds for a key
    designates a node of the list that holds that key; every handle on
    the instance shows the entries of the list, and there is one at
    least, so that the test for emptiness in [binder_data::remove] never
    fires. *)
Theorem index_mirrors_sequence w l blk :
  reachable w → heap w !! l = Some blk →
  NoDup (keys (content (obj blk)))
  ∧ NoDup (nodes (content (obj blk)))
  ∧ content (obj blk) ≠ []
  ∧ (∀ k, is_Some (address (obj blk) !! k) ↔ k ∈ keys (content (obj blk)))
  ∧ (∀ k n, address (obj blk) !! k = Some n →
            ∃ v, list_at (content (obj blk)) n = Some (k, v)
                 ∧ data_read_const k (obj blk) = Val v)
  ∧ (∀ h, owns w h l → observe w h = Some (entries (content (obj blk))))
  ∧ (∃ d', data_remove (obj blk) = Val d').
Proof.
  intros Hr Hblk. pose proof (reachable_wf w Hr) as Hwf.
  pose proof (wf_blocks w Hwf l blk Hblk) as Hbw.
  pose proof (wf_data w l blk Hbw) as Hd.
  split; [apply Hd|]. split; [apply Hd|]. split; [apply Hbw|].
  split; [intros k; by apply wf_index_keys|]. split.
  - intros k n Hk. pose proof Hk as Hk'.
    apply (wf_index _ Hd) in Hk as [v Hin]. exists v.
    pose proof (elem_of_list_at _ _ _ (wf_nodes _ Hd) Hin) as Hat.
    split; [done|]. unfold data_read_const. by rewrite Hk', Hat.
  - split.
    + intros h (b & Hh & Hb). rewrite (observe_Some w h b Hh), Hb. simpl.
      by rewrite Hblk.
    + pose proof (data_remove_spec _ Hd) as Hs.
      destruct (data_remove (obj blk)) as [d'|e|]; [by exists d'| |done].
      destruct Hs as [_ Hc]. by destruct (wf_nonempty w l blk Hbw).
Qed.

End engine.

(** * Further properties: copy on write *)

Section cow.
Context {K : Type} `{Countable K} {V : Type}.
Implicit Types (w : world K V) (b : binder) (l : loc) (h : var)
  (blk : block K V) (d : binder_data K V) (k : K) (v : V).

(** The two shapes of the world a modifier leaves when it returns. *)
Lemma modifier_shape (c : call) w w' h b :
  world_wf w → modifier c = Some h → vars w !! h = Some b →
  exec c w = Ret w' () →
  (∃ d' f nx, w' = install h (cow_target w b) d' f nx (drop h w))
  ∨ (∃ nx, w' = set_next nx (set_flag h false (drop h w))).
Proof.
  intros Hwf Hm Hh.
  destruct c as [?|?|? ?|? ?|? ?|? ?|h0 k v|h0 pk k v|h0|h0 k|h0 k|? ?|?|? ?];
    simpl in Hm; try done; injection Hm as ->; simpl.
  - rewrite (binder_insert_front_closed w h b k v Hwf Hh).
    destruct (data_insert_front _ k v _); [|done|done].
    intros [= <-]. left. by eexists _, _, _.
  - rewrite (binder_insert_after_closed w h b pk k v Hwf Hh).
    case_bool_decide; [done|].
    destruct (data_insert_after _ pk k v _); [|done|done].
    intros [= <-]. left. by eexists _, _, _.
  - rewrite (binder_remove_closed w h b Hwf Hh).
    case_bool_decide; [done|]. destruct (data_remove _); [|done|done].
    case_bool_decide; intros [= <-]; [right; by eexists|left; by eexists _, _, _].
  - rewrite (binder_remove_key_closed w h b k Hwf Hh).
    case_bool_decide; [done|]. destruct (data_remove_key (Outside k) _); [|done|done].
    case_bool_decide; intros [= <-]; [right; by eexists|left; by eexists _, _, _].
  - rewrite bind_eq, (binder_read_closed w h b k Hwf Hh).
    case_bool_decide; [done|]. destruct (data_read k _); [|done|done].
    unfold ret. intros [= <-]. left. by eexists _, _, _.
Qed.

(** X26: copy on write.  A modifier ([insert_front], [insert_after], the
    two [remove]s, the non-const [read]) that returns, called on a handle
    that is the only owner of its instance, works in place: no other
    instance changes, and the handle keeps its instance or, emptied, lets
    it go.  Called on a handle that shares its instance, it leaves the
    object of that instance as it was, with one owner less, and gives the
    handle a new instance of its own, or none when nothing is left. *)
Theorem copy_on_write w (c : call) h b l blk w' :
  reachable w → modifier c = Some h → vars w !! h = Some b →
  data_ptr b = Some l → heap w !! l = Some blk → exec c w = Ret w' () →
  (use_count blk = 1 →
     (∀ l', l' ≠ l → heap w' !! l' = heap w !! l')
     ∧ ((∃ b', vars w' !! h = Some b' ∧ data_ptr b' = Some l
               ∧ sp_use_count (Some l) w' = 1)
        ∨ (∃ b', vars w' !! h = Some b' ∧ data_ptr b' = None
                 ∧ heap w' !! l = None)))
  ∧ (1 < use_count blk →
     heap w' !! l = Some (mk_block (obj blk) (use_count blk - 1))
     ∧ (∀ l', l' ≠ l → l' ≠ next w → heap w' !! l' = heap w !! l')
     ∧ ((∃ b', vars w' !! h = Some b' ∧ data_ptr b' = Some (next w)
               ∧ sp_use_count (Some (next w)) w' = 1)
        ∨ (∃ b', vars w' !! h = Some b' ∧ data_ptr b' = None
                 ∧ heap w' !! next w = None))).
Proof.
  intros Hr Hm Hh Hb Hblk Hex. pose proof (reachable_wf w Hr) as Hwf.
  pose proof (wf_loc_next w l blk (wf_blocks w Hwf l blk Hblk)) as Hlt.
  assert (heap w !! next w = None) as Hfresh by (by apply wf_heap_fresh).
  assert (cow_target w b = if decide (use_count blk = 1) then l else next w) as Ht.
  { unfold cow_target, in_place. rewrite Hb. simpl. rewrite Hblk. simpl.
    case_decide; [by rewrite bool_decide_eq_true_2|by rewrite bool_decide_eq_false_2]. }
  assert (vars (set_flag h false (drop h w)) !! h = Some (mk_binder None false))
    as Hcleared.
  { unfold set_flag. rewrite (drop_vars w h b Hh), lookup_insert_eq. simpl.
    by rewrite lookup_insert_eq. }
  destruct (modifier_shape c w w' h b Hwf Hm Hh Hex)
    as [(d' & f & nx & ->)|(nx & ->)]; (split; intros Hu).
  - rewrite Ht, decide_True by done. unfold install. simpl.
    rewrite (drop_heap_unique w h b l blk Hh Hb Hblk Hu). split.
    + intros l' Hne. by rewrite lookup_insert_ne, lookup_delete_ne.
    + left. eexists. rewrite !lookup_insert_eq. done.
  - rewrite Ht, decide_False by lia. unfold install. simpl.
    rewrite (drop_heap_shared w h b l blk Hh Hb Hblk Hu).
    split; [rewrite lookup_insert_ne by lia; by rewrite lookup_insert_eq|].
    split.
    + intros l' Hne1 Hne2. by rewrite !lookup_insert_ne.
    + left. eexists. rewrite !lookup_insert_eq. done.
  - simpl. rewrite set_flag_heap.
    rewrite (drop_heap_unique w h b l blk Hh Hb Hblk Hu). split.
    + intros l' Hne. by rewrite lookup_delete_ne.
    + right. eexists. split; [apply Hcleared|]. split; [done|].
      apply lookup_delete_eq.
  - simpl. rewrite set_flag_heap.
    rewrite (drop_heap_shared w h b l blk Hh Hb Hblk Hu).
    split; [by rewrite lookup_insert_eq|]. split.
    + intros l' Hne1 Hne2. by rewrite lookup_insert_ne.
    + right. eexists. split; [apply Hcleared|]. split; [done|].
      rewrite lookup_insert_ne by lia. done.
Qed.

End cow.

(** * Further properties: iterators and the calls on other handles *)

Section stability.
Context {K : Type} `{Countable K} {V : Type}.
Implicit Types (w : world K V) (b : binder) (l : loc) (h : var)
  (blk : block K V) (d : binder_data K V) (k : K) (v : V)
  (es : list (K * V)).

(** Letting go of an instance leaves the object to the other owners. *)
Lemma drop_obj w h0 h b l :
  world_wf w → h ≠ h0 → vars w !! h = Some b → data_ptr b = Some l →
  obj <$> heap (drop h0 w) !! l = obj <$> heap w !! l.
Proof.
  intros Hwf Hne Hh Hb. destruct (vars w !! h0) as [b0|] eqn:Hh0;
    [|unfold drop; by rewrite Hh0].
  destruct (data_ptr b0) as [l0|] eqn:Hb0; [|by rewrite (drop_null w h0 b0)].
  destruct (wf_owned w h0 b0 l0 Hwf Hh0 Hb0) as (blk & Hblk & Hbw & Hpos).
  destruct (decide (use_count blk ≤ 1)) as [Hu|Hu].
  - rewrite (drop_heap_unique w h0 b0 l0 blk) by (done || lia).
    rewrite lookup_delete_ne; [done|]. intros ->.
    apply (owners_one l h0 b0 h b (vars w)); try done.
    rewrite <- (wf_count w l blk Hbw). lia.
  - rewrite (drop_heap_shared w h0 b0 l0 blk) by (done || lia).
    destruct (decide (l = l0)) as [->|Hl].
    + by rewrite lookup_insert_eq, Hblk.
    + by rewrite lookup_insert_ne.
Qed.

Lemma share_obj w h0 p f l :
  obj <$> heap (share h0 p f w) !! l = obj <$> heap w !! l.
Proof.
  unfold share, acquire, heap_acquire. simpl. destruct p as [l0|]; [|done].
  destruct (decide (l = l0)) as [->|Hl].
  - rewrite lookup_alter_eq. by destruct (heap w !! l0).
  - by rewrite lookup_alter_ne.
Qed.

Lemma install_obj w h0 l0 d f nx l :
  heap w !! l0 = None → is_Some (heap w !! l) →
  obj <$> heap (install h0 l0 d f nx w) !! l = obj <$> heap w !! l.
Proof.
  intros Hl0 [blk Hl]. unfold install. simpl.
  rewrite lookup_insert_ne; [done|]. congruence.
Qed.

(** The instance of another handle after a modifier on [h0]. *)
Lemma modified_obj w h0 b0 d f nx h b l :
  world_wf w → vars w !! h0 = Some b0 →
  h ≠ h0 → vars w !! h = Some b → data_ptr b = Some l →
  obj <$> heap (install h0 (cow_target w b0) d f nx (drop h0 w)) !! l
  = obj <$> heap w !! l.
Proof.
  intros Hwf Hh0 Hne Hh Hb.
  rewrite <- (drop_obj w h0 h b l Hwf Hne Hh Hb).
  apply install_obj; [by apply (cow_data_wf w h0 b0)|].
  apply (wf_live (drop h0 w) (drop_wf w h0 Hwf) h b l); [|done].
  by rewrite (drop_vars w h0 b0 Hh0), lookup_insert_ne.
Qed.

Lemma cloned_obj w h0 b0 d f nx h b l :
  world_wf w → vars w !! h0 = Some b0 →
  h ≠ h0 → vars w !! h = Some b → data_ptr b = Some l →
  obj <$> heap (install h0 (next w) d f nx (drop h0 w)) !! l
  = obj <$> heap w !! l.
Proof.
  intros Hwf Hh0 Hne Hh Hb.
  rewrite <- (drop_obj w h0 h b l Hwf Hne Hh Hb).
  apply install_obj.
  - apply wf_heap_fresh; [by apply drop_wf|]. by rewrite drop_next.
  - apply (wf_live (drop h0 w) (drop_wf w h0 Hwf) h b l); [|done].
    by rewrite (drop_vars w h0 b0 Hh0), lookup_insert_ne.
Qed.

Lemma emptied_obj w h0 nx h b l :
  world_wf w → h ≠ h0 → vars w !! h = Some b → data_ptr b = Some l →
  obj <$> heap (set_next nx (set_flag h0 false (drop h0 w))) !! l
  = obj <$> heap w !! l.
Proof.
  intros Hwf Hne Hh Hb. simpl. rewrite set_flag_heap. by apply (drop_obj w h0 h b).
Qed.

(** A call leaves alone the objects of the instances that the handles it
    does not touch point to. *)
Lemma exec_objs (c : call) w h b l :
  world_wf w → scoped c w → h ∉ touched c →
  vars w !! h = Some b → data_ptr b = Some l →
  match exec c w with
  | Ret w' _ | Throws w' _ => obj <$> heap w' !! l = obj <$> heap w !! l
  | UB => True
  end.
Proof.
  intros Hwf Hsc Hn Hh Hb.
  destruct c as [h0|h0|h0 rhs|h0 rhs|h0 rhs|h0 rhs|h0 k v|h0 pk k v|h0|h0 k|h0 k
                |h0 k|h0|rf v];
    simpl in Hsc; simpl touched in Hn; simpl exec; [..|done].
  all: assert (h ≠ h0) as Hne by (intros ->; apply Hn, list_elem_of_here).
  - by rewrite binder_ctor_closed.
  - destruct Hsc as [b0 Hh0]. rewrite (binder_dtor_closed w h0 b0 Hh0). simpl.
    by apply (drop_obj w h0 h b).
  - destruct Hsc as [Hh0 [r Hr]].
    rewrite (binder_copy_ctor_closed w h0 rhs r Hwf Hh0 Hr).
    destruct (read_called r).
    + destruct (data_ptr r) as [l0|]; [|done]. cbv zeta.
      apply (install_obj (new_var h0 w)); [simpl; by apply wf_heap_fresh|].
      simpl. by apply (wf_live w Hwf h b l).
    + apply (share_obj (new_var h0 w)).
  - destruct Hsc as [Hh0 [r Hr]].
    by rewrite (binder_move_ctor_closed w h0 rhs r Hh0 Hr).
  - destruct Hsc as [[b0 Hh0] [r Hr]]. destruct (decide (h0 = rhs)) as [<-|Hne0].
    + rewrite (binder_copy_assign_self_closed w h0 b0 Hwf Hh0).
      destruct (data_ptr b0) as [l0|]; [|simpl; by rewrite set_flag_heap].
      destruct (read_called b0); [|simpl; by rewrite set_flag_heap].
      cbv zeta. by apply (cloned_obj w h0 b0 _ _ _ h b l).
    + rewrite (binder_copy_assign_closed w h0 rhs b0 r Hwf Hne0 Hh0 Hr).
      destruct (data_ptr r) as [l0|].
      * destruct (read_called r).
        -- cbv zeta. by apply (cloned_obj w h0 b0 _ _ _ h b l).
        -- rewrite share_obj. by apply (drop_obj w h0 h b).
      * simpl. rewrite set_flag_heap. by apply (drop_obj w h0 h b).
  - destruct Hsc as [[b0 Hh0] [r Hr]]. destruct (decide (h0 = rhs)) as [<-|Hne0].
    + by rewrite (binder_move_assign_self_closed w h0 b0 Hh0).
    + rewrite (binder_move_assign_closed w h0 rhs b0 r Hne0 Hh0 Hr). simpl.
      by apply (drop_obj w h0 h b).
  - destruct Hsc as [b0 Hh0].
    rewrite (binder_insert_front_closed w h0 b0 k v Hwf Hh0).
    destruct (data_insert_front _ k v _); [|done|done].
    by apply (modified_obj w h0 b0 _ _ _ h b l).
  - destruct Hsc as [b0 Hh0].
    rewrite (binder_insert_after_closed w h0 b0 pk k v Hwf Hh0).
    case_bool_decide; [done|].
    destruct (data_insert_after _ pk k v _); [|done|done].
    by apply (modified_obj w h0 b0 _ _ _ h b l).
  - destruct Hsc as [b0 Hh0]. rewrite (binder_remove_closed w h0 b0 Hwf Hh0).
    case_bool_decide; [done|]. destruct (data_remove _); [|done|done].
    case_bool_decide; [by apply (emptied_obj w h0 _ h b l)|by apply (modified_obj w h0 b0 _ _ _ h b l)].
  - destruct Hsc as [b0 Hh0]. rewrite (binder_remove_key_closed w h0 b0 k Hwf Hh0).
    case_bool_decide; [done|]. destruct (data_remove_key (Outside k) _); [|done|done].
    case_bool_decide; [by apply (emptied_obj w h0 _ h b l)|by apply (modified_obj w h0 b0 _ _ _ h b l)].
  - destruct Hsc as [b0 Hh0]. rewrite bind_eq.
    rewrite (binder_read_closed w h0 b0 k Hwf Hh0).
    case_bool_decide; [done|]. destruct (data_read k _); [|done|done].
    unfold ret. by apply (modified_obj w h0 b0 _ _ _ h b l).
  - destruct Hsc as [b0 Hh0]. rewrite bind_eq.
    pose proof (binder_read_const_spec w h0 b0 k Hwf Hh0) as Hs.
    destruct (binder_read_const h0 k w) as [w' v'|w' e|]; [| |done];
      by destruct Hs as [-> _].
  - destruct Hsc as [b0 Hh0]. rewrite (binder_clear_closed w h0 b0 Hh0).
    rewrite set_flag_heap. by apply (drop_obj w h0 h b).
Qed.

(** What an iterator does depends on the object it points into. *)
Lemma iter_same_obj (it : const_iterator) w w' l :
  obj_ptr it = Some l → obj <$> heap w' !! l = obj <$> heap w !! l →
  returned (iter_deref it w') = returned (iter_deref it w)
  ∧ returned (iter_incr it w') = returned (iter_incr it w).
Proof.
  intros Hp Ho. unfold iter_deref, iter_incr, bind, deref, ret, undefined.
  rewrite Hp. destruct (list_iterator_ it) as [[n|]|]; [|done|done].
  destruct (heap w' !! l) as [blk'|], (heap w !! l) as [blk|]; simpl in Ho;
    try done.
  injection Ho as ->.
  destruct (list_at (content (obj blk)) n), (list_next (content (obj blk)) n);
    done.
Qed.

(** X27: a call on other handles leaves the iterators of a handle good.
    The iterators that [cbegin()] and [cend()] gave before the call are
    those they give after it; every iterator into the instance of the
    handle designates the value and has the successor it had, and the
    traversal between the iterators obtained before the call visits the
    values of the entries the handle showed. *)
Theorem iterators_survive_other_calls w (c : call) w' h es first last fuel :
  reachable w → scoped c w → h ∉ touched c → after (exec c w) = Some w' →
  observe w h = Some es →
  binder_cbegin h w = Ret w first → binder_cend h w = Ret w last →
  length es ≤ fuel →
  binder_cbegin h w' = Ret w' first ∧ binder_cend h w' = Ret w' last
  ∧ iter_collect fuel first last w' = Ret w' es.*2
  ∧ (∀ it : const_iterator,
       obj_ptr it = obj_ptr first → obj_ptr it ≠ None →
       returned (iter_deref it w') = returned (iter_deref it w)
       ∧ returned (iter_incr it w') = returned (iter_incr it w)).
Proof.
  intros Hr Hsc Hn Hw' Ho Hfirst Hlast Hfuel.
  pose proof (reachable_wf w Hr) as Hwf.
  pose proof (exec_wf c w w' Hwf Hw') as Hwf'.
  destruct (observe_inv w h es Ho) as (b & Hh & He).
  pose proof (exec_scoped c w Hwf Hsc) as Hfr.
  assert (vars w' !! h = Some b) as Hh'.
  { destruct (exec c w) as [w1 []|w1 e|]; simpl in Hw'; [| |done];
      injection Hw' as ->; destruct (Hfr h Hn) as [-> _]; done. }
  unfold binder_cbegin, binder_cend in *.
  rewrite (bind_get_var _ _ _ _ Hh) in Hfirst.
  rewrite (bind_get_var _ _ _ _ Hh) in Hlast.
  rewrite (bind_get_var _ _ _ _ Hh'), (bind_get_var _ _ _ _ Hh').
  destruct (data_ptr b) as [l|] eqn:Hb.
  - pose proof (exec_objs c w h b l Hwf Hsc Hn Hh Hb) as Hobj.
    assert (obj <$> heap w' !! l = obj <$> heap w !! l) as Ho'.
    { destruct (exec c w) as [w1 []|w1 e|]; simpl in Hw'; [| |done];
        by injection Hw' as ->. }
    destruct (wf_owned w h b l Hwf Hh Hb) as (blk & Hblk & Hbw & _).
    destruct (wf_owned w' h b l Hwf' Hh' Hb) as (blk' & Hblk' & _).
    rewrite Hblk, Hblk' in Ho'. simpl in Ho'. injection Ho' as Hobj'.
    unfold bind, deref, ret in *. rewrite Hblk in Hfirst, Hlast.
    rewrite Hblk'. injection Hfirst as <-. injection Hlast as <-.
    rewrite Hobj'. split; [done|]. split; [done|]. split.
    + simpl in He. rewrite Hblk in He. simpl in He. rewrite <- He.
      apply (iter_collect_suffix w' l blk' [] (content (obj blk))).
      * done.
      * by rewrite Hobj'.
      * rewrite Hobj'. apply (wf_nodes _ (wf_data w l blk Hbw)).
      * by rewrite <- entries_length, He.
    + intros it Hp _. simpl in Hp. apply (iter_same_obj it w w' l Hp).
      rewrite Hblk, Hblk'. simpl. by rewrite Hobj'.
  - unfold ret in *. injection Hfirst as <-. injection Hlast as <-.
    split; [done|]. split; [done|]. split.
    + simpl in He. subst es. destruct fuel; reflexivity.
    + intros it Hp Hnn. simpl in Hp. congruence.
Qed.

(** A modifier on a handle that shares its instance leaves the instance
    to the others. *)
Lemma modifier_shared_heap (c : call) w w' h b l blk :
  world_wf w → modifier c = Some h → vars w !! h = Some b →
  data_ptr b = Some l → heap w !! l = Some blk → 1 < use_count blk →
  exec c w = Ret w' () →
  heap w' !! l = Some (mk_block (obj blk) (use_count blk - 1)).
Proof.
  intros Hwf Hm Hh Hb Hblk Hu Hex.
  pose proof (wf_loc_next w l blk (wf_blocks w Hwf l blk Hblk)) as Hlt.
  assert (cow_target w b = next w) as Ht.
  { unfold cow_target, in_place. rewrite Hb. simpl. rewrite Hblk. simpl.
    rewrite bool_decide_eq_false_2; [done|lia]. }
  destruct (modifier_shape c w w' h b Hwf Hm Hh Hex)
    as [(d' & f & nx & ->)|(nx & ->)].
  - rewrite Ht. unfold install. simpl.
    rewrite (drop_heap_shared w h b l blk Hh Hb Hblk Hu).
    rewrite lookup_insert_ne by lia. by rewrite lookup_insert_eq.
  - simpl. rewrite set_flag_heap.
    rewrite (drop_heap_shared w h b l blk Hh Hb Hblk Hu).
    by rewrite lookup_insert_eq.
Qed.

(** X29: a reference into the instance of a handle that is good before a
    call on other handles is good after it, and designates the value of
    the same entry: the assignment through it has the effect on what the
    handle shows, and on what its const [read] returns, that it would
    have had before the call. *)
Theorem references_survive_other_calls w (c : call) w' h b l n v w1 :
  reachable w → scoped c w → h ∉ touched c → after (exec c w) = Some w' →
  vars w !! h = Some b → data_ptr b = Some l →
  write_ref (l, n) v w = Ret w1 () →
  ∃ w2, write_ref (l, n) v w' = Ret w2 ()
        ∧ observe w2 h = observe w1 h
        ∧ (∀ k, returned (binder_read_const h k w2)
                = returned (binder_read_const h k w1)).
Proof.
  intros Hr Hsc Hn Hw' Hh Hb Hw1. pose proof (reachable_wf w Hr) as Hwf.
  pose proof (exec_wf c w w' Hwf Hw') as Hwf'.
  pose proof (exec_scoped c w Hwf Hsc) as Hfr.
  pose proof (exec_objs c w h b l Hwf Hsc Hn Hh Hb) as Hobj.
  assert (vars w' !! h = Some b
          ∧ obj <$> heap w' !! l = obj <$> heap w !! l) as [Hh' Ho'].
  { destruct (exec c w) as [w0 []|w0 e|]; simpl in Hw'; [| |done];
      injection Hw' as ->; (split; [|done]);
      destruct (Hfr h Hn) as [-> _]; done. }
  destruct (wf_owned w h b l Hwf Hh Hb) as (blk & Hblk & _).
  destruct (wf_owned w' h b l Hwf' Hh' Hb) as (blk' & Hblk' & _).
  rewrite Hblk, Hblk' in Ho'. simpl in Ho'. injection Ho' as Hobj'.
  rewrite (write_ref_closed w (l, n) v blk Hblk) in Hw1.
  rewrite (write_ref_closed w' (l, n) v blk' Hblk'). rewrite Hobj'.
  cbn [fst snd] in *. destruct (list_at (content (obj blk)) n) as [kv|]; [|done].
  injection Hw1 as <-. eexists. split; [done|]. split.
  - unfold observe. cbn [vars]. rewrite Hh, Hh'. cbn [fmap option_fmap option_map].
    rewrite Hb. unfold entries_at. cbn [heap].
    by rewrite !lookup_insert_eq.
  - intros k. unfold binder_read_const, bind, get_var, deref. cbn [vars heap].
    rewrite Hh, Hh', Hb. cbn beta iota. cbn [heap].
    rewrite !lookup_insert_eq. cbn [obj].
    by destruct (data_read_const k _).
Qed.

(** X30: a modifier that returns, called on a handle that shares its
    instance, leaves the iterators obtained from the handle before the
    call on the instance that the other owners keep: a traversal between
    them visits the values the handle showed before the call, which the
    other owners show still, and [cbegin()] of another owner is the
    iterator that [cbegin()] of the handle was. *)
Theorem shared_iterators_keep_old_values w (c : call) h b l blk w' es
    first last fuel :
  reachable w → modifier c = Some h → vars w !! h = Some b →
  data_ptr b = Some l → heap w !! l = Some blk → 1 < use_count blk →
  exec c w = Ret w' () → observe w h = Some es →
  binder_cbegin h w = Ret w first → binder_cend h w = Ret w last →
  length es ≤ fuel →
  iter_collect fuel first last w' = Ret w' es.*2
  ∧ (∀ h', h' ≠ h → owns w h' l →
           observe w' h' = Some es ∧ binder_cbegin h' w' = Ret w' first).
Proof.
  intros Hr Hm Hh Hb Hblk Hu Hex Ho Hfirst Hlast Hfuel.
  pose proof (reachable_wf w Hr) as Hwf.
  pose proof (modifier_shared_heap c w w' h b l blk Hwf Hm Hh Hb Hblk Hu Hex)
    as Hblk'.
  pose proof (wf_data w l blk (wf_blocks w Hwf l blk Hblk)) as Hd.
  rewrite (observe_Some w h b Hh), Hb in Ho. simpl in Ho. rewrite Hblk in Ho.
  simpl in Ho. injection Ho as <-.
  unfold binder_cbegin in Hfirst. unfold binder_cend in Hlast.
  rewrite (bind_get_var _ _ _ _ Hh), Hb in Hfirst.
  rewrite (bind_get_var _ _ _ _ Hh), Hb in Hlast.
  unfold bind, deref, ret in Hfirst, Hlast. rewrite Hblk in Hfirst, Hlast.
  injection Hfirst as <-. injection Hlast as <-. split.
  - apply (iter_collect_suffix w' l _ [] (content (obj blk)) fuel Hblk');
      [done|apply Hd|by rewrite <- entries_length].
  - intros h' Hne (b' & Hh' & Hb').
    assert (scoped c w) as Hsc.
    { destruct c; simpl in Hm; try done; injection Hm as ->; by eexists. }
    assert (h' ∉ touched c) as Hn.
    { destruct c; simpl in Hm; try done; injection Hm as ->; simpl;
        by intros [->|?%elem_of_nil]%elem_of_cons. }
    pose proof (exec_scoped c w Hwf Hsc) as Hfr. rewrite Hex in Hfr.
    destruct (Hfr h' Hn) as [Hv Hobs]. rewrite Hh' in Hv. split.
    + rewrite Hobs, (observe_Some w h' b' Hh'), Hb'. simpl. by rewrite Hblk.
    + unfold binder_cbegin. rewrite (bind_get_var _ _ _ _ Hv), Hb'.
      unfold bind, deref, ret. by rewrite Hblk'.
Qed.

End stability.

(** * The further properties on concrete inputs *)

Section more_examples.
Local Open Scope string_scope.

Lemma stocked_reachable : reachable stocked.
Proof.
  exists [Ctor 0; InsertFront 0 "a" 1; InsertFront 0 "b" 2].
  vm_compute. reflexivity.
Qed.

Lemma stocked_copied_reachable : reachable stocked_copied.
Proof.
  exists [Ctor 0; InsertFront 0 "a" 1; InsertFront 0 "b" 2; CopyCtor 1 0].
  vm_compute. reflexivity.
Qed.

Lemma stocked_read_reachable : reachable stocked_read.
Proof.
  exists [Ctor 0; InsertFront 0 "a" 1; InsertFront 0 "b" 2; Read 0 "a"].
  vm_compute. reflexivity.
Qed.

Lemma blank_reachable : reachable blank.
Proof. exists [Ctor 0]. vm_compute. reflexivity. Qed.

Lemma paired_reachable : reachable paired.
Proof.
  exists [Ctor 0; InsertFront 0 "a" "1"; InsertFront 0 "x" "a"].
  vm_compute. reflexivity.
Qed.

Lemma stocked_data_wf : data_wf stocked_data.
Proof.
  apply (wf_data stocked 0 (block_at stocked 0)).
  apply (wf_blocks stocked (reachable_wf stocked stocked_reachable)).
  vm_compute. reflexivity.
Qed.

Local Hint Resolve stocked_reachable stocked_copied_reachable
  stocked_read_reachable blank_reachable paired_reachable stocked_data_wf
  : samples.


Lemma insert_front_prepends_witness :
  (reachable stocked)
  ∧ (observe stocked 0 = Some [("b", 2); ("a", 1)])
  ∧ ("c" ∉ [("b", 2); ("a", 1)].*1)
  ∧ (∃ w' : world string nat,
       binder_insert_front 0 "c" 3 stocked = Ret w' ()
       ∧ observe w' 0 = Some [("c", 3); ("b", 2); ("a", 1)]
         ∧ binder_size 0 w' = Ret w' (S (length [("b", 2); ("a", 1)]))
           ∧ binder_read_const 0 "c" w' = Ret w' 3
             ∧ (∀ (k' : string) (v' : nat),
                  (k', v') ∈ [("b", 2); ("a", 1)]
                  → binder_read_const 0 k' w' = Ret w' v')
               ∧ ∀ h' : var, h' ≠ 0 → observe w' h' = observe stocked h').
Proof.
  split; [settle|].
  split; [settle|].
  split; [settle|].
  apply (insert_front_prepends stocked 0 "c" 3 [("b", 2); ("a", 1)]); settle.
Defined.

Lemma remove_takes_first_witness :
  (reachable stocked)
  ∧ (observe stocked 0 = Some [("b", 2); ("a", 1)])
  ∧ (∃ w' : world string nat,
       binder_remove 0 stocked = Ret w' ()
       ∧ observe w' 0 = Some [("a", 1)]
         ∧ binder_size 0 w' = Ret w' (length [("a", 1)])
           ∧ binder_read_const 0 ("b", 2).1 w' =
             Throws w'
               match [("a", 1)] with
               | [] => empty_binder
               | _ :: _ => missing_note
               end
             ∧ (∀ (k' : string) (v' : nat),
                  (k', v') ∈ [("a", 1)] → binder_read_const 0 k' w' = Ret w' v')
               ∧ ∀ h' : var, h' ≠ 0 → observe w' h' = observe stocked h').
Proof.
  split; [settle|].
  split; [settle|].
  apply (remove_takes_first stocked 0 ("b", 2) [("a", 1)]); settle.
Defined.

Lemma remove_key_takes_entry_witness :
  (reachable paired)
  ∧ (observe paired 0 = Some ([("x", "a")] ++ [("a", "1")])%list)
  ∧ (key_value paired (KeyAt paired_ref (λ v : string, v)) = Some "a")
  ∧ (if names_itself paired 0 (KeyAt paired_ref (λ v : string, v))
     then binder_remove_key 0 (KeyAt paired_ref (λ v : string, v)) paired = UB
     else
      ∃ w' : world string string,
        binder_remove_key 0 (KeyAt paired_ref (λ v : string, v)) paired = Ret w' ()
        ∧ observe w' 0 = Some ([("x", "a")] ++ [])%list
          ∧ binder_size 0 w' = Ret w' (length [("x", "a")] + length ([] : list (string * string)))
            ∧ binder_read_const 0 "a" w' =
              Throws w'
                match ([("x", "a")] ++ [])%list with
                | [] => empty_binder
                | _ :: _ => missing_note
                end
              ∧ (∀ k' v' : string,
                   (k', v') ∈ ([("x", "a")] ++ [])%list
                   → binder_read_const 0 k' w' = Ret w' v')
                ∧ ∀ h' : var, h' ≠ 0 → observe w' h' = observe paired h').
Proof.
  split; [settle|].
  split; [settle|].
  split; [settle|].
  apply (remove_key_takes_entry
           paired 0 "a" "1" [("x", "a")] [] (KeyAt paired_ref (λ v, v)));
    settle.
Defined.

Lemma read_const_looks_up_witness :
  (reachable stocked)
  ∧ (observe stocked 0 = Some [("b", 2); ("a", 1)])
  ∧ (([("b", 2); ("a", 1)] = []
      → binder_read_const 0 "a" stocked = Throws stocked empty_binder)
     ∧ ([("b", 2); ("a", 1)] ≠ []
        → "a" ∉ [("b", 2); ("a", 1)].*1
          → binder_read_const 0 "a" stocked = Throws stocked missing_note)
       ∧ (∀ v : nat,
            ("a", v) ∈ [("b", 2); ("a", 1)]
            → binder_read_const 0 "a" stocked = Ret stocked v)
         ∧ ∀ (w' : world string nat) (v : nat),
             binder_read_const 0 "a" stocked = Ret w' v
             → w' = stocked ∧ ("a", v) ∈ [("b", 2); ("a", 1)]).
Proof.
  split; [settle|].
  split; [settle|].
  apply (read_const_looks_up stocked 0 "a" [("b", 2); ("a", 1)]); settle.
Defined.

Lemma insert_front_then_remove_witness :
  (reachable stocked)
  ∧ (observe stocked 0 = Some [("b", 2); ("a", 1)])
  ∧ ("c" ∉ [("b", 2); ("a", 1)].*1)
  ∧ (∃ w1 w2 : world string nat,
       binder_insert_front 0 "c" 3 stocked = Ret w1 ()
       ∧ binder_remove 0 w1 = Ret w2 ()
         ∧ observe w2 0 = Some [("b", 2); ("a", 1)]
           ∧ binder_size 0 w2 = Ret w2 (length [("b", 2); ("a", 1)])
             ∧ ([("b", 2); ("a", 1)] = [] → data_ptr <$> vars w2 !! 0 = Some None)
               ∧ ∀ h' : var, h' ≠ 0 → observe w2 h' = observe stocked h').
Proof.
  split; [settle|].
  split; [settle|].
  split; [settle|].
  apply (insert_front_then_remove stocked 0 "c" 3 [("b", 2); ("a", 1)]); settle.
Defined.

Lemma empty_handle_throws_witness :
  (reachable blank)
  ∧ (observe blank 0 = Some [])
  ∧ (binder_remove 0 blank = Throws blank empty_binder
     ∧ (∀ a : key_ref string nat,
          binder_remove_key 0 a blank = Throws blank empty_binder)
       ∧ (∀ k : string,
            binder_read 0 k blank = Throws blank empty_binder
            ∧ binder_read_const 0 k blank = Throws blank empty_binder)
         ∧ (∀ (prev_k k : string) (v : nat),
              binder_insert_after 0 prev_k k v blank = Throws blank empty_binder)
           ∧ ∀ (k : string) (v : nat),
               ∃ w' : world string nat,
                 binder_insert_front 0 k v blank = Ret w' ()
                 ∧ observe w' 0 = Some [(k, v)]).
Proof.
  split; [settle|].
  split; [settle|].
  apply (empty_handle_throws blank 0); settle.
Defined.

Lemma traversal_yields_values_witness :
  (reachable stocked)
  ∧ (observe stocked 0 = Some [("b", 2); ("a", 1)])
  ∧ (length [("b", 2); ("a", 1)] <= 2)
  ∧ ((first <- binder_cbegin 0;; last <- binder_cend 0;; iter_collect 2 first last)
       stocked =
     Ret stocked [("b", 2); ("a", 1)].*2
     ∧ binder_size 0 stocked = Ret stocked (length [("b", 2); ("a", 1)].*2)
       ∧ ∃ first last : const_iterator,
           binder_cbegin 0 stocked = Ret stocked first
           ∧ binder_cend 0 stocked = Ret stocked last
             ∧ (iter_eq first last = true ↔ [("b", 2); ("a", 1)] = [])).
Proof.
  split; [settle|].
  split; [settle|].
  split; [settle|].
  apply (traversal_yields_values stocked 0 [("b", 2); ("a", 1)] 2); settle.
Defined.

Lemma postfix_traversal_witness :
  (reachable stocked)
  ∧ (observe stocked 0 = Some [("b", 2); ("a", 1)])
  ∧ (length [("b", 2); ("a", 1)] <= 2)
  ∧ ((first <- binder_cbegin 0;; last <- binder_cend 0;; iter_collect_post 2 first last)
       stocked =
     Ret stocked [("b", 2); ("a", 1)].*2
     ∧ ∀ it : const_iterator,
         (p <- iter_arrow it;; read_ptr p) stocked = iter_deref it stocked).
Proof.
  split; [settle|].
  split; [settle|].
  split; [settle|].
  apply (postfix_traversal stocked 0 [("b", 2); ("a", 1)] 2); settle.
Defined.

Lemma read_then_write_witness :
  (reachable stocked)
  ∧ (observe stocked 0 = Some ([("b", 2)] ++ [("a", 1)])%list)
  ∧ (∃ (w1 : world string nat) (r : ref) (w2 : world string nat),
       binder_read 0 "a" stocked = Ret w1 r
       ∧ observe w1 0 = Some ([("b", 2)] ++ [("a", 1)])%list
         ∧ vars w1 !! 0 = Some {| data_ptr := Some r.1; read_called := true |}
           ∧ sp_use_count (Some r.1) w1 = 1
             ∧ write_ref r 30 w1 = Ret w2 ()
               ∧ observe w2 0 = Some ([("b", 2)] ++ [("a", 30)])%list
                 ∧ binder_read_const 0 "a" w2 = Ret w2 30
                   ∧ ∀ h' : var,
                       h' ≠ 0
                       → observe w1 h' = observe stocked h'
                         ∧ observe w2 h' = observe stocked h').
Proof.
  split; [settle|].
  split; [settle|].
  apply (read_then_write stocked 0 "a" 30 1 [("b", 2)] []); settle.
Defined.

Lemma read_again_witness :
  (reachable stocked)
  ∧ (binder_read 0 "a" stocked = Ret stocked_read stocked_ref)
  ∧ (binder_read 0 "a" stocked_read = Ret stocked_read stocked_ref
     ∧ ∀ (k' : string) (w2 : world string nat) (r' : ref),
         binder_read 0 k' stocked_read = Ret w2 r'
         → w2 = stocked_read ∧ r'.1 = stocked_ref.1).
Proof.
  split; [settle|].
  split; [settle|].
  apply (read_again stocked 0 "a" stocked_read stocked_ref); settle.
Defined.

Lemma instances_are_owned_witness :
  (reachable stocked)
  ∧ ((is_Some (heap stocked !! 0) ↔ ∃ h : var, owns stocked h 0)
     ∧ (∀ blk : block string nat,
          heap stocked !! 0 = Some blk
          → use_count blk = owners 0 (vars stocked)
            ∧ 0 < use_count blk ∧ content (obj blk) ≠ [])
       ∧ (vars stocked = ∅ → heap stocked = ∅)).
Proof.
  split; [settle|].
  apply (instances_are_owned stocked 0); settle.
Defined.

Lemma flagged_handles_do_not_share_witness :
  (reachable stocked_read)
  ∧ (vars stocked_read !! 0 = Some (members stocked_read 0))
  ∧ (read_called (members stocked_read 0) = true)
  ∧ (data_ptr (members stocked_read 0) = Some 0)
  ∧ (sp_use_count (Some 0) stocked_read = 1
     ∧ (∀ h' : var, h' ≠ 0 → ¬ owns stocked_read h' 0)
       ∧ ∀ (h' : var) (es : list (string * nat)),
           h' ≠ 0
           → observe stocked_read h' = Some es
             → ∀ (n : node) (v : nat) (w' : world string nat),
                 write_ref (0, n) v stocked_read = Ret w' () → observe w' h' = Some es).
Proof.
  split; [settle|].
  split; [settle|].
  split; [settle|].
  split; [settle|].
  apply (flagged_handles_do_not_share stocked_read 0 (members stocked_read 0) 0); settle.
Defined.

Lemma calls_are_safe_witness :
  (reachable paired)
  ∧ (scoped (RemoveKey 0 "a") paired)
  ∧ ((exec (RemoveKey 0 "a") paired = UB
      ↔ ∃ h rhs : var,
          (RemoveKey 0 "a" : @call string string) = CopyCtor h rhs
          ∧ vars paired !! rhs = Some {| data_ptr := None; read_called := true |})
     ∧ ∀ (h : var) (a : key_ref string string),
         is_Some (vars paired !! h)
         → is_Some (key_value paired a)
           → (binder_remove_key h a paired = UB ↔ names_itself paired h a = true)
             ∧ ∀ w' : world string string,
                 after (binder_remove_key h a paired) = Some w' → reachable w').
Proof.
  split; [settle|].
  split; [settle|].
  apply (calls_are_safe paired (RemoveKey 0 "a")); settle.
Defined.

Lemma calls_leave_other_handles_witness :
  (reachable stocked_copied)
  ∧ (scoped (InsertFront 1 "c" 3) stocked_copied)
  ∧ (after (exec (InsertFront 1 "c" 3) stocked_copied) = Some copied_grown)
  ∧ (0 ∉ touched (InsertFront 1 "c" 3))
  ∧ (vars copied_grown !! 0 = vars stocked_copied !! 0
     ∧ observe copied_grown 0 = observe stocked_copied 0
       ∧ ∀ es : list (string * nat),
           observe stocked_copied 0 = Some es
           → binder_size 0 copied_grown = Ret copied_grown (length es)).
Proof.
  split; [settle|].
  split; [settle|].
  split; [settle|].
  split; [settle|].
  apply (calls_leave_other_handles
           stocked_copied (InsertFront 1 "c" 3) copied_grown 0);
    settle.
Defined.

Lemma clear_empties_witness :
  (reachable stocked)
  ∧ (observe stocked 0 = Some [("b", 2); ("a", 1)])
  ∧ (∃ w' : world string nat,
       binder_clear 0 stocked = Ret w' ()
       ∧ vars w' !! 0 = Some {| data_ptr := None; read_called := false |}
         ∧ observe w' 0 = Some []
           ∧ binder_size 0 w' = Ret w' 0
             ∧ (∀ h' : var, h' ≠ 0 → observe w' h' = observe stocked h')
               ∧ ∀ l : loc,
                   is_Some (heap w' !! l) ↔ ∃ h' : var, h' ≠ 0 ∧ owns stocked h' l).
Proof.
  split; [settle|].
  split; [settle|].
  apply (clear_empties stocked 0 [("b", 2); ("a", 1)]); settle.
Defined.

Lemma destructor_releases_witness :
  (reachable stocked)
  ∧ (observe stocked 0 = Some [("b", 2); ("a", 1)])
  ∧ (∃ w' : world string nat,
       binder_dtor 0 stocked = Ret w' ()
       ∧ vars w' = delete 0 (vars stocked)
         ∧ (∀ h' : var, h' ≠ 0 → observe w' h' = observe stocked h')
           ∧ ∀ l : loc, is_Some (heap w' !! l) ↔ ∃ h' : var, h' ≠ 0 ∧ owns stocked h' l).
Proof.
  split; [settle|].
  split; [settle|].
  apply (destructor_releases stocked 0 [("b", 2); ("a", 1)]); settle.
Defined.

Lemma move_ctor_transfers_witness :
  (reachable stocked)
  ∧ (vars stocked !! 1 = None)
  ∧ (observe stocked 0 = Some [("b", 2); ("a", 1)])
  ∧ (∃ w' : world string nat,
       binder_move_ctor 1 0 stocked = Ret w' ()
       ∧ observe w' 1 = Some [("b", 2); ("a", 1)]
         ∧ observe w' 0 = Some []
           ∧ heap w' = heap stocked
             ∧ next w' = next stocked
               ∧ data_ptr <$> vars w' !! 1 = data_ptr <$> vars stocked !! 0
                 ∧ binder_size 0 w' = Ret w' 0
                   ∧ ∀ h' : var, h' ≠ 1 → h' ≠ 0 → observe w' h' = observe stocked h').
Proof.
  split; [settle|].
  split; [settle|].
  split; [settle|].
  apply (move_ctor_transfers stocked 1 0 [("b", 2); ("a", 1)]); settle.
Defined.

Lemma move_assign_transfers_witness :
  (reachable stocked_copied)
  ∧ (1 ≠ 0)
  ∧ (observe stocked_copied 1 = Some [("b", 2); ("a", 1)])
  ∧ (observe stocked_copied 0 = Some [("b", 2); ("a", 1)])
  ∧ (∃ w' : world string nat,
       binder_move_assign 1 0 stocked_copied = Ret w' ()
       ∧ observe w' 1 = Some [("b", 2); ("a", 1)]
         ∧ observe w' 0 = Some []
           ∧ next w' = next stocked_copied
             ∧ data_ptr <$> vars w' !! 1 = data_ptr <$> vars stocked_copied !! 0
               ∧ (∀ h' : var,
                    h' ≠ 1 → h' ≠ 0 → observe w' h' = observe stocked_copied h')
                 ∧ ∀ l : loc,
                     is_Some (heap w' !! l)
                     ↔ ∃ h' : var, h' ≠ 1 ∧ owns stocked_copied h' l).
Proof.
  split; [settle|].
  split; [settle|].
  split; [settle|].
  split; [settle|].
  apply (move_assign_transfers
           stocked_copied 1 0 [("b", 2); ("a", 1)] [("b", 2); ("a", 1)]);
    settle.
Defined.

Lemma self_assignment_witness :
  (reachable stocked)
  ∧ (observe stocked 0 = Some [("b", 2); ("a", 1)])
  ∧ (binder_move_assign 0 0 stocked = Ret stocked ()
     ∧ ∃ w' : world string nat,
         binder_copy_assign 0 0 stocked = Ret w' ()
         ∧ (∀ h' : var, observe w' h' = observe stocked h')
           ∧ read_called <$> vars w' !! 0 = Some false
             ∧ (read_called <$> vars stocked !! 0 = Some false → heap w' = heap stocked)).
Proof.
  split; [settle|].
  split; [settle|].
  apply (self_assignment stocked 0 [("b", 2); ("a", 1)]); settle.
Defined.

Lemma copy_shares_or_clones_witness :
  (reachable stocked)
  ∧ (1 ≠ 0)
  ∧ (vars stocked !! 0 = Some (members stocked 0))
  ∧ (after (binder_copy_ctor 1 0 stocked) = Some stocked_copied
     ∨ after (binder_copy_assign 1 0 stocked) = Some stocked_copied)
  ∧ (observe stocked_copied 1 = observe stocked 0
     ∧ observe stocked_copied 0 = observe stocked 0
       ∧ vars stocked_copied !! 0 = Some (members stocked 0)
         ∧ ∃ b' : binder,
             vars stocked_copied !! 1 = Some b'
             ∧ read_called b' = false
               ∧ (data_ptr (members stocked 0) = None
                  ∨ read_called (members stocked 0) = false
                  → data_ptr b' = data_ptr (members stocked 0)
                    ∧ next stocked_copied = next stocked)
                 ∧ (data_ptr (members stocked 0) ≠ None
                    → read_called (members stocked 0) = true
                      → data_ptr b' = Some (next stocked)
                        ∧ heap stocked !! next stocked = None
                          ∧ sp_use_count (Some (next stocked)) stocked_copied = 1)).
Proof.
  split; [settle|].
  split; [settle|].
  split; [settle|].
  split; [settle|].
  apply (copy_shares_or_clones stocked stocked_copied 1 0 (members stocked 0)); settle.
Defined.

Lemma noexcept_members_return_witness :
  (reachable stocked)
  ∧ (is_Some (vars stocked !! 0))
  ∧ ((∃ n : nat, binder_size 0 stocked = Ret stocked n)
     ∧ (∃ it : const_iterator, binder_cbegin 0 stocked = Ret stocked it)
       ∧ (∃ it : const_iterator, binder_cend 0 stocked = Ret stocked it)
         ∧ (∃ w' : world string nat, binder_clear 0 stocked = Ret w' ())
           ∧ (∃ w' : world string nat, binder_dtor 0 stocked = Ret w' ())
             ∧ (∀ rhs : var,
                  is_Some (vars stocked !! rhs)
                  → ∃ w' : world string nat,
                      binder_move_assign 0 rhs stocked = Ret w' ())
               ∧ ∀ h' : var,
                   vars stocked !! h' = None
                   → (∃ w' : world string nat, binder_ctor h' stocked = Ret w' ())
                     ∧ ∃ w' : world string nat,
                         binder_move_ctor h' 0 stocked = Ret w' ()).
Proof.
  split; [settle|].
  split; [settle|].
  apply (noexcept_members_return stocked 0); settle.
Defined.

Lemma copy_outlives_source_witness :
  (reachable stocked)
  ∧ (observe stocked 0 = Some [("b", 2); ("a", 1)])
  ∧ (binder_copy_ctor 1 0 stocked = Ret stocked_copied ())
  ∧ (∃ w2 : world string nat,
       binder_dtor 0 stocked_copied = Ret w2 ()
       ∧ vars w2 !! 0 = None
         ∧ observe w2 1 = Some [("b", 2); ("a", 1)]
           ∧ binder_size 1 w2 = Ret w2 (length [("b", 2); ("a", 1)])
             ∧ ∀ (k : string) (v : nat),
                 (k, v) ∈ [("b", 2); ("a", 1)] → binder_read_const 1 k w2 = Ret w2 v).
Proof.
  split; [settle|].
  split; [settle|].
  split; [settle|].
  apply (copy_outlives_source stocked 0 1 [("b", 2); ("a", 1)] stocked_copied); settle.
Defined.

Lemma swap_by_moves_witness :
  (reachable stocked_copied)
  ∧ (0 ≠ 1)
  ∧ (vars stocked_copied !! 2 = None)
  ∧ (observe stocked_copied 0 = Some [("b", 2); ("a", 1)])
  ∧ (observe stocked_copied 1 = Some [("b", 2); ("a", 1)])
  ∧ (∃ w' : world string nat,
       run [MoveCtor 2 0; MoveAssign 0 1; MoveAssign 1 2; Dtor 2] stocked_copied =
       Some w'
       ∧ observe w' 0 = Some [("b", 2); ("a", 1)]
         ∧ observe w' 1 = Some [("b", 2); ("a", 1)]
           ∧ data_ptr <$> vars w' !! 0 = data_ptr <$> vars stocked_copied !! 1
             ∧ data_ptr <$> vars w' !! 1 = data_ptr <$> vars stocked_copied !! 0
               ∧ vars w' !! 2 = None
                 ∧ heap w' = heap stocked_copied
                   ∧ ∀ h' : var,
                       h' ≠ 0 → h' ≠ 1 → vars w' !! h' = vars stocked_copied !! h').
Proof.
  split; [settle|].
  split; [settle|].
  split; [settle|].
  split; [settle|].
  split; [settle|].
  apply (swap_by_moves
           stocked_copied 0 1 2 [("b", 2); ("a", 1)] [("b", 2); ("a", 1)]);
    settle.
Defined.

Lemma engine_keeps_index_witness :
  (data_wf stocked_data)
  ∧ (7 ∉ nodes (content stocked_data))
  ∧ ((∀ (k : string) (v : nat),
        match data_insert_front 7 k v stocked_data with
        | Val d' =>
            data_wf d'
            ∧ entries (content d') = (k, v) :: entries (content stocked_data)
        | Exc e => e = duplicate_key ∧ k ∈ keys (content stocked_data)
        | Undef => False
        end)
     ∧ (∀ (prev_k k : string) (v : nat),
          match data_insert_after 7 prev_k k v stocked_data with
          | Val d' =>
              data_wf d'
              ∧ data_size d' = S (data_size stocked_data)
                ∧ prev_k ∈ keys (content stocked_data)
                  ∧ k ∉ keys (content stocked_data)
          | Exc e =>
              e = duplicate_key ∧ k ∈ keys (content stocked_data)
              ∨ e = missing_prev ∧ prev_k ∉ keys (content stocked_data)
          | Undef => False
          end)
       ∧ match data_remove stocked_data with
         | Val d' =>
             data_wf d'
             ∧ ∃ y : string * nat,
                 entries (content stocked_data) = y :: entries (content d')
         | Exc e => e = empty_binder ∧ content stocked_data = []
         | Undef => False
         end
         ∧ (∀ k : string,
              match data_remove_key (Outside k) stocked_data with
              | Val d' =>
                  data_wf d'
                  ∧ k ∈ keys (content stocked_data)
                    ∧ (k ∉ keys (content d'))
                      ∧ data_size stocked_data = S (data_size d')
              | Exc e => e = missing_note ∧ k ∉ keys (content stocked_data)
              | Undef => False
              end)
           ∧ ∀ (m : node) (view : nat → string),
               data_remove_key (Inside m view) stocked_data =
               match list_at (content stocked_data) m with
               | Some kv =>
                   if decide (view kv.2 = kv.1) is left _
                   then Undef
                   else data_remove_key (Outside (view kv.2)) stocked_data
               | None => Undef
               end).
Proof.
  split; [settle|].
  split; [settle|].
  apply (engine_keeps_index stocked_data 7); settle.
Defined.

Lemma clone_is_faithful_witness :
  (data_wf stocked_data)
  ∧ (data_wf (data_copy 10 stocked_data)
     ∧ entries (content (data_copy 10 stocked_data)) = entries (content stocked_data)
       ∧ data_size (data_copy 10 stocked_data) = data_size stocked_data
         ∧ (∀ k : string,
              data_read_const k (data_copy 10 stocked_data) =
              data_read_const k stocked_data)
           ∧ ∀ k : string,
               match data_read k (data_copy 10 stocked_data) with
               | Val n =>
                   10 <= n < 10 + data_size stocked_data
                   ∧ (Forall (λ m : nat, m < 10) (nodes (content stocked_data))
                      → n ∉ nodes (content stocked_data))
               | Exc e => data_read k stocked_data = Exc e
               | Undef => False
               end).
Proof.
  split; [settle|].
  apply (clone_is_faithful stocked_data 10); settle.
Defined.

Lemma index_mirrors_sequence_witness :
  (reachable stocked)
  ∧ (heap stocked !! 0 = Some (block_at stocked 0))
  ∧ (NoDup (keys (content (obj (block_at stocked 0))))
     ∧ NoDup (nodes (content (obj (block_at stocked 0))))
       ∧ content (obj (block_at stocked 0)) ≠ []
         ∧ (∀ k : string,
              is_Some (address (obj (block_at stocked 0)) !! k)
              ↔ k ∈ keys (content (obj (block_at stocked 0))))
           ∧ (∀ (k : string) (n : node),
                address (obj (block_at stocked 0)) !! k = Some n
                → ∃ v : nat,
                    list_at (content (obj (block_at stocked 0))) n = Some (k, v)
                    ∧ data_read_const k (obj (block_at stocked 0)) = Val v)
             ∧ (∀ h : var,
                  owns stocked h 0
                  → observe stocked h =
                    Some (entries (content (obj (block_at stocked 0)))))
               ∧ ∃ d' : binder_data string nat,
                   data_remove (obj (block_at stocked 0)) = Val d').
Proof.
  split; [settle|].
  split; [settle|].
  apply (index_mirrors_sequence stocked 0 (block_at stocked 0)); settle.
Defined.

Lemma copy_on_write_witness :
  (reachable stocked_copied)
  ∧ (modifier (InsertFront 1 "c" 3) = Some 1)
  ∧ (vars stocked_copied !! 1 = Some (members stocked_copied 1))
  ∧ (data_ptr (members stocked_copied 1) = Some 0)
  ∧ (heap stocked_copied !! 0 = Some (block_at stocked_copied 0))
  ∧ (exec (InsertFront 1 "c" 3) stocked_copied = Ret copied_grown ())
  ∧ ((use_count (block_at stocked_copied 0) = 1
      → (∀ l' : loc, l' ≠ 0 → heap copied_grown !! l' = heap stocked_copied !! l')
        ∧ ((∃ b' : binder,
              vars copied_grown !! 1 = Some b'
              ∧ data_ptr b' = Some 0 ∧ sp_use_count (Some 0) copied_grown = 1)
           ∨ ∃ b' : binder,
               vars copied_grown !! 1 = Some b'
               ∧ data_ptr b' = None ∧ heap copied_grown !! 0 = None))
     ∧ (1 < use_count (block_at stocked_copied 0)
        → heap copied_grown !! 0 =
          Some
            {|
              obj := obj (block_at stocked_copied 0);
              use_count := use_count (block_at stocked_copied 0) - 1
            |}
          ∧ (∀ l' : loc,
               l' ≠ 0
               → l' ≠ next stocked_copied
                 → heap copied_grown !! l' = heap stocked_copied !! l')
            ∧ ((∃ b' : binder,
                  vars copied_grown !! 1 = Some b'
                  ∧ data_ptr b' = Some (next stocked_copied)
                    ∧ sp_use_count (Some (next stocked_copied)) copied_grown = 1)
               ∨ ∃ b' : binder,
                   vars copied_grown !! 1 = Some b'
                   ∧ data_ptr b' = None
                     ∧ heap copied_grown !! next stocked_copied = None))).
Proof.
  split; [settle|].
  split; [settle|].
  split; [settle|].
  split; [settle|].
  split; [settle|].
  split; [settle|].
  apply (copy_on_write
           stocked_copied (InsertFront 1 "c" 3) 1 (members stocked_copied 1) 0 (block_at stocked_copied 0) copied_grown);
    settle.
Defined.

Lemma references_survive_other_calls_witness :
  (reachable stocked_read)
  ∧ (scoped (CopyCtor 1 0) stocked_read)
  ∧ (0 ∉ touched (CopyCtor 1 0 : @call string nat))
  ∧ (after (exec (CopyCtor 1 0) stocked_read) = Some read_copied)
  ∧ (vars stocked_read !! 0 = Some (members stocked_read 0))
  ∧ (data_ptr (members stocked_read 0) = Some 0)
  ∧ (write_ref (0, 1) 30 stocked_read = Ret read_written ())
  ∧ (∃ w2 : world string nat,
       write_ref (0, 1) 30 read_copied = Ret w2 ()
       ∧ observe w2 0 = observe read_written 0
         ∧ ∀ k : string,
             returned (binder_read_const 0 k w2) =
             returned (binder_read_const 0 k read_written)).
Proof.
  split; [settle|].
  split; [settle|].
  split; [settle|].
  split; [settle|].
  split; [settle|].
  split; [settle|].
  split; [settle|].
  apply (references_survive_other_calls
           stocked_read (CopyCtor 1 0) read_copied 0 (members stocked_read 0) 0 1 30 read_written);
    settle.
Defined.

Lemma shared_iterators_keep_old_values_witness :
  (reachable stocked_copied)
  ∧ (modifier (InsertFront 1 "c" 3) = Some 1)
  ∧ (vars stocked_copied !! 1 = Some (members stocked_copied 1))
  ∧ (data_ptr (members stocked_copied 1) = Some 0)
  ∧ (heap stocked_copied !! 0 = Some (block_at stocked_copied 0))
  ∧ (1 < use_count (block_at stocked_copied 0))
  ∧ (exec (InsertFront 1 "c" 3) stocked_copied = Ret copied_grown ())
  ∧ (observe stocked_copied 1 = Some [("b", 2); ("a", 1)])
  ∧ (binder_cbegin 1 stocked_copied = Ret stocked_copied stocked_first)
  ∧ (binder_cend 1 stocked_copied = Ret stocked_copied stocked_last)
  ∧ (length [("b", 2); ("a", 1)] <= 2)
  ∧ (iter_collect 2 stocked_first stocked_last copied_grown =
     Ret copied_grown [("b", 2); ("a", 1)].*2
     ∧ ∀ h' : var,
         h' ≠ 1
         → owns stocked_copied h' 0
           → observe copied_grown h' = Some [("b", 2); ("a", 1)]
             ∧ binder_cbegin h' copied_grown = Ret copied_grown stocked_first).
Proof.
  split; [settle|].
  split; [settle|].
  split; [settle|].
  split; [settle|].
  split; [settle|].
  split; [settle|].
  split; [settle|].
  split; [settle|].
  split; [settle|].
  split; [settle|].
  split; [settle|].
  apply (shared_iterators_keep_old_values
           stocked_copied (InsertFront 1 "c" 3) 1 (members stocked_copied 1) 0 (block_at stocked_copied 0) copied_grown [("b", 2); ("a", 1)] stocked_first stocked_last 2);
    settle.
Defined.

Lemma iterators_survive_other_calls_witness :
  (reachable stocked_copied)
  ∧ (scoped (InsertFront 1 "c" 3) stocked_copied)
  ∧ (0 ∉ touched (InsertFront 1 "c" 3))
  ∧ (after (exec (InsertFront 1 "c" 3) stocked_copied) = Some copied_grown)
  ∧ (observe stocked_copied 0 = Some [("b", 2); ("a", 1)])
  ∧ (binder_cbegin 0 stocked_copied = Ret stocked_copied stocked_first)
  ∧ (binder_cend 0 stocked_copied = Ret stocked_copied stocked_last)
  ∧ (length [("b", 2); ("a", 1)] <= 2)
  ∧ (binder_cbegin 0 copied_grown = Ret copied_grown stocked_first
     ∧ binder_cend 0 copied_grown = Ret copied_grown stocked_last
       ∧ iter_collect 2 stocked_first stocked_last copied_grown =
         Ret copied_grown [("b", 2); ("a", 1)].*2
         ∧ ∀ it : const_iterator,
             obj_ptr it = obj_ptr stocked_first
             → obj_ptr it ≠ None
               → returned (iter_deref it copied_grown) =
                 returned (iter_deref it stocked_copied)
                 ∧ returned (iter_incr it copied_grown) =
                   returned (iter_incr it stocked_copied)).
Proof.
  split; [settle|].
  split; [settle|].
  split; [settle|].
  split; [settle|].
  split; [settle|].
  split; [settle|].
  split; [settle|].
  split; [settle|].
  apply (iterators_survive_other_calls
           stocked_copied (InsertFront 1 "c" 3) copied_grown 0 [("b", 2); ("a", 1)] stocked_first stocked_last 2);
    settle.
Defined.

End more_examples.
